(* ===== verification/_CoqProject ===== *)
-Q . S2P
Prelude.v
Bytes.v
Text.v
Float64.v
TextOps.v
Retry.v
Signatures.v
RequestVerification.v
RetryClaims.v
Decimal.v
MinerAuth.v
AuthClaims.v
Collections.v
JwtAuth.v
JwtClaims.v
JwtLocks.v
BillingTypes.v
BillingWorld.v
Credits.v
CreditRepo.v
Ledger.v
CreditManagerFacts.v
CreditRepoFacts.v
CreditClaims.v
Rules.v
PricingClaims.v
Rentals.v
RentalFacts.v
RentalClaims.v
Events.v
Processor.v
Handlers.v
HandlerFacts.v
ProcessorClaims.v
HandlerClaims.v
SettlementClaims.v
BillingService.v
ServiceClaims.v
PaymentsWorld.v
Payments.v
PaymentsFacts.v
DepositInvariant.v
CreditSafety.v
PaymentsClaims.v
Emission.v
Categories.v
WeightAllocation.v
AllocationFacts.v
AllocationClaims.v
ValidatorWorld.v
ProfileRepo.v
Scoring.v
WeightSetter.v
SetterClaims.v
ScoringClaims.v
AccessControl.v
SessionClaims.v
ExecutorAccess.v
ProvisionClaims.v
Assignments.v
AssignmentClaims.v
VRentalTypes.v
ContainerClient.v
Deployment.v
VRentals.v
VRentalFacts.v
VRentalClaims.v
DeploymentClaims.v
CollateralContract.v
Collateral.v
CollateralClaims.v
ValidationQueue.v
QueueClaims.v
VerificationStore.v
EngineClaims.v
ExecutorPool.v
MinerSessions.v
MinerService.v
MinerClaims.v
SshSessionClaims.v
