(* ===== verification/Prelude.v ===== *)
(** * Basilica: a verification development of its accounting and allocation core

    Basilica is a marketplace for GPU compute.  Its Rust workspace (crates/) has a
    validator that scores miners and sets their weights on a chain, miners and executors
    that run containers, an API gateway, a payments service that turns chain deposits
    into credits, and a billing service that holds the credits, runs the life cycle of
    rentals and turns usage events into charges.  This development models

    - the core of the billing service (crates/basilica-billing),
    - the payments service (crates/basilica-payments), from the transfers of a block to
      the credits it asks the billing service for,
    - the path from validation results to submitted weights in the validator
      (crates/basilica-validator) with the key-value storage it uses
      (crates/basilica-common),
    - the rentals of the validator: containers on executors, their health, the routes,
    - the access control an executor puts before its validators, the authentication of
      its miner and the provisioning of access between the two (crates/basilica-executor,
      crates/basilica-miner),
    - the miner's executors and its dealings with validators: authentication, tokens,
      assignments, offers of executors and SSH sessions (crates/basilica-miner),
    - the errors, retries and circuit breaker of the chain client (crates/bittensor),
    - the collateral contract (crates/collateral-contract) and the validator's mirror of
      it,
    - the queue of validations of the validator, and what it stores of their results,

    and proves what makes them correct; the rest is listed at the end.

    ** Shared files

    - Prelude.v: results, sorting, table sums, wrap-around, automation.
    - Text.v: the string operations of the standard library the code uses (trimming,
      prefixes, integer parsing and printing), on ASCII text, and decimal numbers in
      plain notation, with parsing, printing and truncation.
    - Bytes.v: bytes, hexadecimal text and lossy UTF-8.
    - TextOps.v: characters beyond ASCII, splitting and joining, parsing and printing of
      floating-point numbers.
    - Float64.v (with JSON), Decimal.v: the foundations.  [f64] is the Standard Library's
      executable binary64.  [rust_decimal::Decimal] and the text form of UUIDs are
      code outside the repository: the classes [Decimal] and [UuidText] with the
      documented laws the proofs use ([DecimalLaws], [UuidTextLaws]); the module
      [Concrete] instantiates both and proves the laws, so that every property is
      also run on concrete values.
    - Collections.v: hash maps and sets.  The order in which Rust iterates them is an
      oracle, the class [HashOrder]; the properties hold for every oracle.

    ** The billing service

    The service is layered: domain objects and managers (domain/), repository traits
    with their SQL implementations (storage/), and an event processor that feeds
    stored usage events to handlers which use all repositories.

    - BillingTypes.v: domain/types.rs.  Identifiers, [CreditBalance], rental states
      and their transitions, periods, usage metrics, cost breakdowns.
    - BillingWorld.v: error.rs, the tables of migrations/ as finite maps with their
      column types and constraints, and the effect monad: a program reads an
      environment (clock readings, random identifiers, which SQL statements get lost)
      and transforms a world (the tables and three counters).  [sql] is one statement,
      [transaction] is begin/commit with roll-back, [attempt] is a result that is
      inspected instead of propagated.  [wp] is the weakest precondition.
    - Credits.v and CreditRepo.v: domain/credits.rs and storage/credits.rs.
    - Ledger.v: the abstract specification of the credit service (accounts and live
      holds) and the interface [CreditRepositoryLaws] a repository must satisfy.
      CreditManagerFacts.v proves the manager against the interface,
      CreditRepoFacts.v discharges the interface for the SQL repository and has a
      concrete database, CreditClaims.v holds the properties.
    - Rules.v, PricingClaims.v: domain/packages.rs,
      domain/rules_engine.rs and storage/rules.rs.
    - Rentals.v, RentalFacts.v, RentalClaims.v: domain/rentals.rs and
      storage/rentals.rs.
    - Events.v, Processor.v, ProcessorClaims.v: storage/events.rs, domain/events.rs
      and domain/processor.rs; [EventHandlersLaws] is what the processor needs from
      the handlers.
    - Handlers.v, HandlerFacts.v, HandlerClaims.v, SettlementClaims.v:
      domain/billing_handlers.rs.  The handlers run over the SQL
      credit, rental and event repositories and over any package and usage repository
      that leaves the modelled tables alone ([ForeignRepositories]); they satisfy
      [EventHandlersLaws].
    - BillingService.v: grpc/billing_service.rs, the requests that move credits and
      rentals, in a monad that adds status codes to the one of the managers;
      ServiceClaims.v has its property.

    ** The payments service

    - PaymentsWorld.v: [BigDecimal] of sqlx as a class with its documented laws and a
      concrete instance, the tables of migrations/001_payments_schema.sql, the price
      cache with its read-write lock, and the effect monad [PM]: an environment answers
      for the clock, the price API, the wallet generator and failing statements; the
      billing service is behind the trait [BillingClient].
    - Payments.v: storage/, price_oracle/, domain/price.rs, blockchain/monitor.rs with
      chain_monitor.rs of crates/bittensor, grpc/payments_service.rs and
      processor/dispatcher.rs.
    - PaymentsFacts.v: transaction identifiers, precision of amounts, and relations
      between worlds every program keeps.  DepositInvariant.v: deposits and outbox
      agree.  CreditSafety.v: credits and deposits agree.  PaymentsClaims.v: the
      properties, and the dispatcher run against the billing service of
      BillingService.v through a network that may lose requests and replies.

    ** The validator

    - Emission.v: config/emission.rs, the emission configuration and its validation.
    - Categories.v: gpu/categorization.rs, GPU categories and profiles of miners.
    - WeightAllocation.v: bittensor_core/weight_allocation.rs, from the miners of each
      category to the weight vector.  AllocationFacts.v defines what the categories and
      the burn claim for each UID, AllocationClaims.v relates the two.
    - ValidatorWorld.v: storage.rs of basilica-common, the key-value store with its file,
      the tables of persistence/simple_persistence.rs the modelled
      code uses, and the effect monad [VM] of the validator: an environment answers
      for the clock, the chain, lost statements and file writes.
    - ProfileRepo.v: the assignment queries of persistence/simple_persistence.rs and
      persistence/gpu_profile_repository.rs.
    - Scoring.v: gpu/gpu_scoring.rs; ScoringClaims.v shows on which rows of the database
      a listed miner rests, and holds the properties of the scores.
    - WeightSetter.v: bittensor_core/weight_setter.rs, the loop that ties them together.
      SetterClaims.v holds its properties.

    ** The rentals of the validator

    - VRentalTypes.v: rental/types.rs, the [rentals] table, and programs as trees of effects
      (remote commands, messages to the miner, statements, questions to the system) that run
      alone ([run]) or interleaved at their effects.  An environment answers; serde_json,
      chrono, image references and Unicode tables are the class [Libraries].
    - ContainerClient.v, Deployment.v: rental/container_client.rs and rental/deployment.rs,
      docker through ssh, and the policy on specifications.
    - VRentals.v: the rental part of persistence/simple_persistence.rs, rental/mod.rs,
      rental/monitoring.rs and api/rental_routes.rs.
    - VRentalFacts.v: which effects a program has ([only]), and what it has learnt and may
      still write ([kwp]); the policy without the order of its checks.
      Also concrete libraries and answers.  VRentalClaims.v: interleaved
      requests as a step relation, with its invariant and property.  DeploymentClaims.v: what
      is sent to executors, and how a start ends.

    ** Collateral

    - CollateralContract.v: CollateralUpgradeable.sol of crates/collateral-contract: the
      storage, every function that changes it, their events and reverts, blocks of
      transactions, and the invariant of the storage.
    - Collateral.v: lib.rs and config.rs of crates/collateral-contract (scanning and
      decoding logs), persistence/collateral_persistence.rs and
      collateral/collateral_scan.rs of the validator.  The node is an environment, the ABI
      decoder the class [EventAbi].  CollateralClaims.v relates table and contract.

    ** Validations

    - ValidationQueue.v: miner_prover/validation_worker.rs.  Publishers, workers and the
      monitor are tasks that interleave at the locks and at the counters they update
      without one ([act]); a verification gives any result at any time.  QueueClaims.v has the invariant over all schedules.
    - VerificationStore.v: the part of miner_prover/verification.rs that keeps results,
      executors, GPUs and miners, and the clean-up.  Stamps keep their text format.
      EngineClaims.v has a small program logic for these programs and their properties.

    ** The executor

    - AccessControl.v: types.rs, rate_limiter.rs, hotkey_verifier.rs and
      access_control.rs of validation_session/: the roles, grants and token buckets, the
      challenges and the sessions.  Verifying a P-256 signature is a parameter.
    - SessionClaims.v: their properties, over any sequence of requests.

    ** The chain client

    - Retry.v, RetryClaims.v: error.rs of crates/bittensor, the errors with their
      categories and retry configurations, and retry.rs, back-off, the retry executor and the circuit
      breaker.  An operation is given by what its calls answer and how long they take.

    ** The miner, and its dealings with executors

    - Signatures.v: hotkeys (identity.rs) and the signature checks (crypto/core.rs,
      utils.rs of crates/bittensor).  BLAKE3, SS58 and sr25519 are the class [Crypto].
      Also the store of used nonces both verification services keep.
    - MinerAuth.v, AuthClaims.v: executor_auth.rs of the miner and miner_auth.rs of the
      executor.  prost's encoding is the class [ProstMessage]: it depends on the order of
      the message's maps.  A run is the sequence of the locked sections of concurrent
      requests, each with the time it read.
    - ExecutorAccess.v, ProvisionClaims.v: validation_session/service.rs and the handler
      provision_validator_access of the executor, and executors/grpc_client.rs of the
      miner, over a network that may lose requests and answers.
    - RequestVerification.v: request_verification.rs.
    - JwtAuth.v, JwtClaims.v: auth.rs, sessions and revoked tokens; jsonwebtoken is the
      class [Jwt].  JwtLocks.v: the two locks of the service as a step relation.
    - Assignments.v, AssignmentClaims.v: persistence/assignment_db.rs,
      services/assignment_manager.rs and services/stake_monitor.rs.
    - ExecutorPool.v: the health checks of executor_manager.rs, the health tables of
      persistence/registration_db.rs and the strategies of validator_discovery.rs.
    - MinerService.v: authentication and leases of validator_comms.rs, on top of the token
      service, the pool and the assignments.  MinerClaims.v has the properties of both.
    - MinerSessions.v: ssh/session_orchestrator.rs.  A request is a program of locked
      sections ([Prog]); requests, clean-ups and expiry tasks interleave ([act], [run]),
      and a call to an executor runs the client and handler of ExecutorAccess.v.
      SshSessionClaims.v: which programs may bring a session in ([steady], [armed],
      [undrawn]), over all schedules, and what closing does.

    ** What the theorems show

    - Credits (C1, C2, C4, [charge_credits_refines], [apply_credits_refines]): as long as
      no statement of the database fails, every operation of the credit manager refines the
      ledger operation of its name, on success and on every error path, and the reserved
      balances cover the live holds after any sequence of requests; one lost statement can
      leave a hold uncovered ([lost_update_uncovers_hold]).  The repository's
      own reservation is atomic under lost statements, its deduction is not: the
      charge may stand without its event, and its release leaves the reserved
      balance ([sql_release_keeps_reserved]).
    - Rentals (C15): under arbitrary lost statements rentals only move along the state
      machine, keep their identity and never disappear; the exact effect of each manager
      operation ([update_status_spec], [terminate_rental_spec]), and what a created rental
      reads back as.
    - The service (C17): without lost statements, finalizing a rental at a plain cost
      completes it and settles its reservation, or charges its user, once, or charges
      nothing; after a lost one it may fail and charge ([lost_write_back_charges]).
    - Events (C13): a batch marks exactly the events whose handlers succeeded, and
      whatever fails only those ([process_batch_marks_only_successes]); appending events is atomic; a batch of failing events
      repeats for ever; archiving cannot work with the migrated tables
      ([cleanup_old_events_fails]).
    - Handlers (C10, C11): the start of a rental holds one hour,
      its end charges the computed cost, once; which tables no handler touches; a
      retried end after a lost update charges twice ([retried_end_charges_twice]).
    - Pricing: rules survive storage, active rules are complete and
      ordered, totals are never negative, costs are monotone, overnight hours wrap
      ([time_range_cyclic]).
    - Payments (C28, C30 to C32): after any sequence of requests and blocks, under any
      failures, deposits and outbox entries correspond one to one and only confirmed
      credits of recorded deposits are marked; when nothing is lost, a dispatched deposit
      adds exactly its converted amount to the ledger of the billing service (a lost reply
      credits it twice, [lost_reply_credits_twice]); when a price lookup
      returns, and that otherwise it blocks the oracle for ever.
    - Weights (C33, C34): the weight vector is exactly what the categories and the
      burn claim, with each UID once; a served category spends its pool to the unit;
      the iteration order of hash maps does not matter
      ([weight_distribution_order_independent]).
    - The weight setter (C36): whatever fails around it, the calls that submit weights
      come in batches for one valid vector and one version key, at most three batches per
      tick and three calls per batch, with increasing keys, and none before a block is due.
    - Scoring (C38): each executor counts once
      ([gpu_distribution_counts_each_executor_once]); weight goes only to the burn UID
      and to miners with an active axon, a fresh profile (validated since the epoch, if one
      is given) and an online GPU.
    - Rentals of the validator (C12, C21, C27, C29): however requests and the health
      monitor interleave, a rental that has ended is never active again; a container is run
      exactly for the specifications the policy allows; commands about a rental go to its
      executor and name its own container, as one harmless word; how a start ends, and what
      a failed one leaves behind.
    - Sessions (C39): access follows the last grant, over any sequence of requests, and
      authorization too, but without its expiry ([expired_session_is_authorized]); a hotkey
      challenge is answered at most once ([challenge_answered_once]).
    - Collateral (C5, C7): the contract holds exactly the money of its collaterals and
      can pay every open request that is still covered; as long as the statements of its
      database succeed, the validator's table shows what the contract held at the recorded
      block, and catches up when the node answers.  Lost statements make it count deposits
      twice ([rescan_counts_deposit_twice]).
    - Validations (C14, C35): under every schedule the queue and its index agree, an
      executor waits at most once, the counter of waiting items is ahead by exactly the
      workers that have not counted their item yet, and the most urgent item goes first;
      an item is verified a bounded number of times.  That an executor is verified by one worker at
      a time is refuted ([executor_verified_twice_at_once]).
    - GPUs (C8, C37, C40): results of others never take the GPU of an active executor; a
      full validation takes exactly the free ones; the clean-up leaves none with an
      offline executor and takes none from the others.
    - Retries (C16): every retried operation ends, after at most six calls; the circuit
      breaker does what the history of its calls says ([breaker_follows_history]).
    - Authentication (C20, C22): an accepted request is authentic and accepted once,
      however requests interleave; what the miner signs its executor accepts.
    - Provisioning (C19): a delivered request reaches the access control
      ([provision_grants_access]); a first attempt that fails after its authentication is
      not helped by its retries.
    - The miner's service (C6, C18): a lease offers an authenticated validator exactly the
      healthy executors assigned to it; the strategies give each executor at most once,
      round robin all of them in fair shares; an executor is healthy by its last answer and
      the failures since ([health_follows_answers]).
    - SSH sessions (C3, C23): under every interleaving a session that has ended never
      becomes active again; a closed session leaves its validator with access for another
      year, and overlapping requests exceed the session limit
      ([overlapping_creations_exceed_limit]).
    - Tokens (C24, C25): a token works until it is revoked, and a revoked session's last
      token stays refused (an older one may not, [older_token_revives]); the service deadlocks
      only with a validation among its requests, and then it can.
    - Assignments (C9, C26): an executor has one validator, and the table is the replay of
      its history; suggestions serve every free executor or panic for one reason.

    Properties about billing hold for every environment (C10, C11, C15) or for those in
    which no statement fails ([fault_free]: C1, C2, C4, C13, C17 and C31); those of the validator, the executor, the miner and the chain client,
    C28, C30 and C32 hold for every environment, except that C7 and C37 take the
    statements of the database to succeed.  Every property with hypotheses is
    applied to a concrete input in a lemma whose name ends in [_witness].

    ** Bounds and termination

    Loops over fetched rows are recursion on the list, the billing processor recurses on
    the values it reads from its running flag, retries of submissions recurse on the
    number of attempts the code allows (three), and the weight setter runs for a given
    number of ticks.  Two loops have fuel: the retry loop of the chain client has one
    turn more than its configuration has attempts, and so has that of the miner's gRPC
    client; both are shown to return ([retries_terminate], [retry_grpc_call_total]).
    Amounts are multiples of one micro-credit ([wf_credit], at most [credit_bound], so
    that [Decimal] arithmetic is exact); columns of type NUMERIC(p, s) are bounded
    integers, and a value that does not fit makes its statement fail.  The chain has
    fewer than 2^31 events in a block, and TAO at most 100 decimals; the dispatcher runs
    for a given number of turns.  Instants are nanoseconds in Z; where chrono panics out
    of its range the model has a panic.  Casts and sums on machine integers are written
    with the wrap-around of a release build.  C34 takes categories of at most 2^40 miners
    ([reasonable]), far above the 2^16 UIDs, so that sums of scores keep their order; C36
    takes version keys below 2^64.

    ** What is not modelled

    Log lines and metrics, the sub-microsecond truncation of stored timestamps, row
    locks between concurrent processors (the billing and payments models run one request
    after the other, with any of its statements lost; a statement or a commit that takes
    effect while its reply is lost is not considered), the array form serde also accepts
    for structs, the billing aggregates [get_rental_statistics] and
    [get_transaction_history], the validator's listing queries by model and over past
    emissions, and the floating-point entries of the key-value store.  The SQL package
    repository with its cache and the SQL usage repository of billing appear only as
    their traits.  Leader election and the connections of the payments service are I/O;
    the values of chain events are given by their text.  The wording of gRPC statuses and
    of assignment reasons is shortened to what decides.  Left out as well: the package,
    preference and usage repositories of billing with the requests that use them
    (telemetry, usage reports, packages), reporting beside the modelled charging; the shared utilities for ports, environment variables and configuration; the scopes of
    the API, which an external identity provider issues.  The validator's remote
    validation binary, the miner's deployment of executors and its older SSH access, the
    executor's container control, servers and the command line are I/O around the modelled
    core; the client libraries, the protocol and the chain metadata are bindings or
    generated code. *)

From stdpp Require Import base gmap strings list sorting.
From Stdlib Require Import Ascii.

(** ** Results

    Rust's [Result<T, E>]. *)

Inductive result (E A : Type) : Type :=
  | Ok (a : A)
  | Err (e : E).

Arguments Ok {E A} a.
Arguments Err {E A} e.

Definition is_Ok {E A} (r : result E A) : bool :=
  match r with Ok _ => true | Err _ => false end.

Definition ok_value {E A} (r : result E A) : option A :=
  match r with Ok a => Some a | Err _ => None end.

Lemma ok_value_eq {E A} (r : result E A) (a b : A) : r = Ok a -> ok_value r = Some b -> a = b.
Proof. intros ->. simpl. congruence. Qed.

(** ** Machine integers: the wrap-around of Rust's [as] casts *)

Declare Scope basilica_scope.
Delimit Scope basilica_scope with basilica.

Definition wrap (bits : Z) (z : Z) : Z := (z mod 2 ^ bits)%Z.

Notation "z 'as_u16'" := (wrap 16 z) (at level 1) : basilica_scope.
Notation "z 'as_u32'" := (wrap 32 z) (at level 1) : basilica_scope.
Notation "z 'as_u64'" := (wrap 64 z) (at level 1) : basilica_scope.

(** [as i32]: two's complement reinterpretation. *)
Definition wrap_signed (bits : Z) (z : Z) : Z :=
  (let m := z mod 2 ^ bits in if m <? 2 ^ (bits - 1) then m else m - 2 ^ bits)%Z.

Notation "z 'as_i32'" := (wrap_signed 32 z) (at level 1) : basilica_scope.

Definition u16_max : Z := 65535.
Definition u64_max : Z := 18446744073709551615.

Lemma wrap_small bits z : (0 <= z < 2 ^ bits)%Z -> wrap bits z = z.
Proof. intros; by apply Z.mod_small. Qed.

Lemma wrap_range bits z : (0 <= bits)%Z -> (0 <= wrap bits z < 2 ^ bits)%Z.
Proof. intros; apply Z.mod_pos_bound; by apply Z.pow_pos_nonneg. Qed.

Lemma wrap_add_l bits a b : wrap bits (wrap bits a + b) = wrap bits (a + b).
Proof. apply Zplus_mod_idemp_l. Qed.

Lemma wrap_add_r bits a b : wrap bits (a + wrap bits b) = wrap bits (a + b).
Proof. apply Zplus_mod_idemp_r. Qed.

(** ** Strings as the code uses them: ASCII lower-casing and substring search *)

Definition ascii_lower (c : ascii) : ascii :=
  let n := nat_of_ascii c in
  if (65 <=? n)%nat && (n <=? 90)%nat then ascii_of_nat (n + 32) else c.

Fixpoint to_lowercase (s : string) : string :=
  match s with
  | EmptyString => EmptyString
  | String c s' => String (ascii_lower c) (to_lowercase s')
  end.

Fixpoint contains (needle s : string) : bool :=
  String.prefix needle s ||
  match s with
  | EmptyString => false
  | String _ s' => contains needle s'
  end.

Lemma to_lowercase_idemp s : to_lowercase (to_lowercase s) = to_lowercase s.
Proof.
  induction s as [|c s IH]; [done|]. simpl. f_equal; [|done].
  destruct c as [[] [] [] [] [] [] [] []]; reflexivity.
Qed.

(** ** [ORDER BY]: stable insertion sort by a boolean comparison *)

Section SortBy.
Context {A : Type} (le : A -> A -> bool).

Fixpoint insert_by (x : A) (l : list A) : list A :=
  match l with
  | [] => [x]
  | y :: l' => if le x y then x :: y :: l' else y :: insert_by x l'
  end.

Fixpoint sort_by (l : list A) : list A :=
  match l with
  | [] => []
  | x :: l' => insert_by x (sort_by l')
  end.

Lemma insert_by_Permutation x l : insert_by x l ≡ₚ x :: l.
Proof.
  induction l as [|y l IH]; simpl; [done|].
  destruct (le x y); [done|]. rewrite IH. constructor.
Qed.

Lemma sort_by_Permutation l : sort_by l ≡ₚ l.
Proof.
  induction l as [|x l IH]; simpl; [done|].
  by rewrite insert_by_Permutation, IH.
Qed.

Lemma elem_of_sort_by x l : x ∈ sort_by l <-> x ∈ l.
Proof. by rewrite sort_by_Permutation. Qed.

Lemma length_sort_by l : length (sort_by l) = length l.
Proof. by rewrite sort_by_Permutation. Qed.

Lemma insert_by_Sorted x l :
  (forall a b, le a b = false -> le b a = true) ->
  Sorted (fun a b => le a b = true) l ->
  Sorted (fun a b => le a b = true) (insert_by x l).
Proof.
  intros Htot. induction 1 as [|y l Hs IH Hhd]; simpl; [by repeat constructor|].
  destruct (le x y) eqn:E; [by repeat constructor|].
  constructor; [done|]. destruct l as [|z l]; simpl; [constructor; auto|].
  inversion Hhd; subst. destruct (le x z); constructor; auto.
Qed.

Lemma sort_by_Sorted l :
  (forall a b, le a b = false -> le b a = true) ->
  Sorted (fun a b => le a b = true) (sort_by l).
Proof.
  intros Htot. induction l; simpl; [constructor|]. by apply insert_by_Sorted.
Qed.
End SortBy.

(** ** Weighted sums over a table

    [table_sum f m] adds [f k v] over the entries of [m]: the abstraction behind
    every conservation statement of the development. *)

Section TableSum.
Context `{Countable K} {V : Type} (f : K -> V -> Z).
Implicit Types m : gmap K V.

Definition table_sum (m : gmap K V) : Z := map_fold (fun k v acc => f k v + acc)%Z 0%Z m.

Lemma table_sum_empty : table_sum ∅ = 0%Z.
Proof. reflexivity. Qed.

Lemma table_sum_insert m k v :
  m !! k = None -> table_sum (<[k := v]> m) = (f k v + table_sum m)%Z.
Proof.
  intros Hk. unfold table_sum. rewrite map_fold_insert_L; [done| |done].
  intros; lia.
Qed.

Lemma table_sum_singleton k v : table_sum {[k := v]} = f k v.
Proof. rewrite <- insert_empty, table_sum_insert, table_sum_empty by done. lia. Qed.

Lemma table_sum_delete m k v :
  m !! k = Some v -> table_sum m = (f k v + table_sum (delete k m))%Z.
Proof.
  intros Hk. unfold table_sum. rewrite (map_fold_delete_L _ _ k v m); [done| |done].
  intros; lia.
Qed.

Lemma table_sum_update m k v v' :
  m !! k = Some v -> table_sum (<[k := v']> m) = (table_sum m - f k v + f k v')%Z.
Proof.
  intros Hk. rewrite <- insert_delete_eq, table_sum_insert by apply lookup_delete_eq.
  rewrite (table_sum_delete m k v Hk). lia.
Qed.

Lemma table_sum_nonneg m :
  (forall k v, m !! k = Some v -> 0 <= f k v)%Z -> (0 <= table_sum m)%Z.
Proof.
  induction m as [|k v m Hk IH] using map_ind; intros Hpos; [done|].
  rewrite table_sum_insert by done.
  assert (0 <= f k v)%Z by (apply Hpos, lookup_insert_eq).
  assert (0 <= table_sum m)%Z; [|lia].
  apply IH. intros k' v' Hk'. apply Hpos.
  rewrite lookup_insert_ne; [done|congruence].
Qed.

Lemma table_sum_lookup_le m k v :
  (forall k v, m !! k = Some v -> 0 <= f k v)%Z ->
  m !! k = Some v -> (f k v <= table_sum m)%Z.
Proof.
  intros Hpos Hk. rewrite (table_sum_delete m k v Hk).
  assert (0 <= table_sum (delete k m))%Z; [|lia].
  apply table_sum_nonneg. intros k' v' [? ?]%lookup_delete_Some. by apply Hpos.
Qed.
End TableSum.

Lemma table_sum_ext `{Countable K} {V} (f g : K -> V -> Z) (m : gmap K V) :
  (forall k v, m !! k = Some v -> f k v = g k v) -> table_sum f m = table_sum g m.
Proof.
  induction m as [|k v m Hk IH] using map_ind; intros Hfg; [done|].
  rewrite !table_sum_insert by done. f_equal; [apply Hfg, lookup_insert_eq|].
  apply IH. intros k' v' Hk'. apply Hfg. rewrite lookup_insert_ne; [done|congruence].
Qed.

(** ** Automation shared by the components *)

Create HintDb basilica.
Create Rewrite HintDb basilica.
#[export] Hint Rewrite @lookup_insert_eq @lookup_delete_eq @insert_insert_eq : basilica.

(** Case analysis on every match and conditional of the goal and hypotheses,
    closing contradictory branches on the way. *)
Ltac split_matches :=
  repeat (case_match; simplify_eq/=; try done).

(** Turn boolean tests into propositions for [lia]. *)
Ltac b2p :=
  repeat match goal with
  | H : (_ <=? _)%Z = true |- _ => apply Z.leb_le in H
  | H : (_ <=? _)%Z = false |- _ => apply Z.leb_gt in H
  | H : (_ <? _)%Z = true |- _ => apply Z.ltb_lt in H
  | H : (_ <? _)%Z = false |- _ => apply Z.ltb_ge in H
  | H : (_ =? _)%Z = true |- _ => apply Z.eqb_eq in H
  | H : (_ =? _)%Z = false |- _ => apply Z.eqb_neq in H
  | H : andb _ _ = true |- _ => apply andb_true_iff in H as [? ?]
  | H : orb _ _ = false |- _ => apply orb_false_iff in H as [? ?]
  | H : negb _ = true |- _ => apply negb_true_iff in H
  | H : negb _ = false |- _ => apply negb_false_iff in H
  end.
