(* ===== verification/Bytes.v ===== *)
(** * Bytes, hexadecimal text and lossy UTF-8

    A byte is an integer from 0 to 255 and a Rust [String] is the [string] of its UTF-8
    bytes.  [hex::encode] and [hex::decode] with their round trip, and
    [String::from_utf8_lossy] with the substitution rule of the standard library: each
    maximal invalid prefix becomes one replacement character. *)

From stdpp Require Import base strings list.
From Stdlib Require Import Ascii ZArith.
From S2P Require Import Prelude.
Local Open Scope Z_scope.

Definition is_byte (b : Z) : Prop := 0 <= b < 256.

Lemma bytes_by_check l : forallb (fun b => (0 <=? b) && (b <? 256)) l = true -> Forall is_byte l.
Proof.
  intros Hl. apply Forall_forall. intros b Hb. rewrite forallb_forall in Hl.
  specialize (Hl b (proj1 (list_elem_of_In _ _) Hb)). unfold is_byte. b2p. lia.
Qed.

Definition byte_char (b : Z) : ascii := ascii_of_N (Z.to_N b).
Definition char_byte (c : ascii) : Z := Z.of_N (N_of_ascii c).

(** [into_bytes] and [as_bytes]. *)
Fixpoint into_bytes (s : string) : list Z :=
  match s with
  | EmptyString => []
  | String c s' => char_byte c :: into_bytes s'
  end.

(** ** Hexadecimal *)

Definition hex_value (c : ascii) : option Z :=
  let n := Z.of_nat (nat_of_ascii c) in
  if (48 <=? n) && (n <=? 57) then Some (n - 48)
  else if (97 <=? n) && (n <=? 102) then Some (n - 87)
  else if (65 <=? n) && (n <=? 70) then Some (n - 55)
  else None.

(** [hex::decode] *)
Fixpoint hex_decode (s : string) : option (list Z) :=
  match s with
  | EmptyString => Some []
  | String a (String b s') =>
      x ← hex_value a; y ← hex_value b; l ← hex_decode s'; Some (16 * x + y :: l)
  | String _ EmptyString => None
  end.

Definition hex_char (n : Z) : ascii :=
  ascii_of_nat (Z.to_nat (if n <? 10 then 48 + n else 87 + n)).

(** [format!("{:02x}", b)] for each byte, which is [hex::encode]. *)
Fixpoint to_hex (bytes : list Z) : string :=
  match bytes with
  | [] => EmptyString
  | b :: rest => String (hex_char (b / 16)) (String (hex_char (b mod 16)) (to_hex rest))
  end.

Lemma hex_value_char n : 0 <= n < 16 -> hex_value (hex_char n) = Some n.
Proof.
  intros Hn. assert (Hall : Forall (fun n => hex_value (hex_char n) = Some n) (seqZ 0 16)).
  { repeat (apply Forall_cons; split; [reflexivity|]). apply Forall_nil_2. }
  rewrite Forall_forall in Hall. apply Hall, elem_of_seqZ. lia.
Qed.

Lemma hex_roundtrip l : Forall is_byte l -> hex_decode (to_hex l) = Some l.
Proof.
  induction 1 as [|b l Hb _ IH]; [done|]. unfold is_byte in Hb. simpl.
  rewrite (hex_value_char (b / 16)) by (split; [apply Z.div_pos | apply Z.div_lt_upper_bound]; lia). simpl.
  rewrite (hex_value_char (b mod 16)) by (apply Z.mod_pos_bound; lia). simpl. rewrite IH. simpl.
  by rewrite <- Z.div_mod by lia.
Qed.

Lemma hex_value_range c n : hex_value c = Some n -> 0 <= n < 16.
Proof. unfold hex_value. intros. repeat case_match; b2p; simplify_eq; lia. Qed.

Lemma hex_decode_bytes n s l : (String.length s <= n)%nat -> hex_decode s = Some l -> Forall is_byte l.
Proof.
  revert s l. induction n as [|n IH]; intros [|a [|b s]] l Hn E; simpl in *; simplify_eq; try lia;
    try constructor.
  destruct (hex_value a) as [x|] eqn:Ex; [|done].
  destruct (hex_value b) as [y|] eqn:Ey; [|done].
  destruct (hex_decode s) as [r|] eqn:Er; simpl in E; [|done]. injection E as <-.
  apply hex_value_range in Ex, Ey.
  constructor; [unfold is_byte; lia|]. apply (IH s); [lia | done].
Qed.

Lemma length_to_hex l : String.length (to_hex l) = (2 * length l)%nat.
Proof. induction l as [|b l IH]; [done|]. simpl. rewrite IH. lia. Qed.

Lemma to_hex_inj l k : Forall is_byte l -> Forall is_byte k -> to_hex l = to_hex k -> l = k.
Proof.
  intros Hl Hk E. apply hex_roundtrip in Hl, Hk. rewrite E in Hl. by rewrite Hk in Hl; injection Hl.
Qed.

(** ** [String::from_utf8_lossy] *)

Definition utf8_char_width (b : Z) : Z :=
  if b <? 128 then 1
  else if (194 <=? b) && (b <=? 223) then 2
  else if (224 <=? b) && (b <=? 239) then 3
  else if (240 <=? b) && (b <=? 244) then 4
  else 0.

Definition continues (c : Z) : bool := (128 <=? c) && (c <=? 191).

(** The second bytes that may follow a first byte of a three or four byte form. *)
Definition second_of_3 (b c : Z) : bool :=
  if b =? 224 then (160 <=? c) && (c <=? 191)
  else if b =? 237 then (128 <=? c) && (c <=? 159)
  else continues c.
Definition second_of_4 (b c : Z) : bool :=
  if b =? 240 then (144 <=? c) && (c <=? 191)
  else if b =? 244 then (128 <=? c) && (c <=? 143)
  else continues c.

(** U+FFFD. *)
Definition replaced (rest : string) : string :=
  String (byte_char 239) (String (byte_char 191) (String (byte_char 189) rest)).

Fixpoint from_utf8_lossy (l : list Z) : string :=
  match l with
  | [] => EmptyString
  | b :: l1 =>
      match utf8_char_width b, l1 with
      | 1, _ => String (byte_char b) (from_utf8_lossy l1)
      | 2, c :: l2 =>
          if continues c then String (byte_char b) (String (byte_char c) (from_utf8_lossy l2))
          else replaced (from_utf8_lossy l1)
      | 3, c :: l2 =>
          if second_of_3 b c then
            match l2 with
            | d :: l3 =>
                if continues d then
                  String (byte_char b) (String (byte_char c) (String (byte_char d) (from_utf8_lossy l3)))
                else replaced (from_utf8_lossy l2)
            | [] => replaced EmptyString
            end
          else replaced (from_utf8_lossy l1)
      | 4, c :: l2 =>
          if second_of_4 b c then
            match l2 with
            | d :: l3 =>
                if continues d then
                  match l3 with
                  | e :: l4 =>
                      if continues e then
                        String (byte_char b) (String (byte_char c) (String (byte_char d)
                          (String (byte_char e) (from_utf8_lossy l4))))
                      else replaced (from_utf8_lossy l3)
                  | [] => replaced EmptyString
                  end
                else replaced (from_utf8_lossy l2)
            | [] => replaced EmptyString
            end
          else replaced (from_utf8_lossy l1)
      | _, _ => replaced (from_utf8_lossy l1)
      end
  end.

Fixpoint is_ascii (s : string) : bool :=
  match s with
  | EmptyString => true
  | String c s' => (char_byte c <? 128) && is_ascii s'
  end.

Lemma byte_char_byte c : byte_char (char_byte c) = c.
Proof. unfold byte_char, char_byte. rewrite N2Z.id. apply ascii_N_embedding. Qed.

(** ASCII text survives. *)
Lemma from_utf8_lossy_ascii s : is_ascii s = true -> from_utf8_lossy (into_bytes s) = s.
Proof.
  induction s as [|c s IH]; [done|]. cbn [is_ascii into_bytes from_utf8_lossy]. intros H. b2p.
  unfold utf8_char_width. destruct (char_byte c <? 128) eqn:E; b2p; [|lia].
  rewrite byte_char_byte. f_equal. by apply IH.
Qed.

(** The text for "é€", a cut three-byte form and a stray continuation byte. *)
Example from_utf8_lossy_cases :
  into_bytes (from_utf8_lossy [195; 169; 226; 130; 172; 226; 130; 65; 128])
  = [195; 169; 226; 130; 172; 239; 191; 189; 65; 239; 191; 189].
Proof. reflexivity. Qed.
