(* ===== verification/Text.v ===== *)
(** * Strings as the validator uses them

    Rust's [str] methods on ASCII text: case conversion, [replace], [trim],
    [split_once], [strip_prefix], and the decimal notation of integers with the round
    trip the key-value storage relies on. *)

From stdpp Require Import base strings list pretty.
From Stdlib Require Import Ascii ZArith.
From S2P Require Import Prelude.
Local Open Scope Z_scope.

(** [to_uppercase] on ASCII letters. *)
Definition ascii_upper (c : ascii) : ascii :=
  let n := nat_of_ascii c in
  if (97 <=? n)%nat && (n <=? 122)%nat then ascii_of_nat (n - 32) else c.

Fixpoint to_uppercase (s : string) : string :=
  match s with
  | EmptyString => EmptyString
  | String c s' => String (ascii_upper c) (to_uppercase s')
  end.

(** [s.replace(pat, "")]: the occurrences from the left, without overlap; [skip] is
    what is left of the occurrence being removed. *)
Fixpoint remove_from (pat : string) (skip : nat) (s : string) : string :=
  match s with
  | EmptyString => EmptyString
  | String c s' =>
      match skip with
      | S k => remove_from pat k s'
      | O =>
          if String.prefix pat s then remove_from pat (String.length pat - 1) s'
          else String c (remove_from pat 0 s')
      end
  end.

Definition remove_all (pat s : string) : string := remove_from pat 0 s.

(** [trim]: ASCII white space at both ends. *)
Definition is_whitespace (c : ascii) : bool :=
  let n := nat_of_ascii c in (n =? 32)%nat || ((9 <=? n)%nat && (n <=? 13)%nat).

Fixpoint trim_start (s : string) : string :=
  match s with
  | String c s' => if is_whitespace c then trim_start s' else s
  | EmptyString => EmptyString
  end.

Fixpoint trim_end (s : string) : string :=
  match s with
  | EmptyString => EmptyString
  | String c s' =>
      match trim_end s' with
      | EmptyString => if is_whitespace c then EmptyString else String c EmptyString
      | t => String c t
      end
  end.

Definition trim (s : string) : string := trim_end (trim_start s).

(** [trim_end_matches] of one character. *)
Fixpoint trim_end_char (c : ascii) (s : string) : string :=
  match s with
  | EmptyString => EmptyString
  | String a s' =>
      match trim_end_char c s' with
      | EmptyString => if Ascii.eqb a c then EmptyString else String a EmptyString
      | t => String a t
      end
  end.

(** [strip_prefix] and [split_once]. *)
Fixpoint strip_prefix (pat s : string) : option string :=
  match pat, s with
  | EmptyString, _ => Some s
  | String a pat', String b s' => if Ascii.eqb a b then strip_prefix pat' s' else None
  | String _ _, EmptyString => None
  end.

Fixpoint split_once (pat s : string) : option (string * string) :=
  match strip_prefix pat s with
  | Some rest => Some (EmptyString, rest)
  | None =>
      match s with
      | EmptyString => None
      | String c s' => p ← split_once pat s'; Some (String c (fst p), snd p)
      end
  end.

(** ** Decimal notation *)

Definition digit_value (c : ascii) : option Z :=
  let n := Z.of_nat (nat_of_ascii c) in
  if (48 <=? n) && (n <=? 57) then Some (n - 48) else None.

(** The digits of [s], most significant first, after the value [acc]. *)
Fixpoint parse_digits (s : string) (acc : Z) : option Z :=
  match s with
  | EmptyString => Some acc
  | String c s' => d ← digit_value c; parse_digits s' (10 * acc + d)
  end.

(** [s.parse::<iN>()] and [s.parse::<uN>()]: an optional sign ('-' only for signed
    types), at least one digit, and the value in range. *)
Definition parse_int (lo hi : Z) (s : string) : option Z :=
  let body neg t :=
    match t with
    | EmptyString => None
    | _ =>
        v ← parse_digits t 0;
        let v := if neg : bool then - v else v in
        if (lo <=? v) && (v <=? hi) then Some v else None
    end in
  match s with
  | String "-" t => if lo <? 0 then body true t else None
  | String "+" t => body false t
  | _ => body false s
  end.

Definition parse_i64 : string -> option Z := parse_int (- 2 ^ 63) (2 ^ 63 - 1).
Definition parse_u16 : string -> option Z := parse_int 0 u16_max.

(** [to_string] on integers: stdpp's decimal printer. *)
Definition show_int (z : Z) : string := pretty z.

Lemma digit_value_pretty (d : N) : (d < 10)%N -> digit_value (pretty_N_char d) = Some (Z.of_N d).
Proof.
  intros Hd.
  assert (d = 0 \/ d = 1 \/ d = 2 \/ d = 3 \/ d = 4 \/ d = 5 \/ d = 6 \/ d = 7 \/ d = 8 \/ d = 9)%N
    as H by lia.
  by repeat destruct H as [-> | H]; subst.
Qed.

Lemma parse_digits_pretty_go (x : N) (s : string) :
  parse_digits (pretty_N_go x s) 0 = parse_digits s (Z.of_N x).
Proof.
  revert s. induction (N.lt_wf_0 x) as [x _ IH]; intros s.
  assert (x = 0 \/ 0 < x)%N as [-> | Hx] by lia; [by rewrite pretty_N_go_0|].
  rewrite pretty_N_go_step, IH by (done || apply N.div_lt; lia). simpl.
  rewrite digit_value_pretty by (apply N.mod_lt; lia). simpl. f_equal.
  rewrite N2Z.inj_div, N2Z.inj_mod. pose proof (Z_div_mod_eq_full (Z.of_N x) 10). lia.
Qed.

Lemma parse_digits_pretty (x : N) : parse_digits (pretty x) 0 = Some (Z.of_N x).
Proof.
  unfold pretty, pretty_N. case_decide as H; [by subst|]. apply parse_digits_pretty_go.
Qed.

(** A printed number starts with a digit, so never with a sign. *)
Lemma pretty_go_digit (x : N) (s : string) :
  (exists c t, s = String c t /\ is_Some (digit_value c)) ->
  exists c t, pretty_N_go x s = String c t /\ is_Some (digit_value c).
Proof.
  revert s. induction (N.lt_wf_0 x) as [x _ IH]; intros s Hs.
  assert (x = 0 \/ 0 < x)%N as [-> | Hx] by lia; [by rewrite pretty_N_go_0|].
  rewrite pretty_N_go_step by done. apply IH; [apply N.div_lt; lia|].
  eexists _, _. split; [done|]. by rewrite digit_value_pretty by (apply N.mod_lt; lia).
Qed.

Lemma pretty_digit (x : N) :
  exists c t, pretty x = String c t /\ is_Some (digit_value c).
Proof.
  unfold pretty, pretty_N. case_decide as H; [by eexists _, _|].
  rewrite pretty_N_go_step by lia. apply pretty_go_digit.
  eexists _, _. split; [done|]. by rewrite digit_value_pretty by (apply N.mod_lt; lia).
Qed.

Lemma parse_int_unsigned lo hi c t :
  is_Some (digit_value c) ->
  parse_int lo hi (String c t) =
    (v ← parse_digits (String c t) 0; if (lo <=? v) && (v <=? hi) then Some v else None).
Proof. destruct c as [[] [] [] [] [] [] [] []]; intros [v Hv]; try done. Qed.

(** Printing and parsing are inverse on the values of the type. *)
Lemma parse_show_int lo hi z :
  lo <= z <= hi -> (lo < 0 \/ 0 <= z) -> parse_int lo hi (show_int z) = Some z.
Proof.
  intros Hz Hlo.
  assert (Hr : (lo <=? z) && (z <=? hi) = true) by (apply andb_true_iff; rewrite !Z.leb_le; lia).
  unfold show_int. destruct z as [|p|p].
  - change (parse_int lo hi (pretty 0))
      with (if (lo <=? 0) && (0 <=? hi) then Some 0 else None). by rewrite Hr.
  - change (pretty (Z.pos p)) with (pretty (Npos p)).
    destruct (pretty_digit (Npos p)) as (c & t & E & Hc).
    rewrite E, parse_int_unsigned, <- E, parse_digits_pretty by done.
    cbn [mbind option_bind Z.of_N]. by rewrite Hr.
  - change (pretty (Z.neg p)) with (String "-" (pretty (Npos p))).
    destruct (pretty_digit (Npos p)) as (c & t & E & Hc).
    unfold parse_int. rewrite (proj2 (Z.ltb_lt _ _)) by lia.
    pose proof (parse_digits_pretty (Npos p)) as Hd. rewrite E in Hd |- *. cbv beta iota.
    rewrite Hd. cbn [mbind option_bind Z.of_N]. change (- Z.pos p) with (Z.neg p). by rewrite Hr.
Qed.

Lemma parse_show_i64 z : - 2 ^ 63 <= z < 2 ^ 63 -> parse_i64 (show_int z) = Some z.
Proof. intros. apply parse_show_int; lia. Qed.

(** ** Decimal fractions as text

    Numbers written as digits with an optional decimal point, the form in which
    services exchange amounts: [plain m s] is [m / 10^s], [parse_plain] reads it back.
    The decimal libraries print and parse this form; what they do beyond it (signs,
    exponents) is theirs. *)

(** ** Cutting strings *)

Fixpoint take_str (n : nat) (s : string) : string :=
  match n, s with
  | S n', String c s' => String c (take_str n' s')
  | _, _ => EmptyString
  end.

Fixpoint drop_str (n : nat) (s : string) : string :=
  match n, s with
  | S n', String _ s' => drop_str n' s'
  | _, _ => s
  end.

Fixpoint repeat_char (c : ascii) (n : nat) : string :=
  match n with O => EmptyString | S n' => String c (repeat_char c n') end.

Lemma take_drop_str n s : take_str n s +:+ drop_str n s = s.
Proof.
  revert s. induction n as [|n IH]; intros [|c s]; simpl; try done.
  unfold "+:+" in *. simpl. by rewrite IH.
Qed.

Lemma length_str_app s t : String.length (s +:+ t) = (String.length s + String.length t)%nat.
Proof. induction s as [|c s IH]; [done|]. unfold "+:+" in *. simpl. by rewrite IH. Qed.

Lemma length_take_str n s : (n <= String.length s)%nat -> String.length (take_str n s) = n.
Proof.
  revert s. induction n as [|n IH]; intros [|c s]; simpl; intros; try done; try lia.
  rewrite IH; lia.
Qed.

Lemma length_drop_str n s : String.length (drop_str n s) = (String.length s - n)%nat.
Proof. revert s. induction n as [|n IH]; intros [|c s]; simpl; done. Qed.

Lemma length_repeat_char c n : String.length (repeat_char c n) = n.
Proof. induction n; simpl; congruence. Qed.

Lemma str_app_assoc s t u : (s +:+ t) +:+ u = s +:+ (t +:+ u).
Proof. induction s as [|c s IH]; [done|]. unfold "+:+" in *. simpl. by rewrite IH. Qed.

(** ** Strings of digits *)

Lemma parse_digits_app s t acc :
  parse_digits (s +:+ t) acc = parse_digits s acc ≫= parse_digits t.
Proof.
  revert acc. induction s as [|c s IH]; intros acc; [done|].
  unfold "+:+" in *. simpl. destruct (digit_value c); simpl; [apply IH|done].
Qed.

Lemma digit_value_range c d : digit_value c = Some d -> 0 <= d < 10.
Proof.
  unfold digit_value. case_match eqn:E; [|done]. intros [= <-].
  apply andb_true_iff in E as [?%Z.leb_le ?%Z.leb_le]. lia.
Qed.

(** Digits after a value shift it. *)
Lemma parse_digits_add s a b :
  parse_digits s (a + b) =
    (fun r => a * 10 ^ Z.of_nat (String.length s) + r) <$> parse_digits s b.
Proof.
  revert a b. induction s as [|c s IH]; intros a b.
  - simpl. f_equal. lia.
  - cbn [parse_digits String.length]. destruct (digit_value c) as [d|]; [|done].
    cbn [mbind option_bind]. replace (10 * (a + b) + d) with (10 * a + (10 * b + d)) by lia.
    rewrite IH. rewrite Nat2Z.inj_succ, Z.pow_succ_r by lia.
    destruct (parse_digits s _); simpl; [|done]. f_equal. lia.
Qed.

Lemma parse_digits_shift s a :
  parse_digits s a = (fun r => a * 10 ^ Z.of_nat (String.length s) + r) <$> parse_digits s 0.
Proof. rewrite <- (Z.add_0_r a) at 1. apply parse_digits_add. Qed.

Lemma parse_digits_range s v :
  parse_digits s 0 = Some v -> 0 <= v < 10 ^ Z.of_nat (String.length s).
Proof.
  revert v. induction s as [|c s IH]; intros v; [simpl; intros [= <-]; lia|].
  cbn [parse_digits String.length]. destruct (digit_value c) as [d|] eqn:Ed; [|done].
  apply digit_value_range in Ed. cbn [mbind option_bind]. rewrite parse_digits_shift.
  destruct (parse_digits s 0) as [r|]; [|done]. simpl. intros [= <-].
  specialize (IH r eq_refl). rewrite Nat2Z.inj_succ, Z.pow_succ_r by lia.
  set (p := 10 ^ Z.of_nat (String.length s)) in *. destruct d; nia.
Qed.

(** Cutting digits off at the end divides by a power of ten. *)
Lemma parse_digits_prefix s t v :
  parse_digits (s +:+ t) 0 = Some v ->
  parse_digits s 0 = Some (v / 10 ^ Z.of_nat (String.length t)).
Proof.
  rewrite parse_digits_app. destruct (parse_digits s 0) as [a|]; [|done]. simpl.
  rewrite parse_digits_shift. destruct (parse_digits t 0) as [r|] eqn:Er; [|done].
  simpl. intros [= <-]. apply parse_digits_range in Er. f_equal.
  rewrite Z.add_comm, Z.div_add by lia. rewrite Z.div_small; lia.
Qed.

Lemma digits_have_no_point s acc : is_Some (parse_digits s acc) -> split_once "." s = None.
Proof.
  revert acc. induction s as [|c s IH]; intros acc [v Hv]; [done|].
  cbn [parse_digits] in Hv. destruct (digit_value c) as [d|] eqn:Ed; [|done].
  cbn [split_once strip_prefix]. destruct (Ascii.eqb_spec "." c) as [<- | Hc]; [done|].
  by rewrite (IH (10 * acc + d)).
Qed.

Lemma split_once_point s t :
  split_once "." s = None -> split_once "." (s +:+ String "." t) = Some (s, t).
Proof.
  induction s as [|c s IH]; [done|]. unfold "+:+" in *.
  cbn [split_once strip_prefix String.append]. destruct (Ascii.eqb "." c); [done|].
  destruct (split_once "." s) eqn:E; [done|]. intros _. by rewrite IH.
Qed.

Lemma str_app_cons c s t : String c s +:+ t = String c (s +:+ t).
Proof. done. Qed.

Lemma str_app_inj s s' t t' :
  String.length t = String.length t' -> s +:+ t = s' +:+ t' -> s = s' /\ t = t'.
Proof.
  revert s'. induction s as [|c s IH]; intros [|c' s'] Hl E; rewrite ?str_app_cons in E; [done| | |].
  - exfalso. change ("" +:+ t) with t in E. rewrite E in Hl. simpl in Hl.
    rewrite length_str_app in Hl. lia.
  - exfalso. change ("" +:+ t') with t' in E. rewrite <- E in Hl. simpl in Hl.
    rewrite length_str_app in Hl. lia.
  - injection E as -> E. by destruct (IH s' Hl E) as [-> ->].
Qed.

Lemma str_app_cancel s t t' : s +:+ t = s +:+ t' -> t = t'.
Proof.
  induction s as [|c s IH]; [done|]. rewrite !str_app_cons. intros E. injection E. exact IH.
Qed.

(** Digits end where a character that is no digit begins. *)
Lemma digits_cut x y acc acc' c t t' :
  is_Some (parse_digits x acc) -> is_Some (parse_digits y acc') -> digit_value c = None ->
  x +:+ String c t = y +:+ String c t' -> x = y /\ t = t'.
Proof.
  revert y acc acc'. induction x as [|a x IH]; intros [|b y] acc acc' [v Hx] [w Hy] Hc E;
    rewrite ?str_app_cons in E; simpl in Hx, Hy.
  - by injection E as ->.
  - injection E as -> _. by rewrite Hc in Hy.
  - injection E as -> _. by rewrite Hc in Hx.
  - injection E as -> E. destruct (digit_value b) as [d|] eqn:Ed; [|done].
    destruct (IH y (10 * acc + d) (10 * acc' + d)) as [-> ->]; eauto.
Qed.

Lemma show_int_digits z : 0 <= z -> parse_digits (show_int z) 0 = Some z.
Proof.
  intros Hz. unfold show_int. destruct z as [|p|p]; [done| |lia].
  change (pretty (Z.pos p)) with (pretty (N.pos p)). apply parse_digits_pretty.
Qed.

(** ** Plain notation *)

(** The digits of [m], with leading zeros so that at least one digit stands before the
    last [s]. *)
Definition padded (m : N) (s : nat) : string :=
  repeat_char "0" (S s - String.length (pretty m)) +:+ pretty m.

(** [m / 10^s] *)
Definition plain (m : N) (s : nat) : string :=
  match s with
  | O => pretty m
  | _ =>
      let d := padded m s in
      let k := (String.length d - s)%nat in
      take_str k d +:+ String "." (drop_str k d)
  end.

Definition parse_plain (t : string) : option (Z * nat) :=
  match split_once "." t with
  | Some (EmptyString, _) | Some (_, EmptyString) => None
  | Some (before, after) =>
      v ← parse_digits (before +:+ after) 0; Some (v, String.length after)
  | None => match t with
            | EmptyString => None
            | _ => v ← parse_digits t 0; Some (v, O)
            end
  end.

Lemma parse_repeat_zero n : parse_digits (repeat_char "0" n) 0 = Some 0.
Proof. by induction n. Qed.

Lemma parse_padded m s : parse_digits (padded m s) 0 = Some (Z.of_N m).
Proof.
  unfold padded. rewrite parse_digits_app, parse_repeat_zero. simpl. apply parse_digits_pretty.
Qed.

Lemma length_padded m s : (S s <= String.length (padded m s))%nat.
Proof. unfold padded. rewrite length_str_app, length_repeat_char. lia. Qed.

(** What [parse_plain] makes of digits, a point and digits. *)
Lemma parse_plain_point a b v :
  a <> EmptyString -> b <> EmptyString -> parse_digits (a +:+ b) 0 = Some v ->
  parse_plain (a +:+ String "." b) = Some (v, String.length b).
Proof.
  intros Ha Hb Hv. assert (Hd : is_Some (parse_digits a 0)).
  { rewrite parse_digits_app in Hv. by destruct (parse_digits a 0). }
  unfold parse_plain. rewrite split_once_point by (by eapply digits_have_no_point).
  destruct a, b; try done. by rewrite Hv.
Qed.

Lemma nonempty_length s : (0 < String.length s)%nat -> s <> EmptyString.
Proof. by destruct s; simpl; [lia|]. Qed.

Lemma parse_plain_plain m s : parse_plain (plain m s) = Some (Z.of_N m, s).
Proof.
  destruct s as [|s].
  - unfold plain, parse_plain. pose proof (parse_digits_pretty m) as Hp.
    rewrite (digits_have_no_point _ 0) by (by rewrite Hp). rewrite Hp.
    destruct (pretty_digit m) as (c & t & -> & _). done.
  - unfold plain. pose proof (length_padded m (S s)) as Hl.
    set (d := padded m (S s)) in *. set (k := (String.length d - S s)%nat).
    rewrite (parse_plain_point _ _ (Z.of_N m)).
    + rewrite length_drop_str. f_equal. f_equal. lia.
    + apply nonempty_length. rewrite length_take_str; lia.
    + apply nonempty_length. rewrite length_drop_str. lia.
    + rewrite take_drop_str. apply parse_padded.
Qed.

(** ** Signs *)

Definition plain_Z (z : Z) (s : nat) : string :=
  if z <? 0 then String "-" (plain (Z.to_N (- z)) s) else plain (Z.to_N z) s.

Definition parse_plain_Z (t : string) : option (Z * nat) :=
  match t with
  | String "-" u => '(v, s) ← parse_plain u; Some (- v, s)
  | _ => parse_plain t
  end.

Lemma parse_plain_unsigned t r : parse_plain t = Some r -> parse_plain_Z t = Some r.
Proof.
  destruct t as [|c t]; [done|]. destruct (Ascii.eqb_spec c "-") as [-> | Hc].
  - unfold parse_plain. cbn [split_once strip_prefix]. simpl (Ascii.eqb _ _).
    cbv iota. destruct (split_once "." t) as [[a b]|]; simpl; [by destruct b|done].
  - intros Hp. unfold parse_plain_Z.
    destruct c as [[] [] [] [] [] [] [] []]; try exact Hp. by destruct Hc.
Qed.

Lemma parse_plain_Z_plain z s : parse_plain_Z (plain_Z z s) = Some (z, s).
Proof.
  unfold plain_Z. case_match eqn:E; b2p.
  - cbn [parse_plain_Z]. rewrite parse_plain_plain. simpl. f_equal. f_equal. lia.
  - apply parse_plain_unsigned. rewrite parse_plain_plain. f_equal. f_equal. lia.
Qed.

(** ** Truncation *)

(** Dropping digits behind the point rounds down. *)
Lemma parse_plain_truncate a b v n :
  a <> EmptyString -> (0 < n <= String.length b)%nat -> parse_digits (a +:+ b) 0 = Some v ->
  parse_plain (a +:+ String "." (take_str n b)) =
    Some (v / 10 ^ Z.of_nat (String.length b - n), n).
Proof.
  intros Ha Hn Hv.
  rewrite (parse_plain_point _ _ (v / 10 ^ Z.of_nat (String.length b - n))).
  - by rewrite length_take_str by lia.
  - done.
  - apply nonempty_length. rewrite length_take_str; lia.
  - rewrite <- length_drop_str. apply parse_digits_prefix.
    by rewrite str_app_assoc, take_drop_str.
Qed.

(** What a successful parse says about the text. *)
Lemma parse_plain_inv t v s :
  parse_plain t = Some (v, s) ->
  match split_once "." t with
  | Some (a, b) => a <> EmptyString /\ s = String.length b /\ (0 < s)%nat /\
                   parse_digits (a +:+ b) 0 = Some v
  | None => s = O /\ parse_digits t 0 = Some v
  end.
Proof.
  unfold parse_plain. destruct (split_once "." t) as [[a b]|].
  - destruct a, b; try done. destruct (parse_digits _ 0); [|done]. simpl.
    intros [= <- <-]. split_and!; [done..|simpl; lia|done].
  - destruct t; [done|]. destruct (parse_digits _ 0); [|done]. simpl. by intros [= <- <-].
Qed.

Lemma parse_plain_nonneg t v s : parse_plain t = Some (v, s) -> 0 <= v.
Proof.
  intros Hp%parse_plain_inv. destruct (split_once "." t) as [[a b]|].
  - destruct Hp as (_ & _ & _ & Hp%parse_digits_range). lia.
  - destruct Hp as (_ & Hp%parse_digits_range). lia.
Qed.
