(* ===== verification/Float64.v ===== *)
(** * Rust's [f64]: IEEE-754 binary64 with round-to-nearest-even

    The arithmetic is the executable specification of the Standard Library
    ([SpecFloat], precision 53, maximal exponent 1024); the casts are Rust's
    saturating [as] casts. *)

From Stdlib Require Import ZArith.
From Stdlib.Floats Require Import SpecFloat.
From stdpp Require Import base numbers.
From stdpp Require Import base gmap strings list numbers.
From S2P Require Import Prelude.
Local Open Scope Z_scope.

Definition f64 : Type := spec_float.

Definition f64_add : f64 -> f64 -> f64 := SFadd 53 1024.
Definition f64_sub : f64 -> f64 -> f64 := SFsub 53 1024.
Definition f64_mul : f64 -> f64 -> f64 := SFmul 53 1024.
Definition f64_div : f64 -> f64 -> f64 := SFdiv 53 1024.
Definition f64_zero : f64 := S754_zero false.

(** [z as f64]: the nearest binary64 number. *)
Definition f64_of_Z (z : Z) : f64 := binary_normalize 53 1024 z 0 false.

(** Comparisons are false on NaN. *)
Definition f64_leb (x y : f64) : bool :=
  match SFcompare x y with Some (Lt | Eq) => true | _ => false end.
Definition f64_ltb (x y : f64) : bool :=
  match SFcompare x y with Some Lt => true | _ => false end.

(** [f64::min]: a NaN argument is ignored. *)
Definition f64_min (x y : f64) : f64 :=
  match x, y with
  | S754_nan, _ => y
  | _, S754_nan => x
  | _, _ => if f64_leb x y then x else y
  end.

(** [f64::max]. *)
Definition f64_max (x y : f64) : f64 :=
  match x, y with
  | S754_nan, _ => y
  | _, S754_nan => x
  | _, _ => if f64_leb x y then y else x
  end.

Definition f64_eqb (x y : f64) : bool :=
  match SFcompare x y with Some Eq => true | _ => false end.

Definition f64_abs : f64 -> f64 := SFabs.
Definition f64_neg : f64 -> f64 := SFopp.

(** [f64::MAX] and [f64::MIN]. *)
Definition f64_MAX : f64 := S754_finite false (2 ^ 53 - 1) 971.
Definition f64_MIN : f64 := S754_finite true (2 ^ 53 - 1) 971.

(** [iter().sum::<f64>()]: a left fold from -0.0, the neutral element of the
    addition. *)
Definition f64_sum (l : list f64) : f64 := fold_left f64_add l (S754_zero true).

(** The decimal literal [n / d], for integers that binary64 represents exactly: one
    correctly rounded division. *)
Definition f64_lit (n d : Z) : f64 := f64_div (f64_of_Z n) (f64_of_Z d).

(** The magnitude truncated towards zero, for a finite number. *)
Definition trunc_mag (m : positive) (e : Z) : Z :=
  if 0 <=? e then Zpos m * 2 ^ e else Zpos m / 2 ^ (- e).

(** [x as u64], [x as u16]: truncation, saturating at both ends, NaN to 0. *)
Definition f64_to_uint (max : Z) (x : f64) : Z :=
  match x with
  | S754_finite false m e => Z.min (trunc_mag m e) max
  | S754_infinity false => max
  | _ => 0
  end.

Definition f64_to_u64 : f64 -> Z := f64_to_uint u64_max.
Definition f64_to_u16 : f64 -> Z := f64_to_uint u16_max.

(** [f64::ceil]. *)
Definition f64_ceil (x : f64) : f64 :=
  match x with
  | S754_finite s m e =>
      if 0 <=? e then x
      else
        let q := Zpos m / 2 ^ (- e) in
        let exact := Zpos m mod 2 ^ (- e) =? 0 in
        if s then if q =? 0 then S754_zero true else f64_of_Z (- q)
        else f64_of_Z (if exact then q else q + 1)
  | _ => x
  end.

Lemma trunc_mag_nonneg m e : 0 <= trunc_mag m e.
Proof.
  unfold trunc_mag. destruct (0 <=? e) eqn:E; b2p.
  - apply Z.mul_nonneg_nonneg; [lia|]. by apply Z.pow_nonneg.
  - apply Z.div_pos; [lia|]. apply Z.pow_pos_nonneg; lia.
Qed.

Lemma f64_to_uint_range max x : 0 <= max -> 0 <= f64_to_uint max x <= max.
Proof.
  intros Hmax. destruct x as [[]|[]| |[] m e]; simpl; try lia.
  pose proof (trunc_mag_nonneg m e). lia.
Qed.

#[export] Hint Resolve trunc_mag_nonneg f64_to_uint_range : basilica.

(** ** JSON values ([serde_json::Value]) and the accessors the code uses *)

(** A number is a [u64], a negative [i64] or an [f64]; an object maps keys to
    values. *)
#[warnings="-register-all"]
Inductive json : Type :=
  | JNull
  | JBool (b : bool)
  | JPosInt (n : Z)
  | JNegInt (n : Z)
  | JFloat (x : f64)
  | JString (s : string)
  | JArray (l : list json)
  | JObject (fields : list (string * json)).

Definition assoc {A} (k : string) (l : list (string * A)) : option A :=
  snd <$> List.find (fun p => String.eqb k (fst p)) l.

(** [Value::get] with a string key. *)
Definition json_get (k : string) (v : json) : option json :=
  match v with JObject fields => assoc k fields | _ => None end.

Definition json_as_str (v : json) : option string :=
  match v with JString s => Some s | _ => None end.

Definition json_as_u64 (v : json) : option Z :=
  match v with JPosInt n => Some n | _ => None end.

Definition json_as_f64 (v : json) : option f64 :=
  match v with
  | JPosInt n | JNegInt n => Some (f64_of_Z n)
  | JFloat x => Some x
  | _ => None
  end.

(** [serde]'s treatment of an [Option] field: absent and [null] are [None]; a
    present value must have the field's type ([None] on the outside is the
    deserialization error). *)
Definition json_opt_field {A} (decode : json -> option A) (k : string) (v : json)
  : option (option A) :=
  match json_get k v with
  | None | Some JNull => Some None
  | Some x => Some <$> decode x
  end.

(** A required field. *)
Definition json_field {A} (decode : json -> option A) (k : string) (v : json) : option A :=
  json_get k v ≫= decode.

Definition json_of_opt_str (o : option string) : json :=
  match o with Some s => JString s | None => JNull end.

Lemma json_get_hd k v l : json_get k (JObject ((k, v) :: l)) = Some v.
Proof. unfold json_get, assoc. simpl. by rewrite String.eqb_refl. Qed.

Lemma json_get_tl k k' v l :
  String.eqb k k' = false -> json_get k (JObject ((k', v) :: l)) = json_get k (JObject l).
Proof. intros E. unfold json_get, assoc. simpl. by rewrite E. Qed.
