(* ===== verification/TextOps.v ===== *)
(** * Characters, splitting, joining and floating-point text

    Rust's [str] operations on text with characters beyond ASCII: [chars], [split] and
    [rfind] on one character, [split_whitespace], [join], the character boundaries of slices.
    A string is its UTF-8 bytes; a character is the substring of its bytes.
    Then [str::parse::<f64>] and [f64::to_string]: parsing rounds the exact decimal number to
    the nearest binary64; printing takes the fewest digits that parse back to the number,
    among these the ones nearest to it, and never an exponent. *)

From stdpp Require Import base strings list.
From Stdlib Require Import Ascii ZArith.
From Stdlib.Floats Require Import SpecFloat.
From S2P Require Import Prelude.
From S2P Require Import Bytes.
From S2P Require Import Text.
From S2P Require Import Float64.
Local Open Scope Z_scope.

(** ** Characters *)

(** A continuation byte belongs to the character before it. *)
Definition is_continuation (c : ascii) : bool := continues (char_byte c).

(** Whether the first byte satisfies [f]. *)
Definition head_is (f : ascii -> bool) (s : string) : bool :=
  match s with String c _ => f c | EmptyString => false end.

(** [s.chars()], each character as the string of its bytes. *)
Fixpoint chars (s : string) : list string :=
  match s with
  | EmptyString => []
  | String c s' =>
      match chars s' with
      | x :: l => if head_is is_continuation s' then String c x :: l else String c EmptyString :: x :: l
      | [] => [String c EmptyString]
      end
  end.

(** [concat()], the inverse. *)
Definition concat_str : list string -> string := foldr String.append EmptyString.

Lemma concat_chars s : concat_str (chars s) = s.
Proof.
  induction s as [|c s IH]; [done|]. cbn [chars].
  destruct (chars s) as [|x l]; [cbn in IH; by subst|].
  change (x +:+ concat_str l = s) in IH. destruct (head_is is_continuation s).
  - change (String c (x +:+ concat_str l) = String c s). by rewrite IH.
  - change (String c (x +:+ concat_str l) = String c s). by rewrite IH.
Qed.

(** [s.is_char_boundary(n)]. *)
Definition is_char_boundary (n : nat) (s : string) : bool :=
  match drop_str n s with
  | String c _ => negb (is_continuation c)
  | EmptyString => (n =? String.length s)%nat
  end.

(** ** Splitting and joining *)

(** [s.split(c)] for an ASCII character. *)
Fixpoint split_char (c : ascii) (s : string) : list string :=
  match s with
  | EmptyString => [EmptyString]
  | String d s' =>
      if Ascii.eqb c d then EmptyString :: split_char c s'
      else match split_char c s' with
           | x :: l => String d x :: l
           | [] => [String d EmptyString]
           end
  end.

(** [s.rfind(c)] with the parts before and after the character. *)
Fixpoint rsplit_once (c : ascii) (s : string) : option (string * string) :=
  match s with
  | EmptyString => None
  | String d s' =>
      match rsplit_once c s' with
      | Some (a, b) => Some (String d a, b)
      | None => if Ascii.eqb c d then Some (EmptyString, s') else None
      end
  end.

(** [s.split(pat)] for a pattern of several characters; a part never begins inside an
    occurrence of the pattern. *)
Fixpoint split_on (fuel : nat) (pat s : string) : list string :=
  match fuel with
  | O => [s]
  | S fuel =>
      match split_once pat s with
      | Some (a, b) => a :: split_on fuel pat b
      | None => [s]
      end
  end.
Definition split_str (pat s : string) : list string := split_on (String.length s) pat s.

(** [s.split_whitespace()]: the non-empty words. *)
Fixpoint split_whitespace (s : string) : list string :=
  match s with
  | EmptyString => []
  | String c s' =>
      if is_whitespace c then split_whitespace s'
      else match split_whitespace s' with
           | x :: l =>
               if head_is is_whitespace s' then String c EmptyString :: x :: l else String c x :: l
           | [] => [String c EmptyString]
           end
  end.

(** [l.join(" ")] *)
Fixpoint join (sep : string) (l : list string) : string :=
  match l with
  | [] => EmptyString
  | [x] => x
  | x :: l => x +:+ sep +:+ join sep l
  end.

(** ** Texts without given characters *)

Fixpoint all_bytes (f : ascii -> bool) (s : string) : bool :=
  match s with EmptyString => true | String c s' => f c && all_bytes f s' end.

Lemma all_bytes_app f s t : all_bytes f (s +:+ t) = all_bytes f s && all_bytes f t.
Proof.
  induction s as [|c s IH]; [done|]. rewrite str_app_cons. cbn [all_bytes]. by rewrite IH, andb_assoc.
Qed.

Lemma all_bytes_concat f l : all_bytes f (concat_str l) = forallb (all_bytes f) l.
Proof.
  induction l as [|s l IH]; [done|]. change (concat_str (s :: l)) with (s +:+ concat_str l).
  cbn [forallb]. by rewrite all_bytes_app, IH.
Qed.

Lemma all_bytes_impl (f g : ascii -> bool) s :
  (forall c, f c = true -> g c = true) -> all_bytes f s = true -> all_bytes g s = true.
Proof.
  intros Hfg. induction s as [|c s IH]; [done|]. cbn [all_bytes split_char rsplit_once]. rewrite !andb_true_iff.
  intros [Hc Hs]. auto.
Qed.

Lemma split_char_none c s : all_bytes (fun d => negb (Ascii.eqb c d)) s = true -> split_char c s = [s].
Proof.
  induction s as [|d s IH]; [done|]. cbn [all_bytes split_char rsplit_once]. intros H. b2p. destruct (Ascii.eqb c d); [done|].
  by rewrite IH.
Qed.

Lemma split_char_cut c s t :
  all_bytes (fun d => negb (Ascii.eqb c d)) s = true ->
  split_char c (s +:+ String c t) = s :: split_char c t.
Proof.
  induction s as [|d s IH].
  - intros _. change ("" +:+ String c t) with (String c t). cbn [split_char]. by rewrite Ascii.eqb_refl.
  - rewrite str_app_cons. cbn [all_bytes split_char]. intros H. b2p. destruct (Ascii.eqb c d); [done|]. by rewrite IH.
Qed.

(** Words without spaces, joined by single spaces, split back into the words. *)
Lemma split_join l :
  l <> [] -> Forall (fun s => all_bytes (fun d => negb (Ascii.eqb " " d)) s = true) l ->
  split_char " " (join " " l) = l.
Proof.
  intros Hne H. induction H as [|s l Hs Hl IH]; [done|]. destruct l as [|t l].
  - by apply split_char_none.
  - change (join " " (s :: t :: l)) with (s +:+ String " " (join " " (t :: l))).
    rewrite split_char_cut by done. f_equal. by apply IH.
Qed.

Lemma rsplit_once_none c s :
  all_bytes (fun d => negb (Ascii.eqb c d)) s = true -> rsplit_once c s = None.
Proof.
  induction s as [|d s IH]; [done|]. cbn [all_bytes split_char rsplit_once]. intros H. b2p. rewrite IH by done. by destruct (Ascii.eqb c d).
Qed.

Lemma rsplit_once_cut c s t :
  all_bytes (fun d => negb (Ascii.eqb c d)) t = true -> rsplit_once c (s +:+ String c t) = Some (s, t).
Proof.
  intros Ht. induction s as [|d s IH].
  - change ("" +:+ String c t) with (String c t). cbn [rsplit_once]. by rewrite rsplit_once_none, Ascii.eqb_refl.
  - rewrite str_app_cons. cbn [rsplit_once]. by rewrite IH.
Qed.

(** ** Floating-point numbers *)

(** ** Parsing *)

(** The binary64 nearest to [m * 10 ^ e], with the sign [neg]. *)
Definition f64_of_decimal (neg : bool) (m e : Z) : f64 :=
  match m with
  | Zpos p =>
      match e with
      | Zneg k => SFdiv 53 1024 (S754_finite neg p 0) (S754_finite false (10 ^ k)%positive 0)
      | _ => binary_normalize 53 1024 ((if neg then -1 else 1) * (m * 10 ^ e)) 0 neg
      end
  | _ => S754_zero neg
  end.

Definition is_digit (c : ascii) : bool :=
  match digit_value c with Some _ => true | None => false end.

(** The longest prefix of characters that satisfy [f], and the rest. *)
Fixpoint span (f : ascii -> bool) (s : string) : string * string :=
  match s with
  | String c s' => if f c then let '(a, b) := span f s' in (String c a, b) else (EmptyString, s)
  | EmptyString => (EmptyString, EmptyString)
  end.

Definition digits_value (s : string) : Z := default 0 (parse_digits s 0).

(** [e], an optional sign and at least one digit, up to the end of the text. *)
Definition parse_exponent (s : string) : option Z :=
  match s with
  | EmptyString => Some 0
  | String c t =>
      if Ascii.eqb (ascii_lower c) "e" then
        let '(neg, t) := match t with
                         | String "-" u => (true, u) | String "+" u => (false, u) | _ => (false, t)
                         end in
        match t with
        | EmptyString => None
        | _ => v ← parse_digits t 0; Some (if neg : bool then - v else v)
        end
      else None
  end.

(** Digits with an optional point, at least one digit in all, and an optional exponent. *)
Definition parse_f64_number (neg : bool) (s : string) : option f64 :=
  let '(int, rest) := span is_digit s in
  let '(frac, rest) := match rest with
                       | String "." t => span is_digit t
                       | _ => (EmptyString, rest)
                       end in
  if (String.length int + String.length frac =? 0)%nat then None
  else
    e ← parse_exponent rest;
    Some (f64_of_decimal neg (digits_value (int +:+ frac)) (e - Z.of_nat (String.length frac))).

(** [s.parse::<f64>()] *)
Definition parse_f64 (s : string) : option f64 :=
  let '(neg, t) := match s with
                   | String "-" t => (true, t) | String "+" t => (false, t) | _ => (false, s)
                   end in
  match to_lowercase t with
  | "inf" | "infinity" => Some (S754_infinity neg)
  | "nan" => Some S754_nan
  | _ => parse_f64_number neg t
  end.

(** ** Printing *)

(** [x], a finite positive number [m * 2 ^ e], times [10 ^ (- k)], rounded down. *)
Definition scaled (m : positive) (e k : Z) : Z :=
  (Zpos m * 2 ^ Z.max 0 e * 10 ^ Z.max 0 (- k)) / (2 ^ Z.max 0 (- e) * 10 ^ Z.max 0 k).

(** The distance of [d * 10 ^ k] to the number, up to a factor that does not depend on [d]. *)
Definition distance (m : positive) (e k d : Z) : Z :=
  Z.abs (d * 2 ^ Z.max 0 (- e) * 10 ^ Z.max 0 k
         - Zpos m * 2 ^ Z.max 0 e * 10 ^ Z.max 0 (- k)).

(** The better of the two neighbours at the scale [10 ^ k] that parse back. *)
Definition shortest_at (m : positive) (e k : Z) : option Z :=
  let back d := match SFcompare (f64_of_decimal false d k) (S754_finite false m e) with
                | Some Eq => true | _ => false end in
  let lo := scaled m e k in
  match back lo, back (lo + 1) with
  | true, true => Some (if distance m e k (lo + 1) <? distance m e k lo then lo + 1 else lo)
  | true, false => Some lo
  | false, true => Some (lo + 1)
  | false, false => None
  end.

(** The least [k] from the given one on with [x < 10 ^ k]: the decimal magnitude. *)
Fixpoint magnitude_up (fuel : nat) (m : positive) (e k : Z) : Z :=
  match fuel with
  | O => k
  | S fuel => if scaled m e k =? 0 then k else magnitude_up fuel m e (k + 1)
  end.

(** The scales from one digit to seventeen. *)
Fixpoint shortest (fuel : nat) (m : positive) (e k : Z) : Z * Z :=
  match fuel with
  | O => (scaled m e k, k)
  | S fuel =>
      match shortest_at m e k with
      | Some d => (d, k)
      | None => shortest fuel m e (k - 1)
      end
  end.

(** Trailing zeros of the digits move into the exponent. *)
Fixpoint strip_zeros (fuel : nat) (d k : Z) : Z * Z :=
  match fuel with
  | O => (d, k)
  | S fuel => if (d mod 10 =? 0) && (0 <? d) then strip_zeros fuel (d / 10) (k + 1) else (d, k)
  end.

Definition show_scaled (d k : Z) : string :=
  if 0 <=? k then show_int (d * 10 ^ k) else plain (Z.to_N d) (Z.to_nat (- k)).

(** A power of ten below the number: the binary logarithm times log10(2), rounded down. *)
Definition magnitude_estimate (m : positive) (e : Z) : Z :=
  ((Z.log2 (Zpos m) + e) * 30103) / 100000 - 1.

(** [x.to_string()].  The estimate is at most three below the magnitude. *)
Definition show_f64 (x : f64) : string :=
  match x with
  | S754_zero s => if s then "-0" else "0"
  | S754_infinity s => if s then "-inf" else "inf"
  | S754_nan => "NaN"
  | S754_finite s m e =>
      let k := magnitude_up 4 m e (magnitude_estimate m e) in
      let '(d, k) := shortest 18 m e (k - 1) in
      let '(d, k) := strip_zeros 18 d k in
      (if s then "-" else "") +:+ show_scaled d k
  end.

Example show_f64_cases :
  map show_f64 [f64_lit 3 2; f64_lit 1 10; f64_of_Z 4; f64_lit 1 3; f64_of_Z (10 ^ 21);
                f64_lit 5 1000; S754_finite true 1 (-1074)]
  = ["1.5"; "0.1"; "4"; "0.3333333333333333"; "1000000000000000000000"; "0.005";
     "-0." +:+ repeat_char "0" 323 +:+ "5"].
Proof. vm_compute. reflexivity. Qed.

Example parse_f64_cases :
  map (fun s => show_f64 <$> parse_f64 s) ["1.5"; ".25"; "7."; "1e3"; "-2.5E-1"; "+3"; "inf"; "."; ""; "1.2.3"; "e5"]
  = [Some "1.5"; Some "0.25"; Some "7"; Some "1000"; Some "-0.25"; Some "3"; Some "inf";
     None; None; None; None].
Proof. vm_compute. reflexivity. Qed.
