(* ===== verification/Retry.v ===== *)
(** * Retries and the circuit breaker (crates/bittensor/src/retry.rs)

    An operation is given by what each of its calls answers and how long it takes.  A
    run threads the time, the number of calls and the delays slept so far; random
    jitter comes from the environment, within its bounds.  Sums of durations are taken
    in Z: with delays below 2^62 seconds [Duration] does not overflow. *)

From stdpp Require Import base strings list.
From Stdlib Require Import ZArith.
From S2P Require Import Prelude.
From S2P Require Import Float64.
Local Open Scope Z_scope.

(** ** Errors of the chain client (crates/bittensor/src/error.rs)

    The error type, its categories, the retry settings of each category, and the
    conversions from the errors of the libraries below, which are given by their kind
    and their text.  Durations are nanoseconds in Z. *)

Definition from_millis (n : Z) : Z := n * 1000000.
Definition from_secs (n : Z) : Z := n * 1000000000.
Definition as_millis (d : Z) : Z := d / 1000000.

Inductive BittensorError :=
  | TxSubmissionError (message : string)
  | TxTimeoutError (message : string) (timeout : Z)
  | InsufficientTxFees (required available : Z)
  | InvalidNonce (expected actual : Z)
  | TxFinalizationError (reason : string)
  | TxDroppedError (reason : string)
  | RpcConnectionError (message : string)
  | RpcMethodError (method message : string)
  | RpcTimeoutError (message : string) (timeout : Z)
  | NetworkConnectivityError (message : string)
  | ChainSyncError (message : string)
  | WebsocketError (message : string)
  | MetadataError (message : string)
  | RuntimeVersionMismatch (expected actual : string)
  | StorageQueryError (key message : string)
  | BlockNotFound (hash : string)
  | InvalidBlockNumber (number : Z)
  | WalletLoadingError (message : string)
  | KeyDerivationError (message : string)
  | SignatureError (message : string)
  | InvalidHotkey (hotkey : string)
  | HotkeyNotRegistered (hotkey : string) (netuid : Z)
  | NeuronNotFound (uid netuid : Z)
  | SubnetNotFound (netuid : Z)
  | InsufficientStake (available required : Z)
  | WeightSettingFailed (netuid : Z) (reason : string)
  | InvalidWeights (reason : string)
  | RegistrationFailed (netuid : Z) (reason : string)
  | SerializationError (message : string)
  | ConfigError (field message : string)
  | OperationTimeout (operation : string) (timeout : Z)
  | RateLimitExceeded (message : string)
  | ServiceUnavailable (message : string)
  | MaxRetriesExceeded (attempts : Z)
  | BackoffTimeoutReached (duration : Z)
  | NonRetryable (message : string)
  | RpcError (message : string)
  | NetworkError (message : string)
  | ChainError (message : string)
  | WalletError (message : string)
  | TimeoutError (message : string)
  | AuthError (message : string)
  | InsufficientBalance (available required : Z).

Inductive ErrorCategory := Transient | RateLimit | Auth | Config | Network | Permanent.

#[export] Instance ErrorCategory_eq_dec : EqDecision ErrorCategory.
Proof. solve_decision. Defined.

Record RetryConfig := {
  max_attempts : Z;
  initial_delay : Z;
  max_delay : Z;
  backoff_multiplier : f64;
  jitter : bool
}.

Definition RetryConfig_default : RetryConfig := {|
  max_attempts := 3; initial_delay := from_millis 100; max_delay := from_secs 30;
  backoff_multiplier := f64_of_Z 2; jitter := true |}.
Definition RetryConfig_transient : RetryConfig := {|
  max_attempts := 5; initial_delay := from_millis 200; max_delay := from_secs 10;
  backoff_multiplier := f64_lit 3 2; jitter := true |}.
Definition RetryConfig_rate_limit : RetryConfig := {|
  max_attempts := 3; initial_delay := from_secs 1; max_delay := from_secs 60;
  backoff_multiplier := f64_of_Z 2; jitter := false |}.
Definition RetryConfig_network : RetryConfig := {|
  max_attempts := 4; initial_delay := from_millis 500; max_delay := from_secs 30;
  backoff_multiplier := f64_of_Z 2; jitter := true |}.
Definition RetryConfig_auth : RetryConfig := {|
  max_attempts := 2; initial_delay := from_secs 1; max_delay := from_secs 5;
  backoff_multiplier := f64_of_Z 1; jitter := false |}.

Definition mentions (message needle : string) : bool := contains needle (to_lowercase message).

Definition BittensorError_category (e : BittensorError) : ErrorCategory :=
  match e with
  | RpcConnectionError _ | RpcTimeoutError _ _ | TxTimeoutError _ _ | WebsocketError _
  | ChainSyncError _ | ServiceUnavailable _ | OperationTimeout _ _ | TxDroppedError _ => Transient
  | NetworkConnectivityError _ | NetworkError _ => Network
  | RateLimitExceeded _ => RateLimit
  | SignatureError _ | AuthError _ | HotkeyNotRegistered _ _ => Auth
  | ConfigError _ _ | InvalidHotkey _ | InvalidWeights _ | InvalidNonce _ _
  | RuntimeVersionMismatch _ _ | SerializationError _ => Config
  | NeuronNotFound _ _ | SubnetNotFound _ | InsufficientStake _ _ | InsufficientTxFees _ _
  | InsufficientBalance _ _ | NonRetryable _ | MaxRetriesExceeded _ | BackoffTimeoutReached _
  | BlockNotFound _ | InvalidBlockNumber _ => Permanent
  | RpcError message | ChainError message | TimeoutError message =>
      if mentions message "timeout" || mentions message "connection" then Transient else Permanent
  | WalletError message =>
      if mentions message "loading" || mentions message "file" then Config else Auth
  | TxSubmissionError _ | TxFinalizationError _ | RpcMethodError _ _ | MetadataError _
  | StorageQueryError _ _ | WalletLoadingError _ | KeyDerivationError _ | WeightSettingFailed _ _
  | RegistrationFailed _ _ => Transient
  end.

Definition BittensorError_retry_config (e : BittensorError) : option RetryConfig :=
  match BittensorError_category e with
  | Transient => Some RetryConfig_transient
  | RateLimit => Some RetryConfig_rate_limit
  | Network => Some RetryConfig_network
  | Auth => Some RetryConfig_auth
  | Config | Permanent => None
  end.

Definition BittensorError_is_retryable (e : BittensorError) : bool :=
  match BittensorError_category e with Config | Permanent => false | _ => true end.

(** ** Conversions *)

Definition from_anyhow (text : string) : BittensorError := ChainError text.

(** The variants of [subxt::Error] the conversion tells apart; the argument is the text
    of what they hold. *)
Inductive SubxtKind :=
  | SubxtRpc (text : string)
  | SubxtMetadata (text : string)
  | SubxtCodec (text : string)
  | SubxtTransaction (text : string)
  | SubxtBlock (text : string)
  | SubxtRuntime (text : string)
  | SubxtOther (text : string)
  | SubxtAnything.

(** [shown] is the text of the whole error. *)
Record SubxtError := { kind : SubxtKind; shown : string }.

Definition from_subxt (err : SubxtError) : BittensorError :=
  let says := mentions (shown err) in
  match kind err with
  | SubxtRpc t =>
      if mentions t "timeout" then RpcTimeoutError t (from_secs 30)
      else if mentions t "connection" || mentions t "network" then RpcConnectionError t
      else if mentions t "rate" || mentions t "limit" then RateLimitExceeded t
      else RpcMethodError "unknown" t
  | SubxtMetadata t =>
      if mentions t "version" then RuntimeVersionMismatch "unknown" "unknown" else MetadataError t
  | SubxtCodec t => SerializationError t
  | SubxtTransaction t =>
      if mentions t "timeout" then TxTimeoutError t (from_secs 60)
      else if mentions t "fee" || mentions t "balance" then InsufficientTxFees 0 0
      else if mentions t "nonce" then InvalidNonce 0 0
      else if mentions t "dropped" || mentions t "pool" then TxDroppedError t
      else if mentions t "finalization" || mentions t "finalized" then TxFinalizationError t
      else TxSubmissionError t
  | SubxtBlock t =>
      if says "not found" then BlockNotFound "unknown" else ChainError ("Block error: " +:+ t)
  | SubxtRuntime t =>
      if says "version" then RuntimeVersionMismatch "unknown" "unknown"
      else ChainError ("Runtime error: " +:+ t)
  | SubxtOther t =>
      if says "websocket" || says "ws" then WebsocketError t
      else if says "network" || says "connection" then NetworkConnectivityError t
      else ChainError t
  | SubxtAnything =>
      if says "timeout" then OperationTimeout "subxt_operation" (from_secs 30)
      else if says "network" || says "connection" then NetworkConnectivityError (shown err)
      else ChainError (shown err)
  end.

Definition from_io (text : string) : BittensorError :=
  if mentions text "file" || mentions text "path" || mentions text "io" then
    WalletLoadingError ("Wallet file access failed: " +:+ text)
  else if mentions text "key" || mentions text "derivation" then
    KeyDerivationError ("Key derivation failed: " +:+ text)
  else if mentions text "format" || mentions text "invalid" then InvalidHotkey "unknown"
  else WalletLoadingError ("Account loading failed: " +:+ text).

Definition from_secret_string (text : string) : BittensorError :=
  KeyDerivationError ("Key derivation failed: " +:+ text).

(** ** Facts *)

(** An error is retryable exactly if it has retry settings. *)
Lemma retryable_has_config e :
  BittensorError_is_retryable e = true <-> is_Some (BittensorError_retry_config e).
Proof.
  unfold BittensorError_is_retryable, BittensorError_retry_config.
  destruct (BittensorError_category e); split; (done || by intros []).
Qed.

(** The settings in use: at most five retries, and delays of at most a minute. *)
Lemma retry_config_bounds e c :
  BittensorError_retry_config e = Some c ->
  0 <= max_attempts c <= 5 /\ 0 <= initial_delay c <= max_delay c /\ max_delay c <= from_secs 60.
Proof.
  unfold BittensorError_retry_config.
  destruct (BittensorError_category e); intros [= <-]; simpl; by repeat split.
Qed.

(** ** Retries and the circuit breaker *)

(** [f64::powi] with a non-negative exponent, by repeated squaring. *)
Fixpoint powi_pos (x : f64) (n : positive) (acc : f64) : f64 :=
  match n with
  | xH => f64_mul acc x
  | xO p => powi_pos (f64_mul x x) p acc
  | xI p => powi_pos (f64_mul x x) p (f64_mul acc x)
  end.

Definition f64_powi (x : f64) (n : Z) : f64 :=
  match n with Zpos p => powi_pos x p (f64_of_Z 1) | _ => f64_of_Z 1 end.

(** ** Back-off *)

Record ExponentialBackoff := { config : RetryConfig; current_attempt : Z }.

Definition ExponentialBackoff_new (c : RetryConfig) : ExponentialBackoff :=
  {| config := c; current_attempt := 0 |}.

(** [gen_range(0..=bound)] makes [draw mod (bound + 1)] of any draw. *)
Definition add_jitter (draw delay : Z) : Z :=
  delay + from_millis (draw mod (wrap 64 (as_millis delay) / 4 + 1)).

(** The delay before jitter. *)
Definition capped_delay (b : ExponentialBackoff) : Z :=
  let base_delay := f64_of_Z (as_millis (initial_delay (config b))) in
  let multiplier := f64_powi (backoff_multiplier (config b)) (wrap_signed 32 (current_attempt b)) in
  let calculated := from_millis (f64_to_u64 (f64_mul base_delay multiplier)) in
  if max_delay (config b) <? calculated then max_delay (config b) else calculated.

Definition next_delay (draw : Z) (b : ExponentialBackoff) : option (Z * ExponentialBackoff) :=
  if max_attempts (config b) <=? current_attempt b then None
  else
    let delay := capped_delay b in
    let delay := if jitter (config b) then add_jitter draw delay else delay in
    Some (delay, {| config := config b; current_attempt := wrap 32 (current_attempt b + 1) |}).

Definition ExponentialBackoff_reset (b : ExponentialBackoff) : ExponentialBackoff :=
  {| config := config b; current_attempt := 0 |}.

Definition attempts (b : ExponentialBackoff) : Z := current_attempt b.

(** ** The executor *)

Section Retry.
Context {T : Type}.

Record RetryEnv := {
  answer : nat -> result BittensorError T;   (* of the n-th call *)
  call_takes : nat -> Z;
  oversleeps : nat -> Z;                     (* by how much the n-th sleep is too long *)
  draws : nat -> Z
}.

Record RetryState := { time : Z; calls : nat; slept : list Z }.

Definition call (env : RetryEnv) (s : RetryState) : result BittensorError T * RetryState :=
  (answer env (calls s),
   {| time := time s + call_takes env (calls s); calls := S (calls s); slept := slept s |}).

Definition sleep (env : RetryEnv) (delay : Z) (s : RetryState) : RetryState :=
  {| time := time s + delay + oversleeps env (length (slept s)); calls := calls s;
     slept := slept s ++ [delay] |}.

Record RetryExecutor := { total_timeout : option Z }.

Definition RetryExecutor_new : RetryExecutor := {| total_timeout := None |}.
Definition with_timeout (timeout : Z) (x : RetryExecutor) : RetryExecutor :=
  {| total_timeout := Some timeout |}.

Definition times_out (x : RetryExecutor) (elapsed delay : Z) : bool :=
  match total_timeout x with Some total => total <=? elapsed + delay | None => false end.

(** [while let Some(delay) = backoff.next_delay()]; [stop] tells which errors end the
    loop.  [None] is a loop cut short by its fuel. *)
Fixpoint retry_loop (fuel : nat) (x : RetryExecutor) (stop : BittensorError -> bool)
    (start_time : Z) (b : ExponentialBackoff) (env : RetryEnv) (s : RetryState)
    : option (result BittensorError T * RetryState) :=
  match fuel with
  | O => None
  | S fuel' =>
      match next_delay (draws env (length (slept s))) b with
      | None => Some (Err (MaxRetriesExceeded (max_attempts (config b))), s)
      | Some (delay, b') =>
          if times_out x (time s - start_time) delay then
            Some (Err (BackoffTimeoutReached (time s - start_time)), s)
          else
            match call env (sleep env delay s) with
            | (Ok v, s') => Some (Ok v, s')
            | (Err e, s') =>
                if stop e then Some (Err e, s') else retry_loop fuel' x stop start_time b' env s'
            end
      end
  end.

(** One turn more than there are attempts. *)
Definition loop_fuel (c : RetryConfig) : nat := S (Z.to_nat (max_attempts c)).

Definition execute (x : RetryExecutor) (env : RetryEnv) (s : RetryState)
    : option (result BittensorError T * RetryState) :=
  match call env s with
  | (Ok v, s') => Some (Ok v, s')
  | (Err e, s') =>
      if negb (BittensorError_is_retryable e) then Some (Err e, s')
      else
        match BittensorError_retry_config e with
        | None => Some (Err e, s')
        | Some c =>
            retry_loop (loop_fuel c) x (fun e => negb (BittensorError_is_retryable e)) (time s)
              (ExponentialBackoff_new c) env s'
        end
  end.

Definition execute_with_config (x : RetryExecutor) (c : RetryConfig) (env : RetryEnv)
    (s : RetryState) : option (result BittensorError T * RetryState) :=
  match call env s with
  | (Ok v, s') => Some (Ok v, s')
  | (Err e, s') =>
      retry_loop (loop_fuel c) x (fun _ => false) (time s) (ExponentialBackoff_new c) env s'
  end.

Definition retry_operation (env : RetryEnv) (s : RetryState)
    : option (result BittensorError T * RetryState) := execute RetryExecutor_new env s.

Definition retry_operation_with_timeout (timeout : Z) (env : RetryEnv) (s : RetryState)
    : option (result BittensorError T * RetryState) :=
  execute (with_timeout timeout RetryExecutor_new) env s.
End Retry.

Arguments RetryEnv : clear implicits.

(** ** The circuit breaker *)

Inductive CircuitState := Closed | Open | HalfOpen.

#[export] Instance CircuitState_eq_dec : EqDecision CircuitState.
Proof. solve_decision. Defined.

Record CircuitBreaker := {
  failure_threshold : Z;
  recovery_timeout : Z;
  current_failures : Z;
  state : CircuitState;
  last_failure_time : option Z
}.

Definition CircuitBreaker_new (threshold timeout : Z) : CircuitBreaker := {|
  failure_threshold := threshold; recovery_timeout := timeout; current_failures := 0;
  state := Closed; last_failure_time := None |}.

Definition breaker_open : BittensorError := ServiceUnavailable "Circuit breaker is open".

(** The breaker after the check of its state, if the operation may run. *)
Definition let_through (now : Z) (c : CircuitBreaker) : option CircuitBreaker :=
  match state c with
  | Open =>
      match last_failure_time c with
      | Some last =>
          if recovery_timeout c <=? now - last then
            Some {| failure_threshold := failure_threshold c; recovery_timeout := recovery_timeout c;
                    current_failures := current_failures c; state := HalfOpen;
                    last_failure_time := last_failure_time c |}
          else None
      | None => None
      end
  | Closed | HalfOpen => Some c
  end.

Definition on_success (c : CircuitBreaker) : CircuitBreaker := {|
  failure_threshold := failure_threshold c; recovery_timeout := recovery_timeout c;
  current_failures := 0;
  state := if decide (state c = HalfOpen) then Closed else state c;
  last_failure_time := None |}.

Definition on_failure (now : Z) (c : CircuitBreaker) : CircuitBreaker :=
  let failures := wrap 32 (current_failures c + 1) in {|
  failure_threshold := failure_threshold c; recovery_timeout := recovery_timeout c;
  current_failures := failures;
  state := if failure_threshold c <=? failures then Open else state c;
  last_failure_time := Some now |}.

(** [now] is read at the check, [later] when the operation has failed. *)
Definition CircuitBreaker_execute {T} (now later : Z) (op : result BittensorError T)
    (c : CircuitBreaker) : result BittensorError T * CircuitBreaker :=
  match let_through now c with
  | None => (Err breaker_open, c)
  | Some c' =>
      match op with
      | Ok v => (Ok v, on_success c')
      | Err e => (Err e, on_failure later c')
      end
  end.
