(* ===== verification/Signatures.v ===== *)
(** * Hotkeys and signatures

    basilica-common: identity.rs ([Hotkey]) and crypto/core.rs (hashes and signature
    checks), with the check of crates/bittensor/src/utils.rs.  BLAKE3, SS58 addresses and
    sr25519 belong to other libraries: they are the fields of [Crypto]. *)

From stdpp Require Import base strings list.
From Stdlib Require Import ZArith.
From stdpp Require Import base gmap list.
From S2P Require Import Prelude.
From S2P Require Import Bytes.
From S2P Require Import Text.
From S2P Require Import Retry.
Local Open Scope Z_scope.

Class Crypto := {
  blake3 : list Z -> list Z;
  ss58_public : string -> bool;                (* sr25519::Public::from_ss58check *)
  ss58_account : string -> bool;               (* AccountId32::from_ss58check *)
  account_id_from_str : string -> option (list Z);
  public_from_str : string -> option (list Z); (* sr25519::Public::from_str *)
  sr25519_verify : list Z -> list Z -> list Z -> bool (* signature, message, public key *)
}.

(** A digest is 32 bytes. *)
Class CryptoLaws `{Crypto} := {
  blake3_bytes d : Forall is_byte (blake3 d);
  blake3_length d : length (blake3 d) = 32%nat
}.

(** ** Hotkeys *)

(** [Hotkey(String)] *)
Notation Hotkey := string (only parsing).

Section Hotkeys.
Context `{Crypto}.

Definition hotkey_incompatible (h : string) : string :=
  "Hotkey is valid SS58 but incompatible with Bittensor network: " +:+ h.

Definition Hotkey_new (h : string) : result string Hotkey :=
  if (String.length h =? 0)%nat then Err "Hotkey cannot be empty"
  else if (String.length h <? 47)%nat || (48 <? String.length h)%nat then
    Err ("Invalid hotkey length: expected 47-48 characters, got "
         +:+ show_int (Z.of_nat (String.length h)))
  else if ss58_public h then
    match account_id_from_str h with Some _ => Ok h | None => Err (hotkey_incompatible h) end
  else if ss58_account h then
    match account_id_from_str h with Some _ => Ok h | None => Err (hotkey_incompatible h) end
  else Err ("Invalid SS58 format: checksum validation failed for " +:+ h).

(** A constructed hotkey is its text. *)
Lemma Hotkey_new_text h k : Hotkey_new h = Ok k -> k = h.
Proof. unfold Hotkey_new. intros. by repeat case_match; simplify_eq. Qed.

(** ** Hashes *)

Definition hash_blake3_string (data : list Z) : string := to_hex (blake3 data).

Definition derive_key_from_gpu_info (xof : list Z -> list Z) (gpu_info : string) : list Z :=
  xof (into_bytes "BASILCA_GPU_KEY_DERIVATION" ++ into_bytes gpu_info).

(** ** Signatures

    Messages leave out the text of the hexadecimal decoder's error. *)

(** [CryptoError], as far as the checks return it. *)
Inductive CryptoError := InvalidSignature (details : string).

Definition verify_bittensor_signature (h : Hotkey) (signature_hex : string) (data : list Z)
    : result CryptoError unit :=
  if (String.length signature_hex =? 0)%nat then Err (InvalidSignature "Empty signature")
  else if (length data =? 0)%nat then Err (InvalidSignature "Empty data")
  else
    match hex_decode signature_hex with
    | None => Err (InvalidSignature "Invalid hex signature format")
    | Some signature =>
        match public_from_str h with
        | None => Err (InvalidSignature ("Invalid hotkey format: " +:+ h))
        | Some public =>
            if negb (length signature =? 64)%nat then
              Err (InvalidSignature ("Invalid signature length: expected 64 bytes, got "
                                     +:+ show_int (Z.of_nat (length signature))))
            else if sr25519_verify signature data public then Ok tt
            else Err (InvalidSignature "Signature verification failed")
        end
    end.

Definition verify_signature_bittensor (h : Hotkey) (signature data : list Z)
    : result CryptoError unit :=
  verify_bittensor_signature h (to_hex signature) data.

(** crates/bittensor/src/utils.rs *)
Definition hotkey_to_account_id (h : Hotkey) : result BittensorError (list Z) :=
  match account_id_from_str h with Some a => Ok a | None => Err (InvalidHotkey h) end.

Definition chain_verify_signature (h : Hotkey) (signature_hex : string) (data : list Z)
    : result BittensorError unit :=
  if (String.length signature_hex =? 0)%nat then Err (InvalidHotkey "Empty signature")
  else if (length data =? 0)%nat then Err (AuthError "Empty data")
  else
    match hex_decode signature_hex with
    | None => Err (AuthError "Invalid hex signature format")
    | Some signature =>
        match hotkey_to_account_id h with
        | Err e => Err e
        | Ok account =>
            if negb (length signature =? 64)%nat then
              Err (AuthError ("Invalid signature length: expected 64 bytes, got "
                              +:+ show_int (Z.of_nat (length signature))))
            else if sr25519_verify signature data account then Ok tt
            else Err (AuthError "Signature verification failed")
        end
    end.

(** What a passed check says. *)
Lemma verify_bittensor_signature_ok h sig_hex data :
  verify_bittensor_signature h sig_hex data = Ok tt <->
  data <> [] /\ exists sig public, hex_decode sig_hex = Some sig /\ length sig = 64%nat /\
    public_from_str h = Some public /\ sr25519_verify sig data public = true.
Proof.
  unfold verify_bittensor_signature. split.
  - intros E. repeat case_match; simplify_eq; b2p. split; [by intros ->|].
    eexists _, _. split_and!; [done | | done | done].
    by apply Nat.eqb_eq.
  - intros (Hd & sig & public & E & Hl & Ep & Hv).
    destruct (String.length sig_hex =? 0)%nat eqn:El.
    { destruct sig_hex; [|done]. simpl in E. by simplify_eq. }
    destruct data; [done|]. simpl. by rewrite E, Ep, Hl, Hv.
Qed.

Lemma chain_verify_signature_ok h sig_hex data :
  chain_verify_signature h sig_hex data = Ok tt <->
  data <> [] /\ exists sig account, hex_decode sig_hex = Some sig /\ length sig = 64%nat /\
    account_id_from_str h = Some account /\ sr25519_verify sig data account = true.
Proof.
  unfold chain_verify_signature, hotkey_to_account_id. split.
  - intros E. repeat case_match; simplify_eq; b2p. split; [by intros ->|].
    eexists _, _. split_and!; [done | | done | done].
    by apply Nat.eqb_eq.
  - intros (Hd & sig & account & E & Hl & Ep & Hv).
    destruct (String.length sig_hex =? 0)%nat eqn:El.
    { destruct sig_hex; [|done]. simpl in E. by simplify_eq. }
    destruct data; [done|]. simpl. by rewrite E, Ep, Hl, Hv.
Qed.
End Hotkeys.

(** ** Used nonces

    The executor's MinerAuthService and the miner's RequestVerificationService keep the
    nonces they have seen with the time at which they saw them, refuse a nonce that is
    there and forget those older than the maximal age of a request and one hour.  Times
    are nanoseconds since 1970, in the range of chrono's [DateTime<Utc>]. *)

(** ** Times *)

Definition millisecond : Z := 1000000.
Definition minutes (n : Z) : Z := n * 60000000000.
Definition hours (n : Z) : Z := n * 3600000000000.

(** From -262143-01-01 to the end of 262142. *)
Definition datetime_ok (t : Z) : bool :=
  (-8334601228800000000000 <=? t) && (t <=? 8210266876799999999999).

Definition from_timestamp_millis (ms : Z) : option Z :=
  let t := ms * millisecond in if datetime_ok t then Some t else None.

Definition timestamp_millis (t : Z) : Z := t / millisecond.

(** [DateTime - Duration] panics out of the range. *)
Definition datetime_sub (t d : Z) : option Z := if datetime_ok (t - d) then Some (t - d) else None.

(** [now - max_request_age - Duration::hours(1)] *)
Definition nonce_cutoff (max_age now : Z) : option Z :=
  t ← datetime_sub now max_age; datetime_sub t (hours 1).

Inductive Age := Fresh | TooOld | InFuture.

(** The age of a request: at most [max_age], and at most a minute in the future. *)
Definition request_age (max_age now timestamp : Z) : Age :=
  let age := now - timestamp in
  if max_age <? age then TooOld
  else if age <? 0 then if minutes 1 <? Z.abs age then InFuture else Fresh
  else Fresh.

Lemma request_age_fresh max_age now ts :
  request_age max_age now ts = Fresh <-> now - ts <= max_age /\ ts - now <= minutes 1.
Proof.
  unfold request_age, minutes. split; intros; repeat case_match; simplify_eq; b2p; try lia; done.
Qed.

Lemma nonce_cutoff_some max_age now c : nonce_cutoff max_age now = Some c -> c = now - max_age - hours 1.
Proof. unfold nonce_cutoff, datetime_sub. intros. by repeat (case_match; simplify_eq/=). Qed.

(** ** The store *)

Section Store.
Context {K : Type} `{Countable K}.
Implicit Types m : gmap K Z.

Inductive Stored := Unused | Used | StorePanics.

Definition retain_after (cutoff : Z) m : gmap K Z := filter (fun kv => cutoff < kv.2) m.

(** A panic leaves the nonce in the map. *)
Definition store_nonce (max_age now : Z) (k : K) m : Stored * gmap K Z :=
  match m !! k with
  | Some _ => (Used, m)
  | None =>
      let m := <[k := now]> m in
      match nonce_cutoff max_age now with
      | Some cutoff => (Unused, retain_after cutoff m)
      | None => (StorePanics, m)
      end
  end.

Definition cleanup_nonces (max_age now : Z) m : option (gmap K Z) :=
  (fun cutoff => retain_after cutoff m) <$> nonce_cutoff max_age now.

Lemma lookup_retain_after cutoff m k t :
  retain_after cutoff m !! k = Some t <-> m !! k = Some t /\ cutoff < t.
Proof. apply map_lookup_filter_Some. Qed.

(** A nonce stored at [t0] stays until the first time beyond [t0 + max_age + 1h]. *)
Lemma retain_keeps max_age now c m k t :
  nonce_cutoff max_age now = Some c -> m !! k = Some t -> now < t + max_age + hours 1 ->
  retain_after c m !! k = Some t.
Proof.
  intros Hc Hm Ht. apply nonce_cutoff_some in Hc as ->. apply lookup_retain_after. split; [done|lia].
Qed.

Lemma store_nonce_keeps max_age now k k' t m :
  m !! k = Some t -> now < t + max_age + hours 1 ->
  (store_nonce max_age now k' m).2 !! k = Some t.
Proof.
  intros Hm Ht. unfold store_nonce. destruct (m !! k') eqn:E'; [done|].
  assert (k' <> k) by (intros ->; congruence).
  destruct (nonce_cutoff max_age now) as [c|] eqn:Ec; simpl.
  - eapply retain_keeps; [done | by rewrite lookup_insert_ne | done].
  - by rewrite lookup_insert_ne.
Qed.

(** An unused nonce is stored with the time of its use. *)
Lemma store_nonce_unused max_age now k m :
  (store_nonce max_age now k m).1 = Unused -> - hours 1 < max_age ->
  (store_nonce max_age now k m).2 !! k = Some now.
Proof.
  unfold store_nonce. destruct (m !! k) eqn:E; [done|].
  destruct (nonce_cutoff max_age now) as [c|] eqn:Ec; [|done]. simpl. intros _ Hage.
  eapply retain_keeps; [done | apply lookup_insert_eq | lia].
Qed.

Lemma cleanup_nonces_keeps max_age now m m' k t :
  cleanup_nonces max_age now m = Some m' -> m !! k = Some t -> now < t + max_age + hours 1 ->
  m' !! k = Some t.
Proof.
  unfold cleanup_nonces. destruct (nonce_cutoff max_age now) as [c|] eqn:Ec; [|done]. simpl.
  intros ? Hm Ht. simplify_eq. by eapply retain_keeps.
Qed.
End Store.

#[export] Hint Resolve store_nonce_keeps cleanup_nonces_keeps : basilica.
