(* ===== verification/RequestVerification.v ===== *)
(** * Verification of validator requests (basilica-miner/src/request_verification.rs)

    The miner's counterpart of MinerAuth.v: requests of validators with a nonce, a
    signature over method, path, time, nonce and body, and an optional list of allowed
    validators.  chrono's RFC 3339 text is a parameter, and so is the metadata of a gRPC
    request, given by the printable headers. *)

From stdpp Require Import base gmap strings list.
From Stdlib Require Import Ascii ZArith.
From S2P Require Import Prelude.
From S2P Require Import Bytes.
From S2P Require Import Text.
From S2P Require Import Signatures.
Local Open Scope Z_scope.

Class Rfc3339 := {
  to_rfc3339 : Z -> string;
  parse_from_rfc3339 : string -> option Z
}.

Record RequestSignature := {
  rs_validator_hotkey : string;
  rs_signature : string;
  rs_timestamp : Z;
  rs_nonce : string;
  rs_method : string;
  rs_path : string;
  rs_body_hash : option string
}.

Record RequestVerificationService := {
  rv_max_request_age : Z;
  rv_used_nonces : gmap string Z;
  allowed_validators : list Hotkey;
  rv_verify_signatures : bool
}.

Definition RequestVerificationService_new (max_age : Z) (allowed : list Hotkey) (verify : bool)
    : RequestVerificationService :=
  {| rv_max_request_age := max_age; rv_used_nonces := ∅; allowed_validators := allowed;
     rv_verify_signatures := verify |}.

Definition with_nonces (s : RequestVerificationService) (m : gmap string Z)
    : RequestVerificationService :=
  {| rv_max_request_age := rv_max_request_age s; rv_used_nonces := m;
     allowed_validators := allowed_validators s; rv_verify_signatures := rv_verify_signatures s |}.

Inductive RequestError :=
  | TooOldRequest
  | FutureRequest
  | ReusedNonce
  | BadHotkey (e : string)
  | NotAllowed
  | BodyHashMismatch
  | InvalidRequestSignature
  | VerificationPanics.

Section Verification.
Context `{Crypto} `{Rfc3339}.
Implicit Types (s : RequestVerificationService) (q : RequestSignature).

Definition newline : string := String "010" EmptyString.

Definition canonical_request (method path : string) (t : Z) (nonce : string)
    (body : option (list Z)) : string :=
  method +:+ newline +:+ path +:+ newline +:+ to_rfc3339 t +:+ newline +:+ nonce
  +:+ match body with Some b => newline +:+ to_hex (blake3 b) | None => EmptyString end.

Definition check_allowed q s : result RequestError unit :=
  match allowed_validators s with
  | [] => Ok tt
  | l =>
      match Hotkey_new (rs_validator_hotkey q) with
      | Err e => Err (BadHotkey e)
      | Ok h => if existsb (String.eqb h) l then Ok tt else Err NotAllowed
      end
  end.

Definition check_request_signature q (body : option (list Z)) s : result RequestError unit :=
  if rv_verify_signatures s then
    match Hotkey_new (rs_validator_hotkey q) with
    | Err e => Err (BadHotkey e)
    | Ok h =>
        let mismatch :=
          match body, rs_body_hash q with
          | Some b, Some expected => negb (String.eqb (to_hex (blake3 b)) expected)
          | _, _ => false
          end in
        if mismatch then Err BodyHashMismatch
        else
          match chain_verify_signature h (rs_signature q)
                  (into_bytes (canonical_request (rs_method q) (rs_path q) (rs_timestamp q)
                                 (rs_nonce q) body)) with
          | Ok _ => Ok tt
          | Err _ => Err InvalidRequestSignature
          end
    end
  else Ok tt.

Definition verify_request (now : Z) q (body : option (list Z)) s
    : result RequestError unit * RequestVerificationService :=
  match request_age (rv_max_request_age s) now (rs_timestamp q) with
  | TooOld => (Err TooOldRequest, s)
  | InFuture => (Err FutureRequest, s)
  | Fresh =>
      let '(r, nonces) := store_nonce (rv_max_request_age s) now (rs_nonce q) (rv_used_nonces s) in
      let s' := with_nonces s nonces in
      match r with
      | Used => (Err ReusedNonce, s')
      | StorePanics => (Err VerificationPanics, s')
      | Unused =>
          match check_allowed q s' with
          | Err e => (Err e, s')
          | Ok _ => (check_request_signature q body s', s')
          end
      end
  end.

Definition cleanup_request_nonces (now : Z) s : option RequestVerificationService :=
  with_nonces s <$> cleanup_nonces (rv_max_request_age s) now (rv_used_nonces s).

(** The interceptor: every gRPC request is signed as a POST to /grpc without a body. *)
Inductive InterceptError :=
  | MissingHeader (name : string)
  | InvalidTimestampFormat
  | VerificationFailed (e : RequestError).

Definition intercept (header : string -> option string) (now : Z) s
    : result InterceptError unit * RequestVerificationService :=
  match header "x-validator-hotkey" with
  | None => (Err (MissingHeader "x-validator-hotkey"), s)
  | Some hotkey =>
  match header "x-request-signature" with
  | None => (Err (MissingHeader "x-request-signature"), s)
  | Some sig =>
  match header "x-request-timestamp" with
  | None => (Err (MissingHeader "x-request-timestamp"), s)
  | Some ts =>
  match header "x-request-nonce" with
  | None => (Err (MissingHeader "x-request-nonce"), s)
  | Some nonce =>
  match parse_from_rfc3339 ts with
  | None => (Err InvalidTimestampFormat, s)
  | Some t =>
      let q := {| rs_validator_hotkey := hotkey; rs_signature := sig; rs_timestamp := t;
                  rs_nonce := nonce; rs_method := "POST"; rs_path := "/grpc"; rs_body_hash := None |} in
      match verify_request now q None s with
      | (Ok _, s') => (Ok tt, s')
      | (Err e, s') => (Err (VerificationFailed e), s')
      end
  end end end end end.

(** ** What acceptance means *)

Lemma verify_request_accepted now q body s :
  (verify_request now q body s).1 = Ok tt <->
  request_age (rv_max_request_age s) now (rs_timestamp q) = Fresh /\
  (store_nonce (rv_max_request_age s) now (rs_nonce q) (rv_used_nonces s)).1 = Unused /\
  check_allowed q s = Ok tt /\ check_request_signature q body s = Ok tt.
Proof.
  unfold verify_request. destruct (request_age _ _ _); [|by split; [|intros [? _]]..].
  destruct (store_nonce _ _ _ _) as [[] m]; simpl; [|by split; [|intros (_ & ? & _)]..].
  change (check_allowed q (with_nonces s m)) with (check_allowed q s).
  destruct (check_allowed q s) as [[]|]; [|by split; [|intros (_ & _ & ? & _)]].
  change (check_request_signature q body (with_nonces s m)) with (check_request_signature q body s).
  simpl. split; [done | by intros (_ & _ & _ & E)].
Qed.

(** An accepted request is fresh, from an allowed validator, signed over its own text and
    body, and its nonce is used from then on. *)
Lemma accepted_request_authentic now q body s :
  (verify_request now q body s).1 = Ok tt ->
  now - rs_timestamp q <= rv_max_request_age s /\ rs_timestamp q - now <= minutes 1 /\
  (allowed_validators s = [] \/ rs_validator_hotkey q ∈ allowed_validators s) /\
  (rv_verify_signatures s = true -> exists sig account,
    hex_decode (rs_signature q) = Some sig /\ length sig = 64%nat /\
    account_id_from_str (rs_validator_hotkey q) = Some account /\
    sr25519_verify sig (into_bytes (canonical_request (rs_method q) (rs_path q) (rs_timestamp q)
                                      (rs_nonce q) body)) account = true) /\
  rv_used_nonces (verify_request now q body s).2 !! rs_nonce q = Some now.
Proof.
  intros Hok. pose proof Hok as Hacc. apply verify_request_accepted in Hacc as (Hf & Hn & Ha & Hs).
  apply request_age_fresh in Hf as Hf'. destruct Hf' as [Hold Hnew]. split_and!; [done | done | | |].
  - unfold check_allowed in Ha. destruct (allowed_validators s) as [|h l] eqn:El; [by left | right].
    destruct (Hotkey_new _) as [k|] eqn:Ek; [|done]. apply Hotkey_new_text in Ek as ->.
    destruct (existsb _ _) eqn:Ex; [|done]. apply existsb_exists in Ex as (k & Hk & Hek).
    apply String.eqb_eq in Hek as ->. by apply list_elem_of_In.
  - intros Hv. unfold check_request_signature in Hs. rewrite Hv in Hs.
    destruct (Hotkey_new _) as [k|] eqn:Ek; [|done]. apply Hotkey_new_text in Ek as ->.
    case_match; [done|]. destruct (chain_verify_signature _ _ _) as [[]|] eqn:Ec; [|done].
    apply chain_verify_signature_ok in Ec as (_ & sig & account & ? & ? & ? & ?). by exists sig, account.
  - unfold verify_request. rewrite Hf. pose proof (store_nonce_unused _ _ _ _ Hn) as Hst.
    destruct (store_nonce _ _ _ _) as [r m]. simpl in *. subst r.
    assert (m !! rs_nonce q = Some now) by (apply Hst; unfold hours, minutes in *; lia).
    by destruct (check_allowed q _) as [[]|].
Qed.
End Verification.
