(* ===== verification/RetryClaims.v ===== *)
(** * Retries and the circuit breaker: the properties *)

From stdpp Require Import base strings list.
From Stdlib Require Import ZArith.
From S2P Require Import Prelude.
From S2P Require Import Float64.
From S2P Require Import Retry.
Local Open Scope Z_scope.

(** ** Delays *)

Definition delay_ok (c : RetryConfig) (d : Z) : Prop := 0 <= d <= max_delay c + max_delay c / 4.

Lemma capped_delay_range b : 0 <= max_delay (config b) -> 0 <= capped_delay b <= max_delay (config b).
Proof.
  intros Hm. unfold capped_delay, from_millis.
  pose proof (f64_to_uint_range u64_max (f64_mul (f64_of_Z (as_millis (initial_delay (config b))))
    (f64_powi (backoff_multiplier (config b)) (wrap_signed 32 (current_attempt b))))).
  unfold f64_to_u64. case_match; b2p; unfold u64_max in *; lia.
Qed.

Lemma add_jitter_range draw d : 0 <= d -> d <= add_jitter draw d <= d + d / 4.
Proof.
  intros Hd. unfold add_jitter, from_millis, as_millis.
  assert (Hms : 0 <= d / 1000000) by (apply Z.div_pos; lia).
  assert (Hw : 0 <= wrap 64 (d / 1000000) <= d / 1000000).
  { split; [by apply wrap_range|]. by apply Z.mod_le. }
  assert (Hq : 0 <= wrap 64 (d / 1000000) / 4) by (apply Z.div_pos; lia).
  pose proof (Z.mod_pos_bound draw (wrap 64 (d / 1000000) / 4 + 1) ltac:(lia)).
  pose proof (Z.mul_div_le d 1000000 ltac:(lia)).
  pose proof (Z.mul_div_le (wrap 64 (d / 1000000)) 4 ltac:(lia)).
  split; [lia|]. apply Z.add_le_mono_l, Z.div_le_lower_bound; lia.
Qed.

Lemma next_delay_spec draw b :
  0 <= max_delay (config b) -> 0 <= current_attempt b -> max_attempts (config b) < 2 ^ 32 ->
  match next_delay draw b with
  | None => max_attempts (config b) <= current_attempt b
  | Some (d, b') => current_attempt b < max_attempts (config b) /\ delay_ok (config b) d /\
      b' = {| config := config b; current_attempt := current_attempt b + 1 |}
  end.
Proof.
  intros Hm Hc Ha. unfold next_delay.
  destruct (max_attempts (config b) <=? current_attempt b) eqn:E; b2p; [done|]. split; [done|].
  pose proof (capped_delay_range b Hm) as Hd. split.
  - unfold delay_ok. destruct (jitter (config b)).
    + pose proof (add_jitter_range draw (capped_delay b) (proj1 Hd)).
      assert (capped_delay b / 4 <= max_delay (config b) / 4) by (apply Z.div_le_mono; lia). lia.
    + assert (0 <= max_delay (config b) / 4) by (apply Z.div_pos; lia). lia.
  - f_equal. apply wrap_small. lia.
Qed.

(** ** The loop *)

Section Loop.
Context {T : Type} (env : RetryEnv T) (x : RetryExecutor) (stop : BittensorError -> bool) (t0 : Z).

(** The call failed in a way the loop goes on from. *)
Definition fails (n : nat) : Prop := exists e, answer env n = Err e /\ stop e = false.

(** Time only passes. *)
Definition time_passes : Prop := forall n, 0 <= call_takes env n /\ 0 <= oversleeps env n.

(** How [k] retries with the given delays ended. *)
Definition ended (c : RetryConfig) (first k left_over : nat) (r : result BittensorError T)
    (elapsed : Z) : Prop :=
  match r with
  | Ok v => (0 < k)%nat /\ answer env (first + k - 1) = Ok v
  | Err e =>
      (0 < k)%nat /\ answer env (first + k - 1) = Err e /\ stop e = true \/
      (forall i, (first <= i < first + k)%nat -> fails i) /\
      (e = MaxRetriesExceeded (max_attempts c) /\ k = left_over \/
       exists total, total_timeout x = Some total /\ e = BackoffTimeoutReached elapsed /\
         total <= elapsed + (max_delay c + max_delay c / 4))
  end.

Definition in_time (before : Z) (ds : list Z) : Prop :=
  match total_timeout x with
  | Some total => ds = [] \/ before + foldr Z.add 0 ds < total
  | None => True
  end.

Lemma ended_later c first k n r elapsed :
  fails first -> (0 < n)%nat -> ended c (S first) k (pred n) r elapsed ->
  ended c first (S k) n r elapsed.
Proof.
  intros Hf Hn. unfold ended. replace (first + S k - 1)%nat with (S first + k - 1)%nat by lia.
  destruct r as [v|e]; [intros [Hk Hv]; by split; [lia|]|].
  intros [(Hk & Hv & Hs)|[Hall He]]; [left; by split_and!; [lia|..]|right]. split.
  - intros i Hi. destruct (decide (i = first)) as [->|]; [done|]. apply Hall. lia.
  - destruct He as [[-> ->]|He]; [left; split; [done|lia]|by right].
Qed.

Lemma in_time_later before later d ds :
  in_time before [d] -> before + d <= later -> in_time later ds -> in_time before (d :: ds).
Proof.
  unfold in_time. destruct (total_timeout x) as [total|]; [|done]. simpl.
  intros [?|Hd] Hl [->|Hds]; [done..|right; simpl; lia|right; lia].
Qed.

Lemma retry_loop_spec fuel b s :
  0 <= max_delay (config b) -> 0 <= current_attempt b -> max_attempts (config b) < 2 ^ 32 ->
  (Z.to_nat (max_attempts (config b) - current_attempt b) < fuel)%nat ->
  exists r s' ds, retry_loop fuel x stop t0 b env s = Some (r, s') /\
    calls s' = (calls s + length ds)%nat /\ slept s' = slept s ++ ds /\
    (length ds <= Z.to_nat (max_attempts (config b) - current_attempt b))%nat /\
    Forall (delay_ok (config b)) ds /\
    (forall i, (calls s <= i < calls s + length ds - 1)%nat -> fails i) /\
    ended (config b) (calls s) (length ds)
      (Z.to_nat (max_attempts (config b) - current_attempt b)) r (time s' - t0) /\
    (time_passes -> in_time (time s - t0) ds).
Proof.
  intros Hm Hc Ha. revert b s Hm Hc Ha. induction fuel as [|fuel IH]; intros b s Hm Hc Ha Hf; [lia|].
  simpl. pose proof (next_delay_spec (draws env (length (slept s))) b Hm Hc Ha) as Hn.
  destruct (next_delay _ b) as [[d b']|].
  2:{ eexists _, s, []. rewrite app_nil_r. split_and!; try done; simpl; try lia.
      - right. split; [lia|]. left. split; [done|lia].
      - intros _. unfold in_time. case_match; [by left|done]. }
  destruct Hn as (Hlt & Hd & ->). destruct (times_out x (time s - t0) d) eqn:Et.
  { eexists _, s, []. rewrite app_nil_r. split_and!; try done; simpl; try lia.
    - right. split; [lia|]. right. unfold times_out in Et.
      destruct (total_timeout x) as [total|]; [|done]. b2p. exists total.
      unfold delay_ok in Hd. split_and!; [done..|lia].
    - intros _. unfold in_time. case_match; [by left|done]. }
  assert (Hin : in_time (time s - t0) [d]).
  { unfold in_time. unfold times_out in Et. destruct (total_timeout x); [|done]. b2p. right. simpl. lia. }
  unfold call. simpl. destruct (answer env (calls s)) as [v | e] eqn:Ea.
  { eexists _, _, [d]. split; [done|]. simpl. split_and!; try done; try lia.
    - by apply Forall_singleton.
    - by replace (calls s + 1 - 1)%nat with (calls s) by lia. }
  destruct (stop e) eqn:Es.
  { eexists _, _, [d]. split; [done|]. simpl. split_and!; try done; try lia.
    - by apply Forall_singleton.
    - left. replace (calls s + 1 - 1)%nat with (calls s) by lia. by split_and!; [lia|..]. }
  match goal with |- context [retry_loop fuel x stop t0 ?b' env ?s'] =>
    destruct (IH b' s') as (r & s'' & ds & -> & Hcalls & Hsl & Hlen & Hds & Hfa & Hend & Hti) end;
    [done|simpl; lia|done|simpl; lia|]. simpl in *.
  assert (Hfirst : fails (calls s)) by by exists e.
  exists r, s'', (d :: ds). split; [done|]. simpl. split_and!.
  - lia.
  - by rewrite Hsl, <- app_assoc.
  - lia.
  - by constructor.
  - intros i Hi. destruct (decide (i = calls s)) as [->|]; [done|]. apply Hfa. lia.
  - apply ended_later; [done|lia|]. by replace (pred _) with
      (Z.to_nat (max_attempts (config b) - (current_attempt b + 1))) by lia.
  - intros Htp. eapply in_time_later; [done| |by apply Hti].
    destruct (Htp (calls s)) as [Hct _]. destruct (Htp (length (slept s))) as [_ Hov]. lia.
Qed.
End Loop.

(** An error another attempt may cure. *)
Definition retryable_failure {T} (env : RetryEnv T) (n : nat) : Prop :=
  exists e, answer env n = Err e /\ BittensorError_is_retryable e = true.

Lemma ended_answer {T} (env : RetryEnv T) x c e0 first k r elapsed :
  0 <= max_attempts c -> max_delay c + max_delay c / 4 <= from_secs 75 ->
  answer env first = Err e0 -> BittensorError_retry_config e0 = Some c ->
  retryable_failure env first ->
  ended env x (fun e => negb (BittensorError_is_retryable e)) c (S first) k
    (Z.to_nat (max_attempts c)) r elapsed ->
  match r with
  | Ok v => answer env (first + k) = Ok v
  | Err e =>
      answer env (first + k) = Err e /\ BittensorError_is_retryable e = false \/
      retryable_failure env (first + k) /\
      ((exists e0 c, answer env first = Err e0 /\ BittensorError_retry_config e0 = Some c /\
          e = MaxRetriesExceeded (max_attempts c) /\ Z.of_nat k = max_attempts c) \/
       (exists total, total_timeout x = Some total /\ e = BackoffTimeoutReached elapsed /\
          total <= elapsed + from_secs 75))
  end.
Proof.
  intros Hm Hd Ha Hc H0. unfold ended. replace (S first + k - 1)%nat with (first + k)%nat by lia.
  destruct r as [v|e]; [by intros [_ ?]|].
  intros [(_ & He & Hs%negb_true_iff)|[Hall He]]; [by left|right]. split.
  - destruct k as [|k]; [by rewrite Nat.add_0_r|].
    destruct (Hall (first + S k)%nat) as (e' & He' & Hs'%negb_false_iff); [lia|]. by exists e'.
  - destruct He as [[-> ->]|(total & Et & -> & Hle)]; [left|right].
    + exists e0, c. split_and!; [done..|lia].
    + exists total. split_and!; [done..|lia].
Qed.

(** C16: retrying terminates.  For every operation, [execute] returns after the first call
    and at most five retries, so at most six calls; each retry comes after a delay of at
    most 75 seconds, and every call but the last failed with a retryable error.  The result is the answer of the last call, if that is a
    success or an error that is not retryable; otherwise all calls failed, and either
    the attempts for the category of the first error are used up, or one more delay
    would have exceeded the total timeout.  If time only passes, the delays add up to
    less than the total timeout. *)
Theorem retries_terminate {T} (x : RetryExecutor) (env : RetryEnv T) s :
  exists r s' ds, execute x env s = Some (r, s') /\
    calls s' = (calls s + 1 + length ds)%nat /\ slept s' = slept s ++ ds /\ (length ds <= 5)%nat /\
    Forall (fun d => 0 <= d <= from_secs 75) ds /\
    (forall i, (calls s <= i < calls s' - 1)%nat -> retryable_failure env i) /\
    match r with
    | Ok v => answer env (calls s' - 1) = Ok v
    | Err e =>
        answer env (calls s' - 1) = Err e /\ BittensorError_is_retryable e = false \/
        retryable_failure env (calls s' - 1) /\
        ((exists e0 c, answer env (calls s) = Err e0 /\ BittensorError_retry_config e0 = Some c /\
            e = MaxRetriesExceeded (max_attempts c) /\ Z.of_nat (length ds) = max_attempts c) \/
         (exists total, total_timeout x = Some total /\
            e = BackoffTimeoutReached (time s' - time s) /\
            total <= time s' - time s + from_secs 75))
    end /\
    (time_passes env -> forall total, total_timeout x = Some total ->
       ds = [] \/ foldr Z.add 0 ds < total).
Proof.
  unfold execute, call. destruct (answer env (calls s)) as [v|e0] eqn:Ea.
  { eexists _, _, []. rewrite app_nil_r. split; [done|]. simpl. rewrite Nat.sub_0_r.
    split_and!; try done; try lia. by left. }
  destruct (BittensorError_is_retryable e0) eqn:Er; cbn [negb].
  2:{ eexists _, _, []. rewrite app_nil_r. split; [done|]. simpl. rewrite Nat.sub_0_r.
      split_and!; try done; try lia; by left. }
  destruct (proj1 (retryable_has_config e0) Er) as [c Hc]. rewrite Hc.
  pose proof (retry_config_bounds e0 c Hc) as (Hmax & Hini & Hdel).
  assert (Hd : max_delay c + max_delay c / 4 <= from_secs 75).
  { assert (max_delay c / 4 <= from_secs 60 / 4) by (apply Z.div_le_mono; lia).
    unfold from_secs in *. change (60 * 1000000000 / 4) with (15 * 1000000000) in *. lia. }
  match goal with |- context [retry_loop _ x ?stop ?t0 ?b env ?s1] =>
    destruct (retry_loop_spec env x stop t0 (loop_fuel c) b s1)
      as (r & s' & ds & -> & Hcalls & Hsl & Hlen & Hds & Hfa & Hend & Hti) end;
    [simpl; lia|simpl; lia|simpl; lia|simpl; unfold loop_fuel; lia|]. simpl in *.
  assert (Hto : forall n, fails env (fun e => negb (BittensorError_is_retryable e)) n ->
    retryable_failure env n) by (intros n (e & He & Hs%negb_false_iff); by exists e).
  assert (H0 : retryable_failure env (calls s)) by by exists e0.
  exists r, s', ds. split; [done|]. split_and!.
  - lia.
  - done.
  - lia.
  - eapply Forall_impl; [done|]. unfold delay_ok. simpl. intros d ?. lia.
  - intros i Hi. destruct (decide (i = calls s)) as [->|]; [done|]. apply Hto, Hfa. lia.
  - replace (calls s' - 1)%nat with (calls s + length ds)%nat by lia.
    rewrite <- Ea. eapply (ended_answer env x c e0 (calls s)); [lia|done..|].
    by rewrite Z.sub_0_r in Hend.
  - intros Htp total Et. specialize (Hti Htp). unfold in_time in Hti. rewrite Et in Hti.
    destruct Hti as [->|Hti]; [by left|right]. destruct (Htp (calls s)). lia.
Qed.

(** ** The circuit breaker *)

(** A reference: the calls that ran, the last one first, with the time and whether they
    succeeded. *)
Definition CallHistory : Type := list (Z * bool).

Fixpoint failures_in_row (h : CallHistory) : Z :=
  match h with (_, false) :: h' => 1 + failures_in_row h' | _ => 0 end.

(** Enough calls in a row have failed, the last one not long ago. *)
Definition refuses (threshold timeout now : Z) (h : CallHistory) : bool :=
  match h with
  | (t, false) :: _ => (threshold <=? failures_in_row h) && (now - t <? timeout)
  | _ => false
  end.

Section Breaker.
Context {T : Type} (threshold timeout : Z).

(** A request: when it is made, when its operation ends, and what it answers. *)
Definition Request : Type := Z * Z * result BittensorError T.

Fixpoint breaker_run (c : CircuitBreaker) (reqs : list Request) : list (result BittensorError T) :=
  match reqs with
  | [] => []
  | (now, later, op) :: rest =>
      let '(r, c') := CircuitBreaker_execute now later op c in r :: breaker_run c' rest
  end.

Fixpoint reference_run (h : CallHistory) (reqs : list Request) : list (result BittensorError T) :=
  match reqs with
  | [] => []
  | (now, later, op) :: rest =>
      if refuses threshold timeout now h then Err breaker_open :: reference_run h rest
      else op :: reference_run ((later, is_Ok op) :: h) rest
  end.

(** The breaker between two requests, for a history. *)
Definition breaker_of (h : CallHistory) : CircuitBreaker := {|
  failure_threshold := threshold; recovery_timeout := timeout;
  current_failures := failures_in_row h;
  state := match h with
           | (_, false) :: _ => if threshold <=? failures_in_row h then Open else Closed
           | _ => Closed
           end;
  last_failure_time := match h with (t, false) :: _ => Some t | _ => None end |}.

Lemma failures_in_row_range h : 0 <= failures_in_row h <= Z.of_nat (length h).
Proof. induction h as [|[t []] h IH]; simpl; lia. Qed.

Lemma execute_breaker_of now later (op : result BittensorError T) h :
  Z.of_nat (length h) < 2 ^ 32 - 1 ->
  CircuitBreaker_execute now later op (breaker_of h) =
    if refuses threshold timeout now h then (Err breaker_open, breaker_of h)
    else (op, breaker_of ((later, is_Ok op) :: h)).
Proof.
  intros Hlen. pose proof (failures_in_row_range h) as Hr.
  assert (Hw : wrap 32 (failures_in_row h + 1) = 1 + failures_in_row h)
    by (rewrite wrap_small; lia).
  assert (Hmono : threshold <= failures_in_row h -> (threshold <=? 1 + failures_in_row h) = true)
    by (intros; apply Z.leb_le; lia).
  unfold CircuitBreaker_execute, let_through, refuses.
  destruct h as [|[t []] h]; simpl; [by destruct op; unfold on_failure, on_success; simpl; rewrite ?Hw..|].
  destruct (threshold <=? 1 + failures_in_row h) eqn:Et; simpl.
  - destruct (timeout <=? now - t) eqn:Eo; b2p.
    + rewrite (proj2 (Z.ltb_ge _ _)) by lia. destruct op; unfold on_failure, on_success; simpl in *;
        [done|]. rewrite Hw, Hmono by lia. unfold breaker_of. simpl. by rewrite Hmono by lia.
    + by rewrite (proj2 (Z.ltb_lt _ _)) by lia.
  - destruct op; unfold on_failure, on_success, breaker_of; simpl in *; rewrite ?Hw, ?Et; done.
Qed.
End Breaker.

(** the breaker follows the history of its calls.  For every threshold and timeout
    and any sequence of fewer than 2^32 requests, the breaker answers as the reference
    does: it refuses a request exactly while the calls that ran last have failed in a
    row at least threshold times (and at least once) and the last of them less than the
    timeout ago; every other request runs its operation and returns its answer. *)
Theorem breaker_follows_history {T} threshold timeout (reqs : list (Request (T := T))) :
  Z.of_nat (length reqs) < 2 ^ 32 ->
  breaker_run (CircuitBreaker_new threshold timeout) reqs =
    reference_run threshold timeout [] reqs.
Proof.
  change (CircuitBreaker_new threshold timeout) with (breaker_of threshold timeout []).
  assert (Hgen : forall h, Z.of_nat (length h) + Z.of_nat (length reqs) < 2 ^ 32 ->
    breaker_run (breaker_of threshold timeout h) reqs = reference_run threshold timeout h reqs).
  { induction reqs as [|[[now later] op] reqs IH]; intros h Hlen; [done|]. simpl in Hlen.
    cbn [breaker_run reference_run]. rewrite execute_breaker_of by lia.
    destruct (refuses threshold timeout now h); (rewrite IH; [done|simpl; lia]). }
  intros Hlen. apply Hgen. simpl. lia.
Qed.

Lemma breaker_follows_history_witness :
  let boom := Err (NetworkError "down") in
  let reqs : list (Request (T := nat)) :=
    [(0, 1, boom); (2, 3, boom); (4, 5, Ok 7%nat); (20, 21, Ok 8%nat); (22, 23, Ok 9%nat)] in
  breaker_run (CircuitBreaker_new 2 10) reqs = reference_run 2 10 [] reqs /\
  reference_run 2 10 [] reqs = [boom; boom; Err breaker_open; Ok 8%nat; Ok 9%nat].
Proof.
  intros boom reqs. split; [|reflexivity]. apply (breaker_follows_history 2 10 reqs). simpl. lia.
Defined.
