(* ===== verification/Decimal.v ===== *)
(** * External numeric and identifier types

    [rust_decimal::Decimal] and [uuid::Uuid] are library types: the development
    takes their operations as the class [Decimal] and the class [UuidText], and the
    documented behaviour the billing code relies on as the law classes
    [DecimalLaws] and [UuidTextLaws].  The last part gives a concrete instance, at
    which the witnesses of the theorems are evaluated. *)

From Stdlib Require Import ZArith.
From Stdlib.Strings Require HexString.
From Stdlib.Floats Require Import SpecFloat.
From stdpp Require Import base gmap strings numbers.
From S2P Require Import Prelude Text Float64.
Local Open Scope Z_scope.

(** A [Decimal] is an integer mantissa over a power of ten at most [10^28]: its
    value times [dec_scale] is an integer, [dec_num]. *)
Definition dec_scale : Z := 10 ^ 28.

Class Decimal := {
  dec : Type;
  dec_num : dec -> Z;
  dec_zero : dec;
  dec_one : dec;
  dec_of_Z : Z -> dec;                        (* Decimal::from(integer) *)
  dec_of_f64 : f64 -> option dec;             (* Decimal::from_f64 *)
  dec_of_f64_retain : f64 -> option dec;      (* Decimal::from_f64_retain *)
  dec_add : dec -> dec -> dec;
  dec_sub : dec -> dec -> dec;
  dec_mul : dec -> dec -> dec;
  dec_div : dec -> dec -> dec;
  dec_round_dp : Z -> dec -> dec;
  dec_to_string : dec -> string;
  dec_of_string : string -> option dec;       (* str::parse *)
  dec_of_numeric : Z -> Z -> dec;             (* sqlx decoding of NUMERIC(_, s) *)
}.

(** [Ord] and [Eq] of [Decimal] compare numeric values. *)
Definition dec_leb `{Decimal} (a b : dec) : bool := dec_num a <=? dec_num b.
Definition dec_ltb `{Decimal} (a b : dec) : bool := dec_num a <? dec_num b.
Definition dec_eqb `{Decimal} (a b : dec) : bool := dec_num a =? dec_num b.
Definition dec_max `{Decimal} (a b : dec) : dec := if dec_leb a b then b else a.
(** [unwrap_or_default] on a [Decimal]. *)
Definition dec_default `{Decimal} (o : option dec) : dec := default dec_zero o.

(** Representable: a 96-bit mantissa at some scale up to 28. *)
Definition dec_representable (z : Z) : Prop :=
  exists s, 0 <= s <= 28 /\ (10 ^ (28 - s) | z) /\ Z.abs z < 2 ^ 96 * 10 ^ (28 - s).

Class DecimalLaws `{Decimal} := {
  dec_num_zero : dec_num dec_zero = 0;
  dec_num_one : dec_num dec_one = dec_scale;
  dec_num_of_Z z : dec_representable (z * dec_scale) -> dec_num (dec_of_Z z) = z * dec_scale;
  (** Arithmetic is exact whenever the exact result is representable. *)
  dec_num_add a b :
    dec_representable (dec_num a + dec_num b) -> dec_num (dec_add a b) = dec_num a + dec_num b;
  dec_num_sub a b :
    dec_representable (dec_num a - dec_num b) -> dec_num (dec_sub a b) = dec_num a - dec_num b;
  dec_num_mul a b z :
    dec_num a * dec_num b = z * dec_scale -> dec_representable z -> dec_num (dec_mul a b) = z;
  (** Products round to nearest, so they are monotone below the overflow bound. *)
  dec_mul_mono a f g :
    0 <= dec_num a -> dec_num f <= dec_num g ->
    dec_num a * dec_num g < 2 ^ 95 * dec_scale * dec_scale ->
    dec_num (dec_mul a f) <= dec_num (dec_mul a g);
  (** [round_dp(6)] gives a multiple of [10^-6], the value itself if it is one,
      and is monotone. *)
  dec_round_grid a : (10 ^ 22 | dec_num (dec_round_dp 6 a));
  dec_round_id a : (10 ^ 22 | dec_num a) -> dec_num (dec_round_dp 6 a) = dec_num a;
  dec_round_mono a b :
    dec_num a <= dec_num b -> dec_num (dec_round_dp 6 a) <= dec_num (dec_round_dp 6 b);
  dec_string_roundtrip a :
    exists a', dec_of_string (dec_to_string a) = Some a' /\ dec_num a' = dec_num a;
  dec_num_of_numeric s z :
    0 <= s <= 28 -> Z.abs z < 10 ^ 20 -> dec_num (dec_of_numeric s z) = z * 10 ^ (28 - s);
  (** Digits with an optional point, within the range, parse to their value. *)
  dec_parse_plain t m s :
    parse_plain t = Some (m, s) -> (s <= 28)%nat -> m < 2 ^ 96 ->
    exists d, dec_of_string t = Some d /\ dec_num d = m * 10 ^ (28 - Z.of_nat s);
}.

(** Storing a [Decimal] in a [NUMERIC(p, s)] column: PostgreSQL rounds half away
    from zero to [s] fractional digits and reports an overflow when the result
    needs more than [p - s] integral digits. *)
Definition round_half_away (n d : Z) : Z := Z.sgn n * ((2 * Z.abs n + d) / (2 * d)).

Definition numeric_of_dec `{Decimal} (p s : Z) (a : dec) : option Z :=
  let z := round_half_away (dec_num a) (10 ^ (28 - s)) in
  if Z.abs z <? 10 ^ p then Some z else None.

Lemma round_half_away_exact k d : 0 < d -> round_half_away (k * d) d = k.
Proof.
  intros Hd. unfold round_half_away.
  rewrite Z.sgn_mul, Z.abs_mul, (Z.sgn_pos d), (Z.abs_eq d) by lia.
  replace (2 * (Z.abs k * d) + d) with (d + Z.abs k * (2 * d)) by lia.
  rewrite Z.div_add by lia. rewrite Z.div_small by lia.
  rewrite Z.mul_1_r, Z.add_0_l. rewrite Z.mul_comm. apply Z.abs_sgn.
Qed.

(** ** Identifiers *)

(** A [Uuid] is a 128-bit number; its text form is the library's. *)
Abbreviation uuid := N.
Definition uuid_nil : uuid := 0%N.

Class UuidText := {
  uuid_to_string : uuid -> string;
  uuid_parse_str : string -> option uuid;
}.

Class UuidTextLaws `{UuidText} := {
  uuid_roundtrip u : uuid_parse_str (uuid_to_string u) = Some u;
}.

(** ** A concrete instance

    Exact fixed-point numbers with 28 fractional digits, and hexadecimal identifiers. *)
Module Concrete.

Definition round_half_even (n d : Z) : Z :=
  let q := n / d in
  let r := n mod d in
  if 2 * r <? d then q else if d <? 2 * r then q + 1
  else if Z.even q then q else q + 1.

Definition f64_num (x : f64) : option Z :=
  match x with
  | S754_zero _ => Some 0
  | S754_finite s m e =>
      let v := if 0 <=? e then Zpos m * 2 ^ e * dec_scale
               else Zpos m * dec_scale / 2 ^ (- e) in
      Some (if s then - v else v)
  | _ => None
  end.

#[export] Instance fixed_decimal : Decimal := {|
  dec := Z;
  dec_num := id;
  dec_zero := 0;
  dec_one := dec_scale;
  dec_of_Z z := z * dec_scale;
  dec_of_f64 := f64_num;
  dec_of_f64_retain := f64_num;
  dec_add := Z.add;
  dec_sub := Z.sub;
  dec_mul a b := a * b / dec_scale;
  dec_div a b := a * dec_scale / b;
  dec_round_dp dp a := round_half_even a (10 ^ (28 - dp)) * 10 ^ (28 - dp);
  dec_to_string a := plain_Z a 28;
  dec_of_string t := '(m, s) ← parse_plain_Z t; Some (m * 10 ^ (28 - Z.of_nat s));
  dec_of_numeric s z := z * 10 ^ (28 - s);
|}.

Lemma round_half_even_exact k d : 0 < d -> round_half_even (k * d) d = k.
Proof.
  intros Hd. unfold round_half_even. rewrite Z.div_mul, Z_mod_mult by lia.
  by rewrite (proj2 (Z.ltb_lt (2 * 0) d)) by lia.
Qed.

Lemma round_half_even_mono a b d :
  0 < d -> a <= b -> round_half_even a d <= round_half_even b d.
Proof.
  intros Hd Hab. unfold round_half_even.
  pose proof (Z.div_le_mono a b d Hd Hab) as Hq.
  pose proof (Z.div_mod a d ltac:(lia)) as Ha. pose proof (Z.div_mod b d ltac:(lia)) as Hb.
  pose proof (Z.mod_pos_bound a d Hd). pose proof (Z.mod_pos_bound b d Hd).
  destruct (decide (a / d = b / d)) as [E|E].
  - assert (a mod d <= b mod d) by nia. rewrite E in *.
    repeat case_match; b2p; lia.
  - repeat case_match; b2p; lia.
Qed.

#[export] Instance fixed_decimal_laws : DecimalLaws.
Proof.
  split; simpl; unfold id; try (intros; lia); try (intros; reflexivity).
  - intros a b z E _. rewrite E. by apply Z.div_mul.
  - intros a f g Ha Hfg _. apply Z.div_le_mono; [done|]. by apply Z.mul_le_mono_nonneg_l.
  - intros a. exists (round_half_even a (10 ^ 22)). reflexivity.
  - intros a [k ->]. change (28 - 6) with 22. by rewrite round_half_even_exact.
  - intros a b Hab. apply Z.mul_le_mono_nonneg_r; [done|]. by apply round_half_even_mono.
  - intros a. exists a. rewrite parse_plain_Z_plain. simpl. by rewrite Z.mul_1_r.
  - intros t m s Ht _ _. exists (m * 10 ^ (28 - Z.of_nat s)).
    by rewrite (parse_plain_unsigned _ _ Ht).
Qed.

#[export] Instance hex_uuid : UuidText := {|
  uuid_to_string := HexString.of_N;
  uuid_parse_str s := if String.prefix "0x" s then Some (HexString.to_N s) else None;
|}.

#[export] Instance hex_uuid_laws : UuidTextLaws.
Proof.
  split. intros u. simpl. rewrite HexString.to_N_of_N.
  destruct u as [|p]; [done|].
  change (HexString.of_N (N.pos p)) with ("0x" +:+ HexString.Raw.of_pos p "").
  simpl. by destruct (HexString.Raw.of_pos p "").
Qed.
End Concrete.
