(* ===== verification/MinerAuth.v ===== *)
(** * Authentication of the miner at the executor

    basilica-miner/src/executor_auth.rs signs the requests of a miner and
    basilica-executor/src/miner_auth.rs verifies them.  The bytes of a protobuf message
    are made by prost: a [HashMap] field is written in the iteration order of the map at
    hand, so an encoding depends on the message and on that order, given by a number.
    Signing is the chain client's: a signer is the text of its account and its answers. *)

From stdpp Require Import base gmap strings list.
From Stdlib Require Import ZArith.
From S2P Require Import Prelude.
From S2P Require Import Bytes.
From S2P Require Import Text.
From S2P Require Import Float64.
From S2P Require Import Signatures.
From S2P Require Import Decimal.
Local Open Scope Z_scope.

(** ** Messages *)

Record MinerAuthentication := {
  miner_hotkey : string;
  timestamp_ms : Z;        (* u64 *)
  nonce : list Z;
  signature : list Z;
  request_id : list Z
}.

Record ProvisionAccessRequest := {
  pa_validator_hotkey : string;
  pa_ssh_public_key : string;
  pa_access_token : string;
  pa_duration_seconds : Z;
  pa_access_type : string;
  pa_config : gmap string string;
  pa_auth : option MinerAuthentication
}.

Record SystemProfileRequest := {
  sp_session_key : string;
  sp_key_mapping : gmap string string;
  sp_profile_depth : string;
  sp_include_benchmarks : bool;
  sp_validator_hotkey : string;
  sp_auth : option MinerAuthentication
}.

Record BenchmarkRequest := {
  bm_benchmark_type : string;
  bm_duration_seconds : Z;
  bm_parameters : gmap string string;
  bm_validator_hotkey : string;
  bm_auth : option MinerAuthentication
}.

Record ResourceLimits := {
  max_cpu_cores : Z; max_memory_mb : Z; max_storage_mb : Z; max_containers : Z;
  max_bandwidth_mbps : f64; max_gpus : Z
}.

Record ContainerSpec := {
  cs_image : string;
  cs_environment : gmap string string;
  cs_port_mappings : gmap string string;
  cs_volume_mounts : gmap string string;
  cs_resource_limits : option ResourceLimits;
  cs_command : list string;
  cs_working_directory : string;
  cs_user : string;
  cs_gpu_requirements : list string;
  cs_network_mode : string
}.

Record ContainerOpRequest := {
  co_operation : string;
  co_container_spec : option ContainerSpec;
  co_container_id : string;
  co_ssh_public_key : string;
  co_parameters : gmap string string;
  co_validator_hotkey : string;
  co_auth : option MinerAuthentication
}.

Record HealthCheckRequest := {
  hc_requester : string;
  hc_check_type : string;
  hc_auth : option MinerAuthentication
}.

(** The executor's trait, and the miner's [with_auth]. *)
Class AuthenticatedRequest (T : Type) := {
  get_auth : T -> option MinerAuthentication;
  without_auth : T -> T;
  with_auth : T -> MinerAuthentication -> T;
  map_fields : T -> list (gmap string string)   (* every map prost writes *)
}.

(** Taking the authentication off a request it was put on gives the request back. *)
Class AuthenticatedRequestLaws (T : Type) `{AuthenticatedRequest T} := {
  get_with_auth r a : get_auth (with_auth r a) = Some a;
  without_with_auth r a : get_auth r = None -> without_auth (with_auth r a) = r
}.

#[export] Instance provision_request : AuthenticatedRequest ProvisionAccessRequest :=
  let set r a := {|
    pa_validator_hotkey := pa_validator_hotkey r; pa_ssh_public_key := pa_ssh_public_key r;
    pa_access_token := pa_access_token r; pa_duration_seconds := pa_duration_seconds r;
    pa_access_type := pa_access_type r; pa_config := pa_config r; pa_auth := a |} in
  {| get_auth := pa_auth; without_auth r := set r None; with_auth r a := set r (Some a);
     map_fields r := [pa_config r] |}.

#[export] Instance profile_request : AuthenticatedRequest SystemProfileRequest :=
  let set r a := {|
    sp_session_key := sp_session_key r; sp_key_mapping := sp_key_mapping r;
    sp_profile_depth := sp_profile_depth r; sp_include_benchmarks := sp_include_benchmarks r;
    sp_validator_hotkey := sp_validator_hotkey r; sp_auth := a |} in
  {| get_auth := sp_auth; without_auth r := set r None; with_auth r a := set r (Some a);
     map_fields r := [sp_key_mapping r] |}.

#[export] Instance benchmark_request : AuthenticatedRequest BenchmarkRequest :=
  let set r a := {|
    bm_benchmark_type := bm_benchmark_type r; bm_duration_seconds := bm_duration_seconds r;
    bm_parameters := bm_parameters r; bm_validator_hotkey := bm_validator_hotkey r;
    bm_auth := a |} in
  {| get_auth := bm_auth; without_auth r := set r None; with_auth r a := set r (Some a);
     map_fields r := [bm_parameters r] |}.

#[export] Instance container_request : AuthenticatedRequest ContainerOpRequest :=
  let set r a := {|
    co_operation := co_operation r; co_container_spec := co_container_spec r;
    co_container_id := co_container_id r; co_ssh_public_key := co_ssh_public_key r;
    co_parameters := co_parameters r; co_validator_hotkey := co_validator_hotkey r;
    co_auth := a |} in
  {| get_auth := co_auth; without_auth r := set r None; with_auth r a := set r (Some a);
     map_fields r :=
       co_parameters r ::
       match co_container_spec r with
       | Some c => [cs_environment c; cs_port_mappings c; cs_volume_mounts c]
       | None => []
       end |}.

#[export] Instance health_request : AuthenticatedRequest HealthCheckRequest :=
  let set r a := {|
    hc_requester := hc_requester r; hc_check_type := hc_check_type r; hc_auth := a |} in
  {| get_auth := hc_auth; without_auth r := set r None; with_auth r a := set r (Some a);
     map_fields r := [] |}.

#[export] Instance provision_request_laws : AuthenticatedRequestLaws ProvisionAccessRequest.
Proof. by split; [|intros [] ? E; simpl in *; subst]. Qed.
#[export] Instance profile_request_laws : AuthenticatedRequestLaws SystemProfileRequest.
Proof. by split; [|intros [] ? E; simpl in *; subst]. Qed.
#[export] Instance benchmark_request_laws : AuthenticatedRequestLaws BenchmarkRequest.
Proof. by split; [|intros [] ? E; simpl in *; subst]. Qed.
#[export] Instance container_request_laws : AuthenticatedRequestLaws ContainerOpRequest.
Proof. by split; [|intros [] ? E; simpl in *; subst]. Qed.
#[export] Instance health_request_laws : AuthenticatedRequestLaws HealthCheckRequest.
Proof. by split; [|intros [] ? E; simpl in *; subst]. Qed.

(** prost's [encode_to_vec] at an iteration order. *)
Class ProstMessage (T : Type) := { encode_to_vec : nat -> T -> list Z }.

(** Maps of at most one entry have one order. *)
Class ProstMessageLaws (T : Type) `{AuthenticatedRequest T} `{ProstMessage T} := {
  encode_unordered n n' r :
    Forall (fun m => (size m <= 1)%nat) (map_fields r) -> encode_to_vec n r = encode_to_vec n' r
}.

(** ** The text that is signed *)

Section Auth.
Context `{Crypto} `{UuidText}.

Definition create_canonical_data (hotkey : string) (timestamp : Z) (nonce request_id : string)
    (request_data : list Z) : string :=
  "MINER_AUTH:" +:+ hotkey +:+ ":" +:+ show_int timestamp +:+ ":" +:+ nonce +:+ ":" +:+ request_id
  +:+ ":" +:+ to_hex (blake3 request_data).

(** ** The executor *)

Record MinerAuthConfig := {
  managing_miner_hotkey : Hotkey;
  max_request_age : Z;
  verify_signatures : bool
}.

Definition MinerAuthConfig_new (h : Hotkey) : MinerAuthConfig :=
  {| managing_miner_hotkey := h; max_request_age := minutes 5; verify_signatures := true |}.

Record MinerAuthService := { auth_config : MinerAuthConfig; used_nonces : gmap uuid Z }.

Definition MinerAuthService_new (c : MinerAuthConfig) : MinerAuthService :=
  {| auth_config := c; used_nonces := ∅ |}.

Inductive Refusal :=
  | UnauthorizedMiner
  | InvalidTimestamp
  | RequestTooOld
  | RequestInFuture
  | NonceNotUuid
  | NonceAlreadyUsed
  | SignatureInvalid.

Inductive Verdict :=
  | Accepted
  | Refused (why : Refusal)
  | Panicked.

(** The identifier in a nonce, and the text it signs. *)
Definition nonce_uuid (a : MinerAuthentication) : option uuid :=
  uuid_parse_str (from_utf8_lossy (nonce a)).

Definition signed_text (a : MinerAuthentication) (request_data : list Z) : string :=
  create_canonical_data (miner_hotkey a) (timestamp_ms a) (from_utf8_lossy (nonce a))
    (from_utf8_lossy (request_id a)) request_data.

Definition check_signature (c : MinerAuthConfig) (a : MinerAuthentication) (request_data : list Z)
    : Verdict :=
  if verify_signatures c then
    match verify_bittensor_signature (managing_miner_hotkey c) (to_hex (signature a))
            (into_bytes (signed_text a request_data)) with
    | Ok _ => Accepted
    | Err _ => Refused SignatureInvalid
    end
  else Accepted.

Definition verify_auth (now : Z) (a : MinerAuthentication) (request_data : list Z)
    (s : MinerAuthService) : Verdict * MinerAuthService :=
  let c := auth_config s in
  if negb (String.eqb (miner_hotkey a) (managing_miner_hotkey c)) then (Refused UnauthorizedMiner, s)
  else
    match from_timestamp_millis (wrap_signed 64 (timestamp_ms a)) with
    | None => (Refused InvalidTimestamp, s)
    | Some timestamp =>
        match request_age (max_request_age c) now timestamp with
        | TooOld => (Refused RequestTooOld, s)
        | InFuture => (Refused RequestInFuture, s)
        | Fresh =>
            match nonce_uuid a with
            | None => (Refused NonceNotUuid, s)
            | Some u =>
                let '(r, nonces) := store_nonce (max_request_age c) now u (used_nonces s) in
                let s' := {| auth_config := c; used_nonces := nonces |} in
                match r with
                | Used => (Refused NonceAlreadyUsed, s')
                | StorePanics => (Panicked, s')
                | Unused => (check_signature c a request_data, s')
                end
            end
        end
    end.

(** [None] is a panic. *)
Definition cleanup_expired_nonces (now : Z) (s : MinerAuthService) : option MinerAuthService :=
  (fun m => {| auth_config := auth_config s; used_nonces := m |})
  <$> cleanup_nonces (max_request_age (auth_config s)) now (used_nonces s).

Inductive RequestVerdict :=
  | MissingAuthentication
  | Verified (v : Verdict).

Definition verify_miner_request {T} `{AuthenticatedRequest T} `{ProstMessage T}
    (now : Z) (order : nat) (request : T) (s : MinerAuthService) : RequestVerdict * MinerAuthService :=
  match get_auth request with
  | None => (MissingAuthentication, s)
  | Some a =>
      let '(v, s') := verify_auth now a (encode_to_vec order (without_auth request)) s in
      (Verified v, s')
  end.

(** ** The miner *)

(** Its own copy of the text to sign. *)
Definition miner_canonical_data (hotkey : string) (timestamp : Z) (nonce request_id : string)
    (request_data : list Z) : string :=
  "MINER_AUTH:" +:+ hotkey +:+ ":" +:+ show_int timestamp +:+ ":" +:+ nonce +:+ ":" +:+ request_id
  +:+ ":" +:+ to_hex (blake3 request_data).

Inductive MultiSignature := Ed25519 (s : list Z) | Sr25519 (s : list Z) | Ecdsa (s : list Z).

Record Signer := { account_text : string; signs : list Z -> MultiSignature }.

Definition sign_data (k : Signer) (data : list Z) : result string string :=
  match signs k data with
  | Sr25519 sig => Ok (to_hex sig)
  | _ => Err "Unexpected signature type - expected Sr25519"
  end.

Record ExecutorAuthService := { bittensor_service : Signer; own_hotkey : string }.

Definition ExecutorAuthService_new (k : Signer) : ExecutorAuthService :=
  {| bittensor_service := k; own_hotkey := account_text k |}.

Definition create_auth (now : Z) (nonce_id id : uuid) (request_data : list Z)
    (x : ExecutorAuthService) : result string MinerAuthentication :=
  let timestamp := wrap 64 (timestamp_millis now) in
  let nonce := uuid_to_string nonce_id in
  let request_id := uuid_to_string id in
  let canonical := miner_canonical_data (own_hotkey x) timestamp nonce request_id request_data in
  match sign_data (bittensor_service x) (into_bytes canonical) with
  | Err e => Err ("Failed to sign request: " +:+ e)
  | Ok sig =>
      match hex_decode sig with
      | None => Err "Failed to decode hex signature"
      | Some bytes =>
          Ok {| miner_hotkey := own_hotkey x; timestamp_ms := timestamp;
                nonce := into_bytes nonce; signature := bytes; request_id := into_bytes request_id |}
      end
  end.
End Auth.

(** ** The service over time

    A verification holds the lock on the nonces from the look-up to the removal of the
    old ones, and reads the clock before it waits for the lock: concurrent requests are
    the sequence of their locked sections, each with the time it read. *)

Section Runs.
Context `{Crypto} `{UuidText}.

Inductive AuthEvent :=
  | Verify (now : Z) (a : MinerAuthentication) (request_data : list Z)
  | Cleanup (now : Z).

Definition event_time (e : AuthEvent) : Z :=
  match e with Verify now _ _ | Cleanup now => now end.

(** A clean-up that panics leaves the nonces as they are. *)
Definition auth_step (s : MinerAuthService) (e : AuthEvent) : option Verdict * MinerAuthService :=
  match e with
  | Verify now a data => let '(v, s') := verify_auth now a data s in (Some v, s')
  | Cleanup now => (None, default s (cleanup_expired_nonces now s))
  end.

Fixpoint auth_run (s : MinerAuthService) (es : list AuthEvent) : list (option Verdict) * MinerAuthService :=
  match es with
  | [] => ([], s)
  | e :: es =>
      let '(v, s1) := auth_step s e in
      let '(vs, s2) := auth_run s1 es in (v :: vs, s2)
  end.
End Runs.
