(* ===== verification/AuthClaims.v ===== *)
(** * What authentication guarantees

    Requests the executor accepts are authentic and accepted once; requests the miner
    signs are accepted. *)

From stdpp Require Import base gmap strings list.
From Stdlib Require Import Ascii ZArith.
From S2P Require Import Prelude.
From S2P Require Import Bytes.
From S2P Require Import Text.
From S2P Require Import Signatures.
From S2P Require Import Decimal.
From S2P Require Import MinerAuth.
Local Open Scope Z_scope.

Section Facts.
Context `{Crypto} `{UuidText}.
Implicit Types (s : MinerAuthService) (a : MinerAuthentication).

(** From the managing miner, fresh, and signed over its own text. *)
Definition authentic (c : MinerAuthConfig) (now : Z) a (data : list Z) : Prop :=
  miner_hotkey a = managing_miner_hotkey c /\
  (exists ts, from_timestamp_millis (wrap_signed 64 (timestamp_ms a)) = Some ts /\
    now - ts <= max_request_age c /\ ts - now <= minutes 1) /\
  (verify_signatures c = true ->
    exists public, public_from_str (managing_miner_hotkey c) = Some public /\
      sr25519_verify (signature a) (into_bytes (signed_text a data)) public = true).

Lemma verify_auth_config now a d s : auth_config (verify_auth now a d s).2 = auth_config s.
Proof. unfold verify_auth. by repeat (case_match; simplify_eq/=). Qed.

Lemma auth_step_config s e : auth_config (auth_step s e).2 = auth_config s.
Proof.
  destruct e as [now a d | now]; simpl.
  - pose proof (verify_auth_config now a d s). by destruct (verify_auth now a d s).
  - unfold cleanup_expired_nonces. by destruct (cleanup_nonces _ _ _).
Qed.

(** The exact condition of acceptance. *)
Lemma verify_auth_accepted now a d s :
  (verify_auth now a d s).1 = Accepted <->
  miner_hotkey a = managing_miner_hotkey (auth_config s) /\
  exists ts u,
    from_timestamp_millis (wrap_signed 64 (timestamp_ms a)) = Some ts /\
    request_age (max_request_age (auth_config s)) now ts = Fresh /\
    nonce_uuid a = Some u /\
    (store_nonce (max_request_age (auth_config s)) now u (used_nonces s)).1 = Unused /\
    check_signature (auth_config s) a d = Accepted.
Proof.
  unfold verify_auth. destruct (String.eqb_spec (miner_hotkey a) (managing_miner_hotkey (auth_config s))) as [E|E];
    simpl; [|by split; [|intros [? _]]].
  destruct (from_timestamp_millis _) as [ts|]; [|by split; [|intros (_ & ? & ? & ? & _)]].
  destruct (request_age _ _ _) eqn:Ea;
    [|split; [done|]; intros (_ & ? & ? & ? & ? & _); congruence..].
  destruct (nonce_uuid a) as [u|]; [|by split; [|intros (_ & ? & ? & _ & _ & ? & _)]].
  destruct (store_nonce _ _ _ _) as [[] m] eqn:Es; simpl;
    (split; [intros | intros (_ & ts' & u' & ? & ? & ? & Hs & ?)]); simplify_eq; try done.
  - split; [done|]. exists ts, u. by rewrite Es.
  - by rewrite Es in Hs.
  - by rewrite Es in Hs.
Qed.

(** The nonce of a request that passes the checks on the clock and its own form. *)
Lemma verify_auth_stores now a d s :
  (verify_auth now a d s).1 = Accepted ->
  exists u, nonce_uuid a = Some u /\ used_nonces (verify_auth now a d s).2 !! u = Some now.
Proof.
  intros Ha. apply verify_auth_accepted in Ha as (E & ts & u & Et & Ef & Eu & Es & _).
  exists u. split; [done|]. pose proof (store_nonce_unused _ _ _ _ Es) as Hm.
  apply request_age_fresh in Ef as Ef'. unfold verify_auth.
  rewrite E, String.eqb_refl, Et, Ef, Eu. simpl.
  destruct (store_nonce _ _ _ _) as [r m] eqn:Er. simpl in *. subst r. apply Hm.
  unfold hours, minutes in *. lia.
Qed.

Lemma verify_auth_nonces now a d s :
  used_nonces (verify_auth now a d s).2 = used_nonces s \/
  exists u, nonce_uuid a = Some u /\ used_nonces (verify_auth now a d s).2
    = (store_nonce (max_request_age (auth_config s)) now u (used_nonces s)).2.
Proof.
  unfold verify_auth. destruct (negb _); [by left|].
  destruct (from_timestamp_millis _); [|by left]. destruct (request_age _ _ _); [|by left..].
  destruct (nonce_uuid a) as [u|]; [|by left]. right. exists u. split; [done|].
  by destruct (store_nonce _ _ _ _) as [[] m].
Qed.

Lemma auth_step_keeps s e u t :
  used_nonces s !! u = Some t ->
  event_time e < t + max_request_age (auth_config s) + hours 1 ->
  used_nonces (auth_step s e).2 !! u = Some t.
Proof.
  intros Hu Ht. destruct e as [now a d | now]; simpl in *.
  - pose proof (verify_auth_nonces now a d s) as Hn. destruct (verify_auth now a d s) as [v s'].
    simpl in *. destruct Hn as [-> | (u' & _ & ->)]; eauto with basilica.
  - unfold cleanup_expired_nonces.
    destruct (cleanup_nonces _ _ _) as [m|] eqn:E; simpl; [|done]. by eapply cleanup_nonces_keeps.
Qed.

(** A nonce in the store is refused. *)
Lemma verify_auth_used now a d s u t :
  nonce_uuid a = Some u -> used_nonces s !! u = Some t -> (verify_auth now a d s).1 <> Accepted.
Proof.
  intros Eu Hu Ha. apply verify_auth_accepted in Ha as (_ & ? & u' & _ & _ & Eu' & Es & _).
  assert (u' = u) as -> by congruence. unfold store_nonce in Es. by rewrite Hu in Es.
Qed.

(** ** Runs *)

(** No request waits 59 minutes for the lock, nor does the clock go back that far. *)
Definition paced (es : list AuthEvent) : Prop :=
  forall i j e e', (i < j)%nat -> es !! i = Some e -> es !! j = Some e' ->
  event_time e - minutes 59 < event_time e'.

Lemma paced_tail e es : paced (e :: es) -> paced es.
Proof. intros Hp i j x y Hij Hi Hj. apply (Hp (S i) (S j)); [lia | done | done]. Qed.

Lemma paced_drop n es : paced es -> paced (drop n es).
Proof.
  intros Hp i j x y Hij Hi Hj. rewrite lookup_drop in Hi, Hj.
  apply (Hp (n + i)%nat (n + j)%nat); [lia | done | done].
Qed.

Lemma paced_after e es : paced (e :: es) -> Forall (fun e' => event_time e - minutes 59 < event_time e') es.
Proof.
  intros Hp. apply Forall_lookup. intros j e' Hj. by apply (Hp 0%nat (S j) e e'); [lia| |].
Qed.

(** Once used at [t0], a nonce is refused for as long as its timestamp is not too old. *)
Lemma replay_refused u ts t0 es : forall s,
  (used_nonces s !! u = Some t0 \/
   Forall (fun e => t0 + max_request_age (auth_config s) + minutes 1 < event_time e) es) ->
  paced es -> ts <= t0 + minutes 1 ->
  forall j now a d, es !! j = Some (Verify now a d) -> nonce_uuid a = Some u ->
  from_timestamp_millis (wrap_signed 64 (timestamp_ms a)) = Some ts ->
  (auth_run s es).1 !! j <> Some (Some Accepted).
Proof.
  induction es as [|e es IH]; intros s Hs Hp Hts j now a d Hj Hu Et; [done|].
  cbn [auth_run]. destruct (auth_step s e) as [v s1] eqn:E1.
  destruct (auth_run s1 es) as [vs s2] eqn:E2. cbn [fst].
  assert (Hc : auth_config s1 = auth_config s) by (change s1 with (v, s1).2; rewrite <- E1; apply auth_step_config).
  destruct j as [|j]; simpl in Hj |- *.
  - simplify_eq/=. destruct (verify_auth now a d s) as [r s'] eqn:Ev. intros Ha. simplify_eq.
    destruct Hs as [Hs | Hs].
    + apply (verify_auth_used now a d s u t0); [done | done |]. by rewrite Ev.
    + apply Forall_cons in Hs as [Hlate _]. simpl in Hlate.
      assert (Ha : (verify_auth now a d s).1 = Accepted) by by rewrite Ev.
      apply verify_auth_accepted in Ha as (_ & ts' & ? & Et' & Ef & _).
      assert (ts' = ts) as -> by congruence. apply request_age_fresh in Ef. lia.
  - replace vs with (auth_run s1 es).1 by by rewrite E2.
    eapply IH; [ | by eapply paced_tail | done | done | done | done]. rewrite Hc.
    destruct Hs as [Hs | Hs]; [|right; by inversion Hs].
    destruct (decide (event_time e < t0 + max_request_age (auth_config s) + hours 1)) as [Hlt | Hge].
    + left. change s1 with (v, s1).2. rewrite <- E1. by apply auth_step_keeps.
    + right. eapply Forall_impl; [by apply paced_after|]. cbn. unfold hours, minutes in *. lia.
Qed.

(** The run up to an event. *)
Lemma auth_run_split es : forall s i now a d,
  es !! i = Some (Verify now a d) -> exists s0, auth_config s0 = auth_config s /\
  (auth_run s es).1 !! i = Some (Some (verify_auth now a d s0).1) /\
  forall j, (auth_run s es).1 !! (S i + j)%nat = (auth_run (verify_auth now a d s0).2 (drop (S i) es)).1 !! j.
Proof.
  induction es as [|e es IH]; intros s i now a d Hi; [done|]. cbn [auth_run].
  destruct (auth_step s e) as [v s1] eqn:E1. destruct (auth_run s1 es) as [vs s2] eqn:E2. cbn [fst].
  destruct i as [|i]; simpl in Hi.
  - simplify_eq. simpl in E1. destruct (verify_auth now a d s) as [r s'] eqn:Ev. simplify_eq.
    exists s. rewrite Ev. split_and!; [done | done |]. intros j. simpl. by rewrite drop_0, E2.
  - destruct (IH s1 i now a d Hi) as (s0 & Hc & Hv & Hr). exists s0. rewrite E2 in *.
    split_and!; [|done|done]. rewrite Hc. change s1 with (v, s1).2. rewrite <- E1. apply auth_step_config.
Qed.

(** ** What a signature covers *)

(** The signed text fixes the time, the nonce with the identifier, and the hash. *)
Lemma canonical_binds `{!CryptoLaws} h t t' n n' r r' d d' :
  0 <= t -> 0 <= t' ->
  create_canonical_data h t n r d = create_canonical_data h t' n' r' d' ->
  t = t' /\ n +:+ ":" +:+ r = n' +:+ ":" +:+ r' /\ blake3 d = blake3 d'.
Proof.
  intros Ht Ht' E. unfold create_canonical_data in E.
  do 3 apply str_app_cancel in E.
  destruct (digits_cut (show_int t) (show_int t') 0 0 ":"%char (n +:+ ":" +:+ r +:+ ":" +:+ to_hex (blake3 d))
    (n' +:+ ":" +:+ r' +:+ ":" +:+ to_hex (blake3 d'))) as [Es Er];
    [by rewrite show_int_digits by done..| done | done |].
  split.
  { apply (f_equal (fun x => parse_digits x 0)) in Es. rewrite !show_int_digits in Es by done. congruence. }
  assert (Hlen : forall x, String.length (":" +:+ to_hex (blake3 x)) = 65%nat).
  { intros x. rewrite length_str_app, length_to_hex, blake3_length. done. }
  assert (E2 : (n +:+ ":" +:+ r) +:+ (":" +:+ to_hex (blake3 d))
               = (n' +:+ ":" +:+ r') +:+ (":" +:+ to_hex (blake3 d'))).
  { by rewrite !str_app_assoc. }
  destruct (str_app_inj _ _ _ _ (eq_trans (Hlen d) (eq_sym (Hlen d'))) E2) as [-> Eh].
  split; [done|]. apply to_hex_inj; [apply blake3_bytes..|]. by apply (str_app_cancel ":").
Qed.

(** ** Signing *)

Class UuidAscii := { uuid_ascii u : is_ascii (uuid_to_string u) = true }.

(** An sr25519 signer signs with 64 bytes that its own account verifies. *)
Class SignerLaws (k : Signer) := {
  signer_verifies data : data <> [] -> exists sig public,
    signs k data = Sr25519 sig /\ length sig = 64%nat /\ Forall is_byte sig /\
    public_from_str (account_text k) = Some public /\ sr25519_verify sig data public = true
}.

Lemma canonical_nonempty h t n r d : into_bytes (create_canonical_data h t n r d) <> [].
Proof. done. Qed.

(** The two sides sign and verify the same text. *)
Lemma miner_canonical_eq h t n r d : miner_canonical_data h t n r d = create_canonical_data h t n r d.
Proof. done. Qed.

(** The authentication a working signer makes. *)
Lemma create_auth_ok `{!SignerLaws k} now u id data :
  exists sig public, 
    create_auth now u id data (ExecutorAuthService_new k) = Ok {|
      miner_hotkey := account_text k; timestamp_ms := wrap 64 (timestamp_millis now);
      nonce := into_bytes (uuid_to_string u); signature := sig;
      request_id := into_bytes (uuid_to_string id) |} /\
    length sig = 64%nat /\ Forall is_byte sig /\ public_from_str (account_text k) = Some public /\
    sr25519_verify sig (into_bytes (create_canonical_data (account_text k)
      (wrap 64 (timestamp_millis now)) (uuid_to_string u) (uuid_to_string id) data)) public = true.
Proof.
  destruct (signer_verifies (into_bytes (create_canonical_data (account_text k)
      (wrap 64 (timestamp_millis now)) (uuid_to_string u) (uuid_to_string id) data)))
    as (sig & public & Es & Hl & Hb & Hp & Hv); [done|].
  exists sig, public. split; [|done]. unfold create_auth, sign_data. rewrite miner_canonical_eq. cbn [bittensor_service own_hotkey ExecutorAuthService_new].
  rewrite Es, hex_roundtrip by done. done.
Qed.

Lemma wrap_signed_wrap z : - 2 ^ 63 <= z < 2 ^ 63 -> wrap_signed 64 (wrap 64 z) = z.
Proof.
  intros Hz. unfold wrap_signed, wrap. rewrite Z.mod_mod by lia.
  destruct (decide (0 <= z)).
  - rewrite (Z.mod_small z) by lia. case_match; b2p; lia.
  - replace (z mod 2 ^ 64) with (z + 2 ^ 64)
      by (apply (Z.mod_unique _ _ (-1)); lia).
    case_match; b2p; lia.
Qed.

(** The executor reads the time the miner wrote, rounded down to the millisecond. *)
Lemma timestamp_read now :
  datetime_ok now = true ->
  from_timestamp_millis (wrap_signed 64 (wrap 64 (timestamp_millis now)))
  = Some (now - now mod millisecond).
Proof.
  unfold datetime_ok. intros H1. b2p. unfold timestamp_millis, millisecond.
  pose proof (Z.div_mod now 1000000 ltac:(lia)). pose proof (Z.mod_pos_bound now 1000000 ltac:(lia)).
  rewrite wrap_signed_wrap by lia. unfold from_timestamp_millis, datetime_ok, millisecond.
  replace (now / 1000000 * 1000000) with (now - now mod 1000000) by lia.
  by rewrite (proj2 (andb_true_iff _ _)) by (split; apply Z.leb_le; lia).
Qed.
End Facts.

(** ** Claims *)

Lemma check_signature_authentic `{Crypto} `{UuidText} c a d :
  Forall is_byte (signature a) -> check_signature c a d = Accepted -> verify_signatures c = true ->
  exists public, public_from_str (managing_miner_hotkey c) = Some public /\
    sr25519_verify (signature a) (into_bytes (signed_text a d)) public = true.
Proof.
  unfold check_signature. intros Hb Hc Hv. rewrite Hv in Hc.
  destruct (verify_bittensor_signature _ _ _) as [[]|] eqn:E; [|done].
  apply verify_bittensor_signature_ok in E as (_ & sig & public & Es & _ & Ep & Hok).
  rewrite hex_roundtrip in Es by done. simplify_eq. by exists public.
Qed.

(** C20: A request that the executor accepts comes from the managing miner, is no older
    than the maximal age and at most a minute ahead of the clock, and carries a signature
    of the miner over its own text (with signatures switched on); and no later request with
    its time and nonce is ever accepted again, however verifications and clean-ups
    interleave, provided no request waits 59 minutes for the lock. *)
Theorem accepted_once `{Crypto} `{UuidText} c es i now a d :
  paced es -> Forall is_byte (signature a) -> es !! i = Some (Verify now a d) ->
  (auth_run (MinerAuthService_new c) es).1 !! i = Some (Some Accepted) ->
  authentic c now a d /\
  forall j now' a' d', (i < j)%nat -> es !! j = Some (Verify now' a' d') ->
    timestamp_ms a' = timestamp_ms a -> nonce_uuid a' = nonce_uuid a ->
    (auth_run (MinerAuthService_new c) es).1 !! j <> Some (Some Accepted).
Proof.
  intros Hp Hb Hi Ha. destruct (auth_run_split _ (MinerAuthService_new c) _ _ _ _ Hi) as (s & Hc & Hv & Hr).
  rewrite Ha in Hv. injection Hv as Hv. symmetry in Hv. cbn in Hc.
  destruct (verify_auth_stores _ _ _ _ Hv) as (u & Eu & Hu).
  pose proof Hv as Hacc. apply verify_auth_accepted in Hacc as (Eh & ts & u' & Et & Ef & Eu' & _ & Hs).
  apply request_age_fresh in Ef as [Hold Hnew]. rewrite Hc in *. split.
  - split_and!; [done | by exists ts | by apply check_signature_authentic].
  - intros j now' a' d' Hij Hj Ets Enonce.
    replace j with (S i + (j - S i))%nat by lia. rewrite Hr.
    eapply (replay_refused u ts now); [left; exact Hu | by apply paced_drop | lia | | by rewrite Enonce | by rewrite Ets].
    rewrite lookup_drop. by replace (S i + (j - S i))%nat with j by lia.
Qed.

(** A signed request at an executor that has not seen its nonce. *)
Lemma signed_request_ok `{Crypto} `{UuidText} `{!UuidTextLaws} `{!UuidAscii}
    `{AuthenticatedRequest T} `{!AuthenticatedRequestLaws T} `{!ProstMessage T} `{!ProstMessageLaws T}
    k `{!SignerLaws k} (r : T) s now now' u id n n' :
  get_auth r = None -> Forall (fun m => (size m <= 1)%nat) (map_fields r) ->
  datetime_ok now = true -> now - minutes 1 <= now' ->
  now' <= now + max_request_age (auth_config s) - millisecond ->
  managing_miner_hotkey (auth_config s) = account_text k ->
  used_nonces s !! u = None -> is_Some (nonce_cutoff (max_request_age (auth_config s)) now') ->
  exists a,
    create_auth now u id (encode_to_vec n r) (ExecutorAuthService_new k) = Ok a /\
    nonce_uuid a = Some u /\
    (verify_auth now' a (encode_to_vec n r) s).1 = Accepted /\
    verify_miner_request now' n' (with_auth r a) s
      = (Verified Accepted, (verify_auth now' a (encode_to_vec n r) s).2).
Proof.
  intros Hr Hmaps Hnow Hlo Hhi Hk Hu [cut Hcut].
  destruct (create_auth_ok now u id (encode_to_vec n r)) as (sig & public & Ea & Hl & Hb & Hp & Hv).
  set (a := {| miner_hotkey := account_text k |}) in Ea.
  assert (Eu : nonce_uuid a = Some u).
  { unfold nonce_uuid. simpl. rewrite from_utf8_lossy_ascii by apply uuid_ascii. apply uuid_roundtrip. }
  pose proof (Z.mod_pos_bound now millisecond ltac:(done)) as Hms.
  assert (Hacc : (verify_auth now' a (encode_to_vec n r) s).1 = Accepted).
  { apply verify_auth_accepted. split; [done|]. exists (now - now mod millisecond), u.
    split_and!; [by apply timestamp_read | apply request_age_fresh; unfold millisecond in *; lia | done | |].
    - unfold store_nonce. by rewrite Hu, Hcut.
    - unfold check_signature, signed_text. simpl. case_match; [|done].
      rewrite !from_utf8_lossy_ascii by apply uuid_ascii. rewrite Hk.
      rewrite (proj2 (verify_bittensor_signature_ok _ _ _)); [done|]. split; [done|].
      exists sig, public. split_and!; [by apply hex_roundtrip | done..]. }
  exists a. split_and!; [done..|].
  unfold verify_miner_request. rewrite get_with_auth, without_with_auth by done.
  rewrite (encode_unordered n' n) by done.
  destruct (verify_auth now' a (encode_to_vec n r) s) as [v s']. simpl in *. by subst v.
Qed.

(** C22: What the miner signs the executor accepts.  For a request of any of the five kinds
    without authentication, with no map of more than one entry, and an executor that is
    managed by the miner and has not seen the nonce: [create_auth] succeeds, and the request
    with the authentication put on it is accepted for as long as it is fresh, whatever order
    the executor's maps have.  The nonce is then used, and the same request is refused
    from then on. *)
Theorem signed_request_accepted `{Crypto} `{UuidText} `{!UuidTextLaws} `{!UuidAscii}
    `{AuthenticatedRequest T} `{!AuthenticatedRequestLaws T} `{!ProstMessage T} `{!ProstMessageLaws T}
    k `{!SignerLaws k} (r : T) s now now' u id n n' :
  get_auth r = None -> Forall (fun m => (size m <= 1)%nat) (map_fields r) ->
  datetime_ok now = true -> now - minutes 1 <= now' ->
  now' <= now + max_request_age (auth_config s) - millisecond ->
  managing_miner_hotkey (auth_config s) = account_text k ->
  used_nonces s !! u = None -> is_Some (nonce_cutoff (max_request_age (auth_config s)) now') ->
  exists a s',
    create_auth now u id (encode_to_vec n r) (ExecutorAuthService_new k) = Ok a /\
    verify_miner_request now' n' (with_auth r a) s = (Verified Accepted, s') /\
    forall now'' n'', (verify_miner_request now'' n'' (with_auth r a) s').1 <> Verified Accepted.
Proof.
  intros Hr Hmaps Hnow Hlo Hhi Hk Hu Hcut.
  destruct (signed_request_ok k r s now now' u id n n') as (a & Ea & Eu & Hacc & Hv); [done..|].
  eexists a, _. split_and!; [exact Ea | exact Hv |]. intros now'' n''.
  destruct (verify_auth_stores _ _ _ _ Hacc) as (u' & Eu' & Hstored).
  unfold verify_miner_request. rewrite get_with_auth, without_with_auth by done.
  pose proof (verify_auth_used now'' a (encode_to_vec n'' r) _ u' now' Eu' Hstored) as Hrep.
  destruct (verify_auth now'' a (encode_to_vec n'' r) _) as [v s'']. simpl in *. congruence.
Qed.

(** ** A concrete miner and executor *)

Module Scenario.
Export Decimal.Concrete.

Definition digest (n : nat) (l : list Z) : list Z := replicate n (foldr Z.add 0 l mod 256).

#[export] Instance crypto : Crypto := {|
  blake3 := digest 32; ss58_public _ := true; ss58_account _ := true;
  account_id_from_str s := Some (into_bytes s); public_from_str s := Some (into_bytes s);
  sr25519_verify sig data public := bool_decide (sig = digest 64 (public ++ data)) |}.

Lemma digest_bytes n l : Forall is_byte (digest n l).
Proof.
  apply Forall_replicate. unfold is_byte. pose proof (Z.mod_pos_bound (foldr Z.add 0 l) 256). lia.
Qed.

#[export] Instance crypto_laws : CryptoLaws.
Proof. split; intros d; [apply digest_bytes | apply length_replicate]. Qed.

Lemma is_ascii_hex p s : is_ascii s = true -> is_ascii (HexString.Raw.of_pos p s) = true.
Proof.
  revert p s. fix IH 1. intros p s Hs.
  destruct p as [[[[q|q|]|[q|q|]|]|[[q|q|]|[q|q|]|]|]|[[[q|q|]|[q|q|]|]|[[q|q|]|[q|q|]|]|]|];
    try exact Hs; cbn [HexString.Raw.of_pos]; apply (IH q); exact Hs.
Qed.

#[export] Instance uuid_is_ascii : UuidAscii.
Proof. split. intros [|p]; [done|]. simpl. by apply is_ascii_hex. Qed.

Definition account : string := "5Miner".
Definition signer : Signer :=
  {| account_text := account; signs data := Sr25519 (digest 64 (into_bytes account ++ data)) |}.

#[export] Instance signer_laws : SignerLaws signer.
Proof.
  split. intros data _. eexists _, _. split_and!;
    [done | apply length_replicate | apply digest_bytes | done |]. by apply bool_decide_eq_true_2.
Qed.

(** An encoding that lists the entries of the map forwards or backwards. *)
#[export] Instance encode_provision : ProstMessage ProvisionAccessRequest := {|
  encode_to_vec n r :=
    let entries := map_to_list (pa_config r) in
    into_bytes (pa_validator_hotkey r +:+ pa_ssh_public_key r) ++
    concat ((fun kv => into_bytes (kv.1 +:+ "=" +:+ kv.2))
            <$> (if Nat.even n then entries else reverse entries)) |}.

Lemma reverse_short {A} (l : list A) : (length l <= 1)%nat -> reverse l = l.
Proof. destruct l as [|x [|y l]]; simpl; [done..|lia]. Qed.

#[export] Instance encode_provision_laws : ProstMessageLaws ProvisionAccessRequest.
Proof.
  split. intros n n' r Hm. apply Forall_cons in Hm as [Hm _]. simpl.
  rewrite reverse_short by (rewrite length_map_to_list; exact Hm). by do 2 case_match.
Qed.

Definition request : ProvisionAccessRequest := {|
  pa_validator_hotkey := "5Validator"; pa_ssh_public_key := "ssh-ed25519 AAAA";
  pa_access_token := ""; pa_duration_seconds := 3600; pa_access_type := "ssh";
  pa_config := {["metadata" := "{}"]}; pa_auth := None |}.

(** The first of January 2025, and the executor of this miner. *)
Definition day_one : Z := 1735689600000000000.
Definition executor : MinerAuthService := MinerAuthService_new (MinerAuthConfig_new account).

Definition auth : MinerAuthentication :=
  default {| miner_hotkey := ""; timestamp_ms := 0; nonce := []; signature := []; request_id := [] |}
    (ok_value (create_auth day_one 7%N 8%N (encode_to_vec 0 request) (ExecutorAuthService_new signer))).

(** Accepted, then replayed after four minutes, after a clean-up and after two hours. *)
Definition events : list AuthEvent :=
  [Verify (day_one + minutes 1) auth (encode_to_vec 0 request);
   Verify (day_one + minutes 4) auth (encode_to_vec 0 request);
   Cleanup (day_one + hours 2);
   Verify (day_one + hours 2) auth (encode_to_vec 0 request)].

Example events_verdicts :
  (auth_run executor events).1
  = [Some Accepted; Some (Refused NonceAlreadyUsed); None; Some (Refused RequestTooOld)].
Proof. vm_compute. reflexivity. Qed.

(** A wrongly signed request uses up its nonce: the miner's own request is then refused. *)
Example invalid_request_burns_nonce :
  let forged := {| miner_hotkey := miner_hotkey auth; timestamp_ms := timestamp_ms auth;
                   nonce := nonce auth; signature := [1]; request_id := request_id auth |} in
  (auth_run executor [Verify day_one forged []; Verify day_one auth (encode_to_vec 0 request)]).1
  = [Some (Refused SignatureInvalid); Some (Refused NonceAlreadyUsed)].
Proof. vm_compute. reflexivity. Qed.

(** Two entries in the map, and another order at the executor: the signature fails. *)
Example map_order_breaks_signature :
  let r := {| pa_validator_hotkey := "v"; pa_ssh_public_key := "k"; pa_access_token := "";
              pa_duration_seconds := 0; pa_access_type := "ssh";
              pa_config := {["a" := "2"; "b" := "1"]}; pa_auth := None |} in
  encode_to_vec 0 r <> encode_to_vec 1 r.
Proof. vm_compute. discriminate. Qed.
End Scenario.
Import Scenario.

Lemma paced_by_check es :
  forallb (fun i => forallb (fun j =>
    match es !! i, es !! j with
    | Some e, Some e' => (j <=? i)%nat || (event_time e - minutes 59 <? event_time e')
    | _, _ => true
    end) (seq 0 (length es))) (seq 0 (length es)) = true -> paced es.
Proof.
  rewrite forallb_forall. intros Hc i j e e' Hij Hi Hj.
  apply lookup_lt_Some in Hi as Hil. apply lookup_lt_Some in Hj as Hjl.
  specialize (Hc i). rewrite in_seq, forallb_forall in Hc. specialize (Hc ltac:(lia) j).
  rewrite in_seq in Hc. specialize (Hc ltac:(lia)). rewrite Hi, Hj in Hc.
  apply orb_true_iff in Hc as [Hc | Hc]; [apply Nat.leb_le in Hc; lia | by apply Z.ltb_lt].
Qed.

Lemma accepted_once_witness :
  authentic (MinerAuthConfig_new account) (day_one + minutes 1) auth
    (encode_to_vec 0 request).
Proof.
  assert (Hp : paced events) by (apply paced_by_check; vm_compute; reflexivity).
  assert (Hb : Forall is_byte (signature auth)) by (apply bytes_by_check; vm_compute; reflexivity).
  assert (Ha : (auth_run (MinerAuthService_new (MinerAuthConfig_new account)) events).1 !! 0%nat
               = Some (Some Accepted)) by (vm_compute; reflexivity).
  assert (Hi : events !! 0%nat = Some (Verify (day_one + minutes 1) auth (encode_to_vec 0 request)))
    by (unfold events; reflexivity).
  exact (proj1 (accepted_once (MinerAuthConfig_new account) events 0 (day_one + minutes 1) auth
                  (encode_to_vec 0 request) Hp Hb Hi Ha)).
Defined.

Lemma signed_request_witness :
  exists a s',
    create_auth day_one 7%N 8%N (encode_to_vec 0 request)
      (ExecutorAuthService_new signer) = Ok a /\
    verify_miner_request (day_one + minutes 3) 1 (with_auth request a) executor
      = (Verified Accepted, s') /\
    forall now'' n'', (verify_miner_request now'' n'' (with_auth request a) s').1 <> Verified Accepted.
Proof.
  apply (signed_request_accepted signer request executor day_one);
    [reflexivity | apply Forall_singleton; vm_compute; lia | reflexivity | vm_compute; discriminate
    | vm_compute; discriminate | reflexivity | reflexivity | exists (day_one + minutes 3 - minutes 5 - hours 1); reflexivity].
Defined.
