(* ===== verification/Collections.v ===== *)
(** * Hash maps and hash sets

    A Rust [HashMap] is a finite map whose iteration order is unspecified; so is the
    order of the rows of a query without [ORDER BY].  The order is an oracle: the
    [n]-th run of the loop named [l] visits the entries in the permutation
    [shuffle n l] chooses.  The properties hold for every oracle. *)

From stdpp Require Import base gmap strings list.
From S2P Require Import Prelude.

Class HashOrder := {
  shuffle : forall {A : Type}, nat -> string -> list A -> list A;
  shuffle_Permutation : forall {A : Type} n l (xs : list A), shuffle n l xs ≡ₚ xs
}.

(** The order in which the entries happen to be stored. *)
Definition storage_order : HashOrder :=
  {| shuffle := fun _ _ _ xs => xs; shuffle_Permutation := fun _ _ _ xs => Permutation_refl xs |}.

(** Some other order, to run the code with. *)
Definition reverse_order : HashOrder :=
  {| shuffle := fun _ _ _ xs => reverse xs;
     shuffle_Permutation := fun _ _ _ xs => reverse_Permutation xs |}.

Section Iteration.
Context `{HashOrder} {V : Type}.
Implicit Types m : gmap string V.

(** [for (k, v) in &m] and [m.values()]. *)
Definition iter (n : nat) (l : string) m : list (string * V) := shuffle n l (map_to_list m).
Definition values (n : nat) (l : string) m : list V := (iter n l m).*2.

Lemma iter_Permutation n l m : iter n l m ≡ₚ map_to_list m.
Proof. apply shuffle_Permutation. Qed.

Lemma elem_of_iter n l m k v : (k, v) ∈ iter n l m <-> m !! k = Some v.
Proof. by rewrite iter_Permutation, elem_of_map_to_list. Qed.

Lemma NoDup_iter_keys n l m : NoDup (iter n l m).*1.
Proof. rewrite iter_Permutation. apply NoDup_fst_map_to_list. Qed.

Lemma iter_nil n l m : iter n l m = [] <-> m = ∅.
Proof.
  split; intros Hm.
  - apply map_to_list_empty_iff, Permutation_nil_r. by rewrite <- (iter_Permutation n l), Hm.
  - subst. apply Permutation_nil_r. by rewrite iter_Permutation, map_to_list_empty.
Qed.
End Iteration.

(** [m.is_empty()] and [m.len()]. *)
Definition is_empty {V} (m : gmap string V) : bool := bool_decide (m = ∅).
Definition len {V} (m : gmap string V) : nat := size m.

(** [*m.entry(k).or_insert(0) += n] at 32 bits. *)
Definition entry_add (k : string) (n : Z) (m : gmap string Z) : gmap string Z :=
  <[k := wrap 32 (default 0%Z (m !! k) + n)]> m.

(** [set.insert(x)]: the new set and whether the element was new. *)
Definition set_insert `{Countable A} (x : A) (s : gset A) : bool * gset A :=
  (bool_decide (x ∉ s), {[x]} ∪ s).

Lemma Forall_snoc {A} (P : A -> Prop) l x : Forall P (l ++ [x]) <-> Forall P l /\ P x.
Proof. by rewrite Forall_app, Forall_singleton. Qed.

(** Sums of a list of integers. *)
Definition Zsum (l : list Z) : Z := foldr Z.add 0%Z l.

Lemma Zsum_app l k : Zsum (l ++ k) = (Zsum l + Zsum k)%Z.
Proof. induction l as [|x l IH]; simpl; lia. Qed.

Lemma Zsum_nonneg l : Forall (fun x => 0 <= x)%Z l -> (0 <= Zsum l)%Z.
Proof. induction 1; simpl; lia. Qed.

#[export] Instance Zsum_proper : Proper ((≡ₚ) ==> (=)) Zsum.
Proof. induction 1; simpl; lia. Qed.

Lemma Zsum_elem_le x l : Forall (fun x => 0 <= x)%Z l -> x ∈ l -> (x <= Zsum l)%Z.
Proof.
  induction 1 as [|y l Hy Hl IH]; intros Hin; [by apply elem_of_nil in Hin|].
  apply Zsum_nonneg in Hl. apply elem_of_cons in Hin as [-> | Hin]; simpl; [lia|].
  specialize (IH Hin). lia.
Qed.

(** Two distinct positions of a list of non-negative numbers. *)
Lemma Zsum_two_le l i j x y :
  Forall (fun x => 0 <= x)%Z l -> i ≠ j -> l !! i = Some x -> l !! j = Some y ->
  (x + y <= Zsum l)%Z.
Proof.
  intros Hl Hij Hi Hj. revert i j Hij Hi Hj.
  induction Hl as [|z l Hz Hl IH]; intros i j Hij Hi Hj; [done|].
  pose proof (Zsum_nonneg _ Hl) as Hs.
  destruct i as [|i], j as [|j]; simpl in *; simplify_eq.
  - pose proof (Zsum_elem_le y l Hl (list_elem_of_lookup_2 _ _ _ Hj)). lia.
  - pose proof (Zsum_elem_le x l Hl (list_elem_of_lookup_2 _ _ _ Hi)). lia.
  - specialize (IH i j ltac:(congruence) Hi Hj). lia.
Qed.
