(* ===== verification/JwtAuth.v ===== *)
(** * Validator sessions with tokens (basilica-miner/src/auth.rs)

    Tokens are made and checked by the jsonwebtoken library: [Jwt] has its two functions,
    with the options the service sets (HS256, issuer, audience, [exp] and [nbf] checked
    without leeway).  Times are nanoseconds; the times in claims are seconds. *)

From stdpp Require Import base gmap strings list.
From Stdlib Require Import ZArith.
From S2P Require Import Prelude.
From S2P Require Import Signatures.
From S2P Require Import Decimal.
From S2P Require Import Collections.
Local Open Scope Z_scope.

Record ValidatorClaims := {
  sub : string; iss : string; aud : string;
  exp : Z; iat : Z; nbf : Z;               (* i64 seconds *)
  jti : string;
  claim_session_id : string;
  claim_permissions : list string
}.

Class Jwt := {
  jwt_encode : string -> ValidatorClaims -> result string string;
  (* secret, audience, issuer, the time in seconds, token *)
  jwt_decode : string -> string -> string -> Z -> string -> result string ValidatorClaims
}.

(** A decoded token is the one encoded under the key, of the audience and issuer asked
    for, begun and not expired; and such a token decodes. *)
Class JwtLaws `{Jwt} := {
  jwt_sound k a i now t c :
    jwt_decode k a i now t = Ok c -> aud c = a /\ iss c = i /\ nbf c <= now <= exp c;
  jwt_unique k c t a i now c' :
    jwt_encode k c = Ok t -> jwt_decode k a i now t = Ok c' -> c' = c;
  jwt_complete k c t now :
    jwt_encode k c = Ok t -> nbf c <= now <= exp c -> jwt_decode k (aud c) (iss c) now t = Ok c
}.

Definition nanos : Z := 1000000000.

(** [DateTime::timestamp] *)
Definition timestamp (t : Z) : Z := t / nanos.

Record ValidatorSession := {
  vs_hotkey : string;
  vs_session_id : string;
  vs_token_id : string;
  vs_created_at : Z;
  vs_expires_at : Z;
  vs_last_activity : Z;
  vs_ip_address : option string;
  vs_permissions : list string
}.

Record RevokedToken := { rt_token_id : string; rt_revoked_at : Z; rt_expires_at : Z }.

Record JwtAuthService := {
  secret : string;
  issuer : string;
  audience : string;
  token_expiration : Z;
  jwt_sessions : gmap string ValidatorSession;
  revoked_tokens : gmap string RevokedToken
}.

Definition with_state (x : JwtAuthService) (m : gmap string ValidatorSession)
    (r : gmap string RevokedToken) : JwtAuthService := {|
  secret := secret x; issuer := issuer x; audience := audience x;
  token_expiration := token_expiration x; jwt_sessions := m; revoked_tokens := r |}.

Definition JwtAuthService_new (jwt_secret issuer audience : string) (expiration : Z)
    : result string JwtAuthService :=
  if (String.length jwt_secret <? 32)%nat then
    Err "JWT secret must be at least 32 characters for security"
  else Ok {| secret := jwt_secret; issuer := issuer; audience := audience;
             token_expiration := expiration; jwt_sessions := ∅; revoked_tokens := ∅ |}.

Definition touch_session (now : Z) (s : ValidatorSession) : ValidatorSession := {|
  vs_hotkey := vs_hotkey s; vs_session_id := vs_session_id s; vs_token_id := vs_token_id s;
  vs_created_at := vs_created_at s; vs_expires_at := vs_expires_at s; vs_last_activity := now;
  vs_ip_address := vs_ip_address s; vs_permissions := vs_permissions s |}.

Definition with_ip (ip : string) (s : ValidatorSession) : ValidatorSession := {|
  vs_hotkey := vs_hotkey s; vs_session_id := vs_session_id s; vs_token_id := vs_token_id s;
  vs_created_at := vs_created_at s; vs_expires_at := vs_expires_at s;
  vs_last_activity := vs_last_activity s; vs_ip_address := Some ip;
  vs_permissions := vs_permissions s |}.

Section Service.
Context `{Jwt} `{UuidText}.
Implicit Types x : JwtAuthService.

Definition new_claims (now : Z) (id : uuid) (hotkey sid : string) (permissions : list string) x
    : ValidatorClaims := {|
  sub := hotkey; iss := issuer x; aud := audience x;
  exp := timestamp (now + token_expiration x); iat := timestamp now; nbf := timestamp now;
  jti := uuid_to_string id; claim_session_id := sid; claim_permissions := permissions |}.

Definition new_session (now : Z) (id : uuid) (hotkey sid : string) (permissions : list string)
    (ip : option string) x : ValidatorSession := {|
  vs_hotkey := hotkey; vs_session_id := sid; vs_token_id := uuid_to_string id;
  vs_created_at := now; vs_expires_at := now + token_expiration x; vs_last_activity := now;
  vs_ip_address := ip; vs_permissions := permissions |}.

Definition generate_token (now : Z) (id : uuid) (hotkey sid : string) (permissions : list string)
    (ip : option string) x : result string string * JwtAuthService :=
  match jwt_encode (secret x) (new_claims now id hotkey sid permissions x) with
  | Err e => (Err e, x)
  | Ok token =>
      (Ok token, with_state x (<[sid := new_session now id hotkey sid permissions ip x]> (jwt_sessions x))
                   (revoked_tokens x))
  end.

(** [now] is the time of the decoding and [now'] that of the activity. *)
Definition validate_token (now now' : Z) (token : string) x
    : result string ValidatorClaims * JwtAuthService :=
  match jwt_decode (secret x) (audience x) (issuer x) (timestamp now) token with
  | Err e => (Err e, x)
  | Ok c =>
      match revoked_tokens x !! jti c with
      | Some _ => (Err "Token has been revoked", x)
      | None =>
          match jwt_sessions x !! claim_session_id c with
          | Some s =>
              (Ok c, with_state x (<[claim_session_id c := touch_session now' s]> (jwt_sessions x))
                       (revoked_tokens x))
          | None => (Err "Session not found", x)
          end
      end
  end.

Definition revoke_token (now : Z) (token_id : string) (expires_at : Z) x : JwtAuthService :=
  with_state x (jwt_sessions x)
    (<[token_id := {| rt_token_id := token_id; rt_revoked_at := now; rt_expires_at := expires_at |}]>
       (revoked_tokens x)).

Definition revocation (now : Z) (s : ValidatorSession) : RevokedToken :=
  {| rt_token_id := vs_token_id s; rt_revoked_at := now; rt_expires_at := vs_expires_at s |}.

Definition revoke_session (now : Z) (sid : string) x : result string unit * JwtAuthService :=
  match jwt_sessions x !! sid with
  | Some s =>
      (Ok tt, with_state x (delete sid (jwt_sessions x))
                (<[vs_token_id s := revocation now s]> (revoked_tokens x)))
  | None => (Err "Session not found", x)
  end.

(** The expired sessions are removed in the order of the map; then the revocations are
    dropped whose tokens expired a day ago. *)
Definition expire_session (now : Z) x (sid : string) : JwtAuthService :=
  match jwt_sessions x !! sid with
  | Some s =>
      with_state x (delete sid (jwt_sessions x))
        (<[vs_token_id s := revocation now s]> (revoked_tokens x))
  | None => x
  end.

Definition JwtAuthService_cleanup_expired `{HashOrder} (n : nat) (now : Z) x : JwtAuthService :=
  let expired :=
    fst <$> List.filter (fun kv => vs_expires_at kv.2 <? now) (iter n "sessions" (jwt_sessions x)) in
  let x := fold_left (expire_session now) expired x in
  with_state x (jwt_sessions x)
    (filter (fun kv => now < rt_expires_at kv.2 + hours 24) (revoked_tokens x)).

Definition get_session (sid : string) x : result string ValidatorSession :=
  match jwt_sessions x !! sid with Some s => Ok s | None => Err "Session not found" end.

Definition list_active_sessions `{HashOrder} (n : nat) x : list ValidatorSession :=
  values n "sessions" (jwt_sessions x).

Definition update_session_ip (sid ip : string) x : result string unit * JwtAuthService :=
  match jwt_sessions x !! sid with
  | Some s => (Ok tt, with_state x (<[sid := with_ip ip s]> (jwt_sessions x)) (revoked_tokens x))
  | None => (Err "Session not found", x)
  end.

(** ** Requests over time

    The service holds its locks for a whole operation, so concurrent requests are a
    sequence. *)
Inductive JwtEvent :=
  | Generate (now : Z) (id : uuid) (hotkey sid : string) (permissions : list string) (ip : option string)
  | Validate (now now' : Z) (token : string)
  | RevokeToken (now : Z) (token_id : string) (expires_at : Z)
  | RevokeSession (now : Z) (sid : string)
  | CleanupExpired (n : nat) (now : Z)
  | UpdateIp (now : Z) (sid ip : string).

Definition jwt_time (e : JwtEvent) : Z :=
  match e with
  | Generate now _ _ _ _ _ | Validate now _ _ | RevokeToken now _ _ | RevokeSession now _
  | CleanupExpired _ now | UpdateIp now _ _ => now
  end.

Definition jwt_step `{HashOrder} x (e : JwtEvent) : JwtAuthService :=
  match e with
  | Generate now id h sid ps ip => (generate_token now id h sid ps ip x).2
  | Validate now now' t => (validate_token now now' t x).2
  | RevokeToken now id e => revoke_token now id e x
  | RevokeSession now sid => (revoke_session now sid x).2
  | CleanupExpired n now => JwtAuthService_cleanup_expired n now x
  | UpdateIp _ sid ip => (update_session_ip sid ip x).2
  end.

Definition jwt_run `{HashOrder} x (es : list JwtEvent) : JwtAuthService := fold_left jwt_step es x.
End Service.
