(* ===== verification/JwtClaims.v ===== *)
(** * Sessions: revocation and locks

    A revoked session's token stays refused; the two locks of the service are taken in
    both orders. *)

From stdpp Require Import base gmap strings list.
From Stdlib Require Import ZArith.
From S2P Require Import Prelude.
From S2P Require Import Signatures.
From S2P Require Import Decimal.
From S2P Require Import Collections.
From S2P Require Import JwtAuth.
Local Open Scope Z_scope.

(** ** Revocation *)

Section Revocation.
Context `{Jwt} `{UuidText} `{HashOrder}.
Implicit Types x : JwtAuthService.

(** What no operation changes. *)
Definition same_settings x y : Prop :=
  secret x = secret y /\ issuer x = issuer y /\ audience x = audience y /\
  token_expiration x = token_expiration y.

Lemma expire_all_settings now ids x : same_settings (fold_left (expire_session now) ids x) x.
Proof.
  revert x. induction ids as [|sid ids IH]; intros x; [done|]. simpl. unfold same_settings in *.
  destruct (IH (expire_session now x sid)) as (-> & -> & -> & ->).
  unfold expire_session. by destruct (jwt_sessions x !! sid).
Qed.

Lemma jwt_step_settings x e : same_settings (jwt_step x e) x.
Proof.
  destruct e; simpl; unfold generate_token, validate_token, revoke_session, update_session_ip;
    repeat case_match; try done.
  unfold JwtAuthService_cleanup_expired. simpl. apply expire_all_settings.
Qed.

Lemma jwt_run_settings es x : same_settings (jwt_run x es) x.
Proof.
  unfold jwt_run. revert x. induction es as [|e es IH]; intros x; [done|]. simpl. unfold same_settings in IH |- *.
  destruct (IH (jwt_step x e)) as (-> & -> & -> & ->). apply jwt_step_settings.
Qed.

(** Sessions of the token [j] do not expire before [e]. *)
Definition lasts (j : string) (e : Z) x : Prop :=
  forall sid s, jwt_sessions x !! sid = Some s -> vs_token_id s = j -> e <= vs_expires_at s.

(** Session [sid], while it is there, has the token [j]. *)
Definition holds (sid j : string) x : Prop :=
  forall s, jwt_sessions x !! sid = Some s -> vs_token_id s = j.

(** Token [j] is revoked until [e] at least, or that was a day before [last]. *)
Definition barred (j : string) (e last : Z) x : Prop :=
  (exists r, revoked_tokens x !! j = Some r /\ e <= rt_expires_at r) \/ e + hours 24 <= last.

Lemma expire_session_inv j e last now sid x :
  lasts j e x -> lasts j e (expire_session now x sid) /\
  (barred j e last x -> barred j e last (expire_session now x sid)) /\
  forall sid', holds sid' j x -> holds sid' j (expire_session now x sid).
Proof.
  intros Hl. unfold expire_session. destruct (jwt_sessions x !! sid) as [s|] eqn:Es; [|done].
  split_and!.
  - intros sid' s' Hs' Hj. simpl in Hs'. apply lookup_delete_Some in Hs' as [_ Hs']. by eapply Hl.
  - intros [(r & Hr & He) | Hb]; [|by right]. left. simpl.
    destruct (decide (vs_token_id s = j)) as [<- | Hne].
    + eexists. rewrite lookup_insert_eq. split; [done|]. simpl. by eapply Hl.
    + exists r. by rewrite lookup_insert_ne.
  - intros sid' Hh s' Hs'. simpl in Hs'. apply lookup_delete_Some in Hs' as [_ Hs']. by apply Hh.
Qed.

Lemma expire_all_inv j e last now ids : forall x,
  lasts j e x -> lasts j e (fold_left (expire_session now) ids x) /\
  (barred j e last x -> barred j e last (fold_left (expire_session now) ids x)) /\
  forall sid', holds sid' j x -> holds sid' j (fold_left (expire_session now) ids x).
Proof.
  induction ids as [|sid ids IH]; intros x Hl; [done|]. simpl.
  destruct (expire_session_inv j e last now sid x Hl) as (Hl' & Hb' & Hh').
  destruct (IH _ Hl') as (? & ? & ?). auto.
Qed.

(** An update of a session that keeps its token and end. *)
Lemma lasts_update j e x sid s s' r :
  lasts j e x -> jwt_sessions x !! sid = Some s -> vs_token_id s' = vs_token_id s ->
  vs_expires_at s' = vs_expires_at s -> lasts j e (with_state x (<[sid := s']> (jwt_sessions x)) r).
Proof.
  intros Hl Hs Et Ee sid' q Hq Hj. simpl in Hq.
  apply lookup_insert_Some in Hq as [[<- <-] | [_ Hq]]; [|by eapply Hl].
  rewrite Ee. eapply Hl; [done|]. congruence.
Qed.

Lemma holds_update j x sid sid' s s' r :
  holds sid' j x -> jwt_sessions x !! sid = Some s -> vs_token_id s' = vs_token_id s ->
  holds sid' j (with_state x (<[sid := s']> (jwt_sessions x)) r).
Proof.
  intros Hh Hs Et q Hq. simpl in Hq.
  apply lookup_insert_Some in Hq as [[<- <-] | [_ Hq]]; [|by apply Hh].
  rewrite Et. by apply Hh.
Qed.

(** The requests the two invariants allow: times after [g], no shorter revocation of [j]. *)
Definition allowed (j : string) (g e : Z) (ev : JwtEvent) : Prop :=
  g <= jwt_time ev /\
  match ev with RevokeToken _ id until => id = j -> e <= until | _ => True end.

Lemma jwt_step_lasts j g x ev :
  allowed j g (g + token_expiration x) ev -> lasts j (g + token_expiration x) x ->
  lasts j (g + token_expiration x) (jwt_step x ev).
Proof.
  intros [Hg _] Hl. destruct ev as [now id h sid ps ip | now now' t | now id until | now sid | n now | now sid ip];
    simpl in *.
  - unfold generate_token. destruct (jwt_encode _ _); [|done]. simpl.
    intros sid' s Hs Hj. simpl in Hs. apply lookup_insert_Some in Hs as [[<- <-] | [_ Hs]]; [|by eapply Hl].
    simpl. lia.
  - unfold validate_token. destruct (jwt_decode _ _ _ _ _) as [c|]; [|done].
    destruct (revoked_tokens x !! jti c); [done|].
    destruct (jwt_sessions x !! claim_session_id c) eqn:Es; [|done]. by eapply lasts_update.
  - exact Hl.
  - by apply (expire_session_inv j _ 0 now sid) in Hl as [Hl _]; unfold revoke_session, expire_session in *;
      destruct (jwt_sessions x !! sid).
  - unfold JwtAuthService_cleanup_expired. set (y := fold_left _ _ _).
    destruct (expire_all_inv j _ 0 now (fst <$> List.filter (fun kv => vs_expires_at kv.2 <? now)
      (iter n "sessions" (jwt_sessions x))) x Hl) as (Hy & _). exact Hy.
  - unfold update_session_ip. destruct (jwt_sessions x !! sid) eqn:Es; [|done]. by eapply lasts_update.
Qed.

Lemma jwt_step_holds sid j x ev :
  match ev with Generate _ _ _ sid' _ _ => sid' <> sid | _ => True end ->
  holds sid j x -> holds sid j (jwt_step x ev).
Proof.
  intros Hg Hh. destruct ev as [now id h sid' ps ip | now now' t | now id until | now sid' | n now | now sid' ip];
    simpl in *.
  - unfold generate_token. destruct (jwt_encode _ _); [|done]. intros s Hs. simpl in Hs.
    rewrite lookup_insert_ne in Hs by done. by apply Hh.
  - unfold validate_token. destruct (jwt_decode _ _ _ _ _) as [c|]; [|done].
    destruct (revoked_tokens x !! jti c); [done|].
    destruct (jwt_sessions x !! claim_session_id c) eqn:Es; [|done]. by eapply holds_update.
  - exact Hh.
  - unfold revoke_session. destruct (jwt_sessions x !! sid') eqn:Es; [|done]. intros s Hs. simpl in Hs.
    apply lookup_delete_Some in Hs as [_ Hs]. by apply Hh.
  - unfold JwtAuthService_cleanup_expired. set (ids := fst <$> _). simpl. clearbody ids. revert x Hh.
    induction ids as [|i ids IH]; intros x Hh; [exact Hh|]. apply (IH (expire_session now x i)).
    unfold expire_session. destruct (jwt_sessions x !! i); [|done]. intros s Hs. simpl in Hs.
    apply lookup_delete_Some in Hs as [_ Hs]. by apply Hh.
  - unfold update_session_ip. destruct (jwt_sessions x !! sid') eqn:Es; [|done]. by eapply holds_update.
Qed.

Lemma jwt_step_barred j g e last x ev :
  allowed j g e ev -> jwt_time ev <= last -> lasts j e x -> barred j e last x ->
  barred j e last (jwt_step x ev).
Proof.
  intros [_ Ha] Ht Hl Hb. destruct ev as [now id h sid ps ip | now now' t | now id until | now sid | n now | now sid ip];
    simpl in *.
  - unfold generate_token. by destruct (jwt_encode _ _).
  - unfold validate_token. by repeat case_match.
  - destruct Hb as [(r & Hr & He) | Hb]; [left | by right]. simpl.
    destruct (decide (id = j)) as [-> | Hne].
    + eexists. rewrite lookup_insert_eq. split; [done|]. simpl. auto.
    + exists r. by rewrite lookup_insert_ne.
  - pose proof (expire_session_inv j e last now sid x Hl) as (_ & Hk & _). specialize (Hk Hb).
    unfold revoke_session, expire_session in *. by destruct (jwt_sessions x !! sid).
  - unfold JwtAuthService_cleanup_expired. set (ids := fst <$> _).
    destruct (expire_all_inv j e last now ids x Hl) as (_ & Hk & _).
    destruct (Hk Hb) as [(r & Hr & He) | Hr]; [|by right]. simpl.
    destruct (decide (now < rt_expires_at r + hours 24)) as [Hkeep | Hdrop]; [left | right; lia].
    exists r. split; [|done]. by apply map_lookup_filter_Some.
  - unfold update_session_ip. by destruct (jwt_sessions x !! sid).
Qed.

Lemma jwt_run_barred j g last es : forall x,
  Forall (fun ev => allowed j g (g + token_expiration x) ev /\ jwt_time ev <= last) es ->
  lasts j (g + token_expiration x) x -> barred j (g + token_expiration x) last x ->
  barred j (g + token_expiration x) last (jwt_run x es).
Proof.
  unfold jwt_run. induction es as [|ev es IH]; intros x Hes Hl Hb; [done|]. simpl.
  apply Forall_cons in Hes as [[Ha Ht] Hes].
  destruct (jwt_step_settings x ev) as (_ & _ & _ & Ee). rewrite <- Ee.
  apply IH; rewrite Ee; [done | by apply jwt_step_lasts | by eapply jwt_step_barred].
Qed.

Lemma jwt_run_lasts j g sid es : forall x,
  Forall (fun ev => allowed j g (g + token_expiration x) ev /\
    match ev with Generate _ _ _ sid' _ _ => sid' <> sid | _ => True end) es ->
  lasts j (g + token_expiration x) x -> holds sid j x ->
  lasts j (g + token_expiration x) (jwt_run x es) /\ holds sid j (jwt_run x es).
Proof.
  unfold jwt_run. induction es as [|ev es IH]; intros x Hes Hl Hh; [done|]. simpl.
  apply Forall_cons in Hes as [[Ha Hg] Hes].
  destruct (jwt_step_settings x ev) as (_ & _ & _ & Ee). rewrite <- Ee.
  apply IH; rewrite ?Ee; [done | by apply jwt_step_lasts | by apply jwt_step_holds].
Qed.

Lemma revoke_session_bars j e e' now last sid x x' :
  revoke_session now sid x = (Ok tt, x') -> lasts j (e + e') x -> holds sid j x ->
  lasts j (e + e') x' /\ barred j (e + e') last x' /\ secret x' = secret x /\
  token_expiration x' = token_expiration x.
Proof.
  unfold revoke_session. destruct (jwt_sessions x !! sid) as [s|] eqn:Es; [|done].
  intros [= <-] Hl Hh. pose proof (Hh s Es) as Hj. split_and!; [| left | done | done]; simpl.
  - intros k q Hq. simpl in Hq. apply lookup_delete_Some in Hq as [_ Hq]. by eapply Hl.
  - eexists. rewrite Hj, lookup_insert_eq. split; [done|]. simpl. by eapply Hl.
Qed.

(** A barred token does not validate. *)
Lemma barred_refused `{!JwtLaws} j e now now' c token x :
  jwt_encode (secret x) c = Ok token -> exp c = timestamp e -> jti c = j -> barred j e now x ->
  is_Ok (validate_token now now' token x).1 = false.
Proof.
  intros Eenc Ee <- Hb. unfold validate_token.
  destruct (jwt_decode _ _ _ _ _) as [c'|] eqn:Edec; [|done].
  pose proof (jwt_unique _ _ _ _ _ _ _ Eenc Edec) as ->.
  apply jwt_sound in Edec as (_ & _ & _ & Hexp).
  destruct Hb as [(r & -> & _) | Hb]; [done|]. exfalso. rewrite Ee in Hexp.
  unfold timestamp, hours, nanos in *.
  pose proof (Z.div_le_mono (e + 86400 * 1000000000) now 1000000000 ltac:(lia) ltac:(lia)) as Hd.
  rewrite Z.div_add in Hd by lia. lia.
Qed.

(** *** Until the revocation *)

(** Requests that do not end session [sid] of the token [j], which lasts until [e]: another
    identifier and session for new tokens, no revocation of the token or the session, no
    clean-up after [e]. *)
Definition undisturbed (j sid : string) (e : Z) (ev : JwtEvent) : Prop :=
  match ev with
  | Generate _ id _ sid' _ _ => uuid_to_string id <> j /\ sid' <> sid
  | RevokeToken _ id _ => id <> j
  | RevokeSession _ sid' => sid' <> sid
  | CleanupExpired _ now => now <= e
  | Validate _ _ _ | UpdateIp _ _ _ => True
  end.

(** The session is there, it alone has the token, and the token is not revoked. *)
Record alive (j sid : string) (e : Z) x : Prop := {
  alive_session : exists s, jwt_sessions x !! sid = Some s /\ e <= vs_expires_at s;
  alive_token : forall k s, jwt_sessions x !! k = Some s -> vs_token_id s = j -> k = sid;
  alive_revoked : revoked_tokens x !! j = None
}.

Lemma alive_update j sid e x k s s' :
  alive j sid e x -> jwt_sessions x !! k = Some s -> vs_token_id s' = vs_token_id s ->
  vs_expires_at s' = vs_expires_at s ->
  alive j sid e (with_state x (<[k := s']> (jwt_sessions x)) (revoked_tokens x)).
Proof.
  intros [(s0 & Hs0 & He) Ht Hr] Hk Et Ee. constructor; simpl; [| |done].
  - destruct (decide (k = sid)) as [-> | Hne].
    + exists s'. rewrite lookup_insert_eq. simplify_eq. split; [done|]. by rewrite Ee.
    + exists s0. by rewrite lookup_insert_ne.
  - intros k' q [[<- <-] | [_ Hq]]%lookup_insert_Some Hj; [|by eapply Ht].
    eapply Ht; [done|]. congruence.
Qed.

Lemma alive_expire j sid e now x k :
  alive j sid e x -> k <> sid -> alive j sid e (expire_session now x k).
Proof.
  intros Ha Hk. unfold expire_session. destruct (jwt_sessions x !! k) as [s|] eqn:Es; [|done].
  destruct Ha as [(s0 & Hs0 & He) Ht Hr]. constructor; simpl.
  - exists s0. by rewrite lookup_delete_ne.
  - intros k' q [_ Hq]%lookup_delete_Some. by apply Ht.
  - rewrite lookup_insert_ne; [done|]. intros Hj. by apply Hk, (Ht k s).
Qed.

Lemma alive_expire_all j sid e now ids : forall x,
  alive j sid e x -> (forall k, k ∈ ids -> k <> sid) ->
  alive j sid e (fold_left (expire_session now) ids x).
Proof.
  induction ids as [|k ids IH]; intros x Ha Hids; [done|]. simpl. apply IH.
  - apply alive_expire; [done|]. apply Hids. by left.
  - intros k' Hk'. apply Hids. by right.
Qed.

Lemma alive_cleanup j sid e n now x :
  alive j sid e x -> now <= e -> alive j sid e (JwtAuthService_cleanup_expired n now x).
Proof.
  intros Ha Hnow. unfold JwtAuthService_cleanup_expired. set (ids := fst <$> _).
  assert (Hy : alive j sid e (fold_left (expire_session now) ids x)).
  { apply alive_expire_all; [done|]. intros k Hk ->. unfold ids in Hk.
    apply list_elem_of_fmap in Hk as ([k s] & -> & [Hin Hlt]%list_elem_of_In%filter_In).
    apply list_elem_of_In, elem_of_iter in Hin. simpl in *. b2p.
    destruct (alive_session _ _ _ _ Ha) as (s0 & Hs0 & He). simplify_eq. lia. }
  destruct Hy. constructor; simpl; [done..|]. by apply map_lookup_filter_None; left.
Qed.

Lemma jwt_step_alive j sid e x ev :
  undisturbed j sid e ev -> alive j sid e x -> alive j sid e (jwt_step x ev).
Proof.
  intros Hu Ha. destruct ev as [now id h sid' ps ip | now now' t | now id until | now sid' | n now | now sid' ip];
    simpl in *.
  - unfold generate_token. destruct (jwt_encode _ _); [|done]. destruct Hu as [Hid Hs], Ha as [(s0 & Hs0 & He) Ht Hr].
    constructor; simpl; [exists s0; by rewrite lookup_insert_ne| |done].
    intros k q [[<- <-] | [_ Hq]]%lookup_insert_Some; [done|by apply Ht].
  - unfold validate_token. destruct (jwt_decode _ _ _ _ _) as [c|]; [|done].
    destruct (revoked_tokens x !! jti c); [done|].
    destruct (jwt_sessions x !! claim_session_id c) eqn:Es; [|done]. by eapply alive_update.
  - destruct Ha. constructor; simpl; [done..|]. by rewrite lookup_insert_ne.
  - pose proof (alive_expire j sid e now x sid' Ha Hu) as He. unfold revoke_session, expire_session in *.
    by destruct (jwt_sessions x !! sid').
  - by apply alive_cleanup.
  - unfold update_session_ip. destruct (jwt_sessions x !! sid') eqn:Es; [|done]. by eapply alive_update.
Qed.

Lemma jwt_run_alive j sid e es : forall x,
  Forall (undisturbed j sid e) es -> alive j sid e x -> alive j sid e (jwt_run x es).
Proof.
  unfold jwt_run. induction es as [|ev es IH]; intros x Hes Ha; [done|]. simpl.
  apply Forall_cons in Hes as [Hu Hes]. apply IH; [done|]. by apply jwt_step_alive.
Qed.

(** A live token validates to its claims. *)
Lemma alive_validates `{!JwtLaws} sid e c token x t t' :
  jwt_encode (secret x) c = Ok token -> aud c = audience x -> iss c = issuer x ->
  nbf c <= timestamp t <= exp c -> claim_session_id c = sid -> alive (jti c) sid e x ->
  (validate_token t t' token x).1 = Ok c.
Proof.
  intros Eenc Ea Ei Ht <- [(s & Hs & _) _ Hr]. unfold validate_token.
  pose proof (jwt_complete _ _ _ _ Eenc Ht) as Hd. rewrite Ea, Ei in Hd. by rewrite Hd, Hr, Hs.
Qed.
End Revocation.

(** C25: A token works until its session is revoked, and then no more.  A generated token
    validates to its claims at any time before it expires, after any requests that leave it
    alone (they revoke neither the token nor its session, issue no token for that session
    or under that identifier, and clean up no later than the token's expiry).  Once
    [revoke_session] has succeeded for its session, no sequence of requests makes the token
    valid again, new sessions under the same identifier and clean-ups of old revocations
    included.  Two conditions are needed: no newer token was issued for the session before
    the revocation, which would then hit the newer one only ([older_token_revives]), and
    nobody revokes the token with an earlier expiry. *)
Theorem revoked_token_refused `{Jwt} `{UuidText} `{HashOrder} `{!JwtLaws}
    now0 id h sid ps ip x0 x1 token es1 now2 x3 es2 now now' :
  generate_token now0 id h sid ps ip x0 = (Ok token, x1) ->
  (forall k s, jwt_sessions x0 !! k = Some s -> vs_token_id s <> uuid_to_string id) ->
  Forall (fun ev => allowed (uuid_to_string id) now0 (now0 + token_expiration x1) ev /\
    match ev with Generate _ _ _ sid' _ _ => sid' <> sid | _ => True end) es1 ->
  revoke_session now2 sid (jwt_run x1 es1) = (Ok tt, x3) ->
  Forall (fun ev => allowed (uuid_to_string id) now0 (now0 + token_expiration x1) ev /\
    jwt_time ev <= now) es2 ->
  (forall es t t', Forall (undisturbed (uuid_to_string id) sid (now0 + token_expiration x0)) es ->
    timestamp now0 <= timestamp t <= timestamp (now0 + token_expiration x0) ->
    revoked_tokens x0 !! uuid_to_string id = None ->
    (validate_token t t' token (jwt_run x1 es)).1 = Ok (new_claims now0 id h sid ps x0)) /\
  is_Ok (validate_token now now' token (jwt_run x3 es2)).1 = false.
Proof.
  intros Hgen Hfresh Hes1 Hrev Hes2. unfold generate_token in Hgen.
  destruct (jwt_encode _ _) as [tok|] eqn:Eenc; [|done]. simplify_eq. split.
  - intros es t t' Hes Ht Hnr. set (x1 := with_state x0 _ _) in *.
    destruct (jwt_run_settings es x1) as (Ek & Ei & Ea & _).
    eapply (alive_validates sid (now0 + token_expiration x0)); [by rewrite Ek|by rewrite Ea|by rewrite Ei|done|done|].
    apply jwt_run_alive; [done|]. constructor; simpl; [|intros k s|done].
    + eexists. rewrite lookup_insert_eq. by split.
    + intros [[<- <-] | [_ Hs]]%lookup_insert_Some Hj; [done|]. by apply Hfresh in Hs.
  - set (x1 := with_state x0 _ _) in *.
    assert (Hl : lasts (uuid_to_string id) (now0 + token_expiration x1) x1).
    { intros k s Hs Hj. simpl in Hs. apply lookup_insert_Some in Hs as [[<- <-] | [_ Hs]]; [done|].
      by apply Hfresh in Hs. }
    assert (Hh : holds sid (uuid_to_string id) x1).
    { intros s Hs. simpl in Hs. rewrite lookup_insert_eq in Hs. by simplify_eq. }
    destruct (jwt_run_lasts _ now0 sid es1 x1 Hes1 Hl Hh) as [Hl2 Hh2].
    destruct (jwt_run_settings es1 x1) as (Ek & _ & _ & Ee). rewrite <- Ee in Hl2, Hes2.
    destruct (revoke_session_bars _ _ _ now2 now sid _ _ Hrev Hl2 Hh2) as (Hl3 & Hb3 & Ek3 & Ee3).
    rewrite <- Ee3 in Hl3, Hb3, Hes2.
    pose proof (jwt_run_barred _ now0 now es2 x3 Hes2 Hl3 Hb3) as Hb.
    destruct (jwt_run_settings es2 x3) as (Ek4 & _ & _ & _).
    eapply barred_refused; [ | | | exact Hb]; [by rewrite Ek4, Ek3, Ek | | done].
    simpl. by rewrite Ee3, Ee.
Qed.

(** ** A concrete service *)

Module JwtScenario.
Export Decimal.Concrete.
#[export] Existing Instance storage_order.

(** A token is a number that codes the key and the claims. *)
#[export] Instance ValidatorClaims_eq_dec : EqDecision ValidatorClaims.
Proof. solve_decision. Defined.
#[export] Instance ValidatorClaims_countable : Countable ValidatorClaims.
Proof.
  refine (inj_countable' (fun c => (sub c, iss c, aud c, (exp c, iat c, nbf c), jti c, claim_session_id c,
                                    claim_permissions c))
    (fun '(a, b, c, (d, e, f), g, h, i) => {| sub := a; iss := b; aud := c; exp := d; iat := e; nbf := f;
       jti := g; claim_session_id := h; claim_permissions := i |}) _). by intros [].
Defined.

#[export] Instance coded_jwt : Jwt := {|
  jwt_encode k c := Ok (HexString.of_N (Npos (encode (k, c))));
  jwt_decode k a i now t :=
    match HexString.to_N t with
    | Npos p =>
        match decode p with
        | Some (k', c) =>
            if String.eqb k k' && String.eqb a (aud c) && String.eqb i (iss c)
               && (nbf c <=? now) && (now <=? exp c) then Ok c else Err "InvalidToken"
        | None => Err "InvalidToken"
        end
    | N0 => Err "InvalidToken"
    end |}.

#[export] Instance coded_jwt_laws : JwtLaws.
Proof.
  split; cbn [jwt_encode jwt_decode coded_jwt].
  - intros k a i now t c. repeat case_match; intros; simplify_eq. b2p.
    repeat match goal with E : String.eqb _ _ = true |- _ => apply String.eqb_eq in E end. subst.
    split_and!; congruence || lia.
  - intros k c t a i now c' E. apply (f_equal ok_value), Some_inj in E as <-. rewrite HexString.to_N_of_N, decode_encode.
    case_match; [|done]. by intros [= <-].
  - intros k c t now E Ht. apply (f_equal ok_value), Some_inj in E as <-. rewrite HexString.to_N_of_N, decode_encode, !String.eqb_refl. simpl.
    by rewrite !(proj2 (Z.leb_le _ _)) by lia.
Qed.

Definition service : JwtAuthService := {|
  secret := "k"; issuer := "m"; audience := "m"; token_expiration := hours 1; jwt_sessions := ∅;
  revoked_tokens := ∅ |}.

Definition day_one : Z := 1735689600000000000.

Definition issue (now : Z) (id : uuid) (x : JwtAuthService) : string * JwtAuthService :=
  let '(r, x') := generate_token now id "v" "s" [] None x in (default "" (ok_value r), x').

(** Two tokens are issued for one session, which is then revoked; when the session is
    opened again the first token is valid once more. *)
Example older_token_revives :
  let '(first, x1) := issue day_one 1%N service in
  let x2 := (issue day_one 2%N x1).2 in
  let x3 := (revoke_session day_one "s" x2).2 in
  let x4 := (issue day_one 3%N x3).2 in
  is_Ok (validate_token day_one day_one first x3).1 = false /\
  is_Ok (validate_token day_one day_one first x4).1 = true.
Proof. vm_compute. split; reflexivity. Qed.
End JwtScenario.
Import JwtScenario.

(** Half an hour later, after a token for another session and a clean-up, the token is valid.
    Revoked after a minute, it is not, when the session is opened again and old revocations
    are dropped two days later. *)
Lemma revoked_token_witness :
  let '(token, x1) := issue day_one 1%N service in
  let x3 := (revoke_session (day_one + minutes 1) "s" x1).2 in
  (validate_token (day_one + minutes 30) (day_one + minutes 30) token
    (jwt_run x1 [Generate (day_one + minutes 2) 2%N "w" "s2" [] None; CleanupExpired 0 (day_one + minutes 10)])).1
  = Ok (new_claims day_one 1%N "v" "s" [] service) /\
  is_Ok (validate_token (day_one + hours 48) (day_one + hours 48) token
    (jwt_run x3 [Generate (day_one + minutes 2) 2%N "v" "s" [] None; CleanupExpired 0 (day_one + hours 48)])).1
  = false.
Proof.
  set (p := issue day_one 1%N service). set (x3 := (revoke_session (day_one + minutes 1) "s" p.2).2).
  assert (Hgen : generate_token day_one 1%N "v" "s" [] None service = (Ok p.1, p.2)) by (vm_compute; reflexivity).
  assert (Hrev : revoke_session (day_one + minutes 1) "s" (jwt_run p.2 []) = (Ok tt, x3)) by (vm_compute; reflexivity).
  assert (Hfresh : forall k s, jwt_sessions service !! k = Some s -> vs_token_id s <> uuid_to_string 1%N).
  { intros k s Hs. simpl in Hs. by rewrite lookup_empty in Hs. }
  assert (Hes : Forall (fun ev => allowed (uuid_to_string 1%N) day_one (day_one + token_expiration p.2) ev /\
      jwt_time ev <= day_one + hours 48)
    [Generate (day_one + minutes 2) 2%N "v" "s" [] None; CleanupExpired 0 (day_one + hours 48)]).
  { unfold allowed, hours, minutes. simpl.
    apply Forall_cons; split; [|apply Forall_singleton]; simpl; lia. }
  assert (Hun : Forall (undisturbed (uuid_to_string 1%N) "s" (day_one + token_expiration service))
    [Generate (day_one + minutes 2) 2%N "w" "s2" [] None; CleanupExpired 0 (day_one + minutes 10)]).
  { apply Forall_cons; split; [split; discriminate|apply Forall_singleton]. vm_compute. discriminate. }
  assert (Ht : timestamp day_one <= timestamp (day_one + minutes 30)
      <= timestamp (day_one + token_expiration service)) by (vm_compute; split; discriminate).
  destruct p as [token x1]. simpl in *.
  destruct (revoked_token_refused day_one 1%N "v" "s" [] None service x1 token [] (day_one + minutes 1) x3
    _ (day_one + hours 48) (day_one + hours 48) Hgen Hfresh (Forall_nil_2 _) Hrev Hes) as [Hfirst Hlast].
  split; [exact (Hfirst _ _ _ Hun Ht eq_refl)|exact Hlast].
Defined.
