(* ===== verification/JwtLocks.v ===== *)
(** * The locks of the token service

    basilica-miner/src/auth.rs keeps its sessions and its revoked tokens behind two
    [tokio::sync::RwLock]s.  An operation takes its locks one after the other and drops
    them all when it returns.  A lock is granted when no other task holds it in a
    conflicting mode; the queue of a lock only decides who goes first. *)

From stdpp Require Import base strings list relations.
From S2P Require Import Prelude.

Inductive LockId := SessionsLock | RevokedLock.
Inductive Mode := Read | Write.

#[export] Instance LockId_eq_dec : EqDecision LockId.
Proof. solve_decision. Defined.

Definition compatible (m m' : Mode) : bool :=
  match m, m' with Read, Read => true | _, _ => false end.

(** ** The operations *)

Inductive JwtOp :=
  OpGenerateToken | OpValidateToken | OpRevokeToken | OpRevokeSession | OpCleanupExpired
  | OpGetSession | OpListSessions | OpUpdateIp.

(** The locks in the order in which an operation that runs to its end takes them. *)
Definition locks_of (o : JwtOp) : list (LockId * Mode) :=
  match o with
  | OpGenerateToken => [(SessionsLock, Write)]
  | OpValidateToken => [(RevokedLock, Read); (SessionsLock, Write)]
  | OpRevokeToken => [(RevokedLock, Write)]
  | OpRevokeSession => [(SessionsLock, Write); (RevokedLock, Write)]
  | OpCleanupExpired => [(SessionsLock, Write); (RevokedLock, Write)]
  | OpGetSession | OpListSessions => [(SessionsLock, Read)]
  | OpUpdateIp => [(SessionsLock, Write)]
  end.

(** ** Tasks *)

Record Task := { waiting : list (LockId * Mode); held : list (LockId * Mode) }.

Definition spawn (o : JwtOp) : Task := {| waiting := locks_of o; held := [] |}.
Definition ended : Task := {| waiting := []; held := [] |}.

Inductive lock_step : list Task -> list Task -> Prop :=
  | lock_acquire ts i t l m rest :
      ts !! i = Some t -> waiting t = (l, m) :: rest ->
      (forall j t' m', j <> i -> ts !! j = Some t' -> (l, m') ∈ held t' -> compatible m m' = true) ->
      lock_step ts (<[i := {| waiting := rest; held := (l, m) :: held t |}]> ts)
  | lock_finish ts i t :
      ts !! i = Some t -> waiting t = [] -> held t <> [] -> lock_step ts (<[i := ended]> ts).

Definition all_ended (ts : list Task) : Prop := Forall (fun t => t = ended) ts.
Definition can_move (ts : list Task) : Prop := exists ts', lock_step ts ts'.
Definition reachable (ops : list JwtOp) (ts : list Task) : Prop := rtc lock_step (spawn <$> ops) ts.

(** ** Tasks that take the sessions first *)

Definition rank (l : LockId) : nat := match l with SessionsLock => 0 | RevokedLock => 1 end.

Definition ordered (t : Task) : Prop :=
  (forall l m l' m', (l, m) ∈ held t -> (l', m') ∈ waiting t -> (rank l < rank l')%nat) /\
  (forall l m rest l' m', waiting t = (l, m) :: rest -> (l', m') ∈ rest -> (rank l < rank l')%nat) /\
  (forall l m l' m' rest, waiting t = (l, m) :: (l', m') :: rest -> rest = []).

Lemma spawn_ordered o : o <> OpValidateToken -> ordered (spawn o).
Proof.
  intros Ho. split_and!; [intros ? ? ? ? He; by apply elem_of_nil in He | |];
    destruct o; simpl; try done; intros; simplify_eq; try done;
    try (by match goal with H : _ ∈ [] |- _ => apply elem_of_nil in H end).
  all: match goal with H : _ ∈ [_] |- _ => apply list_elem_of_singleton in H end; simplify_eq; simpl; lia.
Qed.

Lemma acquire_ordered t l m rest :
  ordered t -> waiting t = (l, m) :: rest -> ordered {| waiting := rest; held := (l, m) :: held t |}.
Proof.
  intros (Hh & Hw & Hs) Ew. split_and!; simpl.
  - intros l1 m1 l2 m2 H1 H2. apply elem_of_cons in H1 as [[= -> ->] | H1]; [by eapply Hw|].
    eapply Hh; [done|]. rewrite Ew. by apply elem_of_cons; right.
  - intros l1 m1 r l2 m2 -> H2. apply Hs in Ew as ->. by apply elem_of_nil in H2.
  - intros l1 m1 l2 m2 r ->. by apply Hs in Ew.
Qed.

Lemma step_ordered ts ts' : lock_step ts ts' -> Forall ordered ts -> Forall ordered ts'.
Proof.
  intros Hs Ho. destruct Hs as [ts i t l m rest Hi Ew _ | ts i t Hi Ew _];
    apply Forall_insert; try done; rewrite Forall_lookup in Ho; [by eapply acquire_ordered; [eapply Ho|]|].
  split_and!; simpl; intros; (try by match goal with H : _ ∈ [] |- _ => apply elem_of_nil in H end); done.
Qed.

Lemma reachable_ordered ops ts :
  Forall (fun o => o <> OpValidateToken) ops -> reachable ops ts -> Forall ordered ts.
Proof.
  intros Hops Hr. assert (H0 : Forall ordered (spawn <$> ops)).
  { apply Forall_fmap. eapply Forall_impl; [done|]. apply spawn_ordered. }
  unfold reachable in Hr. revert H0. induction Hr as [|x y z Hxy _ IH]; intros H0; [done|].
  apply IH. by eapply step_ordered.
Qed.

(** The first lock a task waits for. *)
Definition wants (t : Task) : option LockId := fst <$> head (waiting t).

(** A task that holds the lock of the highest rank waits for none. *)
Lemma holds_revoked_waits_none t m : ordered t -> (RevokedLock, m) ∈ held t -> waiting t = [].
Proof.
  intros (Hh & _) Hm. destruct (waiting t) as [|[l m'] rest] eqn:Ew; [done|].
  specialize (Hh RevokedLock m l m' Hm ltac:(by left)). destruct l; simpl in Hh; lia.
Qed.

Lemma holds_sessions_wants t m :
  ordered t -> (SessionsLock, m) ∈ held t -> waiting t <> [] -> wants t = Some RevokedLock.
Proof.
  intros (Hh & _) Hm Hw. unfold wants. destruct (waiting t) as [|[l m'] rest] eqn:Ew; [done|]. simpl.
  specialize (Hh SessionsLock m l m' Hm ltac:(by left)). destruct l; simpl in Hh; [lia|done].
Qed.

(** If nobody can finish, the task that wants the lock of the highest rank gets it. *)
Lemma ordered_progress ts : Forall ordered ts -> ~ all_ended ts -> can_move ts.
Proof.
  intros Ho Hne. rewrite Forall_lookup in Ho.
  destruct (list_find (fun t => waiting t = [] /\ held t <> []) ts) as [[i t]|] eqn:Ef.
  { apply list_find_Some in Ef as (Hi & [Hw Hh] & _). eexists. by eapply lock_finish. }
  rewrite list_find_None in Ef. rewrite Forall_lookup in Ef.
  assert (Hblock : forall i t, ts !! i = Some t -> held t <> [] -> waiting t <> []) by naive_solver.
  assert (Hholder : forall i t l m, ts !! i = Some t -> (l, m) ∈ held t -> waiting t <> []).
  { intros i t l m Hi Hm. apply (Hblock i t Hi). intros E. rewrite E in Hm. by apply elem_of_nil in Hm. }
  destruct (list_find (fun t => wants t = Some RevokedLock) ts) as [[i t]|] eqn:Er.
  { apply list_find_Some in Er as (Hi & Hw & _). unfold wants in Hw.
    destruct (waiting t) as [|[l m] rest] eqn:Ew; [done|]. simpl in Hw. simplify_eq.
    eexists. eapply lock_acquire; [done..|]. intros j t' m' _ Hj Hm'.
    destruct (Hholder j t' _ _ Hj Hm'). by eapply holds_revoked_waits_none; [eapply Ho|]. }
  rewrite list_find_None in Er. rewrite Forall_lookup in Er.
  assert (exists i t, ts !! i = Some t /\ waiting t <> []) as (i & t & Hi & Hw).
  { unfold all_ended in Hne. apply not_Forall_Exists in Hne; [|intros t; destruct t as [[|] [|]]; [by left|by right..]].
    apply Exists_exists in Hne as (t & Ht & Hd). apply list_elem_of_lookup in Ht as [i Hi]. exists i, t.
    split; [done|]. destruct t as [[|w ws] [|h hs]]; simpl in *; try done. by eapply Hblock in Hi. }
  destruct (waiting t) as [|[l m] rest] eqn:Ew; [done|]. destruct l; [|by destruct (Er i t Hi); unfold wants; rewrite Ew].
  eexists. eapply lock_acquire; [done..|]. intros j t' m' _ Hj Hm'. destruct (Er j t' Hj).
  eapply holds_sessions_wants; [by eapply Ho | done | by eapply Hholder].
Qed.

(** Every step uses up a lock to take or an end. *)
Definition work (t : Task) : nat :=
  2 * length (waiting t) + match held t with [] => 0 | _ => 1 end.
Definition total_work (ts : list Task) : nat := sum_list_with work ts.

Lemma total_work_insert ts i t t' :
  ts !! i = Some t -> (work t' < work t)%nat -> (total_work (<[i := t']> ts) < total_work ts)%nat.
Proof.
  unfold total_work. revert i. induction ts as [|u ts IH]; intros [|i] Hi Hlt; simplify_eq/=; [lia|].
  specialize (IH i Hi Hlt). lia.
Qed.

Lemma step_work ts ts' : lock_step ts ts' -> (total_work ts' < total_work ts)%nat.
Proof.
  intros [ts0 i t l m rest Hi Ew _ | ts0 i t Hi Ew Hh]; (eapply total_work_insert; [done|]);
    unfold work; rewrite Ew; simpl; [destruct (held t); lia|]. destruct (held t); [done|lia].
Qed.

(** C24: Whatever requests run at once, as long as none of them validates a token they all
    end: every state they reach is finished or can move on, and moves are bounded by the
    locks to take.  A validation takes the locks in the other order: run beside a
    revocation of a session it can reach a state in which both wait for each other
    for ever. *)
Theorem only_validations_deadlock :
  (forall ops ts, Forall (fun o => o <> OpValidateToken) ops -> reachable ops ts ->
    (all_ended ts \/ can_move ts) /\ (forall ts', lock_step ts ts' -> (total_work ts' < total_work ts)%nat)) /\
  (exists ts, reachable [OpValidateToken; OpRevokeSession] ts /\ ~ all_ended ts /\ ~ can_move ts).
Proof.
  split.
  - intros ops ts Hops Hr. split; [|apply step_work].
    destruct (decide (Forall (fun t => waiting t = [] /\ held t = []) ts)) as [Hd | Hd].
    + left. eapply Forall_impl; [done|]. intros [w h] [Ew Eh]. simpl in *. by subst.
    + right. apply ordered_progress; [by eapply reachable_ordered|]. intros Ha. apply Hd.
      eapply Forall_impl; [done|]. by intros t ->.
  - exists [{| waiting := [(SessionsLock, Write)]; held := [(RevokedLock, Read)] |};
            {| waiting := [(RevokedLock, Write)]; held := [(SessionsLock, Write)] |}].
    split_and!.
    + eapply rtc_l; [|eapply rtc_l; [|apply rtc_refl]].
      * eapply (lock_acquire [spawn OpValidateToken; spawn OpRevokeSession] 0); [done | done |].
        intros [|[|j]] t' m' Hj Ht' Hm'; simplify_eq/=. by apply elem_of_nil in Hm'.
      * refine (lock_acquire [_; spawn OpRevokeSession] 1 (spawn OpRevokeSession) SessionsLock Write
          [(RevokedLock, Write)] eq_refl eq_refl _).
        intros [|[|j]] t' m' Hj Ht' Hm'; simplify_eq/=. by apply list_elem_of_singleton in Hm'.
    + intros Ha. apply Forall_cons in Ha as [Ha _]. done.
    + intros [ts' Hs]. inversion Hs as [? i t l m rest Hi Ew Hg | ? i t Hi Ew Hh]; subst.
      * destruct i as [|[|i]]; simplify_eq/=.
        -- by specialize (Hg 1%nat _ Write ltac:(done) eq_refl ltac:(by left)).
        -- by specialize (Hg 0%nat _ Read ltac:(done) eq_refl ltac:(by left)).
      * by destruct i as [|[|i]]; simplify_eq/=.
Qed.
