(* ===== verification/BillingTypes.v ===== *)
(** * Billing: domain types (crates/basilica-billing/src/domain/types.rs)

    Identifiers, the [CreditBalance] money type, the rental life-cycle states, the
    billing periods, usage metrics and cost breakdowns, with the arithmetic facts
    the rest of the billing components share: on well-formed balances every
    operation is exact integer arithmetic on micro-credits. *)

From Stdlib Require Import ZArith.
From stdpp Require Import base gmap strings list numbers.
From S2P Require Import Prelude Float64 Decimal.
Local Open Scope Z_scope.

(** The newtypes [UserId(String)], [PackageId(String)], [RentalId(Uuid)] and
    [ReservationId(Uuid)] are their contents.  Instants and durations
    ([DateTime<Utc>], [chrono::Duration]) are counts of nanoseconds. *)
Abbreviation UserId := string.
Abbreviation PackageId := string.
Abbreviation RentalId := uuid.
Abbreviation ReservationId := uuid.
Abbreviation DateTime := Z.
Abbreviation Duration := Z.

Definition nanos_per_sec : Z := 1000000000.
Definition Duration_seconds (s : Z) : Duration := s * nanos_per_sec.
Definition Duration_hours (h : Z) : Duration := Duration_seconds (3600 * h).
Definition Duration_days (d : Z) : Duration := Duration_hours (24 * d).
Definition Duration_weeks (w : Z) : Duration := Duration_days (7 * w).
Definition Duration_num_seconds (d : Duration) : Z := Z.quot d nanos_per_sec.
Definition Duration_num_hours (d : Duration) : Z := Z.quot (Duration_num_seconds d) 3600.

Definition UserId_as_uuid `{UuidText} (u : UserId) : option uuid := uuid_parse_str u.
Definition UserId_from_uuid `{UuidText} (u : uuid) : UserId := uuid_to_string u.
Definition RentalId_from_str `{UuidText} (s : string) : option RentalId := uuid_parse_str s.

Definition PackageId_h100 : PackageId := "h100".
Definition PackageId_h200 : PackageId := "h200".
Definition PackageId_custom : PackageId := "custom".
Definition PackageId_standard : PackageId := PackageId_h100.
Definition PackageId_premium : PackageId := PackageId_h200.
Definition PackageId_enterprise : PackageId := PackageId_custom.

Definition PackageId_from_gpu_model (gpu_model : string) : PackageId :=
  let model_lower := to_lowercase gpu_model in
  if contains "h100" model_lower then PackageId_h100
  else if contains "h200" model_lower then PackageId_h200
  else PackageId_custom.

(** ** Rental life cycle *)

Inductive RentalState :=
  | Pending | Active | Suspended | Terminating | Completed | Failed.

#[export] Instance RentalState_eq_dec : EqDecision RentalState.
Proof. solve_decision. Defined.

Definition RentalState_is_active (s : RentalState) : bool :=
  match s with Active | Suspended => true | _ => false end.

Definition RentalState_is_terminal (s : RentalState) : bool :=
  match s with Completed | Failed => true | _ => false end.

Definition RentalState_can_transition_to (s next : RentalState) : bool :=
  match s, next with
  | Pending, Active
  | Pending, Failed
  | Active, Suspended
  | Active, Terminating
  | Suspended, Active
  | Suspended, Terminating
  | Terminating, Completed
  | Terminating, Failed => true
  | _, _ => false
  end.

Definition RentalState_to_string (s : RentalState) : string :=
  match s with
  | Pending => "pending"
  | Active => "active"
  | Suspended => "suspended"
  | Terminating => "terminating"
  | Completed => "completed"
  | Failed => "failed"
  end.

(** ** Billing periods *)

Inductive BillingPeriod := Hourly | Daily | Weekly | Monthly.

Definition BillingPeriod_duration (p : BillingPeriod) : Duration :=
  match p with
  | Hourly => Duration_hours 1
  | Daily => Duration_days 1
  | Weekly => Duration_weeks 1
  | Monthly => Duration_days 30
  end.

Definition BillingPeriod_calculate_periods (p : BillingPeriod) (start finish : DateTime) : Z :=
  let duration := finish - start in
  let period_duration := BillingPeriod_duration p in
  f64_to_u64 (f64_ceil (f64_div (f64_of_Z (Duration_num_seconds duration))
                                (f64_of_Z (Duration_num_seconds period_duration)))).

(** ** Resource specifications *)

Record GpuSpec := { gpu_spec_model : string; gpu_spec_memory_mb : Z; gpu_spec_count : Z }.

Record ResourceSpec := {
  gpu_specs : list GpuSpec;
  cpu_cores : Z;
  memory_gb : Z;
  storage_gb : Z;
  disk_iops : Z;
  network_bandwidth_mbps : Z;
}.

Section Money.
Context `{Decimal}.

(** ** Credit balances *)

Record CreditBalance := CreditBalance_mk { as_decimal : dec }.

Definition CreditBalance_zero : CreditBalance := CreditBalance_mk dec_zero.

Definition CreditBalance_from_decimal (amount : dec) : CreditBalance :=
  CreditBalance_mk (dec_round_dp 6 amount).

Definition CreditBalance_from_f64 (amount : f64) : option CreditBalance :=
  (fun d => CreditBalance_mk (dec_round_dp 6 d)) <$> dec_of_f64 amount.

Definition CreditBalance_add (self other : CreditBalance) : CreditBalance :=
  CreditBalance_from_decimal (dec_add (as_decimal self) (as_decimal other)).

Definition CreditBalance_subtract (self other : CreditBalance) : option CreditBalance :=
  if dec_leb (as_decimal other) (as_decimal self)
  then Some (CreditBalance_from_decimal (dec_sub (as_decimal self) (as_decimal other)))
  else None.

Definition CreditBalance_multiply (self : CreditBalance) (factor : dec) : CreditBalance :=
  CreditBalance_from_decimal (dec_mul (as_decimal self) factor).

Definition CreditBalance_is_sufficient (self required : CreditBalance) : bool :=
  dec_leb (as_decimal required) (as_decimal self).

(** The derived [PartialOrd]. *)
Definition CreditBalance_ltb (a b : CreditBalance) : bool :=
  dec_ltb (as_decimal a) (as_decimal b).

Definition CreditBalance_to_string (c : CreditBalance) : string :=
  dec_to_string (as_decimal c).

(** ** Usage and cost *)

Record UsageMetrics := {
  gpu_hours : dec;
  cpu_hours : dec;
  memory_gb_hours : dec;
  storage_gb_hours : dec;
  network_gb : dec;
  disk_io_gb : dec;
}.

Definition UsageMetrics_zero : UsageMetrics := {|
  gpu_hours := dec_zero; cpu_hours := dec_zero; memory_gb_hours := dec_zero;
  storage_gb_hours := dec_zero; network_gb := dec_zero; disk_io_gb := dec_zero |}.

Definition UsageMetrics_add (self other : UsageMetrics) : UsageMetrics := {|
  gpu_hours := dec_add (gpu_hours self) (gpu_hours other);
  cpu_hours := dec_add (cpu_hours self) (cpu_hours other);
  memory_gb_hours := dec_add (memory_gb_hours self) (memory_gb_hours other);
  storage_gb_hours := dec_add (storage_gb_hours self) (storage_gb_hours other);
  network_gb := dec_add (network_gb self) (network_gb other);
  disk_io_gb := dec_add (disk_io_gb self) (disk_io_gb other) |}.

Record CostBreakdown := {
  base_cost : CreditBalance;
  usage_cost : CreditBalance;
  discounts : CreditBalance;
  overage_charges : CreditBalance;
  total_cost : CreditBalance;
}.

Definition CostBreakdown_calculate_total (c : CostBreakdown) : CreditBalance :=
  let subtotal :=
    CreditBalance_add (CreditBalance_add (base_cost c) (usage_cost c)) (overage_charges c) in
  default CreditBalance_zero (CreditBalance_subtract subtotal (discounts c)).
End Money.

(** ** Micro-credits

    [micros c] is the balance in units of [10^-6]; [wf_credit] says that the
    balance is a whole number of micro-credits of moderate size (below [10^22]
    credits), where [Decimal] arithmetic is exact. *)

Definition micro : Z := 10 ^ 22.
Definition credit_bound : Z := 10 ^ 28.

Definition micros `{Decimal} (c : CreditBalance) : Z := dec_num (as_decimal c) / micro.

Definition wf_credit `{Decimal} (c : CreditBalance) : Prop :=
  (micro | dec_num (as_decimal c)) /\ Z.abs (micros c) <= credit_bound.

Section MicroFacts.
Context `{DecimalLaws}.
Implicit Types a b c : CreditBalance.

Lemma representable_micros z : Z.abs z <= 7 * credit_bound -> dec_representable (z * micro).
Proof.
  intros Hz. exists 6. split; [lia|]. split; [by exists z|].
  change (10 ^ (28 - 6)) with micro.
  rewrite Z.abs_mul, (Z.abs_eq micro) by done.
  apply Z.mul_lt_mono_pos_r; [done|].
  eapply Z.le_lt_trans; [done|]. reflexivity.
Qed.

Lemma num_micros c : (micro | dec_num (as_decimal c)) -> dec_num (as_decimal c) = micros c * micro.
Proof. intros [k E]. unfold micros. rewrite E, Z.div_mul by done. done. Qed.

Lemma wf_num c : wf_credit c -> dec_num (as_decimal c) = micros c * micro.
Proof. intros [? _]. by apply num_micros. Qed.

Lemma from_decimal_grid d : (micro | dec_num (as_decimal (CreditBalance_from_decimal d))).
Proof. apply dec_round_grid. Qed.

Lemma from_decimal_micros d z :
  dec_num d = z * micro -> micros (CreditBalance_from_decimal d) = z.
Proof.
  intros E. unfold micros, CreditBalance_from_decimal; simpl.
  rewrite dec_round_id by (rewrite E; by exists z). rewrite E. by apply Z.div_mul.
Qed.

Lemma micros_zero : micros CreditBalance_zero = 0.
Proof. unfold micros, CreditBalance_zero; simpl. by rewrite dec_num_zero. Qed.

Lemma wf_zero : wf_credit CreditBalance_zero.
Proof.
  split; [|by rewrite micros_zero]. simpl. rewrite dec_num_zero. by exists 0.
Qed.

Lemma wf_from_micros d z :
  dec_num d = z * micro -> Z.abs z <= credit_bound -> wf_credit (CreditBalance_from_decimal d).
Proof.
  intros E Hz. split; [apply from_decimal_grid|]. by rewrite (from_decimal_micros d z).
Qed.

Lemma micros_add a b :
  wf_credit a -> wf_credit b -> micros (CreditBalance_add a b) = micros a + micros b.
Proof.
  intros Ha Hb. apply from_decimal_micros.
  assert (E : dec_num (as_decimal a) + dec_num (as_decimal b) = (micros a + micros b) * micro)
    by (rewrite !wf_num by done; lia).
  rewrite dec_num_add; [done|]. rewrite E. apply representable_micros.
  destruct Ha, Hb. lia.
Qed.

Lemma micros_sub_num a b :
  wf_credit a -> wf_credit b ->
  dec_num (dec_sub (as_decimal a) (as_decimal b)) = (micros a - micros b) * micro.
Proof.
  intros Ha Hb.
  assert (E : dec_num (as_decimal a) - dec_num (as_decimal b) = (micros a - micros b) * micro)
    by (rewrite !wf_num by done; lia).
  rewrite dec_num_sub; [done|]. rewrite E. apply representable_micros.
  destruct Ha, Hb. lia.
Qed.

Lemma leb_micros a b :
  wf_credit a -> wf_credit b ->
  dec_leb (as_decimal a) (as_decimal b) = (micros a <=? micros b).
Proof.
  intros Ha Hb. unfold dec_leb. rewrite !wf_num by done.
  assert (0 < micro) by done.
  destruct (micros a <=? micros b) eqn:E; b2p;
    [apply Z.leb_le|apply Z.leb_gt]; nia.
Qed.

Lemma ltb_micros a b :
  wf_credit a -> wf_credit b -> CreditBalance_ltb a b = (micros a <? micros b).
Proof.
  intros Ha Hb. unfold CreditBalance_ltb, dec_ltb.
  rewrite Z.ltb_antisym, Z.ltb_antisym. f_equal. by apply leb_micros.
Qed.

Lemma sufficient_micros a b :
  wf_credit a -> wf_credit b ->
  CreditBalance_is_sufficient a b = (micros b <=? micros a).
Proof. intros. by apply leb_micros. Qed.

(** The complete behaviour of [subtract] on well-formed balances. *)
Lemma subtract_cases a b :
  wf_credit a -> wf_credit b ->
  if micros b <=? micros a
  then exists c, CreditBalance_subtract a b = Some c /\ micros c = micros a - micros b /\
                 (micro | dec_num (as_decimal c))
  else CreditBalance_subtract a b = None.
Proof.
  intros Ha Hb. unfold CreditBalance_subtract. rewrite leb_micros by done.
  destruct (micros b <=? micros a); [|done].
  eexists; split; [done|]. split; [|apply from_decimal_grid].
  by apply from_decimal_micros, micros_sub_num.
Qed.

(** [a.subtract(b).unwrap_or(zero)]: truncated subtraction. *)
Lemma micros_monus a b :
  wf_credit a -> wf_credit b ->
  micros (default CreditBalance_zero (CreditBalance_subtract a b))
  = Z.max 0 (micros a - micros b).
Proof.
  intros Ha Hb. pose proof (subtract_cases a b Ha Hb) as S.
  destruct (micros b <=? micros a) eqn:E; b2p.
  - destruct S as (c & -> & Ec & _). simpl. lia.
  - rewrite S. simpl. rewrite micros_zero. lia.
Qed.

Lemma monus_grid a b :
  (micro | dec_num (as_decimal (default CreditBalance_zero (CreditBalance_subtract a b)))).
Proof.
  unfold CreditBalance_subtract. destruct (dec_leb _ _); simpl; [apply dec_round_grid|].
  rewrite dec_num_zero. by exists 0.
Qed.

Lemma wf_monus a b :
  wf_credit a -> wf_credit b -> 0 <= micros b ->
  0 <= micros a ->
  wf_credit (default CreditBalance_zero (CreditBalance_subtract a b)).
Proof.
  intros Ha Hb Hb0 Ha0. split; [apply monus_grid|]. rewrite micros_monus by done.
  destruct Ha, Hb. lia.
Qed.

Lemma wf_add a b :
  wf_credit a -> wf_credit b -> Z.abs (micros a + micros b) <= credit_bound ->
  wf_credit (CreditBalance_add a b).
Proof.
  intros Ha Hb Hs. split; [apply from_decimal_grid|]. by rewrite micros_add.
Qed.

(** Multiplying by one returns the same balance. *)
Lemma micros_multiply_one a : wf_credit a -> micros (CreditBalance_multiply a dec_one) = micros a.
Proof.
  intros Ha. apply from_decimal_micros.
  rewrite <- (wf_num a) by done. apply dec_num_mul; [by rewrite dec_num_one|].
  rewrite (wf_num a) by done. apply representable_micros.
  destruct Ha. assert (0 < credit_bound) by done. lia.
Qed.

(** Multiplication is monotone in the factor. *)
Lemma micros_multiply_mono a f g :
  0 <= dec_num (as_decimal a) -> dec_num f <= dec_num g ->
  dec_num (as_decimal a) * dec_num g < 2 ^ 95 * dec_scale * dec_scale ->
  micros (CreditBalance_multiply a f) <= micros (CreditBalance_multiply a g).
Proof.
  intros Ha Hfg Hbig. unfold micros. apply Z.div_le_mono; [done|].
  apply dec_round_mono. by apply dec_mul_mono.
Qed.
End MicroFacts.

#[export] Hint Resolve wf_zero wf_monus wf_add from_decimal_grid : basilica.
#[export] Hint Rewrite @micros_zero : basilica.

(** ** Life-cycle facts *)

(** States reachable through permitted transitions. *)
Inductive lifecycle : RentalState -> RentalState -> Prop :=
  | lifecycle_refl s : lifecycle s s
  | lifecycle_step s t u :
      RentalState_can_transition_to s t = true -> lifecycle t u -> lifecycle s u.

Lemma lifecycle_snoc s t u :
  lifecycle s t -> RentalState_can_transition_to t u = true -> lifecycle s u.
Proof. induction 1; intros; econstructor; eauto; constructor. Qed.

Lemma terminal_no_transition s t :
  RentalState_is_terminal s = true -> RentalState_can_transition_to s t = false.
Proof. by destruct s, t. Qed.

Lemma lifecycle_terminal s t :
  RentalState_is_terminal s = true -> lifecycle s t -> t = s.
Proof.
  intros Hs Hl. inversion Hl; subst; [done|].
  by rewrite terminal_no_transition in *.
Qed.

Lemma RentalState_to_string_inj s t : RentalState_to_string s = RentalState_to_string t -> s = t.
Proof. by destruct s, t. Qed.
