(* ===== verification/BillingWorld.v ===== *)
(** * Billing: errors, database and effects

    The error type of the billing service (error.rs), the PostgreSQL tables its
    repositories work on (migrations/), and the effect monad every repository,
    manager and handler runs in: state passing over a [World], errors as values,
    and an environment that answers clock readings, fresh identifiers and whether
    a statement fails to reach the database. *)

From Stdlib Require Import ZArith.
From stdpp Require Import base gmap strings list numbers.
From S2P Require Import Prelude Float64 Decimal BillingTypes.
Local Open Scope Z_scope.

(** ** Errors *)

(** The boxed [source] errors are not part of the values. *)
Inductive BillingError `{Decimal} : Type :=
  | InsufficientBalance (available required : dec)
  | ReservationNotFound (id : string)
  | ReservationAlreadyReleased (id : string)
  | UserNotFound (id : string)
  | RentalNotFound (id : string)
  | InvalidStateTransition (from to : string)
  | PackageNotFound (id : string)
  | InvalidState (message : string)
  | DatabaseError (operation : string)
  | RdsConnectionFailed
  | EventStoreError (message : string)
  | TelemetryError
  | RuleEvaluationError (rule_id : string)
  | ConfigurationError (message : string)
  | ValidationError (field message : string)
  | ConcurrentModification (entity_type entity_id : string)
  | TransactionError (message : string)
  | AccountNotFound (id : string)
  | InsufficientCredits (available required : dec)
  | SerializationError.

(** ** Tables

    Columns of type [NUMERIC(p, s)] hold the unscaled integer. *)

(** billing.credits, unique on [user_id]. *)
Record credits_row := {
  c_balance : Z;            (* NUMERIC(20, 8), CHECK (balance >= 0) *)
  c_reserved : Z;           (* NUMERIC(20, 8), CHECK (reserved_balance >= 0) *)
  c_lifetime_spent : Z;     (* NUMERIC(20, 8) *)
  c_updated_at : DateTime;
}.

(** billing.credit_reservations *)
Record reservation_row := {
  rr_user_id : uuid;
  rr_rental_id : option uuid;
  rr_amount : Z;            (* NUMERIC(20, 8) *)
  rr_status : string;
  rr_reserved_at : DateTime;
  rr_expires_at : DateTime;
  rr_released_at : option DateTime;
}.

(** billing.rentals; the two JSON columns hold the values they encode. *)
Record rental_row := {
  rt_user_id : string;
  rt_executor_id : string;
  rt_validator_id : option string;
  rt_package_id : option string;
  rt_status : string;
  rt_resource_spec : ResourceSpec;
  rt_hourly_rate : Z;       (* NUMERIC(10, 2) *)
  rt_start_time : DateTime;
  rt_end_time : option DateTime;
  rt_max_duration_hours : Z;
  rt_total_cost : option Z; (* NUMERIC(10, 2) *)
  rt_metadata : gmap string string;
  rt_created_at : DateTime;
  rt_updated_at : DateTime;
}.

(** billing.usage_events *)
Record usage_event_row := {
  ue_rental_id : uuid;
  ue_user_id : string;
  ue_executor_id : string;
  ue_validator_id : string;
  ue_event_type : string;
  ue_event_data : json;
  ue_timestamp : DateTime;
  ue_processed : bool;
  ue_processed_at : option DateTime;
  ue_batch_id : option uuid;
}.

(** billing.billing_events *)
Record billing_event_row := {
  be_event_type : string;
  be_entity_type : string;
  be_entity_id : string;
  be_user_id : option uuid;
  be_event_data : json;
  be_metadata : option json;
  be_created_by : string;
  be_created_at : DateTime;
}.

(** billing.processing_batches *)
Record batch_row := {
  pb_batch_type : string;
  pb_status : string;
  pb_events_count : Z;
  pb_events_processed : Z;
  pb_events_failed : Z;
  pb_started_at : option DateTime;
  pb_completed_at : option DateTime;
}.

(** billing.billing_rules *)
Record rule_row := {
  ru_name : string;
  ru_description : string;
  ru_rule_type : string;
  ru_condition_type : string;
  ru_condition_data : json;
  ru_action_type : string;
  ru_action_data : json;
  ru_priority : Z;          (* INTEGER *)
  ru_is_active : bool;
  ru_created_at : DateTime;
  ru_updated_at : DateTime;
}.

Record Db := {
  users : gmap string uuid;                    (* external_id -> user_id *)
  credits : gmap uuid credits_row;
  reservations : gmap uuid reservation_row;
  rentals : gmap uuid rental_row;
  usage_events : gmap uuid usage_event_row;
  billing_events : gmap uuid billing_event_row;
  batches : gmap uuid batch_row;
  billing_rules : gmap uuid rule_row;
}.

Definition empty_db : Db := {|
  users := ∅; credits := ∅; reservations := ∅; rentals := ∅;
  usage_events := ∅; billing_events := ∅; batches := ∅; billing_rules := ∅ |}.

Definition set_users (m : gmap string uuid) (db : Db) : Db := {|
  users := m; credits := credits db; reservations := reservations db; rentals := rentals db;
  usage_events := usage_events db; billing_events := billing_events db; batches := batches db;
  billing_rules := billing_rules db |}.
Definition set_credits (m : gmap uuid credits_row) (db : Db) : Db := {|
  users := users db; credits := m; reservations := reservations db; rentals := rentals db;
  usage_events := usage_events db; billing_events := billing_events db; batches := batches db;
  billing_rules := billing_rules db |}.
Definition set_reservations (m : gmap uuid reservation_row) (db : Db) : Db := {|
  users := users db; credits := credits db; reservations := m; rentals := rentals db;
  usage_events := usage_events db; billing_events := billing_events db; batches := batches db;
  billing_rules := billing_rules db |}.
Definition set_rentals (m : gmap uuid rental_row) (db : Db) : Db := {|
  users := users db; credits := credits db; reservations := reservations db; rentals := m;
  usage_events := usage_events db; billing_events := billing_events db; batches := batches db;
  billing_rules := billing_rules db |}.
Definition set_usage_events (m : gmap uuid usage_event_row) (db : Db) : Db := {|
  users := users db; credits := credits db; reservations := reservations db; rentals := rentals db;
  usage_events := m; billing_events := billing_events db; batches := batches db;
  billing_rules := billing_rules db |}.
Definition set_billing_events (m : gmap uuid billing_event_row) (db : Db) : Db := {|
  users := users db; credits := credits db; reservations := reservations db; rentals := rentals db;
  usage_events := usage_events db; billing_events := m; batches := batches db;
  billing_rules := billing_rules db |}.
Definition set_batches (m : gmap uuid batch_row) (db : Db) : Db := {|
  users := users db; credits := credits db; reservations := reservations db; rentals := rentals db;
  usage_events := usage_events db; billing_events := billing_events db; batches := m;
  billing_rules := billing_rules db |}.
Definition set_billing_rules (m : gmap uuid rule_row) (db : Db) : Db := {|
  users := users db; credits := credits db; reservations := reservations db; rentals := rentals db;
  usage_events := usage_events db; billing_events := billing_events db; batches := batches db;
  billing_rules := m |}.

(** The foreign key [REFERENCES billing.users(user_id)]. *)
Definition user_exists (k : uuid) (db : Db) : bool :=
  bool_decide (map_Exists (fun _ v => v = k) (users db)).

(** A [VARCHAR(n)] parameter. *)
Definition varchar (n : nat) (s : string) : option string :=
  if (String.length s <=? n)%nat then Some s else None.

Lemma varchar_Some n s s' : varchar n s = Some s' -> s' = s /\ (String.length s <= n)%nat.
Proof. unfold varchar. case_match eqn:E; [|done]. intros [= <-]. by apply Nat.leb_le in E. Qed.

(** ** Effects *)

(** The environment: the [n]-th clock reading, the [n]-th random identifier and
    whether the [n]-th statement fails (a lost connection, a time-out). *)
Record Env := { clock : nat -> DateTime; random_uuid : nat -> uuid; fault : nat -> bool }.

Record World := { db : Db; ticks : nat; drawn : nat; statements : nat }.

Definition set_db (d : Db) (w : World) : World :=
  {| db := d; ticks := ticks w; drawn := drawn w; statements := statements w |}.

Section Monad.
Context `{Decimal}.

Definition M (A : Type) : Type := Env -> World -> result BillingError A * World.

#[global] Instance M_ret : MRet M := fun A a env w => (Ok a, w).
#[global] Instance M_bind : MBind M := fun A B f m env w =>
  match m env w with
  | (Ok a, w') => f a env w'
  | (Err e, w') => (Err e, w')
  end.

Definition throw {A} (e : BillingError) : M A := fun env w => (Err e, w).

(** [opt.ok_or(e)?]. *)
Definition ok_or {A} (e : BillingError) (o : option A) : M A :=
  match o with Some a => mret a | None => throw e end.

(** [result?]. *)
Definition of_result {A} (r : result BillingError A) : M A :=
  match r with Ok a => mret a | Err e => throw e end.

(** Run [m] and hand its result to the caller instead of propagating it. *)
Definition attempt {A} (m : M A) : M (result BillingError A) := fun env w =>
  let '(r, w') := m env w in (Ok r, w').

(** [for x in l { body(x)?; }]. *)
Fixpoint for_each {A} (body : A -> M unit) (l : list A) : M unit :=
  match l with
  | [] => mret tt
  | x :: l' => body x;; for_each body l'
  end.

(** [Utc::now()], and the server's [NOW()]. *)
Definition now : M DateTime := fun env w =>
  (Ok (clock env (ticks w)),
   {| db := db w; ticks := S (ticks w); drawn := drawn w; statements := statements w |}).

(** [Uuid::new_v4()], and the server's [gen_random_uuid()]. *)
Definition new_v4 : M uuid := fun env w =>
  (Ok (random_uuid env (drawn w)),
   {| db := db w; ticks := ticks w; drawn := S (drawn w); statements := statements w |}).

Definition count_statement (w : World) : World :=
  {| db := db w; ticks := ticks w; drawn := drawn w; statements := S (statements w) |}.

(** One SQL statement: [None] is a constraint violation; a violation or a fault
    is reported as [e] and leaves the tables unchanged. *)
Definition sql {A} (e : BillingError) (stmt : Db -> option (A * Db)) : M A := fun env w =>
  let w1 := count_statement w in
  if fault env (statements w) then (Err e, w1)
  else match stmt (db w) with
       | Some (a, d) => (Ok a, set_db d w1)
       | None => (Err e, w1)
       end.

(** [begin ... commit]: an error inside, or a failed commit, rolls back. *)
Definition transaction {A} (e_begin e_commit : BillingError) (body : M A) : M A := fun env w =>
  match sql e_begin (fun d => Some (tt, d)) env w with
  | (Err e, w1) => (Err e, w1)
  | (Ok _, w1) =>
      match body env w1 with
      | (Err e, w2) => (Err e, set_db (db w) w2)
      | (Ok a, w2) =>
          match sql e_commit (fun d => Some (tt, d)) env w2 with
          | (Err e, w3) => (Err e, set_db (db w) w3)
          | (Ok _, w3) => (Ok a, w3)
          end
      end
  end.

(** ** Reasoning: what a run ends in *)

Definition wp {A} (m : M A) (env : Env) (w : World)
    (Q : result BillingError A -> World -> Prop) : Prop :=
  let '(r, w') := m env w in Q r w'.

Definition fault_free (env : Env) : Prop := forall n, fault env n = false.

Lemma wp_run {A} (m : M A) env w r w' Q : wp m env w Q -> m env w = (r, w') -> Q r w'.
Proof. unfold wp. intros HQ E. by rewrite E in HQ. Qed.

Lemma wp_run_ok {A} (m : M A) env w Q :
  wp m env w Q -> is_Ok (fst (m env w)) = true ->
  exists a, fst (m env w) = Ok a /\ Q (Ok a) (snd (m env w)).
Proof. unfold wp. destruct (m env w) as [[a|e] w']; simpl; [eauto|done]. Qed.

Lemma wp_run_err {A} (m : M A) env w Q :
  wp m env w Q -> is_Ok (fst (m env w)) = false ->
  exists e, fst (m env w) = Err e /\ Q (Err e) (snd (m env w)).
Proof. unfold wp. destruct (m env w) as [[a|e] w']; simpl; [done|eauto]. Qed.

Lemma wp_mono {A} (m : M A) env w (Q Q' : _ -> _ -> Prop) :
  wp m env w Q -> (forall r w', Q r w' -> Q' r w') -> wp m env w Q'.
Proof. unfold wp. destruct (m env w). auto. Qed.

Lemma wp_snd {A} (m : M A) env w (P : World -> Prop) :
  wp m env w (fun _ w' => P w') -> P (snd (m env w)).
Proof. unfold wp. by destruct (m env w). Qed.

Lemma wp_and {A} (m : M A) env w (Q Q' : _ -> _ -> Prop) :
  wp m env w Q -> wp m env w Q' -> wp m env w (fun r w' => Q r w' /\ Q' r w').
Proof. unfold wp. by destruct (m env w). Qed.

Lemma wp_ret {A} (a : A) env w (Q : _ -> _ -> Prop) : Q (Ok a) w -> wp (mret a) env w Q.
Proof. done. Qed.

Lemma wp_throw {A} (e : BillingError) env w (Q : _ -> _ -> Prop) :
  Q (Err e) w -> wp (throw (A := A) e) env w Q.
Proof. done. Qed.

Lemma wp_bind {A B} (m : M A) (f : A -> M B) env w Q :
  wp m env w (fun r w' =>
    match r with Ok a => wp (f a) env w' Q | Err e => Q (Err e) w' end) ->
  wp (m ≫= f) env w Q.
Proof.
  unfold wp, mbind, M_bind. destruct (m env w) as [[a|e] w']; [|done]. done.
Qed.

(** A run that cannot fail continues with its value. *)
Lemma wp_bind_ok {A B} (m : M A) (f : A -> M B) env w Q :
  wp m env w (fun r w' => exists a, r = Ok a /\ wp (f a) env w' Q) ->
  wp (m ≫= f) env w Q.
Proof. intros Hm. apply wp_bind. eapply wp_mono; [done|]. by intros r w' (a & -> & ?). Qed.

Lemma wp_attempt {A} (m : M A) env w (Q : _ -> _ -> Prop) :
  wp m env w (fun r w' => Q (Ok r) w') -> wp (attempt m) env w Q.
Proof. unfold wp, attempt. by destruct (m env w). Qed.

Lemma wp_ok_or_some {A} (e : BillingError) (a : A) env w (Q : _ -> _ -> Prop) :
  Q (Ok a) w -> wp (ok_or e (Some a)) env w Q.
Proof. done. Qed.

Lemma wp_now env w (Q : _ -> _ -> Prop) :
  (forall t w', db w' = db w -> Q (Ok t) w') -> wp now env w Q.
Proof. intros HQ. unfold wp, now. by apply HQ. Qed.

Lemma wp_new_v4 env w (Q : _ -> _ -> Prop) :
  (forall w', db w' = db w -> Q (Ok (random_uuid env (drawn w))) w') -> wp new_v4 env w Q.
Proof. intros HQ. unfold wp, new_v4. by apply HQ. Qed.

Lemma wp_sql {A} e (stmt : Db -> option (A * Db)) env w (Q : _ -> _ -> Prop) :
  fault_free env ->
  (forall w', match stmt (db w) with
              | Some (a, d) => db w' = d -> Q (Ok a) w'
              | None => db w' = db w -> Q (Err e) w'
              end) ->
  wp (sql e stmt) env w Q.
Proof.
  intros Hf HQ. unfold wp, sql. rewrite Hf.
  destruct (stmt (db w)) as [[a d]|] eqn:E.
  - specialize (HQ (set_db d (count_statement w))). by apply HQ.
  - specialize (HQ (count_statement w)). by apply HQ.
Qed.

(** Under arbitrary faults a statement either has its effect or none. *)
Lemma wp_sql_any {A} e (stmt : Db -> option (A * Db)) env w (Q : _ -> _ -> Prop) :
  (forall w', db w' = db w -> (fault_free env -> stmt (db w) = None) -> Q (Err e) w') ->
  (forall a d w', stmt (db w) = Some (a, d) -> db w' = d -> Q (Ok a) w') ->
  wp (sql e stmt) env w Q.
Proof.
  intros Herr Hok. unfold wp, sql. destruct (fault env (statements w)) eqn:Ef.
  { apply Herr; [done|]. intros Hff. by rewrite Hff in Ef. }
  destruct (stmt (db w)) as [[a d]|] eqn:E; [by eapply Hok|by apply Herr].
Qed.

(** Under arbitrary faults a transaction commits its body or leaves no trace. *)
Lemma wp_transaction_any {A} e1 e2 (body : M A) env w (Q : _ -> _ -> Prop) :
  (forall e w', db w' = db w -> ~ fault_free env -> Q (Err e) w') ->
  (forall w1, db w1 = db w ->
    wp body env w1 (fun r w2 =>
      match r with
      | Ok a => forall w3, db w3 = db w2 -> Q (Ok a) w3
      | Err e => forall w3, db w3 = db w -> Q (Err e) w3
      end)) ->
  wp (transaction e1 e2 body) env w Q.
Proof.
  intros He Hb. unfold wp, transaction, sql. destruct (fault env (statements w)) eqn:E1.
  { apply He; [done|]. intros Hff. by rewrite Hff in E1. }
  specialize (Hb (set_db (db w) (count_statement w)) eq_refl). unfold wp in Hb.
  destruct (body _ _) as [[a|e] w2]; [|by apply Hb].
  destruct (fault env (statements w2)) eqn:E2; [|by apply Hb].
  apply He; [done|]. intros Hff. by rewrite Hff in E2.
Qed.
End Monad.

Arguments M_ret : simpl never.
Arguments M_bind : simpl never.

(** One step through a bind whose first part is one of the primitives above. *)
Ltac wp_step :=
  match goal with
  | |- wp (_ ≫= _) _ _ _ => apply wp_bind
  | |- wp (mret _) _ _ _ => apply wp_ret
  | |- wp (throw _) _ _ _ => apply wp_throw
  | |- wp now _ _ _ => apply wp_now; intros ? ? ?
  | |- wp new_v4 _ _ _ => apply wp_new_v4; intros ? ?
  | |- wp (ok_or _ (Some _)) _ _ _ => apply wp_ok_or_some
  | |- wp (ok_or _ None) _ _ _ => apply wp_throw
  | |- wp (attempt _) _ _ _ => apply wp_attempt
  end.
Ltac wp_steps := repeat wp_step; simpl.

(** Specialise a [wp] fact to the run it is about, on a concrete input. *)
Ltac run_with L H :=
  let H' := fresh "Hrun" in
  pose proof (L _ _ _ _ _ _ H) as H'; clear H; rename H' into H;
  match type of H with
  | ?P -> _ =>
      let E := fresh "E" in
      assert (E : P) by (vm_compute; reflexivity); specialize (H E); clear E
  end.
Ltac run_ok H := run_with (@wp_run_ok) H.
Ltac run_err H := run_with (@wp_run_err) H.
