(* ===== verification/Credits.v ===== *)
(** * Billing: credits (crates/basilica-billing/src/domain/credits.rs)

    Reservations, credit accounts and the [CreditManager], which runs against any
    implementation of the [CreditRepository] trait (storage/credits.rs, lines
    12-36).  The trait is the class [CreditRepository]; [CreditRepo.v] has its SQL
    implementation. *)

From Stdlib Require Import ZArith.
From stdpp Require Import base gmap strings list numbers.
From S2P Require Import Prelude Float64 Decimal BillingTypes BillingWorld.
Local Open Scope Z_scope.

Section Credits.
Context `{Decimal} `{UuidText}.

(** ** Reservations *)

Record Reservation := {
  res_id : ReservationId;
  res_user_id : UserId;
  res_rental_id : option RentalId;
  res_amount : CreditBalance;
  res_created_at : DateTime;
  res_expires_at : DateTime;
  res_released : bool;
  res_metadata : gmap string string;
}.

Definition Reservation_new (user_id : UserId) (amount : CreditBalance) (duration : Duration)
    (rental_id : option RentalId) : M Reservation :=
  t ← now;
  id ← new_v4;
  mret {|
    res_id := id;
    res_user_id := user_id;
    res_rental_id := rental_id;
    res_amount := amount;
    res_created_at := t;
    res_expires_at := t + duration;
    res_released := false;
    res_metadata := ∅ |}.

Definition Reservation_is_expired (r : Reservation) : M bool :=
  t ← now;
  mret (res_expires_at r <? t).

Definition Reservation_is_active (r : Reservation) : M bool :=
  if res_released r then mret false
  else expired ← Reservation_is_expired r; mret (negb expired).

(** [reservation.released = true]. *)
Definition Reservation_mark_released (r : Reservation) : Reservation := {|
  res_id := res_id r;
  res_user_id := res_user_id r;
  res_rental_id := res_rental_id r;
  res_amount := res_amount r;
  res_created_at := res_created_at r;
  res_expires_at := res_expires_at r;
  res_released := true;
  res_metadata := res_metadata r |}.

(** ** Accounts *)

Record CreditAccount := {
  acct_user_id : UserId;
  acct_balance : CreditBalance;
  acct_reserved : CreditBalance;
  acct_lifetime_spent : CreditBalance;
  acct_last_updated : DateTime;
}.

Definition CreditAccount_new (user_id : UserId) : M CreditAccount :=
  t ← now;
  mret {|
    acct_user_id := user_id;
    acct_balance := CreditBalance_zero;
    acct_reserved := CreditBalance_zero;
    acct_lifetime_spent := CreditBalance_zero;
    acct_last_updated := t |}.

Definition CreditAccount_available_balance (a : CreditAccount) : CreditBalance :=
  default CreditBalance_zero (CreditBalance_subtract (acct_balance a) (acct_reserved a)).

Definition CreditAccount_can_reserve (a : CreditAccount) (amount : CreditBalance) : bool :=
  CreditBalance_is_sufficient (CreditAccount_available_balance a) amount.

Definition CreditAccount_apply_credits (a : CreditAccount) (amount : CreditBalance)
    : M CreditAccount :=
  t ← now;
  mret {|
    acct_user_id := acct_user_id a;
    acct_balance := CreditBalance_add (acct_balance a) amount;
    acct_reserved := acct_reserved a;
    acct_lifetime_spent := acct_lifetime_spent a;
    acct_last_updated := t |}.

Definition CreditAccount_reserve_credits (a : CreditAccount) (amount : CreditBalance)
    : M CreditAccount :=
  if negb (CreditAccount_can_reserve a amount) then
    throw (InsufficientBalance (as_decimal (CreditAccount_available_balance a))
                               (as_decimal amount))
  else
    t ← now;
    mret {|
      acct_user_id := acct_user_id a;
      acct_balance := acct_balance a;
      acct_reserved := CreditBalance_add (acct_reserved a) amount;
      acct_lifetime_spent := acct_lifetime_spent a;
      acct_last_updated := t |}.

Definition CreditAccount_release_reservation (a : CreditAccount) (amount : CreditBalance)
    : M CreditAccount :=
  let new_reserved :=
    default CreditBalance_zero (CreditBalance_subtract (acct_reserved a) amount) in
  t ← now;
  mret {|
    acct_user_id := acct_user_id a;
    acct_balance := acct_balance a;
    acct_reserved := new_reserved;
    acct_lifetime_spent := acct_lifetime_spent a;
    acct_last_updated := t |}.

Definition CreditAccount_charge (a : CreditAccount) (amount : CreditBalance)
    : M CreditAccount :=
  new_balance ← ok_or (InsufficientBalance (as_decimal (acct_balance a)) (as_decimal amount))
                      (CreditBalance_subtract (acct_balance a) amount);
  t ← now;
  mret {|
    acct_user_id := acct_user_id a;
    acct_balance := new_balance;
    acct_reserved := acct_reserved a;
    acct_lifetime_spent := CreditBalance_add (acct_lifetime_spent a) amount;
    acct_last_updated := t |}.

Definition CreditAccount_charge_from_reservation (a : CreditAccount)
    (reserved actual : CreditBalance) : M CreditAccount :=
  a1 ← CreditAccount_release_reservation a reserved;
  CreditAccount_charge a1 actual.

(** ** The repository trait *)

Class CreditRepository := {
  repo_get_account : UserId -> M (option CreditAccount);
  repo_create_account : CreditAccount -> M unit;
  repo_update_account : CreditAccount -> M unit;
  repo_create_reservation : Reservation -> M unit;
  repo_get_reservation : ReservationId -> M (option Reservation);
  repo_update_reservation : Reservation -> M unit;
  repo_get_active_reservations : UserId -> M (list Reservation);
  repo_get_expired_reservations : Z -> M (list Reservation);
  repo_update_balance : UserId -> CreditBalance -> M unit;
  repo_release_reservation : ReservationId -> M unit;
  repo_reserve_credits : UserId -> CreditBalance -> RentalId -> M Reservation;
  repo_deduct_credits : UserId -> CreditBalance -> M unit;
}.

(** ** The manager *)

Context `{!CreditRepository}.

Definition CreditManager_get_or_create_account (user_id : UserId) : M CreditAccount :=
  found ← repo_get_account user_id;
  match found with
  | Some account => mret account
  | None =>
      new_account ← CreditAccount_new user_id;
      repo_create_account new_account;;
      again ← repo_get_account user_id;
      ok_or (DatabaseError "get_or_create_account") again
  end.

Definition CreditManager_get_balance (user_id : UserId) : M CreditBalance :=
  account ← CreditManager_get_or_create_account user_id;
  mret (CreditAccount_available_balance account).

Definition CreditManager_get_account (user_id : UserId) : M CreditAccount :=
  CreditManager_get_or_create_account user_id.

Definition CreditManager_apply_credits (user_id : UserId) (amount : CreditBalance)
    : M CreditBalance :=
  account ← CreditManager_get_or_create_account user_id;
  account ← CreditAccount_apply_credits account amount;
  repo_update_account account;;
  mret (acct_balance account).

Definition CreditManager_reserve_credits (user_id : UserId) (amount : CreditBalance)
    (duration : Duration) (rental_id : option RentalId) : M ReservationId :=
  account ← CreditManager_get_or_create_account user_id;
  if negb (CreditAccount_can_reserve account amount) then
    throw (InsufficientBalance (as_decimal (CreditAccount_available_balance account))
                               (as_decimal amount))
  else
    reservation ← Reservation_new user_id amount duration rental_id;
    account ← CreditAccount_reserve_credits account amount;
    repo_create_reservation reservation;;
    repo_update_account account;;
    mret (res_id reservation).

Definition CreditManager_release_reservation (reservation_id : ReservationId)
    : M CreditBalance :=
  found ← repo_get_reservation reservation_id;
  reservation ← ok_or (ReservationNotFound (uuid_to_string reservation_id)) found;
  if res_released reservation then
    throw (ReservationAlreadyReleased (uuid_to_string reservation_id))
  else
    repo_update_reservation (Reservation_mark_released reservation);;
    found ← repo_get_account (res_user_id reservation);
    account ← ok_or (UserNotFound (res_user_id reservation)) found;
    account ← CreditAccount_release_reservation account (res_amount reservation);
    repo_update_account account;;
    mret (res_amount reservation).

Definition CreditManager_charge_credits (user_id : UserId) (amount : CreditBalance)
    : M CreditBalance :=
  found ← repo_get_account user_id;
  account ← ok_or (UserNotFound user_id) found;
  account ← CreditAccount_charge account amount;
  repo_update_account account;;
  mret (acct_balance account).

Definition CreditManager_charge_from_reservation (reservation_id : ReservationId)
    (actual_amount : CreditBalance) : M CreditBalance :=
  found ← repo_get_reservation reservation_id;
  reservation ← ok_or (ReservationNotFound (uuid_to_string reservation_id)) found;
  if res_released reservation then
    throw (ReservationAlreadyReleased (uuid_to_string reservation_id))
  else
    repo_update_reservation (Reservation_mark_released reservation);;
    found ← repo_get_account (res_user_id reservation);
    account ← ok_or (UserNotFound (res_user_id reservation)) found;
    account ← CreditAccount_charge_from_reservation account (res_amount reservation)
                actual_amount;
    repo_update_account account;;
    mret (acct_balance account).

Definition CreditManager_get_reservation (reservation_id : ReservationId) : M Reservation :=
  found ← repo_get_reservation reservation_id;
  ok_or (ReservationNotFound (uuid_to_string reservation_id)) found.

Definition CreditManager_get_active_reservations (user_id : UserId) : M (list Reservation) :=
  repo_get_active_reservations user_id.

(** The body of the clean-up loop: account errors are swallowed. *)
Definition cleanup_one (reservation : Reservation) : M unit :=
  if res_released reservation then mret tt
  else
    repo_update_reservation (Reservation_mark_released reservation);;
    found ← attempt (repo_get_account (res_user_id reservation));
    match found with
    | Ok (Some account) =>
        account ← CreditAccount_release_reservation account (res_amount reservation);
        attempt (repo_update_account account);;
        mret tt
    | _ => mret tt
    end.

Definition CreditManager_cleanup_expired_reservations : M Z :=
  expired ← repo_get_expired_reservations 100;
  for_each cleanup_one expired;;
  mret (Z.of_nat (length expired)).
End Credits.

Arguments CreditRepository {_} : assert.
