(* ===== verification/CreditRepo.v ===== *)
(** * Billing: the SQL credit repository (crates/basilica-billing/src/storage/credits.rs)

    Every method of [SqlCreditRepository], statement by statement, as an instance
    of the [CreditRepository] trait.  The [CHECK], [UNIQUE], primary-key and
    foreign-key constraints of migrations/001, 009 and 010 decide when a statement
    fails. *)

From Stdlib Require Import ZArith.
From stdpp Require Import base gmap strings list numbers.
From S2P Require Import Prelude Float64 Decimal BillingTypes BillingWorld Credits.
Local Open Scope Z_scope.

Section SqlCreditRepository.
Context `{Decimal} `{UuidText}.

(** A [billing.credits] row from the bound parameters, if it satisfies the column
    types and the [positive_balance] and [positive_reserved] checks. *)
Definition make_credits_row (balance reserved lifetime_spent : dec) (t : DateTime)
    : option credits_row :=
  b ← numeric_of_dec 20 8 balance;
  r ← numeric_of_dec 20 8 reserved;
  s ← numeric_of_dec 20 8 lifetime_spent;
  if (0 <=? b) && (0 <=? r)
  then Some {| c_balance := b; c_reserved := r; c_lifetime_spent := s; c_updated_at := t |}
  else None.

(** The same row after arithmetic inside the database. *)
Definition check_credits_row (row : credits_row) : option credits_row :=
  if (0 <=? c_balance row) && (0 <=? c_reserved row)
     && (Z.abs (c_balance row) <? 10 ^ 20) && (Z.abs (c_reserved row) <? 10 ^ 20)
     && (Z.abs (c_lifetime_spent row) <? 10 ^ 20)
  then Some row else None.

Definition resolve_user_uuid (user_id : UserId) : M (option uuid) :=
  match UserId_as_uuid user_id with
  | Some u => mret (Some u)
  | None => sql (DatabaseError "resolve_user_uuid") (fun d => Some (users d !! user_id, d))
  end.

Definition require_user_uuid (user_id : UserId) : M uuid :=
  found ← resolve_user_uuid user_id;
  ok_or (UserNotFound user_id) found.

Definition ensure_user_uuid (user_id : UserId) : M uuid :=
  match UserId_as_uuid user_id with
  | Some u => mret u
  | None =>
      fresh ← new_v4;
      sql (DatabaseError "ensure_user_uuid") (fun d =>
        external_id ← varchar 255 user_id;
        match users d !! external_id with
        | Some u => Some (u, d)
        | None =>
            if user_exists fresh d then None
            else Some (fresh, set_users (<[external_id := fresh]> (users d)) d)
        end)
  end.

Definition account_of_row (k : uuid) (r : credits_row) : CreditAccount := {|
  acct_user_id := UserId_from_uuid k;
  acct_balance := CreditBalance_from_decimal (dec_of_numeric 8 (c_balance r));
  acct_reserved := CreditBalance_from_decimal (dec_of_numeric 8 (c_reserved r));
  acct_lifetime_spent := CreditBalance_from_decimal (dec_of_numeric 8 (c_lifetime_spent r));
  acct_last_updated := c_updated_at r |}.

Definition SqlCreditRepository_get_account (user_id : UserId) : M (option CreditAccount) :=
  found ← resolve_user_uuid user_id;
  match found with
  | None => mret None
  | Some user_uuid =>
      row ← sql (DatabaseError "get_account") (fun d => Some (credits d !! user_uuid, d));
      mret (account_of_row user_uuid <$> row)
  end.

Definition SqlCreditRepository_create_account (account : CreditAccount) : M unit :=
  user_uuid ← ensure_user_uuid (acct_user_id account);
  sql (DatabaseError "create_account") (fun d =>
    row ← make_credits_row (as_decimal (acct_balance account))
            (as_decimal (acct_reserved account)) (as_decimal (acct_lifetime_spent account))
            (acct_last_updated account);
    match credits d !! user_uuid with
    | Some _ => Some (tt, d)
    | None =>
        if user_exists user_uuid d
        then Some (tt, set_credits (<[user_uuid := row]> (credits d)) d)
        else None
    end).

Definition SqlCreditRepository_update_account (account : CreditAccount) : M unit :=
  user_uuid ← require_user_uuid (acct_user_id account);
  t ← now;
  affected ← sql (DatabaseError "update_account") (fun d =>
    match credits d !! user_uuid with
    | None => Some (0, d)
    | Some _ =>
        row ← make_credits_row (as_decimal (acct_balance account))
                (as_decimal (acct_reserved account)) (as_decimal (acct_lifetime_spent account)) t;
        Some (1, set_credits (<[user_uuid := row]> (credits d)) d)
    end);
  if affected =? 0 then throw (UserNotFound (acct_user_id account)) else mret tt.

Definition reservation_status (released : bool) : string :=
  if released then "released" else "active".

(** [INSERT INTO billing.credit_reservations]. *)
Definition insert_reservation (r : Reservation) (user_uuid : uuid) (status : string) (d : Db)
    : option (unit * Db) :=
  amount ← numeric_of_dec 20 8 (as_decimal (res_amount r));
  match reservations d !! res_id r with
  | Some _ => None
  | None =>
      if user_exists user_uuid d
      then Some (tt, set_reservations (<[res_id r := {|
             rr_user_id := user_uuid;
             rr_rental_id := res_rental_id r;
             rr_amount := amount;
             rr_status := status;
             rr_reserved_at := res_created_at r;
             rr_expires_at := res_expires_at r;
             rr_released_at := None |}]> (reservations d)) d)
      else None
  end.

Definition SqlCreditRepository_create_reservation (r : Reservation) : M unit :=
  user_uuid ← require_user_uuid (res_user_id r);
  sql (DatabaseError "create_reservation")
      (insert_reservation r user_uuid (reservation_status (res_released r))).

Definition reservation_of_row (released : reservation_row -> bool) (k : uuid)
    (r : reservation_row) : Reservation := {|
  res_id := k;
  res_user_id := UserId_from_uuid (rr_user_id r);
  res_rental_id := rr_rental_id r;
  res_amount := CreditBalance_from_decimal (dec_of_numeric 8 (rr_amount r));
  res_created_at := rr_reserved_at r;
  res_expires_at := rr_expires_at r;
  res_released := released r;
  res_metadata := ∅ |}.

(** [get_reservation] also looks at [released_at]; the list queries do not. *)
Definition row_released (r : reservation_row) : bool :=
  String.eqb (rr_status r) "released" || bool_decide (is_Some (rr_released_at r)).
Definition row_status_released (r : reservation_row) : bool :=
  String.eqb (rr_status r) "released".

Definition SqlCreditRepository_get_reservation (id : ReservationId) : M (option Reservation) :=
  row ← sql (DatabaseError "get_reservation") (fun d => Some (reservations d !! id, d));
  mret (reservation_of_row row_released id <$> row).

Definition set_row_released (status : string) (released_at : option DateTime)
    (r : reservation_row) : reservation_row := {|
  rr_user_id := rr_user_id r;
  rr_rental_id := rr_rental_id r;
  rr_amount := rr_amount r;
  rr_status := status;
  rr_reserved_at := rr_reserved_at r;
  rr_expires_at := rr_expires_at r;
  rr_released_at := released_at |}.

Definition SqlCreditRepository_update_reservation (r : Reservation) : M unit :=
  let status := reservation_status (res_released r) in
  released_at ← (if res_released r then t ← now; mret (Some t) else mret None);
  affected ← sql (DatabaseError "update_reservation") (fun d =>
    match reservations d !! res_id r with
    | None => Some (0, d)
    | Some row =>
        Some (1, set_reservations
                   (<[res_id r := set_row_released status released_at row]> (reservations d)) d)
    end);
  if affected =? 0 then throw (ReservationNotFound (uuid_to_string (res_id r))) else mret tt.

(** [ORDER BY reserved_at DESC] and [ORDER BY expires_at ASC]. *)
Definition newest_first (a b : uuid * reservation_row) : bool :=
  rr_reserved_at (snd b) <=? rr_reserved_at (snd a).
Definition soonest_expiry_first (a b : uuid * reservation_row) : bool :=
  rr_expires_at (snd a) <=? rr_expires_at (snd b).

Definition SqlCreditRepository_get_active_reservations (user_id : UserId)
    : M (list Reservation) :=
  user_uuid ← require_user_uuid user_id;
  t ← now;
  rows ← sql (DatabaseError "get_active_reservations") (fun d =>
    Some (sort_by newest_first
            (filter (fun '(_, r) => rr_user_id r = user_uuid /\ rr_status r = "active"
                                    /\ t < rr_expires_at r)
               (map_to_list (reservations d))), d));
  mret ((fun '(k, r) => reservation_of_row row_status_released k r) <$> rows).

Definition SqlCreditRepository_get_expired_reservations (limit : Z) : M (list Reservation) :=
  t ← now;
  rows ← sql (DatabaseError "get_expired_reservations") (fun d =>
    Some (take (Z.to_nat limit)
            (sort_by soonest_expiry_first
               (filter (fun '(_, r) => rr_status r = "active" /\ rr_expires_at r <= t)
                  (map_to_list (reservations d)))), d));
  mret ((fun '(k, r) => reservation_of_row row_status_released k r) <$> rows).

Definition SqlCreditRepository_update_balance (user_id : UserId) (balance : CreditBalance)
    : M unit :=
  user_uuid ← require_user_uuid user_id;
  t ← now;
  sql (DatabaseError "update_balance") (fun d =>
    match credits d !! user_uuid with
    | None => Some (tt, d)
    | Some row =>
        b ← numeric_of_dec 20 8 (as_decimal balance);
        row' ← check_credits_row {|
          c_balance := b;
          c_reserved := c_reserved row;
          c_lifetime_spent := c_lifetime_spent row;
          c_updated_at := t |};
        Some (tt, set_credits (<[user_uuid := row']> (credits d)) d)
    end).

Definition SqlCreditRepository_release_reservation (reservation_id : ReservationId) : M unit :=
  t ← now;
  sql (DatabaseError "release_reservation") (fun d =>
    match reservations d !! reservation_id with
    | None => Some (tt, d)
    | Some row =>
        Some (tt, set_reservations
               (<[reservation_id := set_row_released "released" (Some t) row]>
                  (reservations d)) d)
    end).

(** The two statements of the reservation transaction. *)
Definition reserve_statements (reservation : Reservation) (user_uuid : uuid)
    (amount : CreditBalance) : M unit :=
  sql (DatabaseError "insert_reservation")
      (insert_reservation reservation user_uuid "active");;
  t ← now;
  sql (DatabaseError "update_balance_for_reservation") (fun d =>
    match credits d !! user_uuid with
    | None => Some (tt, d)
    | Some row =>
        a ← numeric_of_dec 20 8 (as_decimal amount);
        row' ← check_credits_row {|
          c_balance := c_balance row;
          c_reserved := c_reserved row + a;
          c_lifetime_spent := c_lifetime_spent row;
          c_updated_at := t |};
        Some (tt, set_credits (<[user_uuid := row']> (credits d)) d)
    end).

Definition SqlCreditRepository_reserve_credits (user_id : UserId) (amount : CreditBalance)
    (rental_id : RentalId) : M Reservation :=
  found ← SqlCreditRepository_get_account user_id;
  account ← ok_or (AccountNotFound user_id) found;
  if CreditBalance_ltb (CreditAccount_available_balance account) amount then
    throw (InsufficientCredits (as_decimal (CreditAccount_available_balance account))
                               (as_decimal amount))
  else
    user_uuid ← require_user_uuid user_id;
    let duration := Duration_hours 1 in
    reservation ← Reservation_new user_id amount duration (Some rental_id);
    transaction (DatabaseError "begin_reserve_credits") (DatabaseError "commit_reserve_credits")
      (reserve_statements reservation user_uuid amount);;
    mret reservation.

(** [INSERT INTO billing.billing_events] at the end of [deduct_credits]. *)
Definition record_credit_deduction (user_id : UserId) (user_uuid : uuid)
    (amount : CreditBalance) : M unit :=
  event_id ← new_v4;
  t ← now;
  sql (DatabaseError "record_credit_deduction") (fun d =>
    entity_id ← varchar 255 user_id;
    match billing_events d !! event_id with
    | Some _ => None
    | None =>
        if user_exists user_uuid d then
          Some (tt, set_billing_events (<[event_id := {|
            be_event_type := "credit_deduction";
            be_entity_type := "user";
            be_entity_id := entity_id;
            be_user_id := Some user_uuid;
            be_event_data := JObject [("amount", JString (CreditBalance_to_string amount))];
            be_metadata := None;
            be_created_by := "credit_repository";
            be_created_at := t |}]> (billing_events d)) d)
        else None
    end).

(** [UPDATE billing.credits ... WHERE user_id = $1 AND balance >= $2]. *)
Definition deduct_statement (user_uuid : uuid) (amount : CreditBalance) (t : DateTime) (d : Db)
    : option (unit * Db) :=
  match credits d !! user_uuid with
  | None => Some (tt, d)
  | Some row =>
      a ← numeric_of_dec 20 8 (as_decimal amount);
      if c_balance row <? a then Some (tt, d)
      else
        row' ← check_credits_row {|
          c_balance := c_balance row - a;
          c_reserved := c_reserved row;
          c_lifetime_spent := c_lifetime_spent row + a;
          c_updated_at := t |};
        Some (tt, set_credits (<[user_uuid := row']> (credits d)) d)
  end.

Definition SqlCreditRepository_deduct_credits (user_id : UserId) (amount : CreditBalance)
    : M unit :=
  found ← SqlCreditRepository_get_account user_id;
  account ← ok_or (AccountNotFound user_id) found;
  if CreditBalance_ltb (acct_balance account) amount then
    throw (InsufficientCredits (as_decimal (acct_balance account)) (as_decimal amount))
  else
    user_uuid ← require_user_uuid user_id;
    t ← now;
    sql (DatabaseError "deduct_credits") (deduct_statement user_uuid amount t);;
    record_credit_deduction user_id user_uuid amount.

#[global] Instance SqlCreditRepository : CreditRepository := {|
  repo_get_account := SqlCreditRepository_get_account;
  repo_create_account := SqlCreditRepository_create_account;
  repo_update_account := SqlCreditRepository_update_account;
  repo_create_reservation := SqlCreditRepository_create_reservation;
  repo_get_reservation := SqlCreditRepository_get_reservation;
  repo_update_reservation := SqlCreditRepository_update_reservation;
  repo_get_active_reservations := SqlCreditRepository_get_active_reservations;
  repo_get_expired_reservations := SqlCreditRepository_get_expired_reservations;
  repo_update_balance := SqlCreditRepository_update_balance;
  repo_release_reservation := SqlCreditRepository_release_reservation;
  repo_reserve_credits := SqlCreditRepository_reserve_credits;
  repo_deduct_credits := SqlCreditRepository_deduct_credits;
|}.
End SqlCreditRepository.
