(* ===== verification/Ledger.v ===== *)
(** * Billing: the credit ledger, as a specification

    What the credit manager promises, without rows, decimals or user look-ups: a
    ledger of accounts (balance, reserved amount, lifetime spending, in
    micro-credits) and of live holds, with the six operations on it; and the
    [CreditRepositoryLaws] interface, what the manager needs from a credit
    repository.  [CreditManagerFacts.v] proves the manager against the interface,
    [CreditRepoFacts.v] discharges the interface for the SQL repository. *)

From Stdlib Require Import ZArith.
From stdpp Require Import base gmap strings list numbers.
From S2P Require Import Prelude Float64 Decimal BillingTypes BillingWorld Credits.
Local Open Scope Z_scope.

(** ** The ledger *)

Record acct := { a_balance : Z; a_reserved : Z; a_spent : Z }.

#[export] Instance acct_eq_dec : EqDecision acct.
Proof. solve_decision. Defined.

Definition acct_zero : acct := {| a_balance := 0; a_reserved := 0; a_spent := 0 |}.

(** A live hold: whose account, how much. *)
Record hold := { h_user : uuid; h_amount : Z }.

#[export] Instance hold_eq_dec : EqDecision hold.
Proof. solve_decision. Defined.

Record Ledger := { l_accts : gmap uuid acct; l_holds : gmap uuid hold }.

(** An account that was never opened counts as one with nothing in it. *)
Definition account (l : Ledger) (k : uuid) : acct := default acct_zero (l_accts l !! k).

Definition hold_of (k : uuid) (h : hold) : Z := if decide (h_user h = k) then h_amount h else 0.

(** What the live holds of [k] add up to. *)
Definition held (l : Ledger) (k : uuid) : Z := table_sum (fun _ => hold_of k) (l_holds l).

Definition available (l : Ledger) (k : uuid) : Z :=
  Z.max 0 (a_balance (account l k) - a_reserved (account l k)).

#[export] Instance Ledger_equiv : Equiv Ledger := fun l1 l2 =>
  (forall k, account l1 k = account l2 k) /\ l_holds l1 = l_holds l2.

#[export] Instance Ledger_equivalence : Equivalence (≡@{Ledger}).
Proof.
  split.
  - by intros l.
  - intros l1 l2 [H1 H2]. split; intros; symmetry; auto.
  - intros l1 l2 l3 [H1 H2] [H3 H4]. split; [|congruence]. intros k. by rewrite H1.
Qed.

#[export] Instance account_proper : Proper ((≡) ==> (=) ==> (=)) account.
Proof. by intros l1 l2 [H1 _] k _ <-. Qed.
#[export] Instance held_proper : Proper ((≡) ==> (=) ==> (=)) held.
Proof. intros l1 l2 [_ H2] k _ <-. unfold held. by rewrite H2. Qed.
#[export] Instance available_proper : Proper ((≡) ==> (=) ==> (=)) available.
Proof. intros l1 l2 HE k _ <-. unfold available. by rewrite HE. Qed.

(** ** The operations *)

Definition put_account (k : uuid) (a : acct) (l : Ledger) : Ledger :=
  {| l_accts := <[k := a]> (l_accts l); l_holds := l_holds l |}.

Definition spec_apply (k : uuid) (amount : Z) (l : Ledger) : Ledger :=
  let a := account l k in
  put_account k {| a_balance := a_balance a + amount; a_reserved := a_reserved a;
                   a_spent := a_spent a |} l.

Definition spec_reserve (k : uuid) (amount : Z) (id : uuid) (l : Ledger) : option Ledger :=
  if amount <=? available l k then
    let a := account l k in
    Some {| l_accts := <[k := {| a_balance := a_balance a; a_reserved := a_reserved a + amount;
                                 a_spent := a_spent a |}]> (l_accts l);
            l_holds := <[id := {| h_user := k; h_amount := amount |}]> (l_holds l) |}
  else None.

Definition spec_drop_hold (id : uuid) (l : Ledger) : Ledger :=
  {| l_accts := l_accts l; l_holds := delete id (l_holds l) |}.

Definition spec_release (id : uuid) (l : Ledger) : option Ledger :=
  h ← l_holds l !! id;
  let a := account l (h_user h) in
  Some (put_account (h_user h)
          {| a_balance := a_balance a; a_reserved := Z.max 0 (a_reserved a - h_amount h);
             a_spent := a_spent a |} (spec_drop_hold id l)).

Arguments spec_release : simpl never.

Definition spec_charge (k : uuid) (amount : Z) (l : Ledger) : option Ledger :=
  let a := account l k in
  if amount <=? a_balance a then
    Some (put_account k {| a_balance := a_balance a - amount; a_reserved := a_reserved a;
                           a_spent := a_spent a + amount |} l)
  else None.

(** Settling a hold: release it and charge the final amount. *)
Definition spec_settle (id : uuid) (amount : Z) (l : Ledger) : option Ledger :=
  h ← l_holds l !! id;
  l1 ← spec_release id l;
  spec_charge (h_user h) amount l1.

#[export] Instance put_account_proper : Proper ((=) ==> (=) ==> (≡) ==> (≡)) put_account.
Proof.
  intros k _ <- a _ <- l1 l2 [HA HH]. split; [|done]. intros k'.
  specialize (HA k'). unfold account in *; simpl.
  destruct (decide (k = k')) as [<-|]; simplify_map_eq; done.
Qed.
#[export] Instance spec_drop_hold_proper : Proper ((=) ==> (≡) ==> (≡)) spec_drop_hold.
Proof. intros id _ <- l1 l2 [HA HH]. split; [done|]. simpl. by rewrite HH. Qed.
#[export] Instance spec_apply_proper : Proper ((=) ==> (=) ==> (≡) ==> (≡)) spec_apply.
Proof. intros k _ <- z _ <- l1 l2 HE. unfold spec_apply. by rewrite HE. Qed.

#[export] Instance spec_reserve_proper :
  Proper ((=) ==> (=) ==> (=) ==> (≡) ==> (≡)) spec_reserve.
Proof.
  intros k _ <- z _ <- id _ <- l1 l2 HE. unfold spec_reserve. rewrite HE.
  case_match; [|done]. constructor. destruct HE as [HA HH]. split; [|by simpl; rewrite HH].
  intros k'. rewrite HA. specialize (HA k'). unfold account in *; simpl.
  destruct (decide (k = k')) as [<-|]; simplify_map_eq; done.
Qed.
#[export] Instance spec_release_proper : Proper ((=) ==> (≡) ==> (≡)) spec_release.
Proof.
  intros id _ <- l1 l2 HE. unfold spec_release. pose proof HE as [_ HH]. rewrite HH.
  destruct (l_holds l2 !! id) as [h|]; simpl; [|done]. by rewrite HE.
Qed.
#[export] Instance spec_charge_proper : Proper ((=) ==> (=) ==> (≡) ==> (≡)) spec_charge.
Proof.
  intros k _ <- z _ <- l1 l2 HE. unfold spec_charge. rewrite HE. case_match; [|done].
  by rewrite HE.
Qed.

(** Releasing several holds, skipping the ones that are not live. *)
Definition spec_release_all (ids : list uuid) (l : Ledger) : Ledger :=
  foldl (fun l id => default l (spec_release id l)) l ids.

#[export] Instance spec_release_all_proper : Proper ((=) ==> (≡) ==> (≡)) spec_release_all.
Proof.
  intros ids _ <-. induction ids as [|id ids IH]; intros l1 l2 HE; [done|].
  simpl. apply IH. pose proof (spec_release_proper id id eq_refl l1 l2 HE) as HR.
  by destruct HR.
Qed.

(** ** The ledger invariant: reservations cover the live holds *)

Definition covered (l : Ledger) : Prop :=
  (forall id h, l_holds l !! id = Some h -> 0 <= h_amount h) /\
  (forall k, 0 <= a_reserved (account l k) /\ held l k <= a_reserved (account l k)).

#[export] Instance covered_proper : Proper ((≡) ==> iff) covered.
Proof.
  assert (Himp : forall l1 l2 : Ledger, l1 ≡ l2 -> covered l1 -> covered l2).
  { intros l1 l2 HE [C1 C2]. split.
    - destruct HE as [_ HE]. rewrite <- HE. done.
    - intros k. rewrite <- HE. apply C2. }
  intros l1 l2 HE. split; apply Himp; [done|by symmetry].
Qed.

Lemma account_put l k a : account (put_account k a l) k = a.
Proof. unfold account, put_account; simpl. by rewrite lookup_insert_eq. Qed.

Lemma account_put_ne l k k' a : k <> k' -> account (put_account k a l) k' = account l k'.
Proof. intros. unfold account, put_account; simpl. by rewrite lookup_insert_ne. Qed.

Lemma held_nonneg l k :
  (forall id h, l_holds l !! id = Some h -> 0 <= h_amount h) -> 0 <= held l k.
Proof.
  intros Hpos. apply table_sum_nonneg. intros id h Hh. unfold hold_of.
  case_decide; [|lia]. by eapply Hpos.
Qed.

Lemma held_drop l id h k :
  l_holds l !! id = Some h -> held (spec_drop_hold id l) k = held l k - hold_of k h.
Proof.
  intros Hh. unfold held, spec_drop_hold; simpl.
  rewrite (table_sum_delete _ (l_holds l) id h Hh). lia.
Qed.

Lemma held_covers_hold l id h :
  covered l -> l_holds l !! id = Some h -> h_amount h <= a_reserved (account l (h_user h)).
Proof.
  intros [Hpos Hcov] Hh. destruct (Hcov (h_user h)) as [_ Hle].
  enough (h_amount h <= held l (h_user h)) by lia.
  assert (E : hold_of (h_user h) h = h_amount h) by (unfold hold_of; by case_decide).
  rewrite <- E. apply (table_sum_lookup_le (fun _ => hold_of (h_user h))) with (k := id); [|done].
  intros id' h' Hh'. unfold hold_of. case_decide; [by eapply Hpos|lia].
Qed.

Lemma covered_empty : covered {| l_accts := ∅; l_holds := ∅ |}.
Proof. by split. Qed.

Lemma covered_put l k a :
  covered l -> a_reserved a = a_reserved (account l k) -> covered (put_account k a l).
Proof.
  intros [Hpos Hcov] Ha. split; [done|]. intros k'. change (held (put_account k a l) k') with (held l k').
  destruct (decide (k = k')) as [<-|Hne].
  - rewrite account_put, Ha. apply Hcov.
  - rewrite account_put_ne by done. apply Hcov.
Qed.

Lemma covered_apply l k amount : covered l -> covered (spec_apply k amount l).
Proof. intros. by apply covered_put. Qed.

Lemma covered_charge l k amount l' : covered l -> spec_charge k amount l = Some l' -> covered l'.
Proof.
  intros Hc. unfold spec_charge. case_match; intros; simplify_eq. by apply covered_put.
Qed.

Lemma covered_reserve l k amount id l' :
  covered l -> 0 <= amount -> l_holds l !! id = None ->
  spec_reserve k amount id l = Some l' -> covered l'.
Proof.
  intros [Hpos Hcov] Ha Hid. unfold spec_reserve. case_match; intros; simplify_eq.
  split; simpl.
  - intros id' h. destruct (decide (id = id')) as [<-|]; intros; simplify_map_eq; [done|eauto].
  - intros k'. unfold held; simpl. rewrite table_sum_insert by done.
    change (table_sum _ (l_holds l)) with (held l k').
    unfold hold_of; simpl. destruct (Hcov k') as [H1 H2]. unfold account; simpl.
    destruct (decide (k = k')) as [<-|Hne]; simplify_map_eq.
    + change (default acct_zero (l_accts l !! k)) with (account l k). lia.
    + change (default acct_zero (l_accts l !! k')) with (account l k'). lia.
Qed.

Lemma covered_drop l id : covered l -> covered (spec_drop_hold id l).
Proof.
  intros [Hpos Hcov]. split; simpl.
  - intros id' h [_ ?]%lookup_delete_Some. eauto.
  - intros k. change (account (spec_drop_hold id l) k) with (account l k).
    destruct (Hcov k) as [H1 H2]. split; [done|].
    destruct (l_holds l !! id) as [h|] eqn:E.
    + rewrite (held_drop l id h k E). unfold hold_of. case_decide; [|lia].
      assert (0 <= h_amount h) by eauto. lia.
    + unfold held; simpl. by rewrite delete_id.
Qed.

Lemma covered_release l id l' : covered l -> spec_release id l = Some l' -> covered l'.
Proof.
  intros Hc. unfold spec_release. destruct (l_holds l !! id) as [h|] eqn:E; simpl; [|done].
  intros; simplify_eq. pose proof (held_covers_hold l id h Hc E) as Hle.
  destruct Hc as [Hpos Hcov]. split.
  - simpl. intros id' h' [_ ?]%lookup_delete_Some. eauto.
  - intros k.
    change (held (put_account ?k0 ?a (spec_drop_hold id l)) k) with (held (spec_drop_hold id l) k).
    rewrite (held_drop l id h k E). destruct (Hcov k) as [H1 H2].
    unfold hold_of. destruct (decide (h_user h = k)) as [<-|Hne].
    + rewrite account_put. simpl. lia.
    + rewrite account_put_ne by done.
      change (account (spec_drop_hold id l) k) with (account l k). lia.
Qed.

Lemma covered_release_all ids l : covered l -> covered (spec_release_all ids l).
Proof.
  revert l. induction ids as [|id ids IH]; intros l Hc; [done|]. simpl. apply IH.
  destruct (spec_release id l) as [l'|] eqn:E; simpl; [|done]. by eapply covered_release.
Qed.

Lemma covered_settle l id amount l' :
  covered l -> spec_settle id amount l = Some l' -> covered l'.
Proof.
  intros Hc. unfold spec_settle. destruct (l_holds l !! id) as [h|] eqn:E; simpl; [|done].
  destruct (spec_release id l) as [l1|] eqn:R; simpl; [|done].
  intros Hch. eapply covered_charge; [|done]. by eapply covered_release.
Qed.

(** ** What the manager needs from a repository *)

(** Amounts a [NUMERIC(20, 8)] column can hold, in micro-credits. *)
Definition amount_bound : Z := 10 ^ 18.

Definition storable (a : acct) : Prop :=
  0 <= a_balance a < amount_bound /\ 0 <= a_reserved a < amount_bound /\
  Z.abs (a_spent a) < amount_bound.

(** A stored reservation: its hold and whether it is still live. *)
Record stored_hold := { sh_hold : hold; sh_live : bool }.

Section Interface.
Context `{Decimal} `{UuidText}.

(** A [CreditAccount] that represents the ledger account [a] of user [k]. *)
Definition represents (k : uuid) (a : acct) (c : CreditAccount) : Prop :=
  acct_user_id c = uuid_to_string k /\
  wf_credit (acct_balance c) /\ micros (acct_balance c) = a_balance a /\
  wf_credit (acct_reserved c) /\ micros (acct_reserved c) = a_reserved a /\
  wf_credit (acct_lifetime_spent c) /\ micros (acct_lifetime_spent c) = a_spent a.

Definition is_db_error (e : BillingError) : Prop := exists op, e = DatabaseError op.

Class CreditRepositoryLaws `{!CreditRepository} := {
  cr_ok : Db -> Prop;
  cr_resolve : Db -> UserId -> option uuid;
  cr_accts : Db -> gmap uuid acct;
  cr_holds : Db -> gmap uuid stored_hold;
  (** The repository cannot open an account for this user. *)
  cr_refuses : Env -> Db -> UserId -> Prop;

  cr_resolve_uuid d k : cr_resolve d (uuid_to_string k) = Some k;
  cr_accts_storable d k a : cr_ok d -> cr_accts d !! k = Some a -> storable a;

  cr_hold_account d id s :
    cr_ok d -> cr_holds d !! id = Some s -> is_Some (cr_accts d !! h_user (sh_hold s));

  cr_get_account env w u :
    fault_free env -> cr_ok (db w) ->
    wp (repo_get_account u) env w (fun r w' => db w' = db w /\ exists o, r = Ok o /\
      match cr_resolve (db w) u ≫= (fun k => (fun a => (k, a)) <$> cr_accts (db w) !! k) with
      | None => o = None
      | Some (k, a) => exists c, o = Some c /\ represents k a c
      end);

  cr_create_account env w c :
    fault_free env -> cr_ok (db w) ->
    micros (acct_balance c) = 0 -> micros (acct_reserved c) = 0 ->
    micros (acct_lifetime_spent c) = 0 -> wf_credit (acct_balance c) ->
    wf_credit (acct_reserved c) -> wf_credit (acct_lifetime_spent c) ->
    (forall k, cr_resolve (db w) (acct_user_id c) = Some k -> cr_accts (db w) !! k = None) ->
    wp (repo_create_account c) env w (fun r w' =>
      match r with
      | Ok _ => cr_ok (db w') /\ cr_holds (db w') = cr_holds (db w) /\
          exists k, cr_resolve (db w') (acct_user_id c) = Some k /\
                    (cr_accts (db w) !! k = None) /\
                    cr_accts (db w') = <[k := acct_zero]> (cr_accts (db w))
      | Err e => is_db_error e /\ cr_refuses env (db w) (acct_user_id c) /\ db w' = db w
      end);

  cr_update_account env w k a a0 c :
    fault_free env -> cr_ok (db w) -> represents k a c -> cr_accts (db w) !! k = Some a0 ->
    wp (repo_update_account c) env w (fun r w' =>
      match r with
      | Ok _ => cr_ok (db w') /\ (forall u, cr_resolve (db w') u = cr_resolve (db w) u) /\
          cr_accts (db w') = <[k := a]> (cr_accts (db w)) /\ cr_holds (db w') = cr_holds (db w)
      | Err e => is_db_error e /\ ~ storable a /\ db w' = db w
      end);

  cr_create_reservation env w k a r :
    fault_free env -> cr_ok (db w) -> wf_credit (res_amount r) ->
    cr_resolve (db w) (res_user_id r) = Some k -> cr_accts (db w) !! k = Some a ->
    Z.abs (micros (res_amount r)) < amount_bound -> res_released r = false ->
    wp (repo_create_reservation r) env w (fun res w' =>
      match res with
      | Ok _ => cr_ok (db w') /\ (forall u, cr_resolve (db w') u = cr_resolve (db w) u) /\
          cr_accts (db w') = cr_accts (db w) /\ cr_holds (db w) !! res_id r = None /\
          cr_holds (db w') =
            <[res_id r := {| sh_hold := {| h_user := k; h_amount := micros (res_amount r) |};
                             sh_live := true |}]> (cr_holds (db w))
      | Err e => is_db_error e /\ is_Some (cr_holds (db w) !! res_id r) /\ db w' = db w
      end);

  cr_get_reservation env w id :
    fault_free env -> cr_ok (db w) ->
    wp (repo_get_reservation id) env w (fun r w' => db w' = db w /\ exists o, r = Ok o /\
      match cr_holds (db w) !! id with
      | None => o = None
      | Some s => exists rv, o = Some rv /\ res_id rv = id /\
          res_user_id rv = uuid_to_string (h_user (sh_hold s)) /\
          wf_credit (res_amount rv) /\ micros (res_amount rv) = h_amount (sh_hold s) /\
          res_released rv = negb (sh_live s)
      end);

  (** The expired reservations are stored, live and listed once. *)
  cr_get_expired env w n :
    fault_free env -> cr_ok (db w) ->
    wp (repo_get_expired_reservations n) env w (fun r w' => db w' = db w /\ exists l, r = Ok l /\
      NoDup (res_id <$> l) /\
      forall rv, rv ∈ l -> exists s, cr_holds (db w) !! res_id rv = Some s /\
        sh_live s = true /\ res_user_id rv = uuid_to_string (h_user (sh_hold s)) /\
        wf_credit (res_amount rv) /\ micros (res_amount rv) = h_amount (sh_hold s) /\
        res_released rv = false);

  cr_update_reservation env w rv s :
    fault_free env -> cr_ok (db w) -> res_released rv = true ->
    cr_holds (db w) !! res_id rv = Some s ->
    wp (repo_update_reservation rv) env w (fun r w' => r = Ok tt /\
      cr_ok (db w') /\ (forall u, cr_resolve (db w') u = cr_resolve (db w) u) /\
      cr_accts (db w') = cr_accts (db w) /\
      cr_holds (db w') =
        <[res_id rv := {| sh_hold := sh_hold s; sh_live := false |}]> (cr_holds (db w)));
}.

(** The account a user name stands for. *)
Definition cr_account `{CreditRepositoryLaws} (d : Db) (u : UserId) : option (uuid * acct) :=
  cr_resolve d u ≫= (fun k => (fun a => (k, a)) <$> cr_accts d !! k).

(** A first request of a user whose account the repository will not open. *)
Definition cannot_open `{CreditRepositoryLaws} (env : Env) (d : Db) (u : UserId) : Prop :=
  cr_account d u = None /\ cr_refuses env d u.

(** The ledger a database stands for: its accounts and its live holds. *)
Definition ledger `{CreditRepositoryLaws} (d : Db) : Ledger := {|
  l_accts := cr_accts d;
  l_holds := omap (fun s => if sh_live s then Some (sh_hold s) else None) (cr_holds d) |}.
End Interface.
