(* ===== verification/CreditManagerFacts.v ===== *)
(** * Billing: the credit manager implements the ledger

    Every operation of [CreditManager], run without database faults over a
    repository that satisfies [CreditRepositoryLaws], has exactly the effect of the
    corresponding operation of the ledger specification, on success and on every
    error path. *)

From Stdlib Require Import ZArith.
From stdpp Require Import base gmap strings list numbers.
From S2P Require Import Prelude Float64 Decimal BillingTypes BillingWorld Credits Ledger.
Local Open Scope Z_scope.

(** Consume a repository call with its law. *)
Ltac wp_law law :=
  eapply wp_mono; [eapply law; eauto|].

Section Manager.
Context `{DecimalLaws} `{UuidText} `{!CreditRepository} `{!CreditRepositoryLaws}.
Context (env : Env) (Hff : fault_free env).

Lemma ledger_put d d' k a :
  cr_accts d' = <[k := a]> (cr_accts d) -> cr_holds d' = cr_holds d ->
  ledger d' = put_account k a (ledger d).
Proof. intros E1 E2. unfold ledger, put_account; simpl. by rewrite E1, E2. Qed.

Lemma ledger_account d k a : cr_accts d !! k = Some a -> account (ledger d) k = a.
Proof. intros E. unfold account, ledger; simpl. by rewrite E. Qed.

Lemma ledger_live d id s :
  cr_holds d !! id = Some s -> sh_live s = true -> l_holds (ledger d) !! id = Some (sh_hold s).
Proof. intros E Hl. simpl. by rewrite lookup_omap, E; simpl; rewrite Hl. Qed.

Lemma ledger_dead d id :
  (forall s, cr_holds d !! id = Some s -> sh_live s = false) -> l_holds (ledger d) !! id = None.
Proof.
  intros Hd. simpl. rewrite lookup_omap. destruct (cr_holds d !! id) as [s|] eqn:E; [|done].
  simpl. by rewrite (Hd s).
Qed.

(** Marking a reservation released drops its hold. *)
Lemma ledger_drop d d' id s :
  cr_accts d' = cr_accts d ->
  cr_holds d' = <[id := {| sh_hold := sh_hold s; sh_live := false |}]> (cr_holds d) ->
  ledger d' = spec_drop_hold id (ledger d).
Proof.
  intros E1 E2. unfold ledger, spec_drop_hold; simpl. rewrite E1, E2. f_equal.
  apply map_eq. intros i. rewrite lookup_delete, !lookup_omap.
  destruct (decide (id = i)) as [<-|]; simplify_map_eq; done.
Qed.

(** Inserting a live reservation under a fresh id adds a hold. *)
Lemma ledger_hold d d' id h :
  cr_accts d' = cr_accts d ->
  cr_holds d' = <[id := {| sh_hold := h; sh_live := true |}]> (cr_holds d) ->
  ledger d' = {| l_accts := cr_accts d; l_holds := <[id := h]> (l_holds (ledger d)) |}.
Proof.
  intros E1 E2. unfold ledger; simpl. rewrite E1, E2. f_equal.
  apply map_eq. intros i. rewrite lookup_insert, !lookup_omap.
  destruct (decide (id = i)) as [<-|]; simplify_map_eq; done.
Qed.

Lemma put_zero_equiv l k : l_accts l !! k = None -> put_account k acct_zero l ≡ l.
Proof.
  intros E. split; [|done]. intros k'. unfold account; simpl.
  destruct (decide (k = k')) as [<-|]; simplify_map_eq; done.
Qed.

Lemma represents_available k a c :
  represents k a c -> storable a ->
  wf_credit (CreditAccount_available_balance c) /\
  micros (CreditAccount_available_balance c) = Z.max 0 (a_balance a - a_reserved a).
Proof.
  intros (_ & W1 & E1 & W2 & E2 & _) (S1 & S2 & _).
  split; [apply wf_monus; (done || lia)|].
  unfold CreditAccount_available_balance. rewrite micros_monus by done. by rewrite E1, E2.
Qed.

Lemma can_reserve_spec k a c amount :
  represents k a c -> storable a -> wf_credit amount ->
  CreditAccount_can_reserve c amount = (micros amount <=? Z.max 0 (a_balance a - a_reserved a)).
Proof.
  intros Hr Hs Hw. destruct (represents_available k a c Hr Hs) as [W E].
  unfold CreditAccount_can_reserve. by rewrite sufficient_micros, E.
Qed.

(** Amounts of a request: whole micro-credits, not negative, of moderate size. *)
Definition amount_ok (c : CreditBalance) : Prop := wf_credit c /\ 0 <= micros c <= 10 ^ 27.

Lemma storable_add_bound x y :
  0 <= x < amount_bound -> 0 <= y <= 10 ^ 27 -> Z.abs (x + y) <= credit_bound.
Proof. unfold amount_bound, credit_bound. lia. Qed.

Lemma storable_spent_bound x y :
  Z.abs x < amount_bound -> 0 <= y <= 10 ^ 27 -> Z.abs (x + y) <= credit_bound.
Proof. unfold amount_bound, credit_bound. lia. Qed.

(** ** The account operations *)

Lemma wp_Reservation_new w u amount duration rental_id (Q : _ -> _ -> Prop) :
  (forall r w', db w' = db w -> (exists n, res_id r = random_uuid env n) -> res_user_id r = u -> res_amount r = amount ->
     res_released r = false -> Q (Ok r) w') ->
  wp (Reservation_new u amount duration rental_id) env w Q.
Proof. intros HQ. unfold Reservation_new. wp_steps. apply HQ; eauto. congruence. Qed.

Lemma wp_account_apply w k a c amount :
  represents k a c -> storable a -> amount_ok amount ->
  wp (CreditAccount_apply_credits c amount) env w (fun r w' => db w' = db w /\
    exists c', r = Ok c' /\
      represents k {| a_balance := a_balance a + micros amount; a_reserved := a_reserved a;
                      a_spent := a_spent a |} c').
Proof.
  intros (Eu & W1 & E1 & R) (S1 & _) [Wa Ba]. unfold CreditAccount_apply_credits. wp_steps.
  split; [done|]. eexists; split; [done|]. split; [done|]. simpl.
  rewrite micros_add, E1 by done. split; [|by split].
  apply wf_add; [done..|]. rewrite E1. by apply storable_add_bound.
Qed.

Lemma wp_account_reserve w k a c amount :
  represents k a c -> storable a -> amount_ok amount ->
  CreditAccount_can_reserve c amount = true ->
  wp (CreditAccount_reserve_credits c amount) env w (fun r w' => db w' = db w /\
    exists c', r = Ok c' /\
      represents k {| a_balance := a_balance a; a_reserved := a_reserved a + micros amount;
                      a_spent := a_spent a |} c').
Proof.
  intros (Eu & W1 & E1 & W2 & E2 & R) (_ & S2 & _) [Wa Ba] Hc.
  unfold CreditAccount_reserve_credits. rewrite Hc. simpl. wp_steps.
  split; [done|]. eexists; split; [done|]. repeat split; simpl; try apply W1; try apply R; try done.
  - apply from_decimal_grid.
  - rewrite micros_add, E2 by done. by apply storable_add_bound.
  - rewrite micros_add, E2 by done. done.
Qed.

Lemma wp_account_release w k a c amount :
  represents k a c -> storable a -> wf_credit amount -> 0 <= micros amount ->
  wp (CreditAccount_release_reservation c amount) env w (fun r w' => db w' = db w /\
    exists c', r = Ok c' /\
      represents k {| a_balance := a_balance a;
                      a_reserved := Z.max 0 (a_reserved a - micros amount);
                      a_spent := a_spent a |} c').
Proof.
  intros (Eu & W1 & E1 & W2 & E2 & R) (_ & S2 & _) Wa Ba.
  unfold CreditAccount_release_reservation. wp_steps.
  split; [done|]. eexists; split; [done|]. repeat split; simpl; try apply W1; try apply R; try done.
  - apply monus_grid.
  - rewrite micros_monus, E2 by done. destruct S2. unfold amount_bound, credit_bound in *. lia.
  - rewrite micros_monus, E2 by done. done.
Qed.

(** Charging succeeds exactly when the balance covers the amount. *)
Lemma wp_account_charge w k a c amount :
  represents k a c -> storable a -> amount_ok amount ->
  wp (CreditAccount_charge c amount) env w (fun r w' => db w' = db w /\
    if micros amount <=? a_balance a then
      exists c', r = Ok c' /\
        represents k {| a_balance := a_balance a - micros amount; a_reserved := a_reserved a;
                        a_spent := a_spent a + micros amount |} c'
    else r = Err (InsufficientBalance (as_decimal (acct_balance c)) (as_decimal amount))).
Proof.
  intros (Eu & W1 & E1 & W2 & E2 & W3 & E3) (S1 & _ & S3) [Wa Ba].
  unfold CreditAccount_charge. wp_step.
  pose proof (subtract_cases (acct_balance c) amount W1 Wa) as Hs. rewrite E1 in Hs.
  destruct (micros amount <=? a_balance a) eqn:Hle; b2p.
  - destruct Hs as (nb & -> & Enb & Gnb). wp_steps. split; [done|]. eexists; split; [done|].
    repeat split; simpl; try apply W2; try done.
    + rewrite Enb. unfold amount_bound, credit_bound in *. lia.
    + apply from_decimal_grid.
    + rewrite micros_add, E3 by done. by apply storable_spent_bound.
    + rewrite micros_add, E3 by done. done.
  - rewrite Hs. by wp_steps.
Qed.

(** ** Accounts on demand *)

Lemma cr_account_Some d u k a :
  cr_account d u = Some (k, a) -> cr_resolve d u = Some k /\ cr_accts d !! k = Some a.
Proof.
  intros (k' & Eu & Ea)%bind_Some. by apply fmap_Some in Ea as (a' & Ea & [= <- <-]).
Qed.

Lemma wp_get_or_create w u (Q : _ -> _ -> Prop) :
  cr_ok (db w) ->
  (forall k a c w', cr_ok (db w') -> cr_resolve (db w') u = Some k ->
     cr_accts (db w') !! k = Some a -> represents k a c -> storable a ->
     ledger (db w') ≡ ledger (db w) -> cr_holds (db w') = cr_holds (db w) -> Q (Ok c) w') ->
  (forall e w', db w' = db w -> is_db_error e -> cannot_open env (db w) u -> Q (Err e) w') ->
  wp (CreditManager_get_or_create_account u) env w Q.
Proof.
  intros Hok HQ HE. unfold CreditManager_get_or_create_account.
  wp_step. wp_law cr_get_account. intros r w1 (D1 & o & -> & Ho).
  change (cr_resolve (db w) u ≫= _) with (cr_account (db w) u) in Ho.
  destruct (cr_account (db w) u) as [[k a]|] eqn:Elook.
  - destruct Ho as (c & -> & Hr). wp_steps.
    apply cr_account_Some in Elook as [Eu Ea].
    rewrite <- D1 in Hok, Eu, Ea. eapply HQ; eauto using cr_accts_storable; by rewrite D1.
  - subst o. wp_step. unfold CreditAccount_new. wp_steps. rename select (db _ = db w1) into D2. rewrite D1 in D2.
    assert (Hnone : forall k, cr_resolve (db w) u = Some k -> cr_accts (db w) !! k = None).
    { intros k Ek. unfold cr_account in Elook. rewrite Ek in Elook. simpl in Elook.
      by destruct (cr_accts (db w) !! k). }
    wp_law cr_create_account; rewrite ?D2; simpl; eauto using micros_zero, wf_zero.
    intros [[]|e] w3; [|intros (? & ? & D3); apply HE; [congruence|done|by split]].
    intros (Hok3 & Hh3 & k & Ek & Enone & Ea). wp_step.
    wp_law cr_get_account. intros r w4 (D4 & o & -> & Ho).
    rewrite Ek in Ho. simpl in Ho. rewrite Ea, lookup_insert_eq in Ho. simpl in Ho.
    destruct Ho as (c & -> & Hr). wp_steps.
    eapply (HQ k acct_zero c); rewrite ?D4; eauto.
    + rewrite Ea. apply lookup_insert_eq.
    + by apply (cr_accts_storable (db w3) k); [|rewrite Ea; apply lookup_insert_eq].
    + rewrite (ledger_put (db w) (db w3) k acct_zero) by done. by apply put_zero_equiv.
Qed.

(** ** The manager's operations *)

Lemma wp_apply_credits w u amount :
  cr_ok (db w) -> amount_ok amount ->
  wp (CreditManager_apply_credits u amount) env w (fun r w' =>
    match r with
    | Ok b => cr_ok (db w') /\ exists k, cr_resolve (db w') u = Some k /\
        ledger (db w') ≡ spec_apply k (micros amount) (ledger (db w)) /\
        micros b = a_balance (account (ledger (db w')) k)
    | Err e => is_db_error e /\ cr_ok (db w') /\ ledger (db w') ≡ ledger (db w) /\
        (cannot_open env (db w) u \/ exists k, cr_resolve (db w') u = Some k /\
           ~ storable (account (spec_apply k (micros amount) (ledger (db w))) k))
    end).
Proof.
  intros Hok Ham. unfold CreditManager_apply_credits. wp_step.
  apply wp_get_or_create; [done| |intros e w' -> ? ?; auto].
  intros k a c w1 Hok1 Eu Ea Hr Hs HL _. wp_step.
  wp_law wp_account_apply. intros r w2 (D2 & c' & -> & Hr'). wp_step.
  rewrite <- D2 in *.
  wp_law cr_update_account.
  intros [[]|e] w3.
  2:{ intros (He & Hns & D3). rewrite D3. do 3 (split; [done|]). right. exists k.
      split; [done|]. rewrite <- HL. unfold spec_apply. rewrite account_put.
      by rewrite (ledger_account _ _ _ Ea). }
  intros (Hok3 & Hres & Ea3 & Eh3). wp_steps. split; [done|]. exists k.
  rewrite Hres. split; [done|].
  rewrite (ledger_put (db w2) (db w3) k _ Ea3 Eh3), account_put.
  destruct Hr' as (_ & _ & -> & _). split; [|done].
  rewrite <- HL. unfold spec_apply. by rewrite (ledger_account _ _ _ Ea).
Qed.

Lemma wp_reserve_credits w u amount duration rental_id :
  cr_ok (db w) -> amount_ok amount ->
  wp (CreditManager_reserve_credits u amount duration rental_id) env w (fun r w' =>
    match r with
    | Ok id => cr_ok (db w') /\ l_holds (ledger (db w)) !! id = None /\
        exists k, cr_resolve (db w') u = Some k /\
          Some (ledger (db w')) ≡ spec_reserve k (micros amount) id (ledger (db w))
    | Err e => cr_ok (db w') /\ ledger (db w') ≡ ledger (db w) /\
        (is_db_error e /\ cannot_open env (db w) u \/
         is_db_error e /\ (exists n, is_Some (cr_holds (db w) !! random_uuid env n)) \/
         (exists av, e = InsufficientBalance av (as_decimal amount)) /\
         exists k, cr_resolve (db w') u = Some k /\
           forall id, spec_reserve k (micros amount) id (ledger (db w)) = None)
    end).
Proof.
  intros Hok Ham. pose proof Ham as [Wam Bam]. unfold CreditManager_reserve_credits. wp_step.
  apply wp_get_or_create; [done| |intros e w' -> ? ?; auto].
  intros k a c w1 Hok1 Eu Ea Hr Hs HL HH.
  assert (Hav : available (ledger (db w)) k = Z.max 0 (a_balance a - a_reserved a)).
  { rewrite <- HL. unfold available. by rewrite (ledger_account _ _ _ Ea). }
  pose proof (can_reserve_spec k a c amount Hr Hs Wam) as Hcan. rewrite <- Hav in Hcan.
  destruct (CreditAccount_can_reserve c amount) eqn:Ec; simpl.
  2:{ wp_steps. split; [done|]. split; [done|]. right; right. split; [by eexists|].
      exists k. split; [done|]. intros id. unfold spec_reserve. by rewrite <- Hcan. }
  wp_step. apply wp_Reservation_new. intros rv w0 D0 [n Erid] Eru Era Erl. wp_step.
  wp_law wp_account_reserve.
  intros r w2 (D2 & c' & -> & Hr'). rewrite D0 in D2. wp_step. rewrite <- D2 in *.
  wp_law cr_create_reservation; rewrite ?Era, ?Eru; eauto.
  { destruct Hs as (S1 & S2 & _). symmetry in Hcan. b2p. lia. }
  intros [[]|e] w3;
    [|intros (He & Hid & D3); rewrite D3, <- HH; rewrite Erid in Hid; eauto 8].
  intros (Hok3 & Hres3 & Ea3 & Efresh & Eh3). wp_step.
  rewrite <- Ea3 in Ea. wp_law cr_update_account.
  intros [[]|e] w4.
  2:{ intros (_ & Hns & _). exfalso. apply Hns. destruct Hs as (S1 & S2 & S3).
      symmetry in Hcan. b2p. repeat split; simpl; (lia || done). }
  intros (Hok4 & Hres4 & Ea4 & Eh4). wp_steps. split; [done|].
  split. { apply ledger_dead. rewrite <- HH, Efresh. done. }
  exists k. rewrite Hres4, Hres3. split; [done|].
  rewrite <- HL. unfold spec_reserve. rewrite HL, <- Hcan. constructor.
  rewrite (ledger_put (db w3) (db w4) k _ Ea4 Eh4).
  rewrite (ledger_hold (db w2) (db w3) _ _ Ea3 Eh3). rewrite Ea3 in Ea.
  rewrite (ledger_account _ _ _ Ea). done.
Qed.

Lemma wp_charge_credits w u amount :
  cr_ok (db w) -> amount_ok amount ->
  wp (CreditManager_charge_credits u amount) env w (fun r w' =>
    match r with
    | Ok b => cr_ok (db w') /\ exists k, cr_resolve (db w') u = Some k /\
        Some (ledger (db w')) ≡ spec_charge k (micros amount) (ledger (db w)) /\
        micros b = a_balance (account (ledger (db w')) k)
    | Err e => db w' = db w /\
        match cr_account (db w) u with
        | None => e = UserNotFound u
        | Some (k, a) =>
            match spec_charge k (micros amount) (ledger (db w)) with
            | None => exists have, e = InsufficientBalance have (as_decimal amount)
            | Some l' => is_db_error e /\ ~ storable (account l' k)
            end
        end
    end).
Proof.
  intros Hok Ham. unfold CreditManager_charge_credits. wp_step.
  wp_law cr_get_account. intros r w1 (D1 & o & -> & Ho).
  change (cr_resolve (db w) u ≫= _) with (cr_account (db w) u) in Ho.
  destruct (cr_account (db w) u) as [[k a]|] eqn:Elook; [|by subst; wp_steps].
  destruct Ho as (c & -> & Hr). wp_steps.
  apply cr_account_Some in Elook as [Eu Ea]. unfold spec_charge.
  rewrite (ledger_account _ _ _ Ea).
  wp_law wp_account_charge; [eauto using cr_accts_storable|].
  intros r w2 (D2 & Hc). rewrite D1 in D2.
  destruct (micros amount <=? a_balance a) eqn:Hle; [|subst r; eauto].
  destruct Hc as (c' & -> & Hr'). wp_step. rewrite <- D2 in *. wp_law cr_update_account.
  intros [[]|e] w3; [|by intros (? & ? & ->); rewrite account_put].
  intros (Hok3 & Hres3 & Ea3 & Eh3). wp_steps. split; [done|]. exists k.
  rewrite Hres3. split; [done|].
  rewrite (ledger_put (db w2) (db w3) k _ Ea3 Eh3), account_put.
  destruct Hr' as (_ & _ & -> & _). split; [|done].
  by rewrite (ledger_account _ _ _ Ea), Hle.
Qed.

(** The common beginning of releasing and of settling: look the reservation up,
    refuse a missing or released one, mark it released, load its account. *)
Lemma wp_take_hold {A} w id (K : Reservation -> CreditAccount -> M A) (Q : _ -> _ -> Prop) :
  cr_ok (db w) -> covered (ledger (db w)) ->
  (forall e w', db w' = db w -> l_holds (ledger (db w)) !! id = None -> Q (Err e) w') ->
  (forall rv h a c w', cr_ok (db w') -> l_holds (ledger (db w)) !! id = Some h ->
     cr_accts (db w') !! h_user h = Some a -> represents (h_user h) a c -> storable a ->
     account (ledger (db w)) (h_user h) = a ->
     wf_credit (res_amount rv) -> micros (res_amount rv) = h_amount h -> 0 <= h_amount h ->
     ledger (db w') = spec_drop_hold id (ledger (db w)) -> wp (K rv c) env w' Q) ->
  wp (found ← repo_get_reservation id;
      rv ← ok_or (ReservationNotFound (uuid_to_string id)) found;
      if res_released rv then throw (ReservationAlreadyReleased (uuid_to_string id))
      else
        repo_update_reservation (Reservation_mark_released rv);;
        found ← repo_get_account (res_user_id rv);
        c ← ok_or (UserNotFound (res_user_id rv)) found;
        K rv c) env w Q.
Proof.
  intros Hok Hcov HE HK. wp_step.
  wp_law cr_get_reservation. intros r w1 (D1 & o & -> & Ho).
  destruct (cr_holds (db w) !! id) as [s|] eqn:Es.
  2:{ subst o. wp_steps. apply HE; [done|]. apply ledger_dead. by rewrite Es. }
  destruct Ho as (rv & -> & Eid & Eu & Wam & Eam & Erl). wp_steps. rewrite Erl.
  destruct (sh_live s) eqn:El; simpl.
  2:{ wp_steps. apply HE; [done|]. apply ledger_dead. intros s' ?. by simplify_eq. }
  pose proof (ledger_live _ _ _ Es El) as Hh. wp_step. rewrite <- D1 in *.
  wp_law cr_update_reservation; simpl; rewrite ?Eid; eauto.
  intros r w2 (-> & Hok2 & Hres2 & Ea2 & Eh2). wp_step.
  wp_law cr_get_account. intros r w3 (D3 & o & -> & Ho).
  destruct (cr_hold_account _ _ _ Hok Es) as [a Ea]. pose proof Ea as Ea'.
  rewrite <- Ea2 in Ea'.
  rewrite Eu, cr_resolve_uuid in Ho. simpl in Ho. rewrite Ea' in Ho. simpl in Ho.
  destruct Ho as (c & -> & Hr). wp_steps.
  eapply HK; rewrite ?D3; eauto using cr_accts_storable, ledger_account, ledger_drop.
  by eapply (proj1 Hcov).
Qed.

Lemma wp_release_reservation w id :
  cr_ok (db w) -> covered (ledger (db w)) ->
  wp (CreditManager_release_reservation id) env w (fun r w' =>
    match r with
    | Ok b => cr_ok (db w') /\ Some (ledger (db w')) ≡ spec_release id (ledger (db w)) /\
        exists h, l_holds (ledger (db w)) !! id = Some h /\ micros b = h_amount h
    | Err e => db w' = db w /\ l_holds (ledger (db w)) !! id = None
    end).
Proof.
  intros Hok Hcov. apply wp_take_hold; [done..|].
  intros rv h a c w1 Hok1 Hh Ea Hr Hst Hacc Wam Eam Hpos HL. wp_step.
  wp_law wp_account_release; [lia|]. intros r w2 (D2 & c' & -> & Hr'). wp_step.
  rewrite <- D2 in *. wp_law cr_update_account. intros [[]|e] w3.
  2:{ intros (_ & Hns & _). exfalso. apply Hns. destruct Hst as (S1 & S2 & S3).
      repeat split; simpl; (lia || done). }
  intros (Hok3 & _ & Ea3 & Eh3). wp_steps. split; [done|]. split; [|eauto].
  unfold spec_release. rewrite Hh. simpl. constructor.
  by rewrite (ledger_put (db w2) (db w3) _ _ Ea3 Eh3), HL, Hacc, Eam.
Qed.

(** Settling a reservation.  An error after the hold was found leaves the
    reservation marked released: the hold is gone and the account still carries
    the reserved amount. *)
Lemma wp_charge_from_reservation w id amount :
  cr_ok (db w) -> covered (ledger (db w)) -> amount_ok amount ->
  wp (CreditManager_charge_from_reservation id amount) env w (fun r w' =>
    match r with
    | Ok b => cr_ok (db w') /\
        Some (ledger (db w')) ≡ spec_settle id (micros amount) (ledger (db w)) /\
        exists h, l_holds (ledger (db w)) !! id = Some h /\
          micros b = a_balance (account (ledger (db w')) (h_user h))
    | Err e => cr_ok (db w') /\ ledger (db w') ≡ spec_drop_hold id (ledger (db w)) /\
        match spec_settle id (micros amount) (ledger (db w)), l_holds (ledger (db w)) !! id with
        | Some l', Some h => is_db_error e /\ ~ storable (account l' (h_user h))
        | _, _ => True
        end
    end).
Proof.
  intros Hok Hcov Ham. apply wp_take_hold; [done..| |].
  { intros e w' -> Hnone. split; [done|]. unfold spec_drop_hold, spec_settle.
    by rewrite delete_id, Hnone. }
  intros rv h a c w1 Hok1 Hh Ea Hr Hst Hacc Wam Eam Hpos HL.
  assert (Hset : spec_settle id (micros amount) (ledger (db w)) =
    if micros amount <=? a_balance a then Some (put_account (h_user h)
      {| a_balance := a_balance a - micros amount;
         a_reserved := Z.max 0 (a_reserved a - h_amount h);
         a_spent := a_spent a + micros amount |} (spec_drop_hold id (ledger (db w))))
    else None).
  { unfold spec_settle, spec_release. rewrite Hh. simpl. rewrite Hacc. unfold spec_charge.
    rewrite account_put. simpl. case_match; [|done].
    unfold put_account; simpl. by rewrite insert_insert_eq. }
  rewrite Hset, Hh. clear Hset.
  unfold CreditAccount_charge_from_reservation. wp_step. wp_step.
  wp_law wp_account_release; [lia|]. intros r w2 (D2 & c' & -> & Hr').
  assert (Hst' : storable {| a_balance := a_balance a;
                             a_reserved := Z.max 0 (a_reserved a - micros (res_amount rv));
                             a_spent := a_spent a |}).
  { destruct Hst as (S1 & S2 & S3). repeat split; simpl; (lia || done). }
  wp_law wp_account_charge. intros r w3 (D3 & Hc). rewrite D2 in D3. simpl in Hc.
  destruct (micros amount <=? a_balance a) eqn:Hle; [|by subst r; rewrite D3, HL].
  destruct Hc as (c'' & -> & Hr''). wp_step. rewrite <- D3 in *. wp_law cr_update_account.
  intros [[]|e] w4; [|intros (? & ? & D4); by rewrite D4, HL, account_put, <- Eam].
  intros (Hok4 & _ & Ea4 & Eh4). wp_steps. split; [done|].
  rewrite (ledger_put (db w3) (db w4) _ _ Ea4 Eh4), HL.
  split; [|eexists; split; [done|]; rewrite account_put; by destruct Hr'' as (_ & _ & -> & _)].
  by rewrite Eam.
Qed.

(** ** Clean-up of expired reservations *)

Definition expired_entry (d : Db) (rv : Reservation) : Prop :=
  exists s, cr_holds d !! res_id rv = Some s /\ sh_live s = true /\
    res_user_id rv = uuid_to_string (h_user (sh_hold s)) /\
    wf_credit (res_amount rv) /\ micros (res_amount rv) = h_amount (sh_hold s) /\
    res_released rv = false.

Lemma wp_cleanup_one w rv :
  cr_ok (db w) -> covered (ledger (db w)) -> expired_entry (db w) rv ->
  wp (cleanup_one rv) env w (fun r w' => r = Ok tt /\ cr_ok (db w') /\
    Some (ledger (db w')) ≡ spec_release (res_id rv) (ledger (db w)) /\
    exists s, cr_holds (db w') = <[res_id rv := s]> (cr_holds (db w))).
Proof.
  intros Hok Hcov (s & Es & El & Eu & Wam & Eam & Erl). unfold cleanup_one. rewrite Erl.
  pose proof (ledger_live _ _ _ Es El) as Hh.
  assert (Hpos : 0 <= h_amount (sh_hold s)) by (eapply (proj1 Hcov); eauto). wp_step.
  wp_law cr_update_reservation. intros r w1 (-> & Hok1 & _ & Ea1 & Eh1). wp_step. wp_step.
  wp_law cr_get_account. intros r w2 (D2 & o & -> & Ho).
  destruct (cr_hold_account _ _ _ Hok Es) as [a Ea]. pose proof Ea as Ea'. rewrite <- Ea1 in Ea'.
  rewrite Eu, cr_resolve_uuid in Ho. simpl in Ho. rewrite Ea' in Ho. simpl in Ho.
  destruct Ho as (c & -> & Hr). pose proof (cr_accts_storable _ _ _ Hok Ea) as Hst. wp_step.
  wp_law wp_account_release; [lia|]. intros r w3 (D3 & c' & -> & Hr'). rewrite D2 in D3.
  wp_step. wp_step. rewrite <- D3 in *. wp_law cr_update_account. intros [[]|e] w4.
  2:{ intros (_ & Hns & _). exfalso. apply Hns. destruct Hst as (S1 & S2 & S3).
      repeat split; simpl; (lia || done). }
  intros (Hok4 & _ & Ea4 & Eh4). wp_steps. split; [done|]. split; [done|].
  split; [|rewrite Eh4, Eh1; eauto]. unfold spec_release. rewrite Hh. simpl. constructor.
  rewrite (ledger_put (db w3) (db w4) _ _ Ea4 Eh4).
  rewrite (ledger_drop (db w) (db w3) _ _ Ea1 Eh1).
  by rewrite (ledger_account _ _ _ Ea), Eam.
Qed.

Lemma wp_cleanup_all rvs w :
  cr_ok (db w) -> covered (ledger (db w)) -> NoDup (res_id <$> rvs) ->
  (forall rv, rv ∈ rvs -> expired_entry (db w) rv) ->
  wp (for_each cleanup_one rvs) env w (fun r w' => r = Ok tt /\ cr_ok (db w') /\
    ledger (db w') ≡ spec_release_all (res_id <$> rvs) (ledger (db w))).
Proof.
  revert w. induction rvs as [|rv rvs IH]; intros w Hok Hcov Hnd Hall; simpl; [by wp_steps|].
  apply list.NoDup_cons in Hnd as [Hni Hnd]. wp_step.
  eapply wp_mono; [apply wp_cleanup_one; try done; apply Hall; left|].
  intros r w1 (-> & Hok1 & HL & s & Eh).
  destruct (spec_release (res_id rv) (ledger (db w))) as [l1|] eqn:El; [|inversion HL].
  assert (HL1 : ledger (db w1) ≡ l1) by (by inversion HL).
  eapply wp_mono; [apply IH; try done|].
  - rewrite HL1. by eapply covered_release.
  - intros rv' Hin. destruct (Hall rv') as (s' & Es' & Hrest); [by right|]. exists s'.
    split; [|done]. rewrite Eh, lookup_insert_ne; [done|]. intros Heq. apply Hni.
    rewrite Heq. by apply list_elem_of_fmap_2.
  - intros r w2 (-> & Hok2 & HL2). split; [done|]. split; [done|]. by rewrite HL2, HL1.
Qed.

Lemma wp_cleanup_expired w :
  cr_ok (db w) -> covered (ledger (db w)) ->
  wp CreditManager_cleanup_expired_reservations env w (fun r w' =>
    exists ids, r = Ok (Z.of_nat (length ids)) /\ NoDup ids /\ cr_ok (db w') /\
      (forall id, id ∈ ids -> is_Some (l_holds (ledger (db w)) !! id)) /\
      ledger (db w') ≡ spec_release_all ids (ledger (db w))).
Proof.
  intros Hok Hcov. unfold CreditManager_cleanup_expired_reservations. wp_step.
  wp_law cr_get_expired. intros r w1 (D1 & rvs & -> & Hnd & Hall). wp_step.
  rewrite <- D1 in *. eapply wp_mono; [apply wp_cleanup_all; done|].
  intros r w2 (-> & Hok2 & HL). wp_steps. exists (res_id <$> rvs).
  rewrite length_fmap. do 3 (split; [done|]). split; [|done].
  intros id (rv & -> & Hin)%list_elem_of_fmap.
  destruct (Hall rv Hin) as (s & Es & El & _). exists (sh_hold s). by apply ledger_live.
Qed.

(** ** Sequences of requests *)

Inductive CreditRequest :=
  | GetBalance (u : UserId)
  | ApplyCredits (u : UserId) (amount : CreditBalance)
  | ReserveCredits (u : UserId) (amount : CreditBalance) (d : Duration) (rid : option RentalId)
  | ReleaseReservation (id : ReservationId)
  | ChargeCredits (u : UserId) (amount : CreditBalance)
  | ChargeFromReservation (id : ReservationId) (amount : CreditBalance)
  | CleanupExpired.

Definition request_ok (q : CreditRequest) : Prop :=
  match q with
  | ApplyCredits _ a | ReserveCredits _ a _ _ | ChargeCredits _ a | ChargeFromReservation _ a =>
      amount_ok a
  | _ => True
  end.

(** The world a request leaves behind, whatever its answer. *)
Definition serve (q : CreditRequest) (w : World) : World :=
  match q with
  | GetBalance u => snd (CreditManager_get_balance u env w)
  | ApplyCredits u a => snd (CreditManager_apply_credits u a env w)
  | ReserveCredits u a d rid => snd (CreditManager_reserve_credits u a d rid env w)
  | ReleaseReservation id => snd (CreditManager_release_reservation id env w)
  | ChargeCredits u a => snd (CreditManager_charge_credits u a env w)
  | ChargeFromReservation id a => snd (CreditManager_charge_from_reservation id a env w)
  | CleanupExpired => snd (CreditManager_cleanup_expired_reservations env w)
  end.

Lemma covered_some l o : Some l ≡ o -> (forall l', o = Some l' -> covered l') -> covered l.
Proof.
  intros HE Hc. destruct o as [l'|]; [|inversion HE].
  assert (l ≡ l') as -> by (by inversion HE). eauto.
Qed.

Lemma serve_covered q w :
  request_ok q -> cr_ok (db w) -> covered (ledger (db w)) ->
  cr_ok (db (serve q w)) /\ covered (ledger (db (serve q w))).
Proof.
  intros Hq Hok Hcov.
  destruct q; simpl in *; apply (wp_snd _ _ _ (fun w' => cr_ok (db w') /\ covered (ledger (db w')))).
  - unfold CreditManager_get_balance. wp_step. apply wp_get_or_create; [done| |by intros e w' -> ? _].
    intros k a c w1 Hok1 _ _ _ _ HL _. wp_steps. by rewrite HL.
  - eapply wp_mono; [by apply wp_apply_credits|]. intros [b|e] w'.
    + intros (? & k & _ & HL & _). split; [done|]. rewrite HL. by apply covered_apply.
    + intros (_ & ? & HL & _). by rewrite HL.
  - eapply wp_mono; [by apply wp_reserve_credits|]. intros [b|e] w'.
    + intros (? & Hf & k & _ & HL). split; [done|]. eapply covered_some; [done|].
      intros l' Hl'. eapply covered_reserve; [done| |done|done]. apply Hq.
    + intros (? & HL & _). by rewrite HL.
  - eapply wp_mono; [by apply wp_release_reservation|]. intros [b|e] w'.
    + intros (? & HL & _). split; [done|]. eapply covered_some; [done|].
      intros. by eapply covered_release.
    + by intros [-> _].
  - eapply wp_mono; [by apply wp_charge_credits|]. intros [b|e] w'; [|by intros [-> _]].
    intros (? & k & _ & HL & _). split; [done|]. eapply covered_some; [done|].
    intros. by eapply covered_charge.
  - eapply wp_mono; [by apply wp_charge_from_reservation|]. intros [b|e] w'.
    + intros (? & HL & _). split; [done|]. eapply covered_some; [done|].
      intros. by eapply covered_settle.
    + intros (? & HL & _). split; [done|]. rewrite HL. by apply covered_drop.
  - eapply wp_mono; [by apply wp_cleanup_expired|].
    intros r w' (ids & _ & _ & ? & _ & HL). split; [done|]. rewrite HL.
    by apply covered_release_all.
Qed.

Lemma serve_all_covered qs w :
  Forall request_ok qs -> cr_ok (db w) -> covered (ledger (db w)) ->
  let w' := foldl (fun w q => serve q w) w qs in
  cr_ok (db w') /\ covered (ledger (db w')).
Proof.
  intros Hqs. revert w. induction Hqs as [|q qs Hq Hqs IH]; intros w Hok Hcov; [done|].
  simpl. apply IH; by apply serve_covered.
Qed.
End Manager.
