(* ===== verification/CreditRepoFacts.v ===== *)
(** * Billing: the SQL repository satisfies the repository interface

    The invariant of the credit tables, the ledger they stand for, and the instance
    of [CreditRepositoryLaws]. *)

From Stdlib Require Import ZArith.
From stdpp Require Import base gmap strings list numbers.
From S2P Require Import Prelude.
From S2P Require Import Float64.
From S2P Require Import Decimal.
From S2P Require Import BillingTypes.
From S2P Require Import BillingWorld.
From S2P Require Import Credits.
From S2P Require Import CreditRepo.
From S2P Require Import Ledger.
From S2P Require Import CreditManagerFacts.
Local Open Scope Z_scope.

(** ** The invariant of the tables *)

(** A [NUMERIC(20, 8)] value that is a whole number of micro-credits. *)
Definition micro_numeric (z : Z) : Prop := (100 | z) /\ Z.abs z < 10 ^ 20.

Definition credits_row_ok (r : credits_row) : Prop :=
  micro_numeric (c_balance r) /\ 0 <= c_balance r /\
  micro_numeric (c_reserved r) /\ 0 <= c_reserved r /\
  micro_numeric (c_lifetime_spent r).

Definition reservation_row_ok (r : reservation_row) : Prop :=
  micro_numeric (rr_amount r) /\ (rr_status r = "active" -> rr_released_at r = None).

Definition credit_tables_ok (d : Db) : Prop :=
  (forall k r, credits d !! k = Some r -> credits_row_ok r /\ user_exists k d = true) /\
  (forall id r, reservations d !! id = Some r ->
     reservation_row_ok r /\ is_Some (credits d !! rr_user_id r)).

(** ** The ledger of the tables *)

Definition row_acct (r : credits_row) : acct := {|
  a_balance := c_balance r / 100;
  a_reserved := c_reserved r / 100;
  a_spent := c_lifetime_spent r / 100 |}.

Definition row_hold (r : reservation_row) : stored_hold := {|
  sh_hold := {| h_user := rr_user_id r; h_amount := rr_amount r / 100 |};
  sh_live := negb (row_released r) |}.

Definition resolve `{UuidText} (d : Db) (u : UserId) : option uuid :=
  match uuid_parse_str u with Some k => Some k | None => users d !! u end.

(** Opening an account fails for an identifier that names no user, for a name that is
    too long, or when the generated identifier of a new user is already taken. *)
Definition sql_refuses `{UuidText} (env : Env) (d : Db) (u : UserId) : Prop :=
  match uuid_parse_str u with
  | Some k => user_exists k d = false
  | None => varchar 255 u = None \/ exists n, user_exists (random_uuid env n) d = true
  end.

Section Numeric.
Context `{DecimalLaws}.

Lemma numeric_of_credit c :
  wf_credit c ->
  numeric_of_dec 20 8 (as_decimal c) =
    (if Z.abs (micros c) <? amount_bound then Some (micros c * 100) else None).
Proof.
  intros W. unfold numeric_of_dec. rewrite (wf_num c W).
  replace (micros c * micro) with (micros c * 100 * 10 ^ (28 - 8)) by (unfold micro; lia).
  rewrite round_half_away_exact by done.
  replace (Z.abs (micros c * 100) <? 10 ^ 20) with (Z.abs (micros c) <? amount_bound); [done|].
  unfold amount_bound. destruct (Z.abs (micros c) <? 10 ^ 18) eqn:E; b2p; symmetry;
    [apply Z.ltb_lt|apply Z.ltb_ge]; lia.
Qed.

Lemma numeric_back z :
  micro_numeric z ->
  wf_credit (CreditBalance_from_decimal (dec_of_numeric 8 z)) /\
  micros (CreditBalance_from_decimal (dec_of_numeric 8 z)) = z / 100.
Proof.
  intros [[q ->] Hz]. rewrite Z.div_mul by done.
  assert (E : dec_num (dec_of_numeric 8 (q * 100)) = q * micro).
  { rewrite dec_num_of_numeric by (lia || done). unfold micro. lia. }
  split; [|by apply from_decimal_micros].
  apply (wf_from_micros _ q E). unfold credit_bound. lia.
Qed.

Lemma micro_numeric_of z : Z.abs z < amount_bound -> micro_numeric (z * 100).
Proof. intros Hz. split; [by exists z|]. unfold amount_bound in Hz. lia. Qed.

Lemma micro_numeric_bound z : micro_numeric z -> Z.abs (z / 100) < amount_bound.
Proof. intros [[q ->] Hz]. rewrite Z.div_mul by done. unfold amount_bound. lia. Qed.

Lemma row_acct_storable r : credits_row_ok r -> storable (row_acct r).
Proof.
  intros (M1 & P1 & M2 & P2 & M3). apply micro_numeric_bound in M1, M2, M3.
  pose proof (Z.div_pos (c_balance r) 100 P1 ltac:(lia)).
  pose proof (Z.div_pos (c_reserved r) 100 P2 ltac:(lia)).
  repeat split; simpl; lia.
Qed.

(** Writing an account: exactly the storable ones are accepted. *)
Lemma make_credits_row_spec (b r s : CreditBalance) t :
  wf_credit b -> wf_credit r -> wf_credit s ->
  let a := {| a_balance := micros b; a_reserved := micros r; a_spent := micros s |} in
  match make_credits_row (as_decimal b) (as_decimal r) (as_decimal s) t with
  | Some row => storable a /\ credits_row_ok row /\ row_acct row = a
  | None => ~ storable a
  end.
Proof.
  intros Wb Wr Ws. unfold make_credits_row. rewrite !numeric_of_credit by done.
  unfold storable, credits_row_ok, row_acct; simpl.
  destruct (Z.abs (micros b) <? amount_bound) eqn:?; simpl; b2p; [|lia].
  destruct (Z.abs (micros r) <? amount_bound) eqn:?; simpl; b2p; [|lia].
  destruct (Z.abs (micros s) <? amount_bound) eqn:?; simpl; b2p; [|lia].
  destruct ((0 <=? micros b * 100) && (0 <=? micros r * 100)) eqn:Hc; simpl; b2p.
  - rewrite !Z.div_mul by done. split; [lia|]. split; [|done].
    split; [by apply micro_numeric_of|]. split; [lia|]. split; [by apply micro_numeric_of|].
    split; [lia|]. by apply micro_numeric_of.
  - apply andb_false_iff in Hc as [Hc|Hc]; b2p; lia.
Qed.
End Numeric.

Lemma user_exists_insert u k d k' :
  users d !! u = None -> user_exists k' d = true ->
  user_exists k' (set_users (<[u := k]> (users d)) d) = true.
Proof.
  unfold user_exists. rewrite !bool_decide_eq_true. intros Hu (i & v & Hi & <-). simpl.
  exists i, v. split; [|done]. rewrite lookup_insert_ne; [done|]. congruence.
Qed.

Lemma user_exists_new u k d : user_exists k (set_users (<[u := k]> (users d)) d) = true.
Proof.
  unfold user_exists. rewrite bool_decide_eq_true. exists u, k. simpl.
  by rewrite lookup_insert_eq.
Qed.

(** The invariant under the three kinds of writes. *)

Lemma tables_put_credits d k row :
  credit_tables_ok d -> credits_row_ok row -> user_exists k d = true ->
  credit_tables_ok (set_credits (<[k := row]> (credits d)) d).
Proof.
  intros [Hc Hr] Hrow Hu. split; simpl.
  - intros k' r'. destruct (decide (k = k')) as [<-|]; intros; simplify_map_eq; [done|].
    by apply Hc.
  - intros id r' Hid. destruct (Hr id r' Hid) as [? [r'' Hr'']]. split; [done|].
    destruct (decide (k = rr_user_id r')) as [<-|]; simplify_map_eq; eauto.
Qed.

Lemma tables_add_user d u k :
  credit_tables_ok d -> users d !! u = None ->
  credit_tables_ok (set_users (<[u := k]> (users d)) d).
Proof.
  intros [Hc Hr] Hu. split; [|done]. intros k' r' Hk'. destruct (Hc k' r' Hk') as [? ?].
  split; [done|]. by apply user_exists_insert.
Qed.

Lemma tables_put_reservation d id row :
  credit_tables_ok d -> reservation_row_ok row -> is_Some (credits d !! rr_user_id row) ->
  credit_tables_ok (set_reservations (<[id := row]> (reservations d)) d).
Proof.
  intros [Hc Hr] Hrow Hu. split; [done|]. simpl. intros id' r'.
  destruct (decide (id = id')) as [<-|]; intros; simplify_map_eq; [done|]. by apply (Hr id').
Qed.

Section Repository.
Context `{DecimalLaws} `{UuidTextLaws}.
Context (env : Env) (Hff : fault_free env).

Lemma wp_resolve w u (Q : _ -> _ -> Prop) :
  (forall w', db w' = db w -> Q (Ok (resolve (db w) u)) w') ->
  wp (resolve_user_uuid u) env w Q.
Proof.
  intros HQ. unfold resolve_user_uuid, resolve in *. unfold UserId_as_uuid.
  destruct (uuid_parse_str u); [by wp_step; apply HQ|].
  apply wp_sql; [done|]. intros w'. simpl. auto.
Qed.

Lemma wp_require w u k (Q : _ -> _ -> Prop) :
  resolve (db w) u = Some k -> (forall w', db w' = db w -> Q (Ok k) w') ->
  wp (require_user_uuid u) env w Q.
Proof.
  intros E HQ. unfold require_user_uuid. wp_step. apply wp_resolve. intros w' D.
  rewrite E. wp_steps. auto.
Qed.

Lemma resolve_uuid d k : resolve d (uuid_to_string k) = Some k.
Proof. unfold resolve. by rewrite uuid_roundtrip. Qed.

Lemma represents_row k r :
  credits_row_ok r -> represents k (row_acct r) (account_of_row k r).
Proof.
  intros (M1 & _ & M2 & _ & M3). unfold represents; simpl.
  destruct (numeric_back _ M1), (numeric_back _ M2), (numeric_back _ M3). done.
Qed.

Lemma wp_sql_get_account w u :
  credit_tables_ok (db w) ->
  wp (SqlCreditRepository_get_account u) env w (fun r w' => db w' = db w /\ exists o, r = Ok o /\
    match resolve (db w) u ≫= (fun k => (fun a => (k, a)) <$> (row_acct <$> credits (db w)) !! k) with
    | None => o = None
    | Some (k, a) => exists c, o = Some c /\ represents k a c
    end).
Proof.
  intros [Hc _]. unfold SqlCreditRepository_get_account. wp_step. apply wp_resolve.
  intros w1 D1. destruct (resolve (db w) u) as [k|]; simpl; [|wp_steps; eauto].
  wp_step. apply wp_sql; [done|]. intros w2. simpl. intros D2. wp_steps.
  split; [congruence|]. eexists; split; [done|]. rewrite lookup_fmap, D1.
  destruct (credits (db w) !! k) as [r|] eqn:E; simpl; [|done].
  eexists; split; [done|]. apply represents_row. by apply (Hc k).
Qed.

Lemma wp_ensure w u (Q : _ -> _ -> Prop) :
  (forall k w', db w' = db w -> resolve (db w) u = Some k -> Q (Ok k) w') ->
  (forall k w', users (db w) !! u = None -> resolve (db w) u = None ->
     db w' = set_users (<[u := k]> (users (db w))) (db w) ->
     user_exists k (db w) = false -> uuid_parse_str u = None -> Q (Ok k) w') ->
  (forall w', db w' = db w -> sql_refuses env (db w) u ->
     Q (Err (DatabaseError "ensure_user_uuid")) w') ->
  wp (ensure_user_uuid u) env w Q.
Proof.
  intros HQ1 HQ2 HE. unfold ensure_user_uuid, UserId_as_uuid, resolve, sql_refuses in *.
  destruct (uuid_parse_str u) eqn:Ep; [wp_step; auto|].
  wp_steps. rename select (db _ = db w) into D. apply wp_sql; [done|]. intros w2.
  rewrite D. destruct (varchar 255 u) as [u'|] eqn:Ev; simpl; [|auto].
  apply varchar_Some in Ev as [-> _].
  destruct (users (db w) !! u) eqn:Eu; [auto|].
  destruct (user_exists (random_uuid env (drawn w)) (db w)) eqn:Ex; eauto.
Qed.

Lemma wp_sql_create_account w c :
  credit_tables_ok (db w) ->
  micros (acct_balance c) = 0 -> micros (acct_reserved c) = 0 ->
  micros (acct_lifetime_spent c) = 0 -> wf_credit (acct_balance c) ->
  wf_credit (acct_reserved c) -> wf_credit (acct_lifetime_spent c) ->
  (forall k, resolve (db w) (acct_user_id c) = Some k -> credits (db w) !! k = None) ->
  wp (SqlCreditRepository_create_account c) env w (fun r w' =>
    match r with
    | Ok _ => credit_tables_ok (db w') /\ reservations (db w') = reservations (db w) /\
        exists k row, resolve (db w') (acct_user_id c) = Some k /\ credits (db w) !! k = None /\
          row_acct row = acct_zero /\ credits (db w') = <[k := row]> (credits (db w))
    | Err e => is_db_error e /\ sql_refuses env (db w) (acct_user_id c) /\ db w' = db w
    end).
Proof.
  intros Hok E1 E2 E3 W1 W2 W3 Hnone. unfold SqlCreditRepository_create_account.
  pose proof (make_credits_row_spec _ _ _ (acct_last_updated c) W1 W2 W3) as Hrow.
  rewrite E1, E2, E3 in Hrow. simpl in Hrow.
  destruct (make_credits_row _ _ _ _) as [row|]; [|exfalso; by apply Hrow].
  destruct Hrow as (_ & Hrow & Eacct). wp_step. apply wp_ensure.
  - intros k w1 D1 Ek. apply wp_sql; [done|]. intros w2. rewrite D1. simpl.
    rewrite (Hnone k Ek). destruct (user_exists k (db w)) eqn:Ex.
    + intros ->. split; [by apply tables_put_credits|]. split; [done|].
      exists k, row. split; [done|]. split; [by apply Hnone|done].
    + intros D3. split; [by eexists|]. split; [|done]. unfold sql_refuses, resolve in *.
      destruct (uuid_parse_str _); [by simplify_eq|]. exfalso.
      apply not_true_iff_false in Ex. apply Ex. unfold user_exists.
      rewrite bool_decide_eq_true. by exists (acct_user_id c), k.
  - intros k w1 Eu Er D1 Ex Ep. apply wp_sql; [done|]. intros w2. rewrite D1. simpl.
    destruct (credits (db w) !! k) as [r0|] eqn:Ek.
    { exfalso. destruct (proj1 Hok k r0 Ek) as [_ Ht]. congruence. }
    rewrite user_exists_new. intros ->. split; [|split; [done|]].
    + apply (tables_put_credits (set_users _ _)); [by apply tables_add_user|done|].
      apply user_exists_new.
    + exists k, row. unfold resolve; simpl. by rewrite Ep, lookup_insert_eq.
  - intros w1 D1 Href. split; [by eexists|done].
Qed.

Lemma wp_sql_update_account w k a a0 c :
  credit_tables_ok (db w) -> represents k a c -> (row_acct <$> credits (db w)) !! k = Some a0 ->
  wp (SqlCreditRepository_update_account c) env w (fun r w' =>
    match r with
    | Ok _ => credit_tables_ok (db w') /\ (forall u, resolve (db w') u = resolve (db w) u) /\
        row_acct <$> credits (db w') = <[k := a]> (row_acct <$> credits (db w)) /\
        reservations (db w') = reservations (db w)
    | Err e => is_db_error e /\ ~ storable a /\ db w' = db w
    end).
Proof.
  intros Hok (Eu & W1 & E1 & W2 & E2 & W3 & E3) Ek. rewrite lookup_fmap in Ek.
  apply fmap_Some in Ek as (r0 & Ek & ->). unfold SqlCreditRepository_update_account. wp_step.
  apply (wp_require w _ k); [by rewrite Eu, resolve_uuid|]. intros w1 D1. wp_step.
  wp_step. wp_step. rename select (DateTime) into t. rename select (db _ = db w1) into D2.
  apply wp_sql; [done|]. intros w3. rewrite D2, D1, Ek.
  pose proof (make_credits_row_spec _ _ _ t W1 W2 W3) as Hrow. rewrite E1, E2, E3 in Hrow.
  simpl in Hrow. replace {| a_balance := _; a_reserved := _; a_spent := _ |} with a in Hrow
    by (by destruct a).
  destruct (make_credits_row _ _ _ _) as [row|]; simpl; [
    |intros D3; rewrite D3; split; [by eexists|done]].
  destruct Hrow as (_ & Hrow & Eacct). intros D3. wp_steps. rewrite D3. split; [|split; [done|]].
  - apply tables_put_credits; [done..|]. by apply (proj1 Hok k r0).
  - simpl. by rewrite fmap_insert, Eacct.
Qed.

Lemma wp_sql_create_reservation w k a r :
  credit_tables_ok (db w) -> wf_credit (res_amount r) ->
  resolve (db w) (res_user_id r) = Some k -> (row_acct <$> credits (db w)) !! k = Some a ->
  Z.abs (micros (res_amount r)) < amount_bound -> res_released r = false ->
  wp (SqlCreditRepository_create_reservation r) env w (fun res w' =>
    match res with
    | Ok _ => credit_tables_ok (db w') /\ (forall u, resolve (db w') u = resolve (db w) u) /\
        credits (db w') = credits (db w) /\ reservations (db w) !! res_id r = None /\
        row_hold <$> reservations (db w') =
          <[res_id r := {| sh_hold := {| h_user := k; h_amount := micros (res_amount r) |};
                           sh_live := true |}]> (row_hold <$> reservations (db w))
    | Err e => is_db_error e /\ is_Some (reservations (db w) !! res_id r) /\ db w' = db w
    end).
Proof.
  intros Hok W Ek Ea Hb Hrel. rewrite lookup_fmap in Ea. apply fmap_Some in Ea as (r0 & Ea & ->).
  unfold SqlCreditRepository_create_reservation. wp_step. apply (wp_require w _ k); [done|].
  intros w1 D1. apply wp_sql; [done|]. intros w2. unfold insert_reservation.
  rewrite numeric_of_credit by done. rewrite (proj2 (Z.ltb_lt _ _) Hb), D1. simpl.
  destruct (reservations (db w) !! res_id r) eqn:Eid;
    [intros D3; split; [by eexists|]; split; [by eexists|done]|].
  rewrite (proj2 (proj1 Hok k r0 Ea)).
  intros ->. rewrite Hrel. split; [|split; [done|]; split; [done|]; split; [done|]].
  - apply tables_put_reservation; [done| |by eexists].
    split; [by apply micro_numeric_of|done].
  - simpl. rewrite fmap_insert. do 2 f_equal. unfold row_hold; simpl. by rewrite Z.div_mul.
Qed.

(** Reading a reservation back. *)
Lemma reservation_of_row_spec released id r :
  reservation_row_ok r ->
  let rv := reservation_of_row released id r in
  let s := row_hold r in
  res_id rv = id /\ res_user_id rv = uuid_to_string (h_user (sh_hold s)) /\
  wf_credit (res_amount rv) /\ micros (res_amount rv) = h_amount (sh_hold s).
Proof. intros [Hm _]. by destruct (numeric_back _ Hm). Qed.

Lemma wp_sql_get_reservation w id :
  credit_tables_ok (db w) ->
  wp (SqlCreditRepository_get_reservation id) env w (fun r w' => db w' = db w /\ exists o, r = Ok o /\
    match (row_hold <$> reservations (db w)) !! id with
    | None => o = None
    | Some s => exists rv, o = Some rv /\ res_id rv = id /\
        res_user_id rv = uuid_to_string (h_user (sh_hold s)) /\
        wf_credit (res_amount rv) /\ micros (res_amount rv) = h_amount (sh_hold s) /\
        res_released rv = negb (sh_live s)
    end).
Proof.
  intros [_ Hr]. unfold SqlCreditRepository_get_reservation. wp_step.
  apply wp_sql; [done|]. intros w1 D1. wp_steps. split; [done|]. eexists; split; [done|].
  rewrite lookup_fmap. destruct (reservations (db w) !! id) as [r|] eqn:E; simpl; [|done].
  destruct (reservation_of_row_spec row_released id r) as (? & ? & ? & ?);
    [by apply (Hr id)|].
  eexists; split; [done|]. by rewrite negb_involutive.
Qed.

Lemma wp_sql_update_reservation w rv s :
  credit_tables_ok (db w) -> res_released rv = true ->
  (row_hold <$> reservations (db w)) !! res_id rv = Some s ->
  wp (SqlCreditRepository_update_reservation rv) env w (fun r w' => r = Ok tt /\
    credit_tables_ok (db w') /\ (forall u, resolve (db w') u = resolve (db w) u) /\
    credits (db w') = credits (db w) /\
    row_hold <$> reservations (db w') =
      <[res_id rv := {| sh_hold := sh_hold s; sh_live := false |}]>
        (row_hold <$> reservations (db w))).
Proof.
  intros Hok Hrel Hs. rewrite lookup_fmap in Hs. apply fmap_Some in Hs as (row & E & ->).
  unfold SqlCreditRepository_update_reservation. rewrite Hrel. wp_steps.
  rename select (db _ = db w) into D1. apply wp_sql; [done|]. intros w2. rewrite D1, E.
  intros D2. wp_steps. split; [done|]. rewrite D2. split; [|split; [done|split; [done|]]].
  - destruct (proj2 Hok _ _ E) as [[? ?] ?]. apply tables_put_reservation; [done| |done]. done.
  - simpl. by rewrite fmap_insert.
Qed.

Lemma wp_sql_get_expired w n :
  credit_tables_ok (db w) ->
  wp (SqlCreditRepository_get_expired_reservations n) env w (fun r w' =>
    db w' = db w /\ exists l, r = Ok l /\ NoDup (res_id <$> l) /\
    forall rv, rv ∈ l -> exists s, (row_hold <$> reservations (db w)) !! res_id rv = Some s /\
      sh_live s = true /\ res_user_id rv = uuid_to_string (h_user (sh_hold s)) /\
      wf_credit (res_amount rv) /\ micros (res_amount rv) = h_amount (sh_hold s) /\
      res_released rv = false).
Proof.
  intros [_ Hr]. unfold SqlCreditRepository_get_expired_reservations. wp_steps.
  rename select (db _ = db w) into D1. apply wp_sql; [done|]. intros w2 D2. wp_steps.
  rewrite D1 in *. split; [done|]. eexists; split; [done|]. split.
  - rewrite <- list_fmap_compose.
    eapply sublist_NoDup; [|apply fmap_sublist, sublist_take].
    rewrite sort_by_Permutation.
    eapply sublist_NoDup; [|apply fmap_sublist, sublist_filter].
    rewrite (list_fmap_ext _ fst); [apply NoDup_fst_map_to_list|]. by intros ? [].
  - intros rv ([id r] & -> & Hin)%list_elem_of_fmap.
    apply elem_of_take in Hin as (i & Hin%list_elem_of_lookup_2 & _).
    rewrite sort_by_Permutation in Hin. apply list_elem_of_filter in Hin as [[Hst _] Hin].
    apply elem_of_map_to_list in Hin. destruct (Hr id r Hin) as [[Hm Hlive] _].
    exists (row_hold r). cbn [res_id reservation_of_row]. rewrite lookup_fmap, Hin.
    split; [done|]. unfold row_hold, row_released; simpl. unfold row_status_released.
    rewrite Hst, Hlive by done. simpl. destruct (numeric_back _ Hm). done.
Qed.
End Repository.

(** The SQL repository keeps the promises of the repository interface. *)
#[export] Instance SqlCreditRepository_laws `{DecimalLaws} `{UuidTextLaws} : CreditRepositoryLaws.
Proof.
  refine {|
    cr_ok := credit_tables_ok;
    cr_resolve := resolve;
    cr_accts d := row_acct <$> credits d;
    cr_holds d := row_hold <$> reservations d;
    cr_refuses := sql_refuses |}; simpl.
  - intros. apply resolve_uuid.
  - intros d k a [Hc _] (r & <- & Hr)%lookup_fmap_Some. by apply row_acct_storable, (Hc k).
  - intros d id s [_ Hr] (r & <- & E)%lookup_fmap_Some. simpl. rewrite lookup_fmap.
    apply fmap_is_Some. by apply (Hr id).
  - intros. by apply wp_sql_get_account.
  - intros env w c Hff Hok E1 E2 E3 W1 W2 W3 Hnone.
    eapply wp_mono; [apply wp_sql_create_account; try done|].
    + intros k Hk. apply Hnone in Hk. rewrite lookup_fmap in Hk. by apply fmap_None in Hk.
    + intros [[]|e] w'; [|done]. intros (? & E & k & row & ? & Ek & Er & Ec).
      split; [done|]. rewrite E. split; [done|]. exists k.
      rewrite lookup_fmap, Ek, Ec, fmap_insert, Er. done.
  - intros env w k a a0 c Hff Hok Hrep Ha.
    eapply wp_mono; [by eapply wp_sql_update_account|].
    intros [[]|e] w'; [|done]. intros (? & ? & ? & E). by rewrite E.
  - intros env w k a r Hff Hok W Ek Ea Hb Hrel.
    eapply wp_mono; [by eapply wp_sql_create_reservation|].
    intros [[]|e] w'; rewrite lookup_fmap, ?fmap_is_Some; [|done].
    intros (? & ? & E & En & ?). by rewrite E, En.
  - intros. by apply wp_sql_get_reservation.
  - intros. by apply wp_sql_get_expired.
  - intros env w rv s Hff Hok Hrel Hs.
    eapply wp_mono; [by eapply wp_sql_update_reservation|].
    intros r w' (? & ? & ? & E & ?). by rewrite E.
Defined.

(** ** The compound statements of the repository *)

Section Compound.
Context `{DecimalLaws} `{UuidTextLaws}.
Context (env : Env).

(** The same reads without assuming that statements reach the database. *)
Lemma wp_resolve_any w u (Q : _ -> _ -> Prop) :
  (forall e w', db w' = db w -> ~ fault_free env -> Q (Err e) w') ->
  (forall w', db w' = db w -> Q (Ok (resolve (db w) u)) w') ->
  wp (resolve_user_uuid u) env w Q.
Proof.
  intros HE HQ. unfold resolve_user_uuid, resolve, UserId_as_uuid in *.
  destruct (uuid_parse_str u); [by wp_step; apply HQ|].
  apply wp_sql_any; [|intros a d w' [= <- <-] D; auto].
  intros w' D Hn. apply HE; [done|]. intros Hff. by specialize (Hn Hff).
Qed.

Lemma wp_account_any w u (Q : _ -> _ -> Prop) :
  (forall e w', db w' = db w -> ~ fault_free env -> Q (Err e) w') ->
  (forall w', db w' = db w -> cr_account (db w) u = None -> Q (Ok None) w') ->
  (forall k row w', db w' = db w -> resolve (db w) u = Some k -> credits (db w) !! k = Some row ->
     cr_account (db w) u = Some (k, row_acct row) -> Q (Ok (Some (account_of_row k row))) w') ->
  wp (SqlCreditRepository_get_account u) env w Q.
Proof.
  intros HE HN HS. unfold SqlCreditRepository_get_account. wp_step.
  apply wp_resolve_any; [auto|]. intros w1 D1. unfold cr_account in HN, HS; simpl in HN, HS.
  destruct (resolve (db w) u) as [k|]; simpl in *; [|wp_steps; auto]. wp_step.
  apply wp_sql_any.
  { intros w' D Hn. apply HE; [congruence|]. intros Hff. by specialize (Hn Hff). }
  intros a d w2 [= <- <-] D2. wp_steps. rewrite D1 in *. rewrite lookup_fmap in HN.
  destruct (credits (db w) !! k) as [row|] eqn:E; simpl in *; [|by apply HN].
  apply HS; [done..|]. by rewrite lookup_fmap, E.
Qed.

Lemma wp_require_any w u (Q : _ -> _ -> Prop) :
  (forall e w', db w' = db w -> (fault_free env -> resolve (db w) u = None) -> Q (Err e) w') ->
  (forall k w', db w' = db w -> resolve (db w) u = Some k -> Q (Ok k) w') ->
  wp (require_user_uuid u) env w Q.
Proof.
  intros HE HQ. unfold require_user_uuid. wp_step. apply wp_resolve_any; [naive_solver|].
  intros w1 D1. destruct (resolve (db w) u) eqn:E; wp_steps; auto.
Qed.
End Compound.

(** ** Reserving in one transaction *)

Section ReserveTransaction.
Context `{DecimalLaws} `{UuidTextLaws}.

Lemma available_of_row k row :
  credits_row_ok row ->
  wf_credit (CreditAccount_available_balance (account_of_row k row)) /\
  micros (CreditAccount_available_balance (account_of_row k row)) =
    Z.max 0 (a_balance (row_acct row) - a_reserved (row_acct row)).
Proof.
  intros Hrow. by eapply represents_available; [apply represents_row|apply row_acct_storable].
Qed.

(** Adding whole micro-credits to the reserved column. *)
Lemma reserve_row_spec row z t :
  credits_row_ok row -> 0 <= z -> z <= Z.max 0 (a_balance (row_acct row) - a_reserved (row_acct row)) ->
  exists row', check_credits_row {|
      c_balance := c_balance row; c_reserved := c_reserved row + z * 100;
      c_lifetime_spent := c_lifetime_spent row; c_updated_at := t |} = Some row' /\
    credits_row_ok row' /\ row_acct row' = {|
      a_balance := a_balance (row_acct row); a_reserved := a_reserved (row_acct row) + z;
      a_spent := a_spent (row_acct row) |}.
Proof.
  intros ([[b Eb] B1] & P1 & [[r Er] B2] & P2 & M3) Hz Hle. unfold row_acct in *; simpl in *.
  rewrite Eb, Er in *. rewrite !Z.div_mul in * by done. unfold check_credits_row; simpl.
  destruct M3 as [D3 B3].
  rewrite !(proj2 (Z.leb_le _ _)), !(proj2 (Z.ltb_lt _ _)) by (unfold amount_bound in *; lia).
  eexists; split; [done|]. split.
  - repeat split; simpl; try done; try lia; [by exists b|]. exists (r + z). lia.
  - simpl. rewrite Z.div_mul by done. f_equal.
    replace (r * 100 + z * 100) with ((r + z) * 100) by lia. by rewrite Z.div_mul.
Qed.

(** The row a reservation is stored as. *)
Definition stored_row (r : Reservation) (k : uuid) (status : string) : reservation_row := {|
  rr_user_id := k;
  rr_rental_id := res_rental_id r;
  rr_amount := micros (res_amount r) * 100;
  rr_status := status;
  rr_reserved_at := res_created_at r;
  rr_expires_at := res_expires_at r;
  rr_released_at := None |}.

Lemma insert_reservation_spec r k status d :
  wf_credit (res_amount r) -> Z.abs (micros (res_amount r)) < amount_bound ->
  user_exists k d = true ->
  insert_reservation r k status d =
    match reservations d !! res_id r with
    | Some _ => None
    | None => Some (tt, set_reservations (<[res_id r := stored_row r k status]> (reservations d)) d)
    end.
Proof.
  intros W Hb Hu. unfold insert_reservation. rewrite numeric_of_credit by done.
  rewrite (proj2 (Z.ltb_lt _ _) Hb), Hu. simpl. by case_match.
Qed.

Lemma wp_reserve_statements env w k row rv amount :
  credit_tables_ok (db w) -> credits (db w) !! k = Some row -> amount_ok amount ->
  micros amount <= available (ledger (db w)) k -> res_amount rv = amount ->
  wp (reserve_statements rv k amount) env w (fun r w' =>
    match r with
    | Ok _ => credit_tables_ok (db w') /\
        spec_reserve k (micros amount) (res_id rv) (ledger (db w)) = Some (ledger (db w'))
    | Err _ => fault_free env -> is_Some (reservations (db w) !! res_id rv)
    end).
Proof.
  intros Hok Erow [Wam Bam] Hav Era. destruct (proj1 Hok k row Erow) as [Hrow Huser].
  assert (Eacc : account (ledger (db w)) k = row_acct row)
    by (apply ledger_account; simpl; by rewrite lookup_fmap, Erow).
  assert (Hle : micros amount <= Z.max 0 (a_balance (row_acct row) - a_reserved (row_acct row)))
    by (unfold available in Hav; by rewrite Eacc in Hav).
  assert (Hb : Z.abs (micros amount) < amount_bound)
    by (destruct (row_acct_storable row Hrow) as (? & ? & _); lia).
  unfold reserve_statements. wp_step.
  assert (Hins := insert_reservation_spec rv k "active" (db w)).
  rewrite Era in Hins. specialize (Hins Wam Hb Huser).
  apply wp_sql_any; rewrite Hins; destruct (reservations (db w) !! res_id rv) eqn:Efresh; try done.
  { intros w1 _ Hn Hff. by specialize (Hn Hff). }
  intros [] d w1 [= <-] D1. wp_step. wp_step. rename select (db _ = db w1) into D2.
  rename select DateTime into t. rewrite D1 in D2.
  destruct (reserve_row_spec row (micros amount) t Hrow) as (row' & Echk & Hrow' & Eacct');
    [lia..|].
  assert (Hamt : numeric_of_dec 20 8 (as_decimal amount) = Some (micros amount * 100))
    by (by rewrite numeric_of_credit, (proj2 (Z.ltb_lt _ _) Hb)).
  apply wp_sql_any; rewrite D2; simpl; rewrite Erow, Hamt; simpl; rewrite Echk; simpl.
  { intros w3 _ Hn Hff. by specialize (Hn Hff). }
  intros [] d w3 [= <-] D3. rewrite D3. set (d1 := set_reservations _ (db w)).
  assert (Hok1 : credit_tables_ok d1).
  { apply tables_put_reservation; [done| |by eexists].
    split; [simpl; rewrite Era; by apply micro_numeric_of|done]. }
  split; [by apply (tables_put_credits d1)|].
  unfold spec_reserve. rewrite (proj2 (Z.leb_le _ _)), Eacc by done.
  f_equal. unfold ledger; simpl. rewrite !fmap_insert, Eacct'. f_equal.
  rewrite omap_insert. unfold row_hold; simpl. by rewrite Era, Z.div_mul.
Qed.

Lemma wp_sql_reserve env w u amount rid :
  credit_tables_ok (db w) -> amount_ok amount ->
  wp (SqlCreditRepository_reserve_credits u amount rid) env w (fun r w' =>
    match r with
    | Ok rv => credit_tables_ok (db w') /\ res_amount rv = amount /\
        exists k, resolve (db w) u = Some k /\
          spec_reserve k (micros amount) (res_id rv) (ledger (db w)) = Some (ledger (db w'))
    | Err e => db w' = db w /\
        (fault_free env ->
          match cr_account (db w) u with
          | None => True
          | Some (k, a) => available (ledger (db w)) k < micros amount \/
              exists n, is_Some (reservations (db w) !! random_uuid env n)
          end)
    end).
Proof.
  intros Hok [Wam Bam]. unfold SqlCreditRepository_reserve_credits. wp_step.
  apply wp_account_any; [by auto| |].
  { intros w1 D1 En. wp_steps. rewrite En. done. }
  intros k row w1 D1 Ek Erow Eacc. wp_steps. rewrite Eacc.
  destruct (proj1 Hok k row Erow) as [Hrow Huser].
  destruct (available_of_row k row Hrow) as [Wav Eav].
  assert (Hav : available (ledger (db w)) k = Z.max 0 (a_balance (row_acct row) - a_reserved (row_acct row))).
  { unfold available. rewrite (ledger_account _ k (row_acct row)); [done|].
    simpl. by rewrite lookup_fmap, Erow. }
  rewrite ltb_micros, Eav by done.
  destruct (_ <? micros amount) eqn:Hlt; b2p; [wp_steps; split; [done|]; intros; left; lia|].
  wp_step. rewrite <- D1 in Ek. apply wp_require_any.
  { intros e w2 D2 Hn. split; [congruence|]. intros Hff. specialize (Hn Hff). congruence. }
  intros k' w2 D2 Ek'. rewrite Ek in Ek'. injection Ek' as <-. wp_step. apply wp_Reservation_new.
  intros rv w3 D3 [n Erid] Eru Era Erl. rewrite D2, D1 in *. wp_step.
  apply wp_transaction_any; [intros e w4 D4 Hnf; split; [congruence|done]|].
  intros w4 D4. assert (D : db w4 = db w) by congruence.
  eapply wp_mono; [eapply (wp_reserve_statements env w4 k row); rewrite ?D; try done; lia|].
  intros [[]|e] w5; rewrite D.
  - intros [Hok5 HL] w6 D6. wp_steps. rewrite D6. split; [done|]. split; [done|]. by exists k.
  - intros Hid w6 D6. split; [congruence|]. intros Hff. right. exists n. rewrite <- Erid. auto.
Qed.
End ReserveTransaction.

(** ** Deducting and recording *)

Section Deduct.
Context `{DecimalLaws} `{UuidTextLaws}.

(** Moving whole micro-credits from the balance to the spent column. *)
Lemma deduct_row_spec row z t :
  credits_row_ok row -> 0 <= z <= a_balance (row_acct row) ->
  let a := {| a_balance := a_balance (row_acct row) - z; a_reserved := a_reserved (row_acct row);
              a_spent := a_spent (row_acct row) + z |} in
  match check_credits_row {|
      c_balance := c_balance row - z * 100; c_reserved := c_reserved row;
      c_lifetime_spent := c_lifetime_spent row + z * 100; c_updated_at := t |} with
  | Some row' => credits_row_ok row' /\ row_acct row' = a
  | None => ~ storable a
  end.
Proof.
  intros ([[b Eb] B1] & P1 & [[r Er] B2] & P2 & [[l El] B3]) Hz. unfold row_acct in *; simpl in *.
  rewrite Eb, Er, El in *. rewrite !Z.div_mul in * by done. unfold check_credits_row; simpl.
  rewrite !(proj2 (Z.leb_le _ _)) by lia. simpl.
  rewrite !(proj2 (Z.ltb_lt (Z.abs (b * 100 - _)) _)) by lia.
  rewrite !(proj2 (Z.ltb_lt (Z.abs (r * 100)) _)) by lia. simpl.
  replace (b * 100 - z * 100) with ((b - z) * 100) by lia.
  replace (l * 100 + z * 100) with ((l + z) * 100) by lia.
  unfold storable, amount_bound; simpl.
  destruct (_ <? _) eqn:Hl; b2p; [|lia]. simpl. rewrite !Z.div_mul by done. split; [|done].
  repeat split; simpl; try lia; by eexists.
Qed.

Lemma charge_of_row d k row z :
  credits d !! k = Some row ->
  spec_charge k z (ledger d) =
    if z <=? a_balance (row_acct row) then
      Some (put_account k {| a_balance := a_balance (row_acct row) - z;
                             a_reserved := a_reserved (row_acct row);
                             a_spent := a_spent (row_acct row) + z |} (ledger d))
    else None.
Proof.
  intros E. unfold spec_charge.
  by rewrite (ledger_account _ k (row_acct row)) by (simpl; by rewrite lookup_fmap, E).
Qed.

(** The event [deduct_credits] records. *)
Definition is_deduction_event (k : uuid) (u : UserId) (amount : CreditBalance)
    (e : billing_event_row) : Prop :=
  be_event_type e = "credit_deduction" /\ be_entity_id e = u /\ be_user_id e = Some k /\
  be_event_data e = JObject [("amount", JString (CreditBalance_to_string amount))].

(** The event cannot be written: its identifier is taken or the name too long. *)
Definition cannot_record (env : Env) (u : UserId) (d : Db) : Prop :=
  (exists n, is_Some (billing_events d !! random_uuid env n)) \/ varchar 255 u = None.

Lemma wp_record_deduction env w k u amount (Q : _ -> _ -> Prop) :
  user_exists k (db w) = true ->
  (forall w', db w' = db w ->
     (fault_free env -> cannot_record env u (db w)) ->
     Q (Err (DatabaseError "record_credit_deduction")) w') ->
  (forall id e w', billing_events (db w) !! id = None ->
     db w' = set_billing_events (<[id := e]> (billing_events (db w))) (db w) ->
     is_deduction_event k u amount e -> Q (Ok tt) w') ->
  wp (record_credit_deduction u k amount) env w Q.
Proof.
  intros Hu HE HQ. unfold record_credit_deduction. wp_steps.
  match goal with E : db ?w1 = db ?w2, E' : db ?w2 = db w |- _ => rewrite E' in E; rename E into D end.
  destruct (varchar 255 u) as [u'|] eqn:Ev; simpl;
    [|apply wp_sql_any; [|done]; intros w3 D3 _; apply HE; [congruence|by right]].
  apply varchar_Some in Ev as [-> _].
  apply wp_sql_any; rewrite D, Hu; destruct (billing_events (db w) !! _) eqn:E; try done.
  - intros w3 D3 _. apply HE; [done|]. left. eauto.
  - intros w3 D3 Hn. apply HE; [done|]. intros Hff. by specialize (Hn Hff).
  - intros [] d w3 [= <-] D3. by eapply HQ.
Qed.

Lemma deduct_statement_spec d k row amount t :
  credit_tables_ok d -> credits d !! k = Some row -> amount_ok amount ->
  micros amount <= a_balance (row_acct row) ->
  match deduct_statement k amount t d with
  | Some (_, d') => credit_tables_ok d' /\ user_exists k d' = true /\
      billing_events d' = billing_events d /\
      spec_charge k (micros amount) (ledger d) = Some (ledger d')
  | None => exists l', spec_charge k (micros amount) (ledger d) = Some l' /\
      ~ storable (account l' k)
  end.
Proof.
  intros Hok Erow [Wam Bam] Hle. destruct (proj1 Hok k row Erow) as [Hrow Huser].
  pose proof (row_acct_storable row Hrow) as (S1 & _).
  pose proof (deduct_row_spec row (micros amount) t Hrow ltac:(lia)) as Hded.
  rewrite (charge_of_row d k row _ Erow), (proj2 (Z.leb_le _ _) Hle).
  unfold deduct_statement. rewrite Erow, numeric_of_credit, (proj2 (Z.ltb_lt _ _)) by (done || lia).
  simpl. rewrite (proj2 (Z.ltb_ge _ _)).
  2: { destruct Hrow as ([[b Eb] _] & _). unfold row_acct in Hle; simpl in Hle.
       rewrite Eb, Z.div_mul in *; lia. }
  destruct (check_credits_row _) as [row'|]; simpl.
  - destruct Hded as [Hrow' Eacct']. split; [by apply tables_put_credits|]. split; [done|].
    split; [done|]. unfold ledger, put_account; simpl. by rewrite fmap_insert, Eacct'.
  - eexists; split; [done|]. by rewrite account_put.
Qed.

Lemma wp_sql_deduct env w u amount :
  credit_tables_ok (db w) -> amount_ok amount ->
  wp (SqlCreditRepository_deduct_credits u amount) env w (fun r w' =>
    credit_tables_ok (db w') /\
    match r with
    | Ok _ => exists k e id, resolve (db w) u = Some k /\
        spec_charge k (micros amount) (ledger (db w)) = Some (ledger (db w')) /\
        billing_events (db w) !! id = None /\
        billing_events (db w') = <[id := e]> (billing_events (db w)) /\
        is_deduction_event k u amount e
    | Err _ =>
        (db w' = db w \/
         exists k, resolve (db w) u = Some k /\ billing_events (db w') = billing_events (db w) /\
           spec_charge k (micros amount) (ledger (db w)) = Some (ledger (db w'))) /\
        (fault_free env ->
           match cr_account (db w) u with
           | None => True
           | Some (k, _) =>
               match spec_charge k (micros amount) (ledger (db w)) with
               | None => True
               | Some l' => ~ storable (account l' k) \/ cannot_record env u (db w)
               end
           end)
    end).
Proof.
  intros Hok [Wam Bam]. unfold SqlCreditRepository_deduct_credits. wp_step.
  apply wp_account_any.
  { intros e w1 -> Hnf. split; [done|]. split; [by left|]. by intros ?%Hnf. }
  { intros w1 D1 En. wp_steps. rewrite D1, En. auto. }
  intros k row w1 D1 Ek Erow Eacc. wp_steps. rewrite Eacc.
  destruct (proj1 Hok k row Erow) as [Hrow Huser].
  destruct (represents_row k row Hrow) as (_ & W1 & E1 & _). simpl in W1, E1.
  rewrite ltb_micros, E1 by done.
  change (c_balance row / 100) with (a_balance (row_acct row)) in *.
  destruct (_ <? micros amount) eqn:Hlt; b2p.
  { wp_steps. rewrite D1, (charge_of_row (db w) k row _ Erow), (proj2 (Z.leb_gt _ _) Hlt). auto. }
  wp_step. apply wp_require_any.
  { intros e w2 D2 Hn. rewrite D2, D1 in *. split; [done|]. split; [auto|].
    intros Hff. specialize (Hn Hff). congruence. }
  intros k' w2 D2 Ek'. rewrite D1, Ek in Ek'. injection Ek' as <-. wp_step. wp_step.
  rename select DateTime into t. rename select (db _ = db w2) into D3.
  rewrite D2, D1 in D3. wp_step.
  pose proof (deduct_statement_spec (db w) k row amount t Hok Erow (conj Wam Bam) ltac:(lia)) as Hst.
  apply wp_sql_any; rewrite D3.
  { intros w4 -> Hn. split; [done|]. split; [auto|]. intros Hff. rewrite (Hn Hff) in Hst.
    destruct Hst as (l' & -> & Hns). auto. }
  intros [] d w4 Estmt <-. rewrite Estmt in Hst. destruct Hst as (Hok4 & Hu4 & Hev4 & Hch).
  apply wp_record_deduction; [done|..].
  - intros w5 -> Hev. rewrite Hch. split; [done|]. split; [right; by exists k|].
    unfold cannot_record in *. rewrite Hev4 in Hev. auto.
  - intros id e w5 Hid De Hev. rewrite De. split; [done|]. exists k, e, id.
    rewrite Hev4 in *. done.
Qed.
End Deduct.

(** ** Billing: a concrete credit database

    The state the witnesses of the credit properties run in: user alice with 100
    credits, 30 of them held by one live reservation. *)

Export Decimal.Concrete.
Local Open Scope Z_scope.

Module Scenario.
Definition env : Env := {|
  clock n := 1000000 + Z.of_nat n;
  random_uuid n := (100 + N.of_nat n)%N;
  fault _ := false |}.

(** An environment in which the fifth statement does not reach the database. *)
Definition flaky_env : Env := {|
  clock := clock env; random_uuid := random_uuid env; fault n := Nat.eqb n 4 |}.

Definition d0 : Db :=
  set_reservations {[ 7%N := {|
    rr_user_id := 1%N; rr_rental_id := None; rr_amount := 30 * 10 ^ 8; rr_status := "active";
    rr_reserved_at := 0; rr_expires_at := 3600; rr_released_at := None |} ]}
 (set_credits {[ 1%N := {|
    c_balance := 100 * 10 ^ 8; c_reserved := 30 * 10 ^ 8; c_lifetime_spent := 0;
    c_updated_at := 0 |} ]}
 (set_users {[ "alice" := 1%N ]} empty_db)).

Definition w0 : World := {| db := d0; ticks := 0; drawn := 0; statements := 0 |}.

(** [n] credits. *)
Definition credits_of (n : Z) : CreditBalance := {| as_decimal := n * 10 ^ 28 |}.

Lemma env_ok : fault_free env.
Proof. done. Qed.

Lemma tables_ok : credit_tables_ok d0.
Proof.
  split; simpl; intros k r [<- <-]%lookup_singleton_Some.
  - split; [|by vm_compute]. repeat split; simpl; try lia;
      [exists (100 * 10 ^ 6)|exists (30 * 10 ^ 6)|exists 0]; reflexivity.
  - split; [|by eexists]. split; [|done]. by split; [exists (30 * 10 ^ 6)|].
Qed.

Lemma ledger_d0 : ledger d0 = {|
  l_accts := {[ 1%N := {| a_balance := 100 * 10 ^ 6; a_reserved := 30 * 10 ^ 6; a_spent := 0 |} ]};
  l_holds := {[ 7%N := {| h_user := 1%N; h_amount := 30 * 10 ^ 6 |} ]} |}.
Proof. by vm_compute. Qed.

Lemma ledger_covered : covered (ledger d0).
Proof.
  rewrite ledger_d0. split; simpl; [by intros id h [<- <-]%lookup_singleton_Some|].
  intros k. unfold account, held; simpl. rewrite table_sum_singleton. unfold hold_of; simpl.
  destruct (decide (1%N = k)) as [<-|]; simplify_map_eq; simpl; lia.
Qed.

Lemma amount_in_range n : 0 <= n <= 10 ^ 20 -> amount_ok (credits_of n).
Proof.
  intros Hn. assert (E : micros (credits_of n) = n * 10 ^ 6).
  { unfold micros, credits_of, micro; simpl. unfold id.
    replace (n * 10 ^ 28) with (n * 10 ^ 6 * 10 ^ 22) by lia. by apply Z.div_mul. }
  split; [split|]; [|rewrite E; unfold credit_bound; lia|rewrite E; lia].
  exists (n * 10 ^ 6). simpl. unfold id, micro. lia.
Qed.
End Scenario.
