(* ===== verification/CreditClaims.v ===== *)
(** * Billing: the properties of the credit service

    The credit manager running over the SQL repository: refinement of the ledger on
    every path, the coverage invariant, and what each compound repository operation
    does when statements may fail at any point. *)

From Stdlib Require Import ZArith.
From stdpp Require Import base gmap strings list numbers.
From S2P Require Import Prelude Float64 Decimal BillingTypes BillingWorld Credits CreditRepo.
From S2P Require Import Ledger CreditManagerFacts CreditRepoFacts.
Local Open Scope Z_scope.

Section Claims.
Context `{DecimalLaws} `{UuidTextLaws}.

(** The repository's [reserve_credits] is atomic under any pattern of
    lost statements: it either performs exactly the ledger's reservation (the hold
    and the reserved amount together, under a fresh identifier) or leaves the whole
    database as it was; without faults it fails for an existing account only when
    the available balance is too small or the drawn identifier is taken. *)
Theorem sql_reserve_credits_atomic env w u amount rid :
  credit_tables_ok (db w) -> amount_ok amount ->
  wp (SqlCreditRepository_reserve_credits u amount rid) env w (fun r w' =>
    match r with
    | Ok rv => credit_tables_ok (db w') /\ res_amount rv = amount /\
        exists k, resolve (db w) u = Some k /\
          spec_reserve k (micros amount) (res_id rv) (ledger (db w)) = Some (ledger (db w'))
    | Err e => db w' = db w /\
        (fault_free env ->
          match cr_account (db w) u with
          | None => True
          | Some (k, a) => available (ledger (db w)) k < micros amount \/
              exists n, is_Some (reservations (db w) !! random_uuid env n)
          end)
    end).
Proof. apply wp_sql_reserve. Qed.

(** The repository's [deduct_credits] charges the ledger account and records
    one deduction event; on an error either nothing changed or, when the event
    could not be written, the charge alone did; without faults it fails for an
    existing account only when the balance is too small, the lifetime total does
    not fit, or the event identifier is taken or the name too long. *)
Theorem sql_deduct_credits_spec env w u amount :
  credit_tables_ok (db w) -> amount_ok amount ->
  wp (SqlCreditRepository_deduct_credits u amount) env w (fun r w' =>
    credit_tables_ok (db w') /\
    match r with
    | Ok _ => exists k e id, resolve (db w) u = Some k /\
        spec_charge k (micros amount) (ledger (db w)) = Some (ledger (db w')) /\
        billing_events (db w) !! id = None /\
        billing_events (db w') = <[id := e]> (billing_events (db w)) /\
        is_deduction_event k u amount e
    | Err _ =>
        (db w' = db w \/
         exists k, resolve (db w) u = Some k /\ billing_events (db w') = billing_events (db w) /\
           spec_charge k (micros amount) (ledger (db w)) = Some (ledger (db w'))) /\
        (fault_free env ->
           match cr_account (db w) u with
           | None => True
           | Some (k, _) =>
               match spec_charge k (micros amount) (ledger (db w)) with
               | None => True
               | Some l' => ~ storable (account l' k) \/ cannot_record env u (db w)
               end
           end)
    end).
Proof. apply wp_sql_deduct. Qed.

(** The repository's own [release_reservation] drops the hold and leaves
    every account, the reserved amount included, as it was. *)
Theorem sql_release_keeps_reserved env w id :
  fault_free env -> credit_tables_ok (db w) ->
  wp (SqlCreditRepository_release_reservation id) env w (fun r w' => r = Ok tt /\
    credit_tables_ok (db w') /\ credits (db w') = credits (db w) /\
    ledger (db w') = spec_drop_hold id (ledger (db w))).
Proof.
  intros Hff Hok. unfold SqlCreditRepository_release_reservation. wp_steps.
  rename select (db _ = db w) into D1. apply wp_sql; [done|]. intros w2. rewrite D1.
  destruct (reservations (db w) !! id) as [row|] eqn:E; intros D2; split; try done; rewrite D2.
  - destruct (proj2 Hok id row E) as [[? _] ?].
    split; [by apply tables_put_reservation|]. split; [done|].
    apply (ledger_drop _ _ _ (row_hold row)); [done|]. simpl. by rewrite fmap_insert.
  - do 2 (split; [done|]). unfold spec_drop_hold, ledger; simpl. f_equal.
    rewrite delete_id; [done|]. by rewrite lookup_omap, lookup_fmap, E.
Qed.

(** ** The manager over the SQL repository *)

(** These hold when no statement of the database fails ([fault_free]): the manager does not
    run its statements in a transaction. *)

(** applying credits adds the amount to the user's balance in the ledger,
    opening the account when needed, and returns the new balance; it fails only
    when the account cannot be opened or the new balance does not fit the column,
    and then the ledger is unchanged. *)
Theorem apply_credits_refines env (Hff : fault_free env) w u amount :
  credit_tables_ok (db w) -> amount_ok amount ->
  wp (CreditManager_apply_credits u amount) env w (fun r w' =>
    match r with
    | Ok b => credit_tables_ok (db w') /\ exists k, resolve (db w') u = Some k /\
        ledger (db w') ≡ spec_apply k (micros amount) (ledger (db w)) /\
        micros b = a_balance (account (ledger (db w')) k)
    | Err e => is_db_error e /\ credit_tables_ok (db w') /\ ledger (db w') ≡ ledger (db w) /\
        (cannot_open env (db w) u \/ exists k, resolve (db w') u = Some k /\
           ~ storable (account (spec_apply k (micros amount) (ledger (db w))) k))
    end).
Proof. exact (wp_apply_credits env Hff w u amount). Qed.

(** C4: when no statement of the database fails, reserving credits performs the ledger's
    reservation under a fresh identifier, or reports an insufficient balance exactly when
    the ledger refuses; other failures are a refused account or a taken identifier, and
    every failure leaves the ledger unchanged.  A lost statement can leave the hold without
    the reserved amount ([lost_update_uncovers_hold]). *)
Theorem reserve_credits_refines env (Hff : fault_free env) w u amount duration rental_id :
  credit_tables_ok (db w) -> amount_ok amount ->
  wp (CreditManager_reserve_credits u amount duration rental_id) env w (fun r w' =>
    match r with
    | Ok id => credit_tables_ok (db w') /\ l_holds (ledger (db w)) !! id = None /\
        exists k, resolve (db w') u = Some k /\
          Some (ledger (db w')) ≡ spec_reserve k (micros amount) id (ledger (db w))
    | Err e => credit_tables_ok (db w') /\ ledger (db w') ≡ ledger (db w) /\
        (is_db_error e /\ cannot_open env (db w) u \/
         is_db_error e /\ (exists n, is_Some (cr_holds (db w) !! random_uuid env n)) \/
         (exists av, e = InsufficientBalance av (as_decimal amount)) /\
         exists k, resolve (db w') u = Some k /\
           forall id, spec_reserve k (micros amount) id (ledger (db w)) = None)
    end).
Proof. exact (wp_reserve_credits env Hff w u amount duration rental_id). Qed.

(** Releasing a reservation drops its hold and takes its amount off the
    reserved balance, returning the amount; it fails exactly when the hold is not
    live, and then nothing changes. *)
Theorem release_reservation_refines env (Hff : fault_free env) w id :
  credit_tables_ok (db w) -> covered (ledger (db w)) ->
  wp (CreditManager_release_reservation id) env w (fun r w' =>
    match r with
    | Ok b => credit_tables_ok (db w') /\
        Some (ledger (db w')) ≡ spec_release id (ledger (db w)) /\
        exists h, l_holds (ledger (db w)) !! id = Some h /\ micros b = h_amount h
    | Err e => db w' = db w /\ l_holds (ledger (db w)) !! id = None
    end).
Proof. exact (wp_release_reservation env Hff w id). Qed.

(** charging moves the amount from the balance to the lifetime spending and
    returns the new balance; each error is the one the state calls for, and an error
    changes nothing. *)
Theorem charge_credits_refines env (Hff : fault_free env) w u amount :
  credit_tables_ok (db w) -> amount_ok amount ->
  wp (CreditManager_charge_credits u amount) env w (fun r w' =>
    match r with
    | Ok b => credit_tables_ok (db w') /\ exists k, resolve (db w') u = Some k /\
        Some (ledger (db w')) ≡ spec_charge k (micros amount) (ledger (db w)) /\
        micros b = a_balance (account (ledger (db w')) k)
    | Err e => db w' = db w /\
        match cr_account (db w) u with
        | None => e = UserNotFound u
        | Some (k, a) =>
            match spec_charge k (micros amount) (ledger (db w)) with
            | None => exists have, e = InsufficientBalance have (as_decimal amount)
            | Some l' => is_db_error e /\ ~ storable (account l' k)
            end
        end
    end).
Proof. exact (wp_charge_credits env Hff w u amount). Qed.

(** C2: when no statement of the database fails, settling a reservation releases its hold
    and charges the final amount; when the charge fails, the reservation is already marked released: its hold is
    gone while the account keeps the reserved amount. *)
Theorem charge_from_reservation_refines env (Hff : fault_free env) w id amount :
  credit_tables_ok (db w) -> covered (ledger (db w)) -> amount_ok amount ->
  wp (CreditManager_charge_from_reservation id amount) env w (fun r w' =>
    match r with
    | Ok b => credit_tables_ok (db w') /\
        Some (ledger (db w')) ≡ spec_settle id (micros amount) (ledger (db w)) /\
        exists h, l_holds (ledger (db w)) !! id = Some h /\
          micros b = a_balance (account (ledger (db w')) (h_user h))
    | Err e => credit_tables_ok (db w') /\
        ledger (db w') ≡ spec_drop_hold id (ledger (db w)) /\
        match spec_settle id (micros amount) (ledger (db w)), l_holds (ledger (db w)) !! id with
        | Some l', Some h => is_db_error e /\ ~ storable (account l' (h_user h))
        | _, _ => True
        end
    end).
Proof. exact (wp_charge_from_reservation env Hff w id amount). Qed.

(** A clean-up run releases live holds, each once, together with their
    reserved amounts, and returns how many there were. *)
Theorem cleanup_expired_refines env (Hff : fault_free env) w :
  credit_tables_ok (db w) -> covered (ledger (db w)) ->
  wp CreditManager_cleanup_expired_reservations env w (fun r w' =>
    exists ids, r = Ok (Z.of_nat (length ids)) /\ NoDup ids /\ credit_tables_ok (db w') /\
      (forall id, id ∈ ids -> is_Some (l_holds (ledger (db w)) !! id)) /\
      ledger (db w') ≡ spec_release_all ids (ledger (db w))).
Proof. exact (wp_cleanup_expired env Hff w). Qed.

(** C1: as long as no statement of the database fails, after any sequence of manager
    requests, granted or refused, the tables are well formed and every user's reserved
    balance is non-negative and covers the live holds.  The condition is needed: the
    manager stores the hold and the reserved amount in two statements without a
    transaction, and a lost second one leaves the hold uncovered
    ([lost_update_uncovers_hold]). *)
Theorem requests_keep_covered env (Hff : fault_free env) qs w :
  Forall request_ok qs -> credit_tables_ok (db w) -> covered (ledger (db w)) ->
  let w' := foldl (fun w q => serve env q w) w qs in
  credit_tables_ok (db w') /\ covered (ledger (db w')).
Proof. exact (serve_all_covered env Hff qs w). Qed.
End Claims.

(** ** The properties at work on a concrete database *)

Section Witnesses.
Import Scenario.

Local Ltac by_run := vm_compute; reflexivity.

Lemma five_ok : amount_ok (credits_of 5).
Proof. apply amount_in_range. lia. Qed.
Lemma thousand_ok : amount_ok (credits_of 1000).
Proof. apply amount_in_range. lia. Qed.

Lemma apply_credits_witness :
  let run := CreditManager_apply_credits "alice" (credits_of 5) env w0 in
  (exists b, fst run = Ok b /\ micros b = 105 * 10 ^ 6) /\
  ledger (db (snd run)) ≡ spec_apply 1%N (5 * 10 ^ 6) (ledger d0).
Proof.
  pose proof (apply_credits_refines env env_ok w0 "alice" (credits_of 5) tables_ok five_ok) as Hp.
  run_ok Hp. destruct Hp as (b & Eb & _ & k & Ek & HL & Hb).
  assert (Some k = Some 1%N) as [= ->] by (rewrite <- Ek; by_run).
  split; [|exact HL]. exists b. split; [exact Eb|]. rewrite Hb. by_run.
Defined.

Lemma reserve_credits_witness :
  let run := CreditManager_reserve_credits "alice" (credits_of 5) 3600 None env w0 in
  fst run = Ok 100%N /\
  Some (ledger (db (snd run))) ≡ spec_reserve 1%N (5 * 10 ^ 6) 100%N (ledger d0).
Proof.
  pose proof (reserve_credits_refines env env_ok w0 "alice" (credits_of 5) 3600 None
                tables_ok five_ok) as Hp.
  run_ok Hp. destruct Hp as (id & Eid & _ & _ & k & Ek & HL).
  assert (Some k = Some 1%N) as [= ->] by (rewrite <- Ek; by_run).
  assert (id = 100%N) as -> by (apply (ok_value_eq _ _ _ Eid); by_run).
  split; [exact Eid|exact HL].
Defined.

Lemma release_reservation_witness :
  let run := CreditManager_release_reservation 7%N env w0 in
  (exists b, fst run = Ok b /\ micros b = 30 * 10 ^ 6) /\
  Some (ledger (db (snd run))) ≡ spec_release 7%N (ledger d0).
Proof.
  pose proof (release_reservation_refines env env_ok w0 7%N tables_ok ledger_covered) as Hp.
  run_ok Hp. destruct Hp as (b & Eb & _ & HL & h & Eh & Hb).
  split; [|exact HL]. exists b. split; [exact Eb|]. rewrite Hb.
  assert (Some h = Some {| h_user := 1%N; h_amount := 30 * 10 ^ 6 |}) as [= ->]
    by (rewrite <- Eh; by_run).
  reflexivity.
Defined.

Lemma charge_credits_witness :
  let run := CreditManager_charge_credits "alice" (credits_of 1000) env w0 in
  db (snd run) = d0 /\ exists have req, fst run = Err (InsufficientBalance have req).
Proof.
  pose proof (charge_credits_refines env env_ok w0 "alice" (credits_of 1000) tables_ok
                thousand_ok) as Hp.
  run_err Hp. destruct Hp as (e & Ee & Hd & Hcase). split; [exact Hd|].
  match type of Hcase with match ?o with _ => _ end =>
    assert (Eo : o = Some (1%N, {| a_balance := 100 * 10 ^ 6; a_reserved := 30 * 10 ^ 6;
                                   a_spent := 0 |})) by by_run;
    rewrite Eo in Hcase end.
  match type of Hcase with match ?o with _ => _ end =>
    assert (Es : o = None) by by_run; rewrite Es in Hcase end.
  destruct Hcase as [have ->]. eauto.
Defined.

Lemma charge_from_reservation_witness :
  let run := CreditManager_charge_from_reservation 7%N (credits_of 1000) env w0 in
  is_Ok (fst run) = false /\ ledger (db (snd run)) ≡ spec_drop_hold 7%N (ledger d0) /\
  a_reserved (account (ledger (db (snd run))) 1%N) = 30 * 10 ^ 6.
Proof.
  pose proof (charge_from_reservation_refines env env_ok w0 7%N (credits_of 1000) tables_ok
                ledger_covered thousand_ok) as Hp.
  run_err Hp. destruct Hp as (e & Ee & _ & HL & _). split; [by_run|]. split; [exact HL|by_run].
Defined.

Lemma cleanup_expired_witness :
  let run := CreditManager_cleanup_expired_reservations env w0 in
  fst run = Ok 1 /\ l_holds (ledger (db (snd run))) = ∅ /\
  exists ids, ledger (db (snd run)) ≡ spec_release_all ids (ledger d0).
Proof.
  pose proof (cleanup_expired_refines env env_ok w0 tables_ok ledger_covered) as Hp.
  run_ok Hp. destruct Hp as (n & En & ids & _ & _ & _ & _ & HL).
  assert (n = 1) as -> by (apply (ok_value_eq _ _ _ En); by_run).
  split; [exact En|]. split; [by_run|]. exists ids. exact HL.
Defined.

Lemma requests_keep_covered_witness :
  let qs := [ReserveCredits "alice" (credits_of 5) 3600 None; ReleaseReservation 7%N;
             ApplyCredits "bob" (credits_of 5); CleanupExpired] in
  covered (ledger (db (foldl (fun w q => serve env q w) w0 qs))).
Proof.
  intros qs. refine (proj2 (requests_keep_covered env env_ok qs w0 _ tables_ok ledger_covered)).
  repeat constructor; apply five_ok.
Defined.

(** The statement that stores the account is lost after the hold was stored: the request
    fails, and the holds of alice exceed her reserved balance. *)
Lemma lost_update_uncovers_hold :
  let lossy := {| clock := clock env; random_uuid := random_uuid env; fault n := Nat.eqb n 4 |} in
  let w' := serve lossy (ReserveCredits "alice" (credits_of 5) 3600 None) w0 in
  is_Ok (fst (CreditManager_reserve_credits "alice" (credits_of 5) 3600 None lossy w0)) = false /\
  held (ledger (db w')) 1%N = 35 * 10 ^ 6 /\ ~ covered (ledger (db w')).
Proof.
  intros lossy w'. split; [by_run|]. assert (E : held (ledger (db w')) 1%N = 35 * 10 ^ 6) by by_run.
  split; [exact E|]. intros [_ Hc]. specialize (Hc 1%N). rewrite E in Hc.
  assert (Ea : a_reserved (account (ledger (db w')) 1%N) = 30 * 10 ^ 6) by by_run.
  rewrite Ea in Hc. lia.
Qed.

Lemma sql_reserve_credits_atomic_witness :
  let run := SqlCreditRepository_reserve_credits "alice" (credits_of 5) 9%N flaky_env w0 in
  is_Ok (fst run) = false /\ db (snd run) = d0.
Proof.
  pose proof (sql_reserve_credits_atomic flaky_env w0 "alice" (credits_of 5) 9%N tables_ok
                five_ok) as Hp.
  run_err Hp. destruct Hp as (e & Ee & Hd & _). split; [by_run|exact Hd].
Defined.

Lemma sql_deduct_credits_witness :
  let run := SqlCreditRepository_deduct_credits "alice" (credits_of 5) env w0 in
  fst run = Ok tt /\ spec_charge 1%N (5 * 10 ^ 6) (ledger d0) = Some (ledger (db (snd run))).
Proof.
  pose proof (sql_deduct_credits_spec env w0 "alice" (credits_of 5) tables_ok five_ok) as Hp.
  run_ok Hp. destruct Hp as ([] & Er & _ & k & e & id & Ek & HL & _).
  assert (Some k = Some 1%N) as [= ->] by (rewrite <- Ek; by_run). split; [exact Er|exact HL].
Defined.

Lemma sql_release_witness :
  let run := SqlCreditRepository_release_reservation 7%N env w0 in
  fst run = Ok tt /\ l_holds (ledger (db (snd run))) = ∅ /\
  a_reserved (account (ledger (db (snd run))) 1%N) = 30 * 10 ^ 6.
Proof.
  pose proof (sql_release_keeps_reserved env w0 7%N env_ok tables_ok) as Hp.
  run_ok Hp. destruct Hp as ([] & Er & _ & _ & _ & HL). split; [exact Er|].
  rewrite HL. split; by_run.
Defined.
End Witnesses.
