(* ===== verification/Rules.v ===== *)
(** * Billing: the rules engine (crates/basilica-billing/src/domain/rules_engine.rs,
    storage/rules.rs)

    Rule conditions and actions, their evaluation, the engine that prices a package
    under the active rules, and the SQL rules repository with its JSON encoding. *)

From Stdlib Require Import ZArith.
From stdpp Require Import base gmap strings list numbers.
From S2P Require Import Prelude.
From S2P Require Import Float64.
From S2P Require Import Decimal.
From S2P Require Import BillingTypes.
From S2P Require Import BillingWorld.
Local Open Scope Z_scope.

(** ** Billing: packages (crates/basilica-billing/src/domain/packages.rs)

    The billing package with its cost calculation, the pricing constants, the
    [PackageRepository] trait (storage/packages.rs, lines 11-37) as a class, and the
    package service over it. *)

Section Packages.
Context `{Decimal}.

Record BillingPackage := {
  pkg_id : PackageId;
  pkg_name : string;
  pkg_description : string;
  pkg_hourly_rate : CreditBalance;
  pkg_gpu_model : string;
  pkg_billing_period : BillingPeriod;
  pkg_priority : Z;
  pkg_active : bool;
  pkg_metadata : gmap string string;
}.

Definition BillingPackage_new (id : PackageId) (name description : string)
    (hourly_rate : CreditBalance) (gpu_model : string) : BillingPackage := {|
  pkg_id := id;
  pkg_name := name;
  pkg_description := description;
  pkg_hourly_rate := hourly_rate;
  pkg_gpu_model := gpu_model;
  pkg_billing_period := Hourly;
  pkg_priority := 100;
  pkg_active := true;
  pkg_metadata := ∅ |}.

Definition BillingPackage_calculate_cost (p : BillingPackage) (usage : UsageMetrics)
    : CostBreakdown :=
  let total_hours := dec_max (gpu_hours usage) dec_one in
  let total := CreditBalance_multiply (pkg_hourly_rate p) total_hours in
  {| base_cost := total;
     usage_cost := CreditBalance_zero;
     discounts := CreditBalance_zero;
     overage_charges := CreditBalance_zero;
     total_cost := total |}.

(** ** Protobuf form *)

Record ProtoPackageRates := {
  ppr_cpu_rate_per_hour : string;
  ppr_memory_rate_per_gb_hour : string;
  ppr_gpu_rates : gmap string string;
  ppr_network_rate_per_gb : string;
  ppr_disk_iops_rate : string;
  ppr_base_rate_per_hour : string;
}.

Record ProtoIncludedResources := {
  pir_cpu_core_hours : Z;
  pir_memory_gb_hours : Z;
  pir_gpu_hours : gmap string Z;
  pir_network_gb : Z;
  pir_disk_iops : Z;
}.

Record ProtoBillingPackage := {
  pbp_package_id : string;
  pbp_name : string;
  pbp_description : string;
  pbp_rates : option ProtoPackageRates;
  pbp_included_resources : option ProtoIncludedResources;
  pbp_overage_rates : option ProtoPackageRates;
  pbp_priority : Z;
  pbp_is_active : bool;
}.

Definition BillingPackage_to_proto (p : BillingPackage) : ProtoBillingPackage := {|
  pbp_package_id := pkg_id p;
  pbp_name := pkg_name p;
  pbp_description := pkg_description p;
  pbp_rates := Some {|
    ppr_cpu_rate_per_hour := "0";
    ppr_memory_rate_per_gb_hour := "0";
    ppr_gpu_rates := {[ pkg_gpu_model p := CreditBalance_to_string (pkg_hourly_rate p) ]};
    ppr_network_rate_per_gb := "0";
    ppr_disk_iops_rate := "0";
    ppr_base_rate_per_hour := CreditBalance_to_string (pkg_hourly_rate p) |};
  pbp_included_resources := Some {|
    pir_cpu_core_hours := 0; pir_memory_gb_hours := 0; pir_gpu_hours := ∅;
    pir_network_gb := 0; pir_disk_iops := 0 |};
  pbp_overage_rates := None;
  pbp_priority := pkg_priority p;
  pbp_is_active := pkg_active p |}.

(** ** Pricing rules *)

(** [(0.0..=10000.0).contains(&price)]. *)
Definition PricingRules_is_valid_price (price : f64) : bool :=
  f64_leb (f64_of_Z 0) price && f64_leb price (f64_of_Z 10000).

(** [Decimal::from_str_exact("0.10")] and [("0.05")]. *)
Definition PricingRules_calculate_volume_discount (hours : dec) : dec :=
  if dec_ltb (dec_of_Z 1000) hours then dec_of_numeric 2 10
  else if dec_ltb (dec_of_Z 500) hours then dec_of_numeric 2 5
  else dec_zero.

(** ** The repository trait and the service over it *)

Class PackageRepository := {
  prepo_get_package : PackageId -> M BillingPackage;
  prepo_list_packages : M (list BillingPackage);
  prepo_find_package_for_gpu_model : string -> M BillingPackage;
  prepo_is_package_compatible_with_gpu : PackageId -> string -> M bool;
  prepo_create_package : BillingPackage -> M unit;
  prepo_update_package : BillingPackage -> M unit;
  prepo_delete_package : PackageId -> M unit;
  prepo_activate_package : PackageId -> M unit;
  prepo_deactivate_package : PackageId -> M unit;
  prepo_evaluate_package_cost : PackageId -> UsageMetrics -> M CostBreakdown;
}.

Context `{!PackageRepository}.

Definition RepositoryPackageService_evaluate_cost (package_id : PackageId)
    (usage : UsageMetrics) : M CostBreakdown :=
  package ← prepo_get_package package_id;
  mret (BillingPackage_calculate_cost package usage).

Definition RepositoryPackageService_recommend_package (gpu_model : string) : M BillingPackage :=
  prepo_find_package_for_gpu_model gpu_model.

Definition RepositoryPackageService_validate_package_requirements (package : BillingPackage)
    (gpu_model : string) : M bool :=
  prepo_is_package_compatible_with_gpu (pkg_id package) gpu_model.
End Packages.

Arguments PackageRepository {_} : assert.

(** ** The rules engine *)

Section Rules.
Context `{Decimal} `{UuidText}.

Inductive RuleCondition :=
  | Always
  | MinimumUsage (hours : dec)
  | ResourceThreshold (resource : string) (threshold : dec)
  | TimeRange (start_hour end_hour : Z)
  | UserGroup (group : string)
  | Custom (expression : string).

Inductive RuleAction :=
  | ApplyDiscount (percentage : dec)
  | ApplyCredit (amount : CreditBalance)
  | MultiplyRate (factor : dec)
  | SetFixedRate (rate : CreditBalance)
  | AddCharge (amount : CreditBalance).

Record BillingRule := {
  rule_id : string;
  rule_name : string;
  rule_description : string;
  rule_condition : RuleCondition;
  rule_action : RuleAction;
  rule_priority : Z;
  rule_active : bool;
}.

(** [chrono::Timelike::hour]. *)
Definition hour_of (t : DateTime) : Z := t / Duration_hours 1 mod 24.

Definition in_time_range (start_hour end_hour current_hour : Z) : bool :=
  if start_hour <=? end_hour
  then (start_hour <=? current_hour) && (current_hour <? end_hour)
  else (start_hour <=? current_hour) || (current_hour <? end_hour).

Definition RuleCondition_evaluate (c : RuleCondition) (usage : UsageMetrics)
    (metadata : gmap string string) : M bool :=
  match c with
  | Always => mret true
  | MinimumUsage hours => mret (dec_leb hours (gpu_hours usage))
  | ResourceThreshold resource threshold =>
      mret (if String.eqb resource "gpu" then dec_leb threshold (gpu_hours usage)
            else if String.eqb resource "cpu" then dec_leb threshold (cpu_hours usage)
            else if String.eqb resource "memory" then dec_leb threshold (memory_gb_hours usage)
            else if String.eqb resource "storage" then dec_leb threshold (storage_gb_hours usage)
            else if String.eqb resource "network" then dec_leb threshold (network_gb usage)
            else false)
  | TimeRange start_hour end_hour =>
      t ← now;
      mret (in_time_range start_hour end_hour (hour_of t))
  | UserGroup _ => mret false
  | Custom _ => mret false
  end.

(** One turn of the loop in [apply_rule_actions]. *)
Definition apply_rule_action (cost : CostBreakdown) (rule : BillingRule) : CostBreakdown :=
  match rule_action rule with
  | ApplyDiscount percentage =>
      let discount_amount := CreditBalance_multiply (base_cost cost) percentage in
      {| base_cost := base_cost cost; usage_cost := usage_cost cost;
         discounts := CreditBalance_add (discounts cost) discount_amount;
         overage_charges := overage_charges cost; total_cost := total_cost cost |}
  | ApplyCredit amount =>
      {| base_cost := base_cost cost; usage_cost := usage_cost cost;
         discounts := CreditBalance_add (discounts cost) amount;
         overage_charges := overage_charges cost; total_cost := total_cost cost |}
  | MultiplyRate factor =>
      {| base_cost := CreditBalance_multiply (base_cost cost) factor;
         usage_cost := CreditBalance_multiply (usage_cost cost) factor;
         discounts := discounts cost;
         overage_charges := overage_charges cost; total_cost := total_cost cost |}
  | SetFixedRate rate =>
      {| base_cost := rate; usage_cost := CreditBalance_zero;
         discounts := discounts cost;
         overage_charges := overage_charges cost; total_cost := total_cost cost |}
  | AddCharge amount =>
      {| base_cost := base_cost cost; usage_cost := usage_cost cost;
         discounts := discounts cost;
         overage_charges := CreditBalance_add (overage_charges cost) amount;
         total_cost := total_cost cost |}
  end.

Definition apply_rule_actions (cost : CostBreakdown) (rules : list BillingRule) : CostBreakdown :=
  let cost := foldl apply_rule_action cost rules in
  {| base_cost := base_cost cost; usage_cost := usage_cost cost; discounts := discounts cost;
     overage_charges := overage_charges cost;
     total_cost := CostBreakdown_calculate_total cost |}.

(** ** The repository trait and the engine *)

Class RulesRepository := {
  rules_create_rule : BillingRule -> M unit;
  rules_get_rule : string -> M (option BillingRule);
  rules_list_rules : M (list BillingRule);
  rules_list_active_rules : M (list BillingRule);
  rules_update_rule : BillingRule -> M unit;
  rules_delete_rule : string -> M unit;
}.

(** [into_iter().filter(p).collect()] with an effectful predicate. *)
Fixpoint filter_m {A} (p : A -> M bool) (l : list A) : M (list A) :=
  match l with
  | [] => mret []
  | x :: l' =>
      keep ← p x;
      rest ← filter_m p l';
      mret (if keep : bool then x :: rest else rest)
  end.

Section Engine.
Context `{!PackageRepository} `{!RulesRepository}.

Definition RulesEngine_evaluate_rules (usage : UsageMetrics) (metadata : gmap string string)
    : M (list BillingRule) :=
  rules ← rules_list_active_rules;
  filter_m (fun r => RuleCondition_evaluate (rule_condition r) usage metadata) rules.

Definition RulesEngine_evaluate_package (package_id : PackageId) (usage : UsageMetrics)
    (metadata : gmap string string) : M CostBreakdown :=
  package ← prepo_get_package package_id;
  let cost_breakdown := BillingPackage_calculate_cost package usage in
  rules ← RulesEngine_evaluate_rules usage metadata;
  mret (apply_rule_actions cost_breakdown rules).

Definition RulesEngine_get_package (package_id : PackageId) : M BillingPackage :=
  prepo_get_package package_id.
Definition RulesEngine_list_packages : M (list BillingPackage) := prepo_list_packages.
Definition RulesEngine_create_package (package : BillingPackage) : M unit :=
  prepo_create_package package.
Definition RulesEngine_update_package (package : BillingPackage) : M unit :=
  prepo_update_package package.
Definition RulesEngine_create_rule (rule : BillingRule) : M unit := rules_create_rule rule.
Definition RulesEngine_list_rules : M (list BillingRule) := rules_list_rules.
End Engine.

(** ** The SQL repository *)

Definition serialize_condition (c : RuleCondition) : string * json :=
  match c with
  | Always => ("always", JObject [])
  | MinimumUsage hours => ("usage_based", JObject [("gpu_hours", JString (dec_to_string hours))])
  | ResourceThreshold resource threshold =>
      ("usage_based", JObject [("resource", JString resource);
                               ("threshold", JString (dec_to_string threshold))])
  | TimeRange start_hour end_hour =>
      ("time_based", JObject [("start_hour", JPosInt start_hour); ("end_hour", JPosInt end_hour)])
  | UserGroup group => ("user_based", JObject [("group", JString group)])
  | Custom expression => ("custom", JObject [("expression", JString expression)])
  end.

(** [v.as_str().and_then(|s| s.parse().ok())]. *)
Definition parse_decimal (v : json) : option dec := json_as_str v ≫= dec_of_string.

Definition deserialize_condition (condition_type : string) (data : json)
    : result BillingError RuleCondition :=
  if String.eqb condition_type "always" then Ok Always
  else if String.eqb condition_type "usage_based" then
    match json_get "gpu_hours" data with
    | Some v => Ok (MinimumUsage (dec_default (parse_decimal v)))
    | None =>
        match json_get "resource" data, json_get "threshold" data with
        | Some resource, Some threshold =>
            Ok (ResourceThreshold (default "" (json_as_str resource))
                                  (dec_default (parse_decimal threshold)))
        | _, _ => Ok Always
        end
    end
  else if String.eqb condition_type "time_based" then
    let start_hour := wrap 32 (default 0 (json_get "start_hour" data ≫= json_as_u64)) in
    let end_hour := wrap 32 (default 24 (json_get "end_hour" data ≫= json_as_u64)) in
    Ok (TimeRange start_hour end_hour)
  else if String.eqb condition_type "user_based" then
    Ok (UserGroup (default "" (json_get "group" data ≫= json_as_str)))
  else if String.eqb condition_type "custom" then
    Ok (Custom (default "" (json_get "expression" data ≫= json_as_str)))
  else Ok Always.

Definition serialize_action (a : RuleAction) : string * json :=
  match a with
  | ApplyDiscount percentage =>
      ("percentage", JObject [("percentage", JString (dec_to_string percentage))])
  | ApplyCredit amount => ("fixed", JObject [("amount", JString (CreditBalance_to_string amount))])
  | MultiplyRate factor => ("rate_override", JObject [("factor", JString (dec_to_string factor))])
  | SetFixedRate rate => ("fixed", JObject [("rate", JString (CreditBalance_to_string rate))])
  | AddCharge amount => ("fixed", JObject [("charge", JString (CreditBalance_to_string amount))])
  end.

Definition deserialize_action (action_type : string) (data : json)
    : result BillingError RuleAction :=
  if String.eqb action_type "percentage" then
    Ok (ApplyDiscount (dec_default (json_get "percentage" data ≫= parse_decimal)))
  else if String.eqb action_type "fixed" then
    match json_get "amount" data ≫= json_as_str with
    | Some s => Ok (ApplyCredit (CreditBalance_from_decimal (dec_default (dec_of_string s))))
    | None =>
        match json_get "rate" data ≫= json_as_str with
        | Some s => Ok (SetFixedRate (CreditBalance_from_decimal (dec_default (dec_of_string s))))
        | None =>
            match json_get "charge" data ≫= json_as_str with
            | Some s => Ok (AddCharge (CreditBalance_from_decimal (dec_default (dec_of_string s))))
            | None => Ok (ApplyCredit CreditBalance_zero)
            end
        end
    end
  else if String.eqb action_type "rate_override" then
    Ok (MultiplyRate (default (dec_of_Z 1) (json_get "factor" data ≫= parse_decimal)))
  else Ok (ApplyCredit CreditBalance_zero).

(** The identifier a rule is stored under, and the one it is looked up by. *)
Definition rule_key (id : string) : uuid := default uuid_nil (uuid_parse_str id).

Definition SqlRulesRepository_create_rule (rule : BillingRule) : M unit :=
  let '(condition_type, condition_data) := serialize_condition (rule_condition rule) in
  let '(action_type, action_data) := serialize_action (rule_action rule) in
  key ← (match uuid_parse_str (rule_id rule) with Some k => mret k | None => new_v4 end);
  t ← now;
  sql (DatabaseError "create_rule") (fun d =>
    name ← varchar 255 (rule_name rule);
    match billing_rules d !! key with
    | Some _ => None
    | None =>
        Some (tt, set_billing_rules (<[key := {|
          ru_name := name;
          ru_description := rule_description rule;
          ru_rule_type := "custom";
          ru_condition_type := condition_type;
          ru_condition_data := condition_data;
          ru_action_type := action_type;
          ru_action_data := action_data;
          ru_priority := wrap_signed 32 (rule_priority rule);
          ru_is_active := rule_active rule;
          ru_created_at := t;
          ru_updated_at := t |}]> (billing_rules d)) d)
    end).

Definition rule_of_row (k : uuid) (r : rule_row) : result BillingError BillingRule :=
  match deserialize_condition (ru_condition_type r) (ru_condition_data r) with
  | Err e => Err e
  | Ok condition =>
      match deserialize_action (ru_action_type r) (ru_action_data r) with
      | Err e => Err e
      | Ok action => Ok {|
          rule_id := uuid_to_string k;
          rule_name := ru_name r;
          rule_description := ru_description r;
          rule_condition := condition;
          rule_action := action;
          rule_priority := wrap 32 (ru_priority r);
          rule_active := ru_is_active r |}
      end
  end.

Definition SqlRulesRepository_get_rule (id : string) : M (option BillingRule) :=
  row ← sql (DatabaseError "get_rule") (fun d => Some (billing_rules d !! rule_key id, d));
  match row with
  | Some r => rule ← of_result (rule_of_row (rule_key id) r); mret (Some rule)
  | None => mret None
  end.

(** [for row in rows { rules.push(...?) }]. *)
Fixpoint collect_rules (rows : list (uuid * rule_row)) : result BillingError (list BillingRule) :=
  match rows with
  | [] => Ok []
  | (k, r) :: rows' =>
      match rule_of_row k r with
      | Err e => Err e
      | Ok rule =>
          match collect_rules rows' with
          | Err e => Err e
          | Ok rules => Ok (rule :: rules)
          end
      end
  end.

(** [ORDER BY priority DESC, created_at ASC]. *)
Definition rule_order (a b : uuid * rule_row) : bool :=
  (ru_priority (snd b) <? ru_priority (snd a)) ||
  ((ru_priority (snd b) =? ru_priority (snd a)) &&
   (ru_created_at (snd a) <=? ru_created_at (snd b))).

Definition SqlRulesRepository_list_rules : M (list BillingRule) :=
  rows ← sql (DatabaseError "list_rules") (fun d =>
    Some (sort_by rule_order (map_to_list (billing_rules d)), d));
  of_result (collect_rules rows).

Definition SqlRulesRepository_list_active_rules : M (list BillingRule) :=
  rows ← sql (DatabaseError "list_active_rules") (fun d =>
    Some (sort_by rule_order
            (filter (fun '(_, r) => ru_is_active r = true) (map_to_list (billing_rules d))), d));
  of_result (collect_rules rows).

Definition SqlRulesRepository_update_rule (rule : BillingRule) : M unit :=
  let '(condition_type, condition_data) := serialize_condition (rule_condition rule) in
  let '(action_type, action_data) := serialize_action (rule_action rule) in
  t ← now;
  sql (DatabaseError "update_rule") (fun d =>
    match billing_rules d !! rule_key (rule_id rule) with
    | None => Some (tt, d)
    | Some r =>
        name ← varchar 255 (rule_name rule);
        Some (tt, set_billing_rules (<[rule_key (rule_id rule) := {|
          ru_name := name;
          ru_description := rule_description rule;
          ru_rule_type := ru_rule_type r;
          ru_condition_type := condition_type;
          ru_condition_data := condition_data;
          ru_action_type := action_type;
          ru_action_data := action_data;
          ru_priority := wrap_signed 32 (rule_priority rule);
          ru_is_active := rule_active rule;
          ru_created_at := ru_created_at r;
          ru_updated_at := t |}]> (billing_rules d)) d)
    end).

Definition SqlRulesRepository_delete_rule (id : string) : M unit :=
  sql (DatabaseError "delete_rule") (fun d =>
    Some (tt, set_billing_rules (delete (rule_key id) (billing_rules d)) d)).

#[global] Instance SqlRulesRepository : RulesRepository := {|
  rules_create_rule := SqlRulesRepository_create_rule;
  rules_get_rule := SqlRulesRepository_get_rule;
  rules_list_rules := SqlRulesRepository_list_rules;
  rules_list_active_rules := SqlRulesRepository_list_active_rules;
  rules_update_rule := SqlRulesRepository_update_rule;
  rules_delete_rule := SqlRulesRepository_delete_rule;
|}.
End Rules.

Arguments RulesRepository {_} : assert.
