(* ===== verification/PricingClaims.v ===== *)
(** * Billing: the properties of packages and rules *)

From Stdlib Require Import ZArith.
From stdpp Require Import base gmap strings list numbers sorting.
From S2P Require Import Prelude Float64 Decimal BillingTypes BillingWorld Rules.
From S2P Require Import CreditRepoFacts.
Local Open Scope Z_scope.

Section Packages.
Context `{DecimalLaws}.

Lemma dec_max_num a b : dec_num (dec_max a b) = Z.max (dec_num a) (dec_num b).
Proof. unfold dec_max, dec_leb. case_match; b2p; lia. Qed.

(** A package rate and a number of hours whose product [Decimal] can hold. *)
Definition billable (p : BillingPackage) (usage : UsageMetrics) : Prop :=
  wf_credit (pkg_hourly_rate p) /\ 0 <= micros (pkg_hourly_rate p) <= 10 ^ 18 /\
  dec_num (gpu_hours usage) <= 10 ^ 6 * dec_scale.

Lemma billable_product p hours :
  wf_credit (pkg_hourly_rate p) -> 0 <= micros (pkg_hourly_rate p) <= 10 ^ 18 ->
  hours <= 10 ^ 6 * dec_scale ->
  0 <= dec_num (as_decimal (pkg_hourly_rate p)) /\
  dec_num (as_decimal (pkg_hourly_rate p)) * Z.max hours dec_scale < 2 ^ 95 * dec_scale * dec_scale.
Proof.
  intros W Hr Hh. rewrite (wf_num _ W). unfold micro, dec_scale in *.
  split; [lia|]. nia.
Qed.

(** A package charges its hourly rate for the first hour whatever the
    usage, exactly the rate when at most one GPU hour was used, never less than for
    a smaller usage, and its breakdown adds up to its total. *)
Theorem package_cost_bounds p usage usage' :
  billable p usage -> billable p usage' ->
  dec_num (gpu_hours usage) <= dec_num (gpu_hours usage') ->
  let cost := BillingPackage_calculate_cost p usage in
  let cost' := BillingPackage_calculate_cost p usage' in
  micros (pkg_hourly_rate p) <= micros (total_cost cost) <= micros (total_cost cost') /\
  (dec_num (gpu_hours usage) <= dec_scale ->
   micros (total_cost cost) = micros (pkg_hourly_rate p)) /\
  base_cost cost = total_cost cost /\ micros (usage_cost cost) = 0 /\
  micros (discounts cost) = 0 /\ micros (overage_charges cost) = 0.
Proof.
  intros (W & Hr & Hh) (_ & _ & Hh') Hle. simpl.
  destruct (billable_product p _ W Hr Hh) as [Hpos Hprod].
  destruct (billable_product p _ W Hr Hh') as [_ Hprod'].
  assert (Hmono : forall f g, dec_num f <= dec_num g ->
    dec_num (as_decimal (pkg_hourly_rate p)) * dec_num g < 2 ^ 95 * dec_scale * dec_scale ->
    micros (CreditBalance_multiply (pkg_hourly_rate p) f) <=
      micros (CreditBalance_multiply (pkg_hourly_rate p) g)).
  { intros. by apply micros_multiply_mono. }
  pose proof (micros_multiply_one _ W) as Hone.
  split; [split|split; [|by rewrite !micros_zero]].
  - rewrite <- Hone at 1. apply Hmono; rewrite dec_max_num, ?dec_num_one; [lia|done].
  - apply Hmono; rewrite !dec_max_num, ?dec_num_one; [lia|done].
  - intros Hsmall. apply Z.le_antisymm; [|rewrite <- Hone at 1].
    + rewrite <- Hone. apply Hmono; rewrite ?dec_max_num, ?dec_num_one; [lia|].
      eapply Z.le_lt_trans; [|done]. apply Z.mul_le_mono_nonneg_l; [done|lia].
    + apply Hmono; rewrite dec_max_num, ?dec_num_one; [lia|done].
Qed.
End Packages.

(** ** Rules *)

(** A time-range condition holds exactly in the hours of the day from the
      start hour up to, and not including, the end hour, around midnight too; a range
      that starts where it ends is empty. *)
Theorem time_range_cyclic s e h :
  0 <= s < 24 -> 0 <= e < 24 -> 0 <= h < 24 ->
  in_time_range s e h = ((h - s) mod 24 <? (e - s) mod 24).
Proof.
  intros Hs He Hh. unfold in_time_range.
  assert (Hd : forall x, -24 < x < 24 -> x mod 24 = if x <? 0 then x + 24 else x).
  { intros x Hx. destruct (x <? 0) eqn:E; b2p; [|by apply Z.mod_small; lia].
    rewrite <- (Z.mod_add x 1 24) by lia. apply Z.mod_small. lia. }
  rewrite !Hd by lia.
  destruct (s <=? e) eqn:E1, (s <=? h) eqn:E2, (h <? e) eqn:E3, (h - s <? 0) eqn:E4,
    (e - s <? 0) eqn:E5; b2p; simpl; symmetry; (apply Z.ltb_lt || apply Z.ltb_ge); lia.
Qed.

Section Rules.
Context `{DecimalLaws} `{UuidTextLaws}.

(** Equal up to the representation of decimal numbers. *)
Definition same_condition (c c' : RuleCondition) : Prop :=
  match c, c' with
  | MinimumUsage a, MinimumUsage b => dec_num a = dec_num b
  | ResourceThreshold r a, ResourceThreshold r' b => r = r' /\ dec_num a = dec_num b
  | _, _ => c = c'
  end.

Definition same_credit (a b : CreditBalance) : Prop :=
  dec_num (as_decimal a) = dec_num (as_decimal b).

Definition same_action (a a' : RuleAction) : Prop :=
  match a, a' with
  | ApplyDiscount x, ApplyDiscount y | MultiplyRate x, MultiplyRate y => dec_num x = dec_num y
  | ApplyCredit x, ApplyCredit y | SetFixedRate x, SetFixedRate y | AddCharge x, AddCharge y =>
      same_credit x y
  | _, _ => False
  end.

Definition condition_ok (c : RuleCondition) : Prop :=
  match c with TimeRange s e => 0 <= s < 2 ^ 32 /\ 0 <= e < 2 ^ 32 | _ => True end.

(** The amounts are multiples of a micro-credit, as [from_decimal] makes them. *)
Definition action_ok (a : RuleAction) : Prop :=
  match a with
  | ApplyCredit x | SetFixedRate x | AddCharge x => (micro | dec_num (as_decimal x))
  | _ => True
  end.

Lemma parse_print a :
  exists b, parse_decimal (JString (dec_to_string a)) = Some b /\ dec_num b = dec_num a.
Proof. apply dec_string_roundtrip. Qed.

Lemma credit_print x :
  (micro | dec_num (as_decimal x)) ->
  exists b, dec_of_string (CreditBalance_to_string x) = Some b /\
    same_credit x (CreditBalance_from_decimal b).
Proof.
  intros Hx. destruct (dec_string_roundtrip (as_decimal x)) as (b & Eb & En).
  exists b. split; [done|]. unfold same_credit; simpl. rewrite dec_round_id; [done|].
  by rewrite En.
Qed.

Lemma condition_roundtrip c :
  condition_ok c ->
  exists c', deserialize_condition (fst (serialize_condition c)) (snd (serialize_condition c)) = Ok c' /\
    same_condition c c'.
Proof.
  intros Hc. destruct c as [|hours|r hours|s e|g|x]; simpl;
    unfold deserialize_condition, json_get, assoc; simpl; try by eexists.
  - destruct (parse_print hours) as (b & -> & E). eexists; split; [done|]. done.
  - destruct (parse_print hours) as (b & -> & E). eexists; split; [done|]. done.
  - destruct Hc. rewrite !wrap_small by done. by eexists.
Qed.

Lemma action_roundtrip a :
  action_ok a ->
  exists a', deserialize_action (fst (serialize_action a)) (snd (serialize_action a)) = Ok a' /\
    same_action a a'.
Proof.
  intros Ha. destruct a as [x|x|x|x|x]; simpl;
    unfold deserialize_action, json_get, assoc; simpl.
  - destruct (parse_print x) as (b & -> & E). eexists; split; [done|]. done.
  - destruct (credit_print x Ha) as (b & -> & E). eexists; split; [done|]. done.
  - destruct (parse_print x) as (b & -> & E). eexists; split; [done|]. done.
  - destruct (credit_print x Ha) as (b & -> & E). eexists; split; [done|]. done.
  - destruct (credit_print x Ha) as (b & -> & E). eexists; split; [done|]. done.
Qed.

Lemma same_condition_evaluate c c' usage metadata env w :
  same_condition c c' ->
  RuleCondition_evaluate c usage metadata env w = RuleCondition_evaluate c' usage metadata env w.
Proof.
  destruct c, c'; simpl; intros Hs; simplify_eq; try done.
  - unfold dec_leb. by rewrite Hs.
  - destruct Hs as [-> E]. unfold dec_leb. by rewrite E.
Qed.

Lemma priority_roundtrip z : 0 <= z < 2 ^ 32 -> wrap 32 (wrap_signed 32 z) = z.
Proof.
  intros Hz. unfold wrap, wrap_signed. rewrite (Z.mod_small z) by done.
  case_match; b2p; [by apply Z.mod_small|].
  rewrite <- (Z.mod_add _ 1) by done.
  replace (z - 2 ^ 32 + 1 * 2 ^ 32) with z by lia. by apply Z.mod_small.
Qed.

Definition rule_ok (r : BillingRule) : Prop :=
  condition_ok (rule_condition r) /\ action_ok (rule_action r) /\
  0 <= rule_priority r < 2 ^ 32 /\ (String.length (rule_name r) <= 255)%nat.

Definition same_rule (r r' : BillingRule) : Prop :=
  rule_id r' = rule_id r /\ rule_name r' = rule_name r /\
  rule_description r' = rule_description r /\ same_condition (rule_condition r) (rule_condition r') /\
  same_action (rule_action r) (rule_action r') /\ rule_priority r' = rule_priority r /\
  rule_active r' = rule_active r.

(** A rule stored under a fresh identifier reads back the same, up to
    the representation of its decimals: name, description, condition, action,
    priority and activity survive the column encodings, and its condition holds in
    the same situations. *)
Theorem rule_create_get_roundtrip env w r k :
  fault_free env -> rule_ok r -> rule_id r = uuid_to_string k ->
  billing_rules (db w) !! k = None ->
  wp (SqlRulesRepository_create_rule r;; SqlRulesRepository_get_rule (rule_id r)) env w
    (fun res w' => exists r', res = Ok (Some r') /\ same_rule r r' /\
       forall usage metadata env' w1,
         RuleCondition_evaluate (rule_condition r') usage metadata env' w1 =
         RuleCondition_evaluate (rule_condition r) usage metadata env' w1).
Proof.
  intros Hff (Hc & Ha & Hp & Hn) Eid Hk.
  destruct (condition_roundtrip _ Hc) as (c' & Ec & Sc).
  destruct (action_roundtrip _ Ha) as (a' & Ea & Sa).
  unfold SqlRulesRepository_create_rule, SqlRulesRepository_get_rule, rule_key.
  destruct (serialize_condition (rule_condition r)) as [ct cd], (serialize_action (rule_action r)) as [at' ad].
  simpl in Ec, Ea. wp_step. rewrite Eid, uuid_roundtrip. simpl. wp_steps.
  rename select (db _ = db w) into D. apply wp_sql; [done|]. intros w1. rewrite D.
  unfold varchar. rewrite (proj2 (Nat.leb_le _ _) Hn). simpl. rewrite Hk. intros D1. wp_steps.
  apply wp_sql; [done|]. intros w2. rewrite D1. simpl. rewrite lookup_insert_eq. intros D2.
  wp_steps. unfold rule_of_row; simpl. rewrite Ec, Ea. simpl. wp_steps.
  eexists; split; [done|]. split; [|intros; symmetry; by apply same_condition_evaluate].
  unfold same_rule; simpl. rewrite priority_roundtrip by done. by rewrite Eid.
Qed.

Lemma collect_rules_ok rows : exists rules, collect_rules rows = Ok rules /\
  rule_id <$> rules = (fun '(k, _) => uuid_to_string k) <$> rows.
Proof.
  induction rows as [|[k r] rows (rules & E & IH)]; simpl; [by eexists|]. unfold rule_of_row.
  assert (Hc : exists c, deserialize_condition (ru_condition_type r) (ru_condition_data r) = Ok c)
    by (unfold deserialize_condition; repeat case_match; eauto).
  assert (Ha : exists a, deserialize_action (ru_action_type r) (ru_action_data r) = Ok a)
    by (unfold deserialize_action; repeat case_match; eauto).
  destruct Hc as [c ->], Ha as [a ->]. rewrite E. eexists; split; [done|].
  rewrite !fmap_cons, IH. done.
Qed.

Lemma rule_order_total a b : rule_order a b = false -> rule_order b a = true.
Proof.
  unfold rule_order. intros E. apply orb_false_iff in E as [E1 E2]. b2p.
  destruct (ru_priority (snd a) <? ru_priority (snd b)) eqn:E3; [done|]. b2p. simpl.
  assert (Ep : ru_priority (snd b) = ru_priority (snd a)) by lia.
  rewrite Ep, Z.eqb_refl in *. simpl in *. b2p. apply Z.leb_le. lia.
Qed.

(** Listing the active rules always succeeds and yields every active
    rule exactly once, by descending priority and, among equals, by age. *)
Theorem list_active_rules_spec env w :
  fault_free env ->
  wp SqlRulesRepository_list_active_rules env w (fun res w' => db w' = db w /\
    exists rules rows, res = Ok rules /\
      rule_id <$> rules = (fun '(k, _) => uuid_to_string k) <$> rows /\
      NoDup (fst <$> rows) /\ Sorted (fun a b => rule_order a b = true) rows /\
      forall k r, (k, r) ∈ rows <-> billing_rules (db w) !! k = Some r /\ ru_is_active r = true).
Proof.
  intros Hff. unfold SqlRulesRepository_list_active_rules. wp_step. apply wp_sql; [done|].
  intros w1 D1. set (rows := sort_by _ _) in *.
  destruct (collect_rules_ok rows) as (rules & -> & Eids). simpl. wp_step. split; [done|].
  exists rules, rows. split; [done|]. split; [done|]. split; [|split].
  - unfold rows. rewrite sort_by_Permutation.
    eapply sublist_NoDup; [apply (NoDup_fst_map_to_list (billing_rules (db w)))|].
    apply fmap_sublist, sublist_filter.
  - apply sort_by_Sorted, rule_order_total.
  - intros k r. unfold rows. rewrite sort_by_Permutation, list_elem_of_filter, elem_of_map_to_list.
    tauto.
Qed.

(** A cost component that can be added to three others exactly. *)
Definition component_ok (c : CreditBalance) : Prop :=
  wf_credit c /\ Z.abs (micros c) <= credit_bound / 4.

(** Whatever rules apply, the total of the resulting breakdown is base
    plus usage plus overage minus discounts, cut off at zero: rules never make a
    cost negative. *)
Theorem rules_total_spec cost rules :
  let c := apply_rule_actions cost rules in
  component_ok (base_cost c) -> component_ok (usage_cost c) ->
  component_ok (discounts c) -> component_ok (overage_charges c) ->
  micros (total_cost c) = Z.max 0 (micros (base_cost c) + micros (usage_cost c)
                                   + micros (overage_charges c) - micros (discounts c)).
Proof.
  unfold apply_rule_actions. set (c0 := foldl _ _ _). simpl.
  intros [W1 B1] [W2 B2] [W3 B3] [W4 B4].
  change (credit_bound / 4) with (25 * 10 ^ 26) in *.
  unfold CostBreakdown_calculate_total.
  assert (W12 : wf_credit (CreditBalance_add (base_cost c0) (usage_cost c0)))
    by (apply wf_add; [done..|]; unfold credit_bound; lia).
  assert (W124 : wf_credit (CreditBalance_add
      (CreditBalance_add (base_cost c0) (usage_cost c0)) (overage_charges c0))).
  { apply wf_add; [done..|]. rewrite micros_add by done. unfold credit_bound; lia. }
  rewrite micros_monus by done. by rewrite !micros_add by done.
Qed.
End Rules.

(** ** Witnesses *)

Section Witnesses.
Import Scenario.

Local Ltac by_run := vm_compute; (reflexivity || discriminate).

Definition h100 : BillingPackage :=
  BillingPackage_new "h100" "H100 GPU" "NVIDIA H100 GPU instances"
    {| as_decimal := 35 * 10 ^ 27 |} "H100".

(** [n] tenths of a GPU hour. *)
Definition tenths (n : Z) : UsageMetrics := {|
  gpu_hours := n * 10 ^ 27; cpu_hours := 0; memory_gb_hours := 0; storage_gb_hours := 0;
  network_gb := 0; disk_io_gb := 0 |}.

Lemma h100_billable n : n <= 10 ^ 6 -> billable h100 (tenths n).
Proof.
  intros Hn. split; [split; [exists (35 * 10 ^ 5); by_run|by_run]|]. split; [split; by_run|].
  simpl. unfold id, dec_scale. lia.
Qed.

Lemma package_cost_witness :
  micros (total_cost (BillingPackage_calculate_cost h100 (tenths 5))) = 3500000 /\
  3500000 <= micros (total_cost (BillingPackage_calculate_cost h100 (tenths 100))) /\
  micros (total_cost (BillingPackage_calculate_cost h100 (tenths 100))) = 35000000.
Proof.
  destruct (package_cost_bounds h100 (tenths 5) (tenths 100) (h100_billable 5 ltac:(lia))
    (h100_billable 100 ltac:(lia)) ltac:(simpl; unfold id; lia)) as ([H1 H2] & H3 & _).
  assert (E : micros (total_cost (BillingPackage_calculate_cost h100 (tenths 5))) = 3500000).
  { rewrite (H3 ltac:(simpl; unfold id, dec_scale; lia)). by_run. }
  rewrite E in H2. split; [exact E|]. split; [exact H2|by_run].
Defined.

Lemma time_range_witness : in_time_range 22 6 23 = true /\ in_time_range 22 6 12 = false.
Proof. rewrite !time_range_cyclic by lia. split; reflexivity. Defined.

Definition rule0 : BillingRule := {|
  rule_id := HexString.of_N 5; rule_name := "bulk"; rule_description := "bulk discount";
  rule_condition := MinimumUsage (10 ^ 28); rule_action := ApplyCredit (credits_of 2);
  rule_priority := 3000000000; rule_active := true |}.

Lemma rule_roundtrip_witness :
  exists r', fst ((SqlRulesRepository_create_rule rule0;; SqlRulesRepository_get_rule (rule_id rule0))
                    env w0) = Ok (Some r') /\ same_rule rule0 r'.
Proof.
  assert (Hok : rule_ok rule0).
  { split; [exact I|]. split; [exists (2 * 10 ^ 6); by_run|]. split; [split; by_run|]. simpl. lia. }
  pose proof (rule_create_get_roundtrip env w0 rule0 5%N env_ok Hok eq_refl eq_refl) as Hp.
  run_ok Hp. destruct Hp as (o & Eo & r' & Er & Hs & _). injection Er as ->.
  exists r'. split; [exact Eo|exact Hs].
Defined.

Definition rules_world : World :=
  snd (SqlRulesRepository_create_rule rule0 env w0).

Lemma list_active_rules_witness :
  exists rules, fst (SqlRulesRepository_list_active_rules env rules_world) = Ok rules /\
    rule_id <$> rules = [HexString.of_N 5].
Proof.
  pose proof (list_active_rules_spec env rules_world env_ok) as Hp.
  run_ok Hp. destruct Hp as (l & El & _ & rules & rows & Er & Eids & _).
  injection Er as ->. exists rules. split; [exact El|].
  assert (E : rule_id <$> rules = from_option (fmap rule_id) [] (ok_value
    (fst (SqlRulesRepository_list_active_rules env rules_world)))) by (rewrite El; reflexivity).
  rewrite E. vm_compute. reflexivity.
Defined.

Lemma rules_total_witness :
  let cost := BillingPackage_calculate_cost h100 (tenths 100) in
  micros (total_cost (apply_rule_actions cost [rule0])) = 33000000.
Proof.
  intros cost. rewrite (rules_total_spec cost [rule0]); [by_run|..];
    (split; [split; [|by_run]|by_run]);
    [exists 35000000|exists 0|exists 2000000|exists 0]; by_run.
Defined.
End Witnesses.
