(* ===== verification/Rentals.v ===== *)
(** * Billing: rentals (crates/basilica-billing/src/domain/rentals.rs, storage/rentals.rs)

    The [Rental] entity with its guarded state changes, the [RentalRepository]
    trait, the [RentalManager] over it, and the SQL repository.  The aggregate
    query [get_rental_statistics] is not modelled. *)

From Stdlib Require Import ZArith.
From stdpp Require Import base gmap strings list numbers.
From S2P Require Import Prelude Float64 Decimal BillingTypes BillingWorld.
Local Open Scope Z_scope.

Section Rentals.
Context `{Decimal} `{UuidText}.

(** ** The entity *)

Record Rental := {
  rental_id : RentalId;
  rental_user_id : UserId;
  rental_executor_id : string;
  rental_validator_id : string;
  rental_package_id : PackageId;
  rental_reservation_id : option ReservationId;
  rental_state : RentalState;
  rental_resource_spec : ResourceSpec;
  rental_usage_metrics : UsageMetrics;
  rental_cost_breakdown : CostBreakdown;
  rental_started_at : DateTime;
  rental_updated_at : DateTime;
  rental_ended_at : option DateTime;
  rental_metadata : gmap string string;
  rental_created_at : DateTime;
  rental_last_updated : DateTime;
  rental_actual_start_time : option DateTime;
  rental_actual_end_time : option DateTime;
  rental_actual_cost : CreditBalance;
}.

Definition CostBreakdown_zero : CostBreakdown := {|
  base_cost := CreditBalance_zero;
  usage_cost := CreditBalance_zero;
  discounts := CreditBalance_zero;
  overage_charges := CreditBalance_zero;
  total_cost := CreditBalance_zero |}.

Definition Rental_new (user_id : UserId) (executor_id validator_id : string)
    (package_id : PackageId) (resource_spec : ResourceSpec)
    (reservation_id : option ReservationId) : M Rental :=
  t ← now;
  id ← new_v4;
  mret {|
    rental_id := id;
    rental_user_id := user_id;
    rental_executor_id := executor_id;
    rental_validator_id := validator_id;
    rental_package_id := package_id;
    rental_reservation_id := reservation_id;
    rental_state := Pending;
    rental_resource_spec := resource_spec;
    rental_usage_metrics := UsageMetrics_zero;
    rental_cost_breakdown := CostBreakdown_zero;
    rental_started_at := t;
    rental_updated_at := t;
    rental_ended_at := None;
    rental_metadata := ∅;
    rental_created_at := t;
    rental_last_updated := t;
    rental_actual_start_time := None;
    rental_actual_end_time := None;
    rental_actual_cost := CreditBalance_zero |}.

(** Field assignments [self.f = v]. *)
Definition Rental_with_id (v : RentalId) (r : Rental) : Rental := {|
  rental_id := v; rental_user_id := rental_user_id r;
  rental_executor_id := rental_executor_id r; rental_validator_id := rental_validator_id r;
  rental_package_id := rental_package_id r; rental_reservation_id := rental_reservation_id r;
  rental_state := rental_state r; rental_resource_spec := rental_resource_spec r;
  rental_usage_metrics := rental_usage_metrics r;
  rental_cost_breakdown := rental_cost_breakdown r; rental_started_at := rental_started_at r;
  rental_updated_at := rental_updated_at r; rental_ended_at := rental_ended_at r;
  rental_metadata := rental_metadata r; rental_created_at := rental_created_at r;
  rental_last_updated := rental_last_updated r;
  rental_actual_start_time := rental_actual_start_time r;
  rental_actual_end_time := rental_actual_end_time r;
  rental_actual_cost := rental_actual_cost r |}.
Definition Rental_with_state (v : RentalState) (r : Rental) : Rental := {|
  rental_id := rental_id r; rental_user_id := rental_user_id r;
  rental_executor_id := rental_executor_id r; rental_validator_id := rental_validator_id r;
  rental_package_id := rental_package_id r; rental_reservation_id := rental_reservation_id r;
  rental_state := v; rental_resource_spec := rental_resource_spec r;
  rental_usage_metrics := rental_usage_metrics r;
  rental_cost_breakdown := rental_cost_breakdown r; rental_started_at := rental_started_at r;
  rental_updated_at := rental_updated_at r; rental_ended_at := rental_ended_at r;
  rental_metadata := rental_metadata r; rental_created_at := rental_created_at r;
  rental_last_updated := rental_last_updated r;
  rental_actual_start_time := rental_actual_start_time r;
  rental_actual_end_time := rental_actual_end_time r;
  rental_actual_cost := rental_actual_cost r |}.
Definition Rental_with_package_id (v : PackageId) (r : Rental) : Rental := {|
  rental_id := rental_id r; rental_user_id := rental_user_id r;
  rental_executor_id := rental_executor_id r; rental_validator_id := rental_validator_id r;
  rental_package_id := v; rental_reservation_id := rental_reservation_id r;
  rental_state := rental_state r; rental_resource_spec := rental_resource_spec r;
  rental_usage_metrics := rental_usage_metrics r;
  rental_cost_breakdown := rental_cost_breakdown r; rental_started_at := rental_started_at r;
  rental_updated_at := rental_updated_at r; rental_ended_at := rental_ended_at r;
  rental_metadata := rental_metadata r; rental_created_at := rental_created_at r;
  rental_last_updated := rental_last_updated r;
  rental_actual_start_time := rental_actual_start_time r;
  rental_actual_end_time := rental_actual_end_time r;
  rental_actual_cost := rental_actual_cost r |}.
Definition Rental_with_usage_metrics (v : UsageMetrics) (r : Rental) : Rental := {|
  rental_id := rental_id r; rental_user_id := rental_user_id r;
  rental_executor_id := rental_executor_id r; rental_validator_id := rental_validator_id r;
  rental_package_id := rental_package_id r; rental_reservation_id := rental_reservation_id r;
  rental_state := rental_state r; rental_resource_spec := rental_resource_spec r;
  rental_usage_metrics := v; rental_cost_breakdown := rental_cost_breakdown r;
  rental_started_at := rental_started_at r; rental_updated_at := rental_updated_at r;
  rental_ended_at := rental_ended_at r; rental_metadata := rental_metadata r;
  rental_created_at := rental_created_at r; rental_last_updated := rental_last_updated r;
  rental_actual_start_time := rental_actual_start_time r;
  rental_actual_end_time := rental_actual_end_time r;
  rental_actual_cost := rental_actual_cost r |}.
Definition Rental_with_cost_breakdown (v : CostBreakdown) (r : Rental) : Rental := {|
  rental_id := rental_id r; rental_user_id := rental_user_id r;
  rental_executor_id := rental_executor_id r; rental_validator_id := rental_validator_id r;
  rental_package_id := rental_package_id r; rental_reservation_id := rental_reservation_id r;
  rental_state := rental_state r; rental_resource_spec := rental_resource_spec r;
  rental_usage_metrics := rental_usage_metrics r; rental_cost_breakdown := v;
  rental_started_at := rental_started_at r; rental_updated_at := rental_updated_at r;
  rental_ended_at := rental_ended_at r; rental_metadata := rental_metadata r;
  rental_created_at := rental_created_at r; rental_last_updated := rental_last_updated r;
  rental_actual_start_time := rental_actual_start_time r;
  rental_actual_end_time := rental_actual_end_time r;
  rental_actual_cost := rental_actual_cost r |}.
Definition Rental_with_updated (v : DateTime) (r : Rental) : Rental := {|
  rental_id := rental_id r; rental_user_id := rental_user_id r;
  rental_executor_id := rental_executor_id r; rental_validator_id := rental_validator_id r;
  rental_package_id := rental_package_id r; rental_reservation_id := rental_reservation_id r;
  rental_state := rental_state r; rental_resource_spec := rental_resource_spec r;
  rental_usage_metrics := rental_usage_metrics r;
  rental_cost_breakdown := rental_cost_breakdown r; rental_started_at := rental_started_at r;
  rental_updated_at := v; rental_ended_at := rental_ended_at r;
  rental_metadata := rental_metadata r; rental_created_at := rental_created_at r;
  rental_last_updated := v; rental_actual_start_time := rental_actual_start_time r;
  rental_actual_end_time := rental_actual_end_time r;
  rental_actual_cost := rental_actual_cost r |}.
Definition Rental_with_ended_at (v : option DateTime) (r : Rental) : Rental := {|
  rental_id := rental_id r; rental_user_id := rental_user_id r;
  rental_executor_id := rental_executor_id r; rental_validator_id := rental_validator_id r;
  rental_package_id := rental_package_id r; rental_reservation_id := rental_reservation_id r;
  rental_state := rental_state r; rental_resource_spec := rental_resource_spec r;
  rental_usage_metrics := rental_usage_metrics r;
  rental_cost_breakdown := rental_cost_breakdown r; rental_started_at := rental_started_at r;
  rental_updated_at := rental_updated_at r; rental_ended_at := v;
  rental_metadata := rental_metadata r; rental_created_at := rental_created_at r;
  rental_last_updated := rental_last_updated r;
  rental_actual_start_time := rental_actual_start_time r;
  rental_actual_end_time := rental_actual_end_time r;
  rental_actual_cost := rental_actual_cost r |}.
Definition Rental_with_metadata (v : gmap string string) (r : Rental) : Rental := {|
  rental_id := rental_id r; rental_user_id := rental_user_id r;
  rental_executor_id := rental_executor_id r; rental_validator_id := rental_validator_id r;
  rental_package_id := rental_package_id r; rental_reservation_id := rental_reservation_id r;
  rental_state := rental_state r; rental_resource_spec := rental_resource_spec r;
  rental_usage_metrics := rental_usage_metrics r;
  rental_cost_breakdown := rental_cost_breakdown r; rental_started_at := rental_started_at r;
  rental_updated_at := rental_updated_at r; rental_ended_at := rental_ended_at r;
  rental_metadata := v; rental_created_at := rental_created_at r;
  rental_last_updated := rental_last_updated r;
  rental_actual_start_time := rental_actual_start_time r;
  rental_actual_end_time := rental_actual_end_time r;
  rental_actual_cost := rental_actual_cost r |}.
Definition Rental_with_actual_start_time (v : option DateTime) (r : Rental) : Rental := {|
  rental_id := rental_id r; rental_user_id := rental_user_id r;
  rental_executor_id := rental_executor_id r; rental_validator_id := rental_validator_id r;
  rental_package_id := rental_package_id r; rental_reservation_id := rental_reservation_id r;
  rental_state := rental_state r; rental_resource_spec := rental_resource_spec r;
  rental_usage_metrics := rental_usage_metrics r;
  rental_cost_breakdown := rental_cost_breakdown r; rental_started_at := rental_started_at r;
  rental_updated_at := rental_updated_at r; rental_ended_at := rental_ended_at r;
  rental_metadata := rental_metadata r; rental_created_at := rental_created_at r;
  rental_last_updated := rental_last_updated r; rental_actual_start_time := v;
  rental_actual_end_time := rental_actual_end_time r;
  rental_actual_cost := rental_actual_cost r |}.
Definition Rental_with_actual_end_time (v : option DateTime) (r : Rental) : Rental := {|
  rental_id := rental_id r; rental_user_id := rental_user_id r;
  rental_executor_id := rental_executor_id r; rental_validator_id := rental_validator_id r;
  rental_package_id := rental_package_id r; rental_reservation_id := rental_reservation_id r;
  rental_state := rental_state r; rental_resource_spec := rental_resource_spec r;
  rental_usage_metrics := rental_usage_metrics r;
  rental_cost_breakdown := rental_cost_breakdown r; rental_started_at := rental_started_at r;
  rental_updated_at := rental_updated_at r; rental_ended_at := rental_ended_at r;
  rental_metadata := rental_metadata r; rental_created_at := rental_created_at r;
  rental_last_updated := rental_last_updated r;
  rental_actual_start_time := rental_actual_start_time r; rental_actual_end_time := v;
  rental_actual_cost := rental_actual_cost r |}.
Definition Rental_with_actual_cost (v : CreditBalance) (r : Rental) : Rental := {|
  rental_id := rental_id r; rental_user_id := rental_user_id r;
  rental_executor_id := rental_executor_id r; rental_validator_id := rental_validator_id r;
  rental_package_id := rental_package_id r; rental_reservation_id := rental_reservation_id r;
  rental_state := rental_state r; rental_resource_spec := rental_resource_spec r;
  rental_usage_metrics := rental_usage_metrics r;
  rental_cost_breakdown := rental_cost_breakdown r; rental_started_at := rental_started_at r;
  rental_updated_at := rental_updated_at r; rental_ended_at := rental_ended_at r;
  rental_metadata := rental_metadata r; rental_created_at := rental_created_at r;
  rental_last_updated := rental_last_updated r;
  rental_actual_start_time := rental_actual_start_time r;
  rental_actual_end_time := rental_actual_end_time r; rental_actual_cost := v |}.

Definition Rental_duration (r : Rental) : M Duration :=
  finish ← (match rental_ended_at r with Some t => mret t | None => now end);
  mret (finish - rental_started_at r).

Definition Rental_is_active (r : Rental) : bool := RentalState_is_active (rental_state r).

Definition Rental_transition_to (new_state : RentalState) (r : Rental) : M Rental :=
  if negb (RentalState_can_transition_to (rental_state r) new_state) then
    throw (InvalidStateTransition (RentalState_to_string (rental_state r))
                                  (RentalState_to_string new_state))
  else
    t ← now;
    let r1 := Rental_with_updated t (Rental_with_state new_state r) in
    if RentalState_is_terminal new_state && negb (bool_decide (is_Some (rental_ended_at r1)))
    then mret (Rental_with_ended_at (Some t) r1)
    else mret r1.

Definition Rental_update_usage (metrics : UsageMetrics) (r : Rental) : M Rental :=
  t ← now;
  mret (Rental_with_updated t
          (Rental_with_usage_metrics (UsageMetrics_add (rental_usage_metrics r) metrics) r)).

Definition Rental_update_cost (cost : CostBreakdown) (r : Rental) : M Rental :=
  t ← now;
  mret (Rental_with_updated t (Rental_with_cost_breakdown cost r)).

Definition Rental_calculate_current_cost (rate_per_hour : CreditBalance) (r : Rental)
    : M CreditBalance :=
  d ← Rental_duration r;
  let hours := f64_div (f64_of_Z (Duration_num_seconds d)) (f64_of_Z 3600) in
  let hours_decimal := default dec_zero (dec_of_f64 hours) in
  mret (CreditBalance_multiply rate_per_hour hours_decimal).

(** ** The repository trait *)

Class RentalRepository := {
  rrepo_create_rental : Rental -> M unit;
  rrepo_get_rental : RentalId -> M (option Rental);
  rrepo_update_rental : Rental -> M unit;
  rrepo_get_active_rentals : option UserId -> M (list Rental);
  rrepo_get_rentals_by_state : RentalState -> M (list Rental);
}.

(** ** The manager *)

Section Manager.
Context `{!RentalRepository}.

Definition RentalManager_create_rental (user_id : UserId) (executor_id validator_id : string)
    (package_id : PackageId) (resource_spec : ResourceSpec)
    (reservation_id : option ReservationId) : M RentalId :=
  rental ← Rental_new user_id executor_id validator_id package_id resource_spec reservation_id;
  rrepo_create_rental rental;;
  mret (rental_id rental).

Definition RentalManager_get_rental (id : RentalId) : M Rental :=
  found ← rrepo_get_rental id;
  ok_or (RentalNotFound (uuid_to_string id)) found.

Definition RentalManager_update_rental_state (id : RentalId) (new_state : RentalState)
    : M unit :=
  rental ← RentalManager_get_rental id;
  rental ← Rental_transition_to new_state rental;
  rrepo_update_rental rental.

Definition RentalManager_update_rental_usage (id : RentalId) (metrics : UsageMetrics)
    : M unit :=
  rental ← RentalManager_get_rental id;
  rental ← Rental_update_usage metrics rental;
  rrepo_update_rental rental.

Definition RentalManager_update_rental_cost (id : RentalId) (cost : CostBreakdown) : M unit :=
  rental ← RentalManager_get_rental id;
  rental ← Rental_update_cost cost rental;
  rrepo_update_rental rental.

Definition RentalManager_get_active_rentals (user_id : UserId) : M (list Rental) :=
  rrepo_get_active_rentals (Some user_id).

Definition RentalManager_get_all_active_rentals : M (list Rental) :=
  rrepo_get_active_rentals None.

Definition RentalManager_terminate_rental (id : RentalId) (reason : string) : M unit :=
  rental ← RentalManager_get_rental id;
  let rental :=
    Rental_with_metadata (<["termination_reason" := reason]> (rental_metadata rental)) rental in
  rental ← (if RentalState_can_transition_to (rental_state rental) Terminating then
              r1 ← Rental_transition_to Terminating rental;
              Rental_transition_to Completed r1
            else mret rental);
  rrepo_update_rental rental.

Definition RentalManager_finalize_rental (id : RentalId) : M Rental :=
  rental ← RentalManager_get_rental id;
  rental ← (if decide (rental_state rental = Active)
            then Rental_transition_to Terminating rental else mret rental);
  rental ← (if decide (rental_state rental = Terminating)
            then Rental_transition_to Completed rental
            else if decide (rental_state rental <> Completed)
            then throw (InvalidStateTransition (RentalState_to_string (rental_state rental))
                                               (RentalState_to_string Completed))
            else mret rental);
  rrepo_update_rental rental;;
  mret rental.

Definition RentalManager_update_status (id : RentalId) (new_state : RentalState) : M Rental :=
  rental ← RentalManager_get_rental id;
  rental ← Rental_transition_to new_state rental;
  rrepo_update_rental rental;;
  mret rental.
End Manager.

(** ** The SQL repository *)

Definition parse_rental_state (state_str : string) : RentalState :=
  if String.eqb state_str "pending" then Pending
  else if String.eqb state_str "active" then Active
  else if String.eqb state_str "suspended" then Suspended
  else if String.eqb state_str "terminating" then Terminating
  else if String.eqb state_str "completed" then Completed
  else Failed.

(** The columns hold what [serde_json] decodes, so the fall-backs of the two JSON
    columns are never taken. *)
Definition rental_from_row (id : RentalId) (r : rental_row) : Rental :=
  let state := parse_rental_state (rt_status r) in
  let hourly_rate := dec_of_numeric 2 (rt_hourly_rate r) in
  let total := dec_of_numeric 2 <$> rt_total_cost r in
  {| rental_id := id;
     rental_user_id := rt_user_id r;
     rental_executor_id := rt_executor_id r;
     rental_validator_id := default "" (rt_validator_id r);
     rental_package_id := default PackageId_custom (rt_package_id r);
     rental_reservation_id := None;
     rental_state := state;
     rental_resource_spec := rt_resource_spec r;
     rental_usage_metrics := UsageMetrics_zero;
     rental_cost_breakdown := {|
       base_cost := CreditBalance_from_decimal hourly_rate;
       usage_cost := CreditBalance_zero;
       discounts := CreditBalance_zero;
       overage_charges := CreditBalance_zero;
       total_cost := CreditBalance_from_decimal (default dec_zero total) |};
     rental_started_at := rt_start_time r;
     rental_updated_at := rt_updated_at r;
     rental_ended_at := rt_end_time r;
     rental_metadata := rt_metadata r;
     rental_created_at := rt_created_at r;
     rental_last_updated := rt_updated_at r;
     rental_actual_start_time := Some (rt_start_time r);
     rental_actual_end_time := rt_end_time r;
     rental_actual_cost := from_option CreditBalance_from_decimal CreditBalance_zero total |}.

Definition SqlRentalRepository_create_rental (rental : Rental) : M unit :=
  t ← now;
  sql (DatabaseError "create_rental") (fun d =>
    user ← varchar 255 (rental_user_id rental);
    executor ← varchar 255 (rental_executor_id rental);
    validator ← varchar 255 (rental_validator_id rental);
    package ← varchar 100 (rental_package_id rental);
    hourly_rate ← numeric_of_dec 10 2 (as_decimal (base_cost (rental_cost_breakdown rental)));
    match rentals d !! rental_id rental with
    | Some _ => None
    | None =>
        Some (tt, set_rentals (<[rental_id rental := {|
          rt_user_id := user;
          rt_executor_id := executor;
          rt_validator_id := if String.eqb validator "" then None else Some validator;
          rt_package_id := Some package;
          rt_status := RentalState_to_string (rental_state rental);
          rt_resource_spec := rental_resource_spec rental;
          rt_hourly_rate := hourly_rate;
          rt_start_time := rental_started_at rental;
          rt_end_time := None;
          rt_max_duration_hours := 24;
          rt_total_cost := None;
          rt_metadata := rental_metadata rental;
          rt_created_at := t;
          rt_updated_at := t |}]> (rentals d)) d)
    end).

Definition SqlRentalRepository_get_rental (id : RentalId) : M (option Rental) :=
  row ← sql (DatabaseError "get_rental") (fun d => Some (rentals d !! id, d));
  mret (rental_from_row id <$> row).

(** The columns [update_rental] writes; a total of zero is stored as [NULL]. *)
Definition SqlRentalRepository_update_row (rental : Rental) (t : DateTime) (r : rental_row)
    : option rental_row :=
  hourly_rate ← numeric_of_dec 10 2 (as_decimal (base_cost (rental_cost_breakdown rental)));
  let total_cost := as_decimal (rental_actual_cost rental) in
  total ← (if dec_eqb total_cost dec_zero then Some None
           else Some <$> numeric_of_dec 10 2 total_cost);
  Some {|
    rt_user_id := rt_user_id r;
    rt_executor_id := rt_executor_id r;
    rt_validator_id := rt_validator_id r;
    rt_package_id := rt_package_id r;
    rt_status := RentalState_to_string (rental_state rental);
    rt_resource_spec := rental_resource_spec rental;
    rt_hourly_rate := hourly_rate;
    rt_start_time := rt_start_time r;
    rt_end_time := rental_ended_at rental;
    rt_max_duration_hours := rt_max_duration_hours r;
    rt_total_cost := total;
    rt_metadata := rental_metadata rental;
    rt_created_at := rt_created_at r;
    rt_updated_at := t |}.

Definition SqlRentalRepository_update_rental (rental : Rental) : M unit :=
  t ← now;
  affected ← sql (DatabaseError "update_rental") (fun d =>
    match rentals d !! rental_id rental with
    | None => Some (0, d)
    | Some r =>
        r' ← SqlRentalRepository_update_row rental t r;
        Some (1, set_rentals (<[rental_id rental := r']> (rentals d)) d)
    end);
  if affected =? 0 then throw (RentalNotFound (uuid_to_string (rental_id rental)))
  else mret tt.

(** [ORDER BY start_time DESC]. *)
Definition latest_start_first (a b : uuid * rental_row) : bool :=
  rt_start_time (snd b) <=? rt_start_time (snd a).

Definition SqlRentalRepository_get_active_rentals (user_id : option UserId) : M (list Rental) :=
  rows ← sql (DatabaseError "get_active_rentals") (fun d =>
    Some (sort_by latest_start_first
            (filter (fun '(_, r) =>
               rt_user_id r = default (rt_user_id r) user_id /\
               (rt_status r = "active" \/ rt_status r = "pending"))
               (map_to_list (rentals d))), d));
  mret ((fun '(k, r) => rental_from_row k r) <$> rows).

Definition SqlRentalRepository_get_rentals_by_state (state : RentalState) : M (list Rental) :=
  rows ← sql (DatabaseError "get_rentals_by_state") (fun d =>
    Some (sort_by latest_start_first
            (filter (fun '(_, r) => rt_status r = RentalState_to_string state)
               (map_to_list (rentals d))), d));
  mret ((fun '(k, r) => rental_from_row k r) <$> rows).

#[global] Instance SqlRentalRepository : RentalRepository := {|
  rrepo_create_rental := SqlRentalRepository_create_rental;
  rrepo_get_rental := SqlRentalRepository_get_rental;
  rrepo_update_rental := SqlRentalRepository_update_rental;
  rrepo_get_active_rentals := SqlRentalRepository_get_active_rentals;
  rrepo_get_rentals_by_state := SqlRentalRepository_get_rentals_by_state;
|}.
End Rentals.

Arguments RentalRepository {_} : assert.
