(* ===== verification/RentalFacts.v ===== *)
(** * Billing: what the rental manager does to the rentals table

    The invariant of the table, the evolution every manager operation respects
    under arbitrary statement failures (rows are never dropped, their identity
    columns never change, their status moves along the life cycle), and the exact
    effect of each operation when no statement fails. *)

From Stdlib Require Import ZArith.
From stdpp Require Import base gmap strings list numbers.
From S2P Require Import Prelude Float64 Decimal BillingTypes BillingWorld Rentals.
Local Open Scope Z_scope.

(** ** The invariant *)

(** The unscaled values of a [NUMERIC(10, 2)] column. *)
Definition cents_ok (z : Z) : Prop := Z.abs z < 10 ^ 10.

Definition rental_row_ok (r : rental_row) : Prop :=
  (exists s, rt_status r = RentalState_to_string s /\
     (RentalState_is_terminal s = true -> is_Some (rt_end_time r))) /\
  cents_ok (rt_hourly_rate r) /\
  match rt_total_cost r with Some z => cents_ok z | None => True end.

Definition rentals_ok (d : Db) : Prop := map_Forall (fun _ => rental_row_ok) (rentals d).

(** ** Evolution *)

Definition same_identity (r r' : rental_row) : Prop :=
  rt_user_id r' = rt_user_id r /\ rt_executor_id r' = rt_executor_id r /\
  rt_validator_id r' = rt_validator_id r /\ rt_package_id r' = rt_package_id r /\
  rt_start_time r' = rt_start_time r /\ rt_created_at r' = rt_created_at r.

Definition row_evolves (r r' : rental_row) : Prop :=
  same_identity r r' /\ lifecycle (parse_rental_state (rt_status r)) (parse_rental_state (rt_status r')).

Definition rentals_evolve (d d' : Db) : Prop :=
  forall id r, rentals d !! id = Some r ->
    exists r', rentals d' !! id = Some r' /\ row_evolves r r'.

Lemma lifecycle_trans s t u : lifecycle s t -> lifecycle t u -> lifecycle s u.
Proof. induction 1; [done|]. intros. econstructor; eauto. Qed.

#[export] Instance row_evolves_preorder : PreOrder row_evolves.
Proof.
  split.
  - intros r. split; [done|constructor].
  - intros r1 r2 r3 [(?&?&?&?&?&?) L1] [(?&?&?&?&?&?) L2].
    split; [repeat split; congruence|]. by eapply lifecycle_trans.
Qed.

#[export] Instance rentals_evolve_preorder : PreOrder rentals_evolve.
Proof.
  split.
  - intros d id r Hr. by exists r.
  - intros d1 d2 d3 H1 H2 id r Hr. destruct (H1 id r Hr) as (r2 & E2 & L2).
    destruct (H2 id r2 E2) as (r3 & E3 & L3). exists r3. split; [done|]. by etrans.
Qed.

Lemma rentals_evolve_put d id r r' :
  rentals d !! id = Some r -> row_evolves r r' ->
  rentals_evolve d (set_rentals (<[id := r']> (rentals d)) d).
Proof.
  intros Hr He id0 r0 Hr0. simpl. destruct (decide (id = id0)) as [<-|].
  - simplify_eq. rewrite lookup_insert_eq. eauto.
  - rewrite lookup_insert_ne by done. by exists r0.
Qed.

Lemma rentals_evolve_new d id r :
  rentals d !! id = None -> rentals_evolve d (set_rentals (<[id := r]> (rentals d)) d).
Proof.
  intros Hr id0 r0 Hr0. simpl. rewrite lookup_insert_ne by congruence. by exists r0.
Qed.

Lemma rentals_ok_put d id r :
  rentals_ok d -> rental_row_ok r -> rentals_ok (set_rentals (<[id := r]> (rentals d)) d).
Proof. intros Hd Hr. by apply map_Forall_insert_2. Qed.

Lemma parse_state_string s : parse_rental_state (RentalState_to_string s) = s.
Proof. by destruct s. Qed.

Local Arguments CreditBalance_from_decimal : simpl never.
Local Arguments as_decimal : simpl never.

Section Facts.
Context `{DecimalLaws} `{UuidText}.

(** Reading a [NUMERIC(10, 2)] value and writing it back changes nothing. *)
Lemma cents_num z :
  cents_ok z -> dec_num (as_decimal (CreditBalance_from_decimal (dec_of_numeric 2 z))) = z * 10 ^ 26.
Proof.
  intros Hz. unfold cents_ok in Hz. change (as_decimal (CreditBalance_from_decimal ?d)) with (dec_round_dp 6 d).
  assert (E : dec_num (dec_of_numeric 2 z) = z * 10 ^ 26)
    by (rewrite dec_num_of_numeric by lia; done).
  rewrite dec_round_id; [done|]. rewrite E. exists (z * 10 ^ 4). lia.
Qed.

Lemma cents_roundtrip z :
  cents_ok z ->
  numeric_of_dec 10 2 (as_decimal (CreditBalance_from_decimal (dec_of_numeric 2 z))) = Some z.
Proof.
  intros Hz. unfold numeric_of_dec. rewrite cents_num by done.
  rewrite round_half_away_exact by done. by rewrite (proj2 (Z.ltb_lt _ _)).
Qed.

Lemma numeric_cents p : forall a z, numeric_of_dec 10 p a = Some z -> cents_ok z.
Proof.
  intros a z. unfold numeric_of_dec, cents_ok. case_match eqn:E; [|done].
  intros [= <-]. by apply Z.ltb_lt.
Qed.

(** A stored total of zero reads back as zero and is written back as [NULL]. *)
Definition norm_total (o : option Z) : option Z :=
  match o with Some z => if z =? 0 then None else Some z | None => None end.

(** The row that results from writing back a loaded rental in which only the
    state, the end time, the resources and the metadata may have changed. *)
Definition written_row (rental : Rental) (t : DateTime) (r : rental_row) : rental_row := {|
  rt_user_id := rt_user_id r; rt_executor_id := rt_executor_id r;
  rt_validator_id := rt_validator_id r; rt_package_id := rt_package_id r;
  rt_status := RentalState_to_string (rental_state rental);
  rt_resource_spec := rental_resource_spec rental;
  rt_hourly_rate := rt_hourly_rate r; rt_start_time := rt_start_time r;
  rt_end_time := rental_ended_at rental;
  rt_max_duration_hours := rt_max_duration_hours r;
  rt_total_cost := norm_total (rt_total_cost r);
  rt_metadata := rental_metadata rental;
  rt_created_at := rt_created_at r; rt_updated_at := t |}.

Lemma update_row_written id r rental t :
  rental_row_ok r ->
  base_cost (rental_cost_breakdown rental) =
    base_cost (rental_cost_breakdown (rental_from_row id r)) ->
  rental_actual_cost rental = rental_actual_cost (rental_from_row id r) ->
  SqlRentalRepository_update_row rental t r = Some (written_row rental t r).
Proof.
  intros (_ & Hh & Ht) Eb Ea. unfold SqlRentalRepository_update_row. rewrite Eb, Ea. simpl.
  rewrite cents_roundtrip by done. simpl. unfold written_row, norm_total.
  destruct (rt_total_cost r) as [z|]; simpl.
  - unfold dec_eqb. rewrite cents_num, dec_num_zero by done.
    destruct (z =? 0) eqn:Ez; b2p; subst; simpl; [done|].
    rewrite (proj2 (Z.eqb_neq _ _)) by lia. rewrite cents_roundtrip by done. done.
  - unfold dec_eqb. by rewrite Z.eqb_refl.
Qed.

(** ** Every write-back respects the evolution *)

(** A modification of a loaded rental that the life cycle allows. *)
Definition allowed_change (r r' : Rental) : Prop :=
  rental_id r' = rental_id r /\ lifecycle (rental_state r) (rental_state r') /\
  (RentalState_is_terminal (rental_state r') = true ->
   RentalState_is_terminal (rental_state r) = true /\ rental_ended_at r' = rental_ended_at r \/
   is_Some (rental_ended_at r')).

Lemma update_row_evolves id r rental t r' :
  rental_row_ok r -> allowed_change (rental_from_row id r) rental ->
  SqlRentalRepository_update_row rental t r = Some r' ->
  row_evolves r r' /\ rental_row_ok r'.
Proof.
  intros Hrow (_ & Hl & Hend). unfold SqlRentalRepository_update_row.
  intros (h & Eh & (total & Et & [= <-])%bind_Some)%bind_Some.
  split; [split; [done|]; simpl; by rewrite parse_state_string|].
  split; [|split; simpl; [by eapply numeric_cents|]].
  - exists (rental_state rental). split; [done|]. simpl. intros Hterm.
    destruct (Hend Hterm) as [[Ht ->]|?]; [|done]. simpl in *.
    destruct Hrow as ((s & Es & Hs) & _). rewrite Es, parse_state_string in Ht. by apply Hs.
  - destruct (dec_eqb _ _); simplify_eq; [done|].
    apply fmap_Some in Et as (z & Ez & ->). by eapply numeric_cents.
Qed.

Definition evolves (w w' : World) : Prop :=
  rentals_ok (db w') /\ rentals_evolve (db w) (db w') /\
  db w' = set_rentals (rentals (db w')) (db w).

Lemma evolves_refl w w' : rentals_ok (db w) -> db w' = db w -> evolves w w'.
Proof. intros Hok E. unfold evolves. rewrite E. by destruct (db w). Qed.

Lemma evolves_trans w1 w2 w3 : evolves w1 w2 -> evolves w2 w3 -> evolves w1 w3.
Proof.
  intros (_ & E1 & D1) (Hok & E2 & D2). split; [done|]. split; [by etrans|].
  rewrite D2, D1. done.
Qed.

Lemma wp_get_evolves {B} env w id (body : Rental -> M B) :
  rentals_ok (db w) ->
  (forall row w1, rentals (db w) !! id = Some row -> db w1 = db w ->
     wp (body (rental_from_row id row)) env w1 (fun _ w' => evolves w w')) ->
  wp (rental ← RentalManager_get_rental id; body rental) env w (fun _ w' => evolves w w').
Proof.
  intros Hok Hb. wp_step. unfold RentalManager_get_rental; simpl.
  unfold SqlRentalRepository_get_rental. wp_step. wp_step.
  apply wp_sql_any; [intros; by apply evolves_refl|]. intros o d w1 [= <- <-] D1. wp_steps.
  destruct (rentals (db w) !! id) as [row|] eqn:Erow; simpl; wp_steps; [|by apply evolves_refl].
  by apply Hb.
Qed.

Lemma wp_update_evolves env w w1 id row rental :
  rentals_ok (db w) -> rentals (db w) !! id = Some row -> db w1 = db w ->
  allowed_change (rental_from_row id row) rental ->
  wp (SqlRentalRepository_update_rental rental) env w1 (fun _ w' => evolves w w').
Proof.
  intros Hok Erow D1 Ha. unfold SqlRentalRepository_update_rental. wp_step. wp_step.
  rename select (db _ = db w1) into D3. rename w' into w2.
  assert (D4 : db w2 = db w) by congruence. wp_step.
  pose proof Ha as (Eid & _ & _). simpl in Eid.
  apply wp_sql_any; [intros w4 D _; apply evolves_refl; [done|congruence]|].
  intros n d w4. rewrite D4, Eid, Erow.
  destruct (SqlRentalRepository_update_row _ _ _) as [row'|] eqn:Eu; [|done]. simpl.
  intros [= <- <-] D5. wp_steps. wp_step.
  destruct (update_row_evolves id row rental _ row' (Hok id row Erow) Ha Eu) as [Hev Hrok].
  unfold evolves. rewrite D5. split; [by apply rentals_ok_put|].
  split; [by eapply rentals_evolve_put|done].
Qed.

(** A transition is refused, or moves along the life cycle and stamps the end. *)
Lemma wp_transition env w r s (Q : _ -> _ -> Prop) :
  (RentalState_can_transition_to (rental_state r) s = false ->
   Q (Err (InvalidStateTransition (RentalState_to_string (rental_state r))
                                  (RentalState_to_string s))) w) ->
  (forall t w', db w' = db w -> RentalState_can_transition_to (rental_state r) s = true ->
     let ended := if RentalState_is_terminal s then Some (default t (rental_ended_at r))
                  else rental_ended_at r in
     Q (Ok (Rental_with_ended_at ended (Rental_with_updated t (Rental_with_state s r)))) w') ->
  wp (Rental_transition_to s r) env w Q.
Proof.
  intros HE HQ. unfold Rental_transition_to.
  destruct (RentalState_can_transition_to _ _) eqn:E; simpl; wp_steps; [|auto].
  specialize (HQ t w' ltac:(done) eq_refl). simpl in HQ.
  destruct (RentalState_is_terminal s), r as [???????????? []]; simpl in *; wp_steps; exact HQ.
Qed.

Lemma transition_allowed r s ended t :
  RentalState_can_transition_to (rental_state r) s = true ->
  (RentalState_is_terminal s = true -> is_Some ended) ->
  allowed_change r (Rental_with_ended_at ended (Rental_with_updated t (Rental_with_state s r))).
Proof.
  intros E He. split; [done|]. split; [|by auto]. econstructor; [done|]. constructor.
Qed.

(** ** Sequences of requests, under any faults *)

Inductive RentalRequest :=
  | CreateRental (u : UserId) (executor validator : string) (p : PackageId) (s : ResourceSpec)
      (rid : option ReservationId)
  | UpdateRentalState (id : RentalId) (s : RentalState)
  | UpdateRentalUsage (id : RentalId) (m : UsageMetrics)
  | UpdateRentalCost (id : RentalId) (c : CostBreakdown)
  | TerminateRental (id : RentalId) (reason : string)
  | FinalizeRental (id : RentalId)
  | UpdateStatus (id : RentalId) (s : RentalState).

Definition serve_rental (env : Env) (q : RentalRequest) (w : World) : World :=
  match q with
  | CreateRental u e v p s rid => snd (RentalManager_create_rental u e v p s rid env w)
  | UpdateRentalState id s => snd (RentalManager_update_rental_state id s env w)
  | UpdateRentalUsage id m => snd (RentalManager_update_rental_usage id m env w)
  | UpdateRentalCost id c => snd (RentalManager_update_rental_cost id c env w)
  | TerminateRental id reason => snd (RentalManager_terminate_rental id reason env w)
  | FinalizeRental id => snd (RentalManager_finalize_rental id env w)
  | UpdateStatus id s => snd (RentalManager_update_status id s env w)
  end.

(** A change of anything but state and end time is allowed. *)
Lemma unchanged_allowed r r' :
  rental_id r' = rental_id r -> rental_state r' = rental_state r ->
  rental_ended_at r' = rental_ended_at r -> allowed_change r r'.
Proof. intros E1 E2 E3. unfold allowed_change. rewrite E1, E2, E3. split; [done|]. split; [constructor|auto]. Qed.

Lemma allowed_trans r1 r2 r3 :
  allowed_change r1 r2 -> allowed_change r2 r3 -> allowed_change r1 r3.
Proof.
  intros (E1 & L1 & T1) (E2 & L2 & T2). split; [congruence|].
  split; [by eapply lifecycle_trans|]. intros Ht.
  destruct (T2 Ht) as [[Ht2 ->]|?]; [|by right]. destruct (T1 Ht2) as [[? ->]|?]; auto.
Qed.

Lemma terminal_stamped (s : RentalState) (t : DateTime) (o : option DateTime) :
  RentalState_is_terminal s = true ->
  is_Some (if RentalState_is_terminal s then Some (default t o) else o).
Proof. intros ->. by eexists. Qed.

(** A transition followed by a change of what it yields, up to a write-back. *)
Lemma wp_transition_allowed env w1 r0 r s (Q : _ -> _ -> Prop) :
  allowed_change r0 r -> (forall e, Q (Err e) w1) ->
  (forall r' w', db w' = db w1 -> allowed_change r0 r' -> rental_state r' = s -> Q (Ok r') w') ->
  wp (Rental_transition_to s r) env w1 Q.
Proof.
  intros Ha HE HQ. apply wp_transition; [auto|]. intros t w' D E. simpl.
  apply HQ; [done| |done]. eapply allowed_trans; [done|].
  apply transition_allowed; [done|]. apply terminal_stamped.
Qed.

Lemma wp_create_evolves env w u e v p s rid :
  rentals_ok (db w) ->
  wp (RentalManager_create_rental u e v p s rid) env w (fun _ w' => evolves w w').
Proof.
  intros Hok. unfold RentalManager_create_rental, Rental_new. wp_steps.
  unfold SqlRentalRepository_create_rental. wp_steps.
  match goal with D1 : db ?w1 = db w, D2 : db ?w2 = db ?w1, D3 : db ?w3 = db ?w2 |- _ =>
    assert (D : db w3 = db w) by congruence end.
  apply wp_sql_any; rewrite D; [intros; by apply evolves_refl|].
  intros [] d w4. simpl. unfold varchar.
  destruct (String.length u <=? 255)%nat; simpl; [|done].
  destruct (String.length e <=? 255)%nat; simpl; [|done].
  destruct (String.length v <=? 255)%nat; simpl; [|done].
  destruct (String.length p <=? 100)%nat; simpl; [|done].
  destruct (numeric_of_dec 10 2 _) as [h|] eqn:Eh; simpl; [|done].
  destruct (rentals (db w) !! _) eqn:E; [done|]. intros [= <-] D4. wp_steps.
  unfold evolves. rewrite D4. split; [|split; [by apply rentals_evolve_new|done]].
  apply rentals_ok_put; [done|]. split; [by exists Pending|].
  split; [by eapply numeric_cents|done].
Qed.

Lemma wp_finalize_tail env w w1 id row r :
  rentals_ok (db w) -> rentals (db w) !! id = Some row -> db w1 = db w ->
  allowed_change (rental_from_row id row) r ->
  wp (rental ← (if decide (rental_state r = Terminating)
                then Rental_transition_to Completed r
                else if decide (rental_state r <> Completed)
                then throw (InvalidStateTransition (RentalState_to_string (rental_state r))
                                                   (RentalState_to_string Completed))
                else mret r);
      rrepo_update_rental rental;; mret rental) env w1 (fun _ w' => evolves w w').
Proof.
  intros Hok Erow D1 Ha. wp_step.
  assert (Hup : forall r' w2, db w2 = db w -> allowed_change (rental_from_row id row) r' ->
    wp (rrepo_update_rental r';; mret r') env w2 (fun _ w' => evolves w w')).
  { intros r' w2 D2 Ha2. wp_step. eapply wp_mono; [by eapply wp_update_evolves|].
    intros [] ? ?; [by wp_steps|done]. }
  case_decide; [|case_decide; wp_step; [by apply evolves_refl|by apply Hup]].
  eapply wp_transition_allowed; [done|intros; by apply evolves_refl|].
  intros r2 w2 D2 Ha2 _. apply Hup; [congruence|done].
Qed.

Lemma serve_rental_evolves env q w : rentals_ok (db w) -> evolves w (serve_rental env q w).
Proof.
  intros Hok. destruct q; apply (wp_snd _ _ _ (evolves w)); [by apply wp_create_evolves|..];
    apply wp_get_evolves; try done; intros row w1 Erow D1;
    assert (Hself : allowed_change (rental_from_row id row) (rental_from_row id row))
      by (by apply unchanged_allowed).
  - wp_step. eapply wp_transition_allowed; [done|intros; by apply evolves_refl|].
    intros r' w2 D2 Ha _. eapply wp_update_evolves; [done..|congruence|done].
  - unfold Rental_update_usage. wp_steps. eapply wp_update_evolves; [done..|congruence|].
    by apply unchanged_allowed.
  - unfold Rental_update_cost. wp_steps. eapply wp_update_evolves; [done..|congruence|].
    by apply unchanged_allowed.
  - set (r1 := Rental_with_metadata _ _).
    assert (H1a : allowed_change (rental_from_row id row) r1) by (by apply unchanged_allowed).
    wp_step. destruct (RentalState_can_transition_to (rental_state r1) Terminating); wp_steps;
      [|eapply wp_update_evolves; [done..|congruence|done]].
    eapply wp_transition_allowed; [done|intros; by apply evolves_refl|].
    intros r2 w2 D2 Ha2 _. 
    eapply wp_transition_allowed; [done|intros; apply evolves_refl; [done|congruence]|].
    intros r3 w3 D3 Ha3 _. eapply wp_update_evolves; [done..|congruence|done].
  - wp_step. destruct (decide (rental_state (rental_from_row id row) = Active)).
    + eapply wp_transition_allowed; [done|intros; by apply evolves_refl|].
      intros r2 w2 D2 Ha2 _. eapply wp_finalize_tail; [done..|congruence|done].
    + wp_step. by eapply wp_finalize_tail.
  - wp_step. eapply wp_transition_allowed; [done|intros; by apply evolves_refl|].
    intros r' w2 D2 Ha _. wp_step.
    eapply wp_mono; [eapply wp_update_evolves; [done..|congruence|done]|].
    intros [] ? ?; [by wp_steps|done].
Qed.

(** ** Exact effects, without faults *)

Context (env : Env) (Hff : fault_free env).

Lemma wp_get_exact {B} w id (body : Rental -> M B) (Q : _ -> _ -> Prop) :
  (rentals (db w) !! id = None -> forall w', db w' = db w ->
     Q (Err (RentalNotFound (uuid_to_string id))) w') ->
  (forall row w', rentals (db w) !! id = Some row -> db w' = db w ->
     wp (body (rental_from_row id row)) env w' Q) ->
  wp (rental ← RentalManager_get_rental id; body rental) env w Q.
Proof.
  intros HN HS. wp_step. unfold RentalManager_get_rental; simpl.
  unfold SqlRentalRepository_get_rental. wp_step. wp_step. apply wp_sql; [done|].
  intros w1 D1. wp_steps. destruct (rentals (db w) !! id) as [row|]; simpl; wp_steps; auto.
Qed.

Lemma wp_update_exact w id row rental (Q : _ -> _ -> Prop) :
  rentals (db w) !! id = Some row -> rental_row_ok row -> rental_id rental = id ->
  base_cost (rental_cost_breakdown rental) =
    base_cost (rental_cost_breakdown (rental_from_row id row)) ->
  rental_actual_cost rental = rental_actual_cost (rental_from_row id row) ->
  (forall t w', db w' = set_rentals (<[id := written_row rental t row]> (rentals (db w))) (db w) ->
     Q (Ok tt) w') ->
  wp (rrepo_update_rental rental) env w Q.
Proof.
  intros Erow Hrow Eid Eb Ea HQ. simpl. unfold SqlRentalRepository_update_rental.
  wp_step. wp_step. rename select (db _ = db w) into D1. wp_step.
  apply wp_sql; [done|]. intros w2. rewrite D1, Eid, Erow. simpl.
  rewrite (update_row_written id) by done. intros D2. wp_steps. wp_step. by eapply HQ.
Qed.

(** The row after a change of status to [s] at time [t], written at time [t']. *)
Definition status_row (s : RentalState) (t t' : DateTime) (r : rental_row) : rental_row := {|
  rt_user_id := rt_user_id r; rt_executor_id := rt_executor_id r;
  rt_validator_id := rt_validator_id r; rt_package_id := rt_package_id r;
  rt_status := RentalState_to_string s;
  rt_resource_spec := rt_resource_spec r;
  rt_hourly_rate := rt_hourly_rate r; rt_start_time := rt_start_time r;
  rt_end_time := if RentalState_is_terminal s then Some (default t (rt_end_time r))
                 else rt_end_time r;
  rt_max_duration_hours := rt_max_duration_hours r;
  rt_total_cost := norm_total (rt_total_cost r);
  rt_metadata := rt_metadata r;
  rt_created_at := rt_created_at r; rt_updated_at := t' |}.

Definition put_row (id : RentalId) (r : rental_row) (d : Db) : Db :=
  set_rentals (<[id := r]> (rentals d)) d.

Definition row_state (r : rental_row) : RentalState := parse_rental_state (rt_status r).

Lemma wp_update_status w id s :
  rentals_ok (db w) ->
  wp (RentalManager_update_status id s) env w (fun res w' =>
    match rentals (db w) !! id with
    | None => res = Err (RentalNotFound (uuid_to_string id)) /\ db w' = db w
    | Some row =>
        if RentalState_can_transition_to (row_state row) s then
          exists rental t t', res = Ok rental /\ rental_state rental = s /\
            db w' = put_row id (status_row s t t' row) (db w)
        else res = Err (InvalidStateTransition (RentalState_to_string (row_state row))
                          (RentalState_to_string s)) /\ db w' = db w
    end).
Proof.
  intros Hok. apply wp_get_exact; [by intros -> |]. intros row w1 Erow D1. rewrite Erow.
  wp_step. apply wp_transition; change (rental_state (rental_from_row id row)) with (row_state row).
  - by intros ->.
  - intros t w2 D2 ->. simpl. wp_step. rewrite D1 in D2. eapply (wp_update_exact w2 id row);
      [by rewrite D2|by apply (Hok id)|done..|]. intros t' w3 D3. wp_steps.
    eexists _, t, t'. split; [done|]. split; [done|]. by rewrite D3, D2.
Qed.

(** Writing back a rental that has just been completed. *)
Lemma wp_finish w w2 id row rental t :
  db w2 = db w -> rentals (db w) !! id = Some row -> rental_row_ok row -> rental_id rental = id ->
  base_cost (rental_cost_breakdown rental) =
    base_cost (rental_cost_breakdown (rental_from_row id row)) ->
  rental_actual_cost rental = rental_actual_cost (rental_from_row id row) ->
  rental_state rental = Completed -> rental_resource_spec rental = rt_resource_spec row ->
  rental_metadata rental = rt_metadata row ->
  rental_ended_at rental = Some (default t (rt_end_time row)) ->
  rental_user_id rental = rt_user_id row ->
  wp (rrepo_update_rental rental;; mret rental) env w2 (fun res w' =>
    exists rental t t', res = Ok rental /\ rental_state rental = Completed /\
      rental_id rental = id /\ rental_user_id rental = rt_user_id row /\
      db w' = put_row id (status_row Completed t t' row) (db w)).
Proof.
  intros D2 Erow Hrow Eid Eb Ea Es Er Em Ee Eu. wp_step.
  eapply (wp_update_exact w2 id row); [by rewrite D2|done..|]. intros t' w3 D3. wp_steps.
  exists rental, t, t'. split_and!; [done..|]. rewrite D3, D2. unfold put_row.
  do 2 f_equal. unfold written_row, status_row. by rewrite Es, Er, Em, Ee.
Qed.

(** Finalizing: from active through terminating, from terminating, or again. *)
Lemma wp_finalize w id :
  rentals_ok (db w) ->
  wp (RentalManager_finalize_rental id) env w (fun res w' =>
    match rentals (db w) !! id with
    | None => res = Err (RentalNotFound (uuid_to_string id)) /\ db w' = db w
    | Some row =>
        match row_state row with
        | Active | Terminating | Completed =>
            exists rental t t', res = Ok rental /\ rental_state rental = Completed /\
              rental_id rental = id /\ rental_user_id rental = rt_user_id row /\
              db w' = put_row id (status_row Completed t t' row) (db w)
        | s => res = Err (InvalidStateTransition (RentalState_to_string s) "completed") /\
            db w' = db w
        end
    end).
Proof.
  intros Hok. apply wp_get_exact; [by intros -> |]. intros row w1 Erow D1. rewrite Erow.
  pose proof (Hok id row Erow) as Hrow.
  assert (Estate : rental_state (rental_from_row id row) = row_state row) by done.
  wp_step. rewrite Estate.
  destruct (row_state row) eqn:Es; simpl; rewrite ?Estate.
  - wp_step. wp_step. rewrite Estate. simpl. by wp_steps.
  - apply wp_transition; rewrite Estate; [done|]. intros t w2 D2 _. simpl. wp_step.
    apply wp_transition; [done|]. intros t' w3 D3 _. simpl.
    by eapply (wp_finish w); [congruence|..].
  - wp_step. wp_step. rewrite Estate. simpl. by wp_steps.
  - wp_step. wp_step. rewrite Estate. simpl. apply wp_transition; rewrite Estate; [done|].
    intros t' w3 D3 _. simpl. by eapply (wp_finish w); [congruence|..].
  - wp_step. wp_step. rewrite Estate. simpl. wp_step.
    pose proof Hrow as ((s & Est & Hend) & _). unfold row_state in Es.
    rewrite Est, parse_state_string in Es. subst s. destruct (Hend eq_refl) as [e Ee].
    eapply (wp_finish w _ _ row _ 0); [done..| |done]. simpl. by rewrite Ee.
  - wp_step. wp_step. rewrite Estate. simpl. by wp_steps.
Qed.

(** Terminating: the reason is recorded in any case; the rental is completed if it
    was active or suspended. *)
Definition reason_row (reason : string) (r : rental_row) : rental_row := {|
  rt_user_id := rt_user_id r; rt_executor_id := rt_executor_id r;
  rt_validator_id := rt_validator_id r; rt_package_id := rt_package_id r;
  rt_status := rt_status r; rt_resource_spec := rt_resource_spec r;
  rt_hourly_rate := rt_hourly_rate r; rt_start_time := rt_start_time r;
  rt_end_time := rt_end_time r; rt_max_duration_hours := rt_max_duration_hours r;
  rt_total_cost := rt_total_cost r;
  rt_metadata := <["termination_reason" := reason]> (rt_metadata r);
  rt_created_at := rt_created_at r; rt_updated_at := rt_updated_at r |}.

Lemma wp_terminate w id reason :
  rentals_ok (db w) ->
  wp (RentalManager_terminate_rental id reason) env w (fun res w' =>
    match rentals (db w) !! id with
    | None => res = Err (RentalNotFound (uuid_to_string id)) /\ db w' = db w
    | Some row => res = Ok tt /\ exists t t',
        match row_state row with
        | Active | Suspended =>
            db w' = put_row id (status_row Completed t t' (reason_row reason row)) (db w)
        | s => exists row', db w' = put_row id row' (db w) /\ row_state row' = s /\
                 rt_end_time row' = rt_end_time row /\
                 rt_metadata row' = <["termination_reason" := reason]> (rt_metadata row)
        end
    end).
Proof.
  intros Hok. apply wp_get_exact; [by intros -> |]. intros row w1 Erow D1. rewrite Erow.
  pose proof (Hok id row Erow) as Hrow.
  set (r1 := Rental_with_metadata _ _).
  assert (Estate : rental_state r1 = row_state row) by done. wp_step. rewrite Estate.
  destruct (RentalState_can_transition_to (row_state row) Terminating) eqn:Ecan.
  - wp_step. apply wp_transition; [congruence|]. intros t w2 D2 _. simpl.
    apply wp_transition; [done|]. intros t' w3 D3 _. simpl.
    assert (D : db w3 = db w) by congruence.
    eapply (wp_update_exact w3 id row); [by rewrite D|done..|]. intros t'' w4 D4.
    split; [done|]. exists t', t''. rewrite D4, D. by destruct (row_state row).
  - wp_step. eapply (wp_update_exact w1 id row); [by rewrite D1|done..|]. intros t'' w4 D4.
    split; [done|]. exists 0, t''. rewrite D4, D1.
    assert (Hkeep : row_state (written_row r1 t'' row) = row_state row)
      by (unfold row_state; simpl; by rewrite parse_state_string).
    by destruct (row_state row) eqn:Es; try done; eexists.
Qed.
End Facts.
