(* ===== verification/RentalClaims.v ===== *)
(** * Billing: the properties of the rental manager over the SQL repository *)

From Stdlib Require Import ZArith.
From stdpp Require Import base gmap strings list numbers.
From S2P Require Import Prelude Float64 Decimal BillingTypes BillingWorld Rentals.
From S2P Require Import RentalFacts CreditRepoFacts.
Local Open Scope Z_scope.

Section Claims.
Context `{DecimalLaws} `{UuidText}.

(** C15: whatever statements fail and in whatever order the manager's
    operations run, a rental row is never dropped, its identity columns (user,
    executor, validator, package, start) never change, its status only moves along
    permitted transitions, a completed or failed rental keeps its status and has
    an end time, and no other table is touched. *)
Theorem rental_requests_follow_lifecycle env qs w :
  rentals_ok (db w) ->
  let w' := foldl (fun w q => serve_rental env q w) w qs in
  rentals_ok (db w') /\ db w' = set_rentals (rentals (db w')) (db w) /\
  forall id r, rentals (db w) !! id = Some r -> exists r', rentals (db w') !! id = Some r' /\
    row_evolves r r' /\
    (RentalState_is_terminal (row_state r) = true -> row_state r' = row_state r).
Proof.
  intros Hok. cut (evolves w (foldl (fun w q => serve_rental env q w) w qs)).
  - intros (Hok' & Hev & D). split; [done|]. split; [done|]. intros id r Hr.
    destruct (Hev id r Hr) as (r' & Hr' & Hrow). exists r'. split; [done|]. split; [done|].
    intros Ht. by apply lifecycle_terminal, Hrow.
  - revert w Hok. induction qs as [|q qs IH]; intros w Hok; simpl; [by apply evolves_refl|].
    pose proof (serve_rental_evolves env q w Hok) as Hq. eapply evolves_trans; [done|].
    apply IH, Hq.
Qed.

Context (env : Env) (Hff : fault_free env).

(** [update_status] performs exactly the permitted transitions,
    stamping the end time when the new state is terminal; it reports a missing
    rental or a forbidden transition without changing anything. *)
Theorem update_status_spec w id s :
  rentals_ok (db w) ->
  wp (RentalManager_update_status id s) env w (fun res w' =>
    match rentals (db w) !! id with
    | None => res = Err (RentalNotFound (uuid_to_string id)) /\ db w' = db w
    | Some row =>
        if RentalState_can_transition_to (row_state row) s then
          exists rental t t', res = Ok rental /\ rental_state rental = s /\
            db w' = put_row id (status_row s t t' row) (db w)
        else res = Err (InvalidStateTransition (RentalState_to_string (row_state row))
                          (RentalState_to_string s)) /\ db w' = db w
    end).
Proof. by apply wp_update_status. Qed.

(** [finalize_rental] completes an active or terminating rental and
    accepts a completed one (keeping its end time); from any other state it
    reports the forbidden transition and changes nothing. *)
Theorem finalize_rental_spec w id :
  rentals_ok (db w) ->
  wp (RentalManager_finalize_rental id) env w (fun res w' =>
    match rentals (db w) !! id with
    | None => res = Err (RentalNotFound (uuid_to_string id)) /\ db w' = db w
    | Some row =>
        match row_state row with
        | Active | Terminating | Completed =>
            exists rental t t', res = Ok rental /\ rental_state rental = Completed /\
              rental_id rental = id /\ rental_user_id rental = rt_user_id row /\
              db w' = put_row id (status_row Completed t t' row) (db w)
        | s => res = Err (InvalidStateTransition (RentalState_to_string s) "completed") /\
            db w' = db w
        end
    end).
Proof. by apply wp_finalize. Qed.

(** [terminate_rental] records the reason on any existing rental and
    completes it if it was active or suspended; a pending, terminating or ended
    rental keeps its state although the call succeeds. *)
Theorem terminate_rental_spec w id reason :
  rentals_ok (db w) ->
  wp (RentalManager_terminate_rental id reason) env w (fun res w' =>
    match rentals (db w) !! id with
    | None => res = Err (RentalNotFound (uuid_to_string id)) /\ db w' = db w
    | Some row => res = Ok tt /\ exists t t',
        match row_state row with
        | Active | Suspended =>
            db w' = put_row id (status_row Completed t t' (reason_row reason row)) (db w)
        | s => exists row', db w' = put_row id row' (db w) /\ row_state row' = s /\
                 rt_end_time row' = rt_end_time row /\
                 rt_metadata row' = <["termination_reason" := reason]> (rt_metadata row)
        end
    end).
Proof. by apply wp_terminate. Qed.

(** A rental that fits the columns, created under a fresh
    identifier, reads back pending with its user, executor, validator, package and
    resources, no charge, and without the reservation it was created with. *)
Theorem create_rental_roundtrip w u e v p s rid :
  (forall n, rentals (db w) !! random_uuid env n = None) ->
  (String.length u <= 255)%nat -> (String.length e <= 255)%nat ->
  (String.length v <= 255)%nat -> (String.length p <= 100)%nat ->
  wp (id ← RentalManager_create_rental u e v p s rid; RentalManager_get_rental id) env w
    (fun res _ => exists r, res = Ok r /\ rental_user_id r = u /\ rental_executor_id r = e /\
      rental_validator_id r = v /\ rental_package_id r = p /\ rental_resource_spec r = s /\
      rental_state r = Pending /\ rental_ended_at r = None /\ rental_reservation_id r = None /\
      micros (rental_actual_cost r) = 0 /\
      micros (base_cost (rental_cost_breakdown r)) = 0).
Proof.
  intros Hfresh Lu Le Lv Lp. unfold RentalManager_create_rental, Rental_new. wp_steps.
  unfold SqlRentalRepository_create_rental. wp_steps.
  match goal with D1 : db ?w1 = db w, D2 : db ?w2 = db ?w1, D3 : db ?w3 = db ?w2 |- _ =>
    assert (D : db w3 = db w) by congruence end.
  apply wp_sql; [done|]. intros w4. rewrite D. simpl. unfold varchar.
  rewrite !(proj2 (Nat.leb_le _ _)) by done. simpl.
  assert (Hz : numeric_of_dec 10 2 dec_zero = Some 0).
  { unfold numeric_of_dec. by rewrite dec_num_zero. }
  rewrite Hz. simpl. rewrite Hfresh. intros D4. wp_steps.
  unfold RentalManager_get_rental; simpl. unfold SqlRentalRepository_get_rental. wp_steps.
  apply wp_sql; [done|]. intros w5.
  rewrite D4. simpl. rewrite lookup_insert_eq. intros D5. wp_steps.
  eexists; split; [done|]. simpl. do 2 (split; [done|]).
  split; [destruct (String.eqb_spec v ""); by subst|].
  do 5 (split; [done|]). split; [apply micros_zero|].
  apply from_decimal_micros. by rewrite dec_num_of_numeric.
Qed.
End Claims.

(** ** A concrete rental *)

Section Witnesses.
Import Scenario.

Definition row0 : rental_row := {|
  rt_user_id := "alice"; rt_executor_id := "exec"; rt_validator_id := Some "val";
  rt_package_id := Some "h100"; rt_status := "active";
  rt_resource_spec := {| gpu_specs := []; cpu_cores := 1; memory_gb := 1; storage_gb := 10;
                         disk_iops := 1000; network_bandwidth_mbps := 100 |};
  rt_hourly_rate := 350; rt_start_time := 0; rt_end_time := None; rt_max_duration_hours := 24;
  rt_total_cost := None; rt_metadata := ∅; rt_created_at := 0; rt_updated_at := 0 |}.

Definition rw0 : World := {|
  db := set_rentals {[ 9%N := row0 ]} empty_db; ticks := 0; drawn := 0; statements := 0 |}.

Lemma rw0_ok : rentals_ok (db rw0).
Proof. apply map_Forall_singleton. split; [by exists Active|]. by split. Qed.

Local Ltac at_row0 H :=
  change (rentals (db rw0) !! 9%N) with (Some row0) in H;
  cbv beta iota in H; change (row_state row0) with Active in H; cbn [RentalState_can_transition_to] in H.

Lemma rental_requests_witness :
  let qs := [UpdateStatus 9%N Suspended; TerminateRental 9%N "done"; UpdateStatus 9%N Active] in
  let w' := foldl (fun w q => serve_rental flaky_env q w) rw0 qs in
  exists r', rentals (db w') !! 9%N = Some r' /\ row_evolves row0 r'.
Proof.
  intros qs w'.
  destruct (rental_requests_follow_lifecycle flaky_env qs rw0 rw0_ok) as (_ & _ & Hev).
  destruct (Hev 9%N row0 eq_refl) as (r' & Hr' & Hrow & _).
  exists r'. split; [exact Hr'|exact Hrow].
Defined.

Lemma update_status_witness :
  let run := RentalManager_update_status 9%N Completed env rw0 in
  fst run = Err (InvalidStateTransition "active" "completed") /\ db (snd run) = db rw0.
Proof.
  pose proof (update_status_spec env env_ok rw0 9%N Completed rw0_ok) as Hp. run_err Hp.
  destruct Hp as (e & Ee & Hp). at_row0 Hp. destruct Hp as [E D]. split; [|exact D].
  injection E as ->. exact Ee.
Defined.

Lemma finalize_rental_witness :
  let run := RentalManager_finalize_rental 9%N env rw0 in
  is_Ok (fst run) = true /\ exists t t',
    db (snd run) = put_row 9%N (status_row Completed t t' row0) (db rw0).
Proof.
  pose proof (finalize_rental_spec env env_ok rw0 9%N rw0_ok) as Hp. run_ok Hp.
  destruct Hp as (r & Er & Hp). at_row0 Hp. destruct Hp as (rental & t & t' & _ & _ & _ & _ & D).
  split; [vm_compute; reflexivity|]. exists t, t'. exact D.
Defined.

Lemma terminate_rental_witness :
  let run := RentalManager_terminate_rental 9%N "done" env rw0 in
  fst run = Ok tt /\ exists t t',
    db (snd run) = put_row 9%N (status_row Completed t t' (reason_row "done" row0)) (db rw0).
Proof.
  pose proof (terminate_rental_spec env env_ok rw0 9%N "done" rw0_ok) as Hp. run_ok Hp.
  destruct Hp as ([] & Er & Hp). at_row0 Hp. destruct Hp as (_ & t & t' & D).
  split; [exact Er|]. exists t, t'. exact D.
Defined.

Lemma create_rental_witness :
  let spec := rt_resource_spec row0 in
  exists r, fst ((id ← RentalManager_create_rental "alice" "exec" "val" "h200" spec (Some 7%N);
                  RentalManager_get_rental id) env rw0) = Ok r /\
    rental_package_id r = "h200" /\ rental_reservation_id r = None.
Proof.
  intros spec.
  assert (Hfresh : forall n, rentals (db rw0) !! random_uuid env n = None).
  { intros n. simpl. apply lookup_singleton_ne. lia. }
  pose proof (create_rental_roundtrip env env_ok rw0 "alice" "exec" "val" "h200" spec (Some 7%N)
    Hfresh ltac:(simpl; lia) ltac:(simpl; lia) ltac:(simpl; lia) ltac:(simpl; lia)) as Hp.
  run_ok Hp. destruct Hp as (r & Er & r' & Er' & _ & _ & _ & Hpk & _ & _ & _ & Hres & _).
  injection Er' as <-. exists r. split; [exact Er|]. split; [exact Hpk|exact Hres].
Defined.
End Witnesses.
