(* ===== verification/Events.v ===== *)
(** * Billing: the event store (crates/basilica-billing/src/storage/events.rs,
    domain/events.rs)

    Usage events, audit (billing) events and processing batches, the two repository
    traits with their SQL implementations, and the [EventStore] over them.  Row locks
    ([FOR UPDATE SKIP LOCKED]) only matter between concurrent processors and are not
    modelled. *)

From Stdlib Require Import ZArith Ascii.
From stdpp Require Import base gmap strings list numbers.
From S2P Require Import Prelude Float64 Decimal BillingTypes BillingWorld.
Local Open Scope Z_scope.

(** ** Data *)

Inductive EventType :=
  | Telemetry | StatusChange | CostUpdate | RentalStart | RentalEnd | ResourceUpdate.

#[export] Instance EventType_eq_dec : EqDecision EventType.
Proof. solve_decision. Defined.

Definition EventType_to_string (t : EventType) : string :=
  match t with
  | Telemetry => "telemetry"
  | StatusChange => "status_change"
  | CostUpdate => "cost_update"
  | RentalStart => "rental_start"
  | RentalEnd => "rental_end"
  | ResourceUpdate => "resource_update"
  end.

Record UsageEvent := {
  uev_event_id : uuid;
  uev_rental_id : uuid;
  uev_user_id : string;
  uev_executor_id : string;
  uev_validator_id : string;
  uev_event_type : EventType;
  uev_event_data : json;
  uev_timestamp : DateTime;
  uev_processed : bool;
  uev_processed_at : option DateTime;
  uev_batch_id : option uuid;
}.

Record BillingEvent := {
  bev_event_id : uuid;
  bev_event_type : string;
  bev_entity_type : string;
  bev_entity_id : string;
  bev_user_id : option uuid;
  bev_event_data : json;
  bev_metadata : option json;
  bev_created_by : string;
  bev_created_at : DateTime;
}.

Record EventStatistics := {
  es_unprocessed_count : Z;
  es_processed_count : Z;
  es_total_count : Z;
  es_oldest_event : option DateTime;
  es_newest_event : option DateTime;
}.

Inductive BatchType := UsageAggregation | BillingCalculation | TelemetryProcessing.

Definition BatchType_to_string (t : BatchType) : string :=
  match t with
  | UsageAggregation => "usage_aggregation"
  | BillingCalculation => "billing_calculation"
  | TelemetryProcessing => "telemetry_processing"
  end.

Definition BatchType_from_str (s : string) : BatchType :=
  if String.eqb s "usage_aggregation" then UsageAggregation
  else if String.eqb s "billing_calculation" then BillingCalculation
  else if String.eqb s "telemetry_processing" then TelemetryProcessing
  else UsageAggregation.

Inductive BatchStatus := BatchPending | BatchProcessing | BatchCompleted | BatchFailed.

Definition BatchStatus_to_string (s : BatchStatus) : string :=
  match s with
  | BatchPending => "pending"
  | BatchProcessing => "processing"
  | BatchCompleted => "completed"
  | BatchFailed => "failed"
  end.

Definition BatchStatus_from_str (s : string) : BatchStatus :=
  if String.eqb s "pending" then BatchPending
  else if String.eqb s "processing" then BatchProcessing
  else if String.eqb s "completed" then BatchCompleted
  else if String.eqb s "failed" then BatchFailed
  else BatchPending.

(** [error_message] and [metadata] are never written. *)
Record ProcessingBatch := {
  bat_batch_id : uuid;
  bat_batch_type : BatchType;
  bat_status : BatchStatus;
  bat_events_count : Z;
  bat_events_processed : Z;
  bat_events_failed : Z;
  bat_started_at : option DateTime;
  bat_completed_at : option DateTime;
}.

Section Events.
Context `{Decimal} `{UuidText}.

(** ** The repository traits *)

Class EventRepository := {
  erepo_append_usage_event : UsageEvent -> M uuid;
  erepo_append_usage_events_batch : list UsageEvent -> M (list uuid);
  erepo_get_unprocessed_events : option Z -> M (list UsageEvent);
  erepo_mark_events_processed : list uuid -> uuid -> M unit;
  erepo_get_rental_events : uuid -> option DateTime -> option DateTime -> M (list UsageEvent);
  erepo_append_billing_event : BillingEvent -> M uuid;
  erepo_get_events_by_entity : string -> option Z -> M (list BillingEvent);
  erepo_get_event_statistics : M EventStatistics;
  erepo_cleanup_old_events : Z -> M Z;
}.

Class BatchRepository := {
  brepo_create_batch : BatchType -> M ProcessingBatch;
  brepo_update_batch_status : uuid -> BatchStatus -> option Z -> M unit;
  brepo_complete_batch : uuid -> Z -> Z -> M unit;
  brepo_get_batch : uuid -> M (option ProcessingBatch);
}.

(** ** The SQL event repository *)

Definition validate_event_ids (event : UsageEvent) : M unit :=
  if N.eqb (uev_event_id event) uuid_nil then
    throw (ValidationError "event_id" "event_id cannot be nil for usage event")
  else if String.eqb (uev_user_id event) "" then
    throw (ValidationError "user_id" "user_id cannot be empty for usage event")
  else if String.eqb (uev_executor_id event) "" then
    throw (ValidationError "executor_id" "executor_id cannot be empty for usage event")
  else if String.eqb (uev_validator_id event) "" then
    throw (ValidationError "validator_id" "validator_id cannot be empty for usage event")
  else mret tt.

Definition parse_event_type (s : string) : EventType :=
  if String.eqb s "telemetry" then Telemetry
  else if String.eqb s "status_change" then StatusChange
  else if String.eqb s "cost_update" then CostUpdate
  else if String.eqb s "rental_start" then RentalStart
  else if String.eqb s "rental_end" then RentalEnd
  else if String.eqb s "resource_update" then ResourceUpdate
  else Telemetry.

(** [CHECK (TRIM(c) != '')]. *)
Fixpoint blank (s : string) : bool :=
  match s with
  | EmptyString => true
  | String c s' => Ascii.eqb c " "%char && blank s'
  end.

(** [INSERT INTO billing.usage_events ... processed = false]. *)
Definition insert_usage_event (event : UsageEvent) (d : Db) : option (unit * Db) :=
  user ← varchar 255 (uev_user_id event);
  executor ← varchar 128 (uev_executor_id event);
  validator ← varchar 255 (uev_validator_id event);
  if blank user || blank validator then None
  else match usage_events d !! uev_event_id event with
  | Some _ => None
  | None =>
      Some (tt, set_usage_events (<[uev_event_id event := {|
        ue_rental_id := uev_rental_id event;
        ue_user_id := user;
        ue_executor_id := executor;
        ue_validator_id := validator;
        ue_event_type := EventType_to_string (uev_event_type event);
        ue_event_data := uev_event_data event;
        ue_timestamp := uev_timestamp event;
        ue_processed := false;
        ue_processed_at := None;
        ue_batch_id := None |}]> (usage_events d)) d)
  end.

Definition SqlEventRepository_append_usage_event (event : UsageEvent) : M uuid :=
  validate_event_ids event;;
  sql (EventStoreError "Failed to append usage event") (insert_usage_event event);;
  mret (uev_event_id event).

Definition append_in_transaction (event : UsageEvent) : M unit :=
  validate_event_ids event;;
  sql (EventStoreError "Failed to insert event in batch") (insert_usage_event event).

Definition SqlEventRepository_append_usage_events_batch (events : list UsageEvent)
    : M (list uuid) :=
  match events with
  | [] => mret []
  | _ =>
      transaction (EventStoreError "Failed to begin transaction")
                  (EventStoreError "Failed to commit batch transaction")
        (for_each append_in_transaction events);;
      mret (uev_event_id <$> events)
  end.

Definition usage_event_of_row (k : uuid) (r : usage_event_row) : UsageEvent := {|
  uev_event_id := k;
  uev_rental_id := ue_rental_id r;
  uev_user_id := ue_user_id r;
  uev_executor_id := ue_executor_id r;
  uev_validator_id := ue_validator_id r;
  uev_event_type := parse_event_type (ue_event_type r);
  uev_event_data := ue_event_data r;
  uev_timestamp := ue_timestamp r;
  uev_processed := ue_processed r;
  uev_processed_at := ue_processed_at r;
  uev_batch_id := ue_batch_id r |}.

(** [ORDER BY timestamp ASC]. *)
Definition oldest_first (a b : uuid * usage_event_row) : bool :=
  ue_timestamp (snd a) <=? ue_timestamp (snd b).

Definition SqlEventRepository_get_unprocessed_events (limit : option Z) : M (list UsageEvent) :=
  let actual_limit := default 1000 limit in
  rows ← sql (EventStoreError "Failed to fetch unprocessed events") (fun d =>
    Some (take (Z.to_nat actual_limit)
            (sort_by oldest_first
               (filter (fun '(_, r) => ue_processed r = false)
                  (map_to_list (usage_events d)))), d));
  mret ((fun '(k, r) => usage_event_of_row k r) <$> rows).

Definition mark_row_processed (t : DateTime) (batch_id : uuid) (r : usage_event_row)
    : usage_event_row := {|
  ue_rental_id := ue_rental_id r; ue_user_id := ue_user_id r;
  ue_executor_id := ue_executor_id r; ue_validator_id := ue_validator_id r;
  ue_event_type := ue_event_type r; ue_event_data := ue_event_data r;
  ue_timestamp := ue_timestamp r;
  ue_processed := true;
  ue_processed_at := Some t;
  ue_batch_id := Some batch_id |}.

Definition SqlEventRepository_mark_events_processed (event_ids : list uuid) (batch_id : uuid)
    : M unit :=
  match event_ids with
  | [] => mret tt
  | _ =>
      t ← now;
      sql (EventStoreError "Failed to mark events as processed") (fun d =>
        Some (tt, set_usage_events
                    (map_imap (fun k r =>
                       Some (if decide (k ∈ event_ids) then mark_row_processed t batch_id r else r))
                       (usage_events d)) d))
  end.

Definition SqlEventRepository_get_rental_events (rental_id : uuid)
    (start_time end_time : option DateTime) : M (list UsageEvent) :=
  let start := default 0 start_time in
  finish ← (match end_time with Some t => mret t | None => now end);
  rows ← sql (EventStoreError ("Failed to fetch events for rental " +:+ uuid_to_string rental_id))
    (fun d =>
      Some (sort_by oldest_first
              (filter (fun '(_, r) => ue_rental_id r = rental_id /\ start <= ue_timestamp r
                                      /\ ue_timestamp r <= finish)
                 (map_to_list (usage_events d))), d));
  mret ((fun '(k, r) => usage_event_of_row k r) <$> rows).

Definition SqlEventRepository_append_billing_event (event : BillingEvent) : M uuid :=
  t ← now;
  sql (EventStoreError "Failed to append billing event") (fun d =>
    ty ← varchar 100 (bev_event_type event);
    ety ← varchar 50 (bev_entity_type event);
    eid ← varchar 255 (bev_entity_id event);
    by_ ← varchar 255 (bev_created_by event);
    match billing_events d !! bev_event_id event with
    | Some _ => None
    | None =>
        if from_option (fun k => user_exists k d) true (bev_user_id event) then
          Some (tt, set_billing_events (<[bev_event_id event := {|
            be_event_type := ty;
            be_entity_type := ety;
            be_entity_id := eid;
            be_user_id := bev_user_id event;
            be_event_data := bev_event_data event;
            be_metadata := bev_metadata event;
            be_created_by := by_;
            be_created_at := t |}]> (billing_events d)) d)
        else None
    end);;
  mret (bev_event_id event).

(** [ORDER BY created_at DESC]. *)
Definition newest_event_first (a b : uuid * billing_event_row) : bool :=
  be_created_at (snd b) <=? be_created_at (snd a).

Definition billing_event_of_row (k : uuid) (r : billing_event_row) : BillingEvent := {|
  bev_event_id := k;
  bev_event_type := be_event_type r;
  bev_entity_type := be_entity_type r;
  bev_entity_id := be_entity_id r;
  bev_user_id := be_user_id r;
  bev_event_data := be_event_data r;
  bev_metadata := be_metadata r;
  bev_created_by := be_created_by r;
  bev_created_at := be_created_at r |}.

Definition SqlEventRepository_get_events_by_entity (entity_id : string) (limit : option Z)
    : M (list BillingEvent) :=
  rows ← sql (DatabaseError "database operation") (fun d =>
    let sorted := sort_by newest_event_first
                    (filter (fun '(_, r) => be_entity_id r = entity_id)
                       (map_to_list (billing_events d))) in
    Some (match limit with Some n => take (Z.to_nat n) sorted | None => sorted end, d));
  mret ((fun '(k, r) => billing_event_of_row k r) <$> rows).

(** [MIN] and [MAX] of a column. *)
Definition min_of (l : list Z) : option Z :=
  foldr (fun x acc => Some (match acc with Some y => Z.min x y | None => x end)) None l.
Definition max_of (l : list Z) : option Z :=
  foldr (fun x acc => Some (match acc with Some y => Z.max x y | None => x end)) None l.

Definition SqlEventRepository_get_event_statistics : M EventStatistics :=
  sql (EventStoreError "Failed to get event statistics") (fun d =>
    let rows := snd <$> map_to_list (usage_events d) in
    let count (l : list usage_event_row) := Z.of_nat (length l) in
    Some ({|
      es_unprocessed_count := count (filter (fun r => ue_processed r = false) rows);
      es_processed_count := count (filter (fun r => ue_processed r = true) rows);
      es_total_count := count rows;
      es_oldest_event := min_of (ue_timestamp <$> rows);
      es_newest_event := max_of (ue_timestamp <$> rows) |}, d)).

(** [INSERT INTO billing.usage_events_archive SELECT * FROM billing.usage_events]: the
    archive was created with the ten columns the table had in migration 003;
    migration 004 gave the table two more, and PostgreSQL refuses an [INSERT] with
    more expressions than target columns, before looking at any row. *)
Definition usage_events_archive_columns : list string :=
  ["event_id"; "rental_id"; "executor_id"; "event_type"; "event_data"; "timestamp"; "processed";
   "processed_at"; "batch_id"; "created_at"].
Definition usage_events_columns : list string :=
  usage_events_archive_columns ++ ["user_id"; "validator_id"].

Definition SqlEventRepository_cleanup_old_events (retention_days : Z) : M Z :=
  t ← now;
  let cutoff_date := t - Duration_days retention_days in
  sql (EventStoreError "Failed to archive old events") (fun d =>
    if (length usage_events_columns <=? length usage_events_archive_columns)%nat then
      Some (Z.of_nat (length (filter (fun '(_, r) => ue_timestamp r < cutoff_date
                                                     /\ ue_processed r = true)
                                (map_to_list (usage_events d)))), d)
    else None).

#[global] Instance SqlEventRepository : EventRepository := {|
  erepo_append_usage_event := SqlEventRepository_append_usage_event;
  erepo_append_usage_events_batch := SqlEventRepository_append_usage_events_batch;
  erepo_get_unprocessed_events := SqlEventRepository_get_unprocessed_events;
  erepo_mark_events_processed := SqlEventRepository_mark_events_processed;
  erepo_get_rental_events := SqlEventRepository_get_rental_events;
  erepo_append_billing_event := SqlEventRepository_append_billing_event;
  erepo_get_events_by_entity := SqlEventRepository_get_events_by_entity;
  erepo_get_event_statistics := SqlEventRepository_get_event_statistics;
  erepo_cleanup_old_events := SqlEventRepository_cleanup_old_events;
|}.

(** ** The SQL batch repository *)

Definition SqlBatchRepository_create_batch (batch_type : BatchType) : M ProcessingBatch :=
  batch_id ← new_v4;
  sql (DatabaseError "create_batch") (fun d =>
    match batches d !! batch_id with
    | Some _ => None
    | None =>
        Some (tt, set_batches (<[batch_id := {|
          pb_batch_type := BatchType_to_string batch_type;
          pb_status := BatchStatus_to_string BatchPending;
          pb_events_count := 0;
          pb_events_processed := 0;
          pb_events_failed := 0;
          pb_started_at := None;
          pb_completed_at := None |}]> (batches d)) d)
    end);;
  mret {|
    bat_batch_id := batch_id;
    bat_batch_type := batch_type;
    bat_status := BatchPending;
    bat_events_count := 0;
    bat_events_processed := 0;
    bat_events_failed := 0;
    bat_started_at := None;
    bat_completed_at := None |}.

Definition SqlBatchRepository_update_batch_status (batch_id : uuid) (status : BatchStatus)
    (events_count : option Z) : M unit :=
  t ← now;
  sql (DatabaseError "update_batch_status") (fun d =>
    match batches d !! batch_id with
    | None => Some (tt, d)
    | Some r =>
        Some (tt, set_batches (<[batch_id := {|
          pb_batch_type := pb_batch_type r;
          pb_status := BatchStatus_to_string status;
          pb_events_count := default (pb_events_count r) events_count;
          pb_events_processed := pb_events_processed r;
          pb_events_failed := pb_events_failed r;
          pb_started_at := if String.eqb (BatchStatus_to_string status) "processing" then Some t
                           else pb_started_at r;
          pb_completed_at := pb_completed_at r |}]> (batches d)) d)
    end).

Definition SqlBatchRepository_complete_batch (batch_id : uuid)
    (processed_count failed_count : Z) : M unit :=
  let status := if failed_count =? 0 then BatchCompleted else BatchFailed in
  t ← now;
  sql (DatabaseError "complete_batch") (fun d =>
    match batches d !! batch_id with
    | None => Some (tt, d)
    | Some r =>
        Some (tt, set_batches (<[batch_id := {|
          pb_batch_type := pb_batch_type r;
          pb_status := BatchStatus_to_string status;
          pb_events_count := pb_events_count r;
          pb_events_processed := processed_count;
          pb_events_failed := failed_count;
          pb_started_at := pb_started_at r;
          pb_completed_at := Some t |}]> (batches d)) d)
    end).

Definition SqlBatchRepository_get_batch (batch_id : uuid) : M (option ProcessingBatch) :=
  row ← sql (DatabaseError "get_batch") (fun d => Some (batches d !! batch_id, d));
  mret ((fun r => {|
    bat_batch_id := batch_id;
    bat_batch_type := BatchType_from_str (pb_batch_type r);
    bat_status := BatchStatus_from_str (pb_status r);
    bat_events_count := pb_events_count r;
    bat_events_processed := pb_events_processed r;
    bat_events_failed := pb_events_failed r;
    bat_started_at := pb_started_at r;
    bat_completed_at := pb_completed_at r |}) <$> row).

#[global] Instance SqlBatchRepository : BatchRepository := {|
  brepo_create_batch := SqlBatchRepository_create_batch;
  brepo_update_batch_status := SqlBatchRepository_update_batch_status;
  brepo_complete_batch := SqlBatchRepository_complete_batch;
  brepo_get_batch := SqlBatchRepository_get_batch;
|}.

(** ** The event store *)

Record EventStore := { store_batch_size : Z; store_retention_days : Z }.

Section Store.
Context `{!EventRepository} `{!BatchRepository}.

Definition EventStore_append_usage_event (event : UsageEvent) : M uuid :=
  erepo_append_usage_event event.

Definition EventStore_append_usage_events_batch (events : list UsageEvent) : M (list uuid) :=
  match events with [] => mret [] | _ => erepo_append_usage_events_batch events end.

Definition EventStore_append_billing_event (event : BillingEvent) : M uuid :=
  erepo_append_billing_event event.

Definition EventStore_get_unprocessed_events (self : EventStore) (limit : option Z)
    : M (list UsageEvent) :=
  let actual_limit := match limit with Some n => Some n | None => Some (store_batch_size self) end in
  erepo_get_unprocessed_events actual_limit.

Definition EventStore_mark_events_processed (event_ids : list uuid) (batch_id : uuid) : M unit :=
  erepo_mark_events_processed event_ids batch_id.

Definition EventStore_get_rental_events (rental_id : uuid)
    (start_time end_time : option DateTime) : M (list UsageEvent) :=
  erepo_get_rental_events rental_id start_time end_time.

Definition EventStore_store_event (entity_id event_type : string) (event_data : json)
    (metadata : option json) : M uuid :=
  id ← new_v4;
  t ← now;
  EventStore_append_billing_event {|
    bev_event_id := id;
    bev_event_type := event_type;
    bev_entity_type := "rental";
    bev_entity_id := entity_id;
    bev_user_id := None;
    bev_event_data := event_data;
    bev_metadata := metadata;
    bev_created_by := "telemetry";
    bev_created_at := t |}.

Definition EventStore_get_events_by_entity (entity_id : string) (limit : option Z)
    : M (list BillingEvent) :=
  erepo_get_events_by_entity entity_id limit.

Definition EventStore_get_event_statistics : M EventStatistics := erepo_get_event_statistics.

Definition EventStore_cleanup_old_events (self : EventStore) : M Z :=
  erepo_cleanup_old_events (store_retention_days self).

Definition EventStore_create_batch (batch_type : BatchType) : M ProcessingBatch :=
  brepo_create_batch batch_type.

Definition EventStore_update_batch_status (batch_id : uuid) (status : BatchStatus)
    (events_count : option Z) : M unit :=
  brepo_update_batch_status batch_id status events_count.

Definition EventStore_complete_batch (batch_id : uuid) (processed_count failed_count : Z)
    : M unit :=
  brepo_complete_batch batch_id processed_count failed_count.

Definition EventStore_get_batch (batch_id : uuid) : M (option ProcessingBatch) :=
  brepo_get_batch batch_id.
End Store.
End Events.

Arguments EventRepository {_} : assert.
Arguments BatchRepository {_} : assert.
