(* ===== verification/Processor.v ===== *)
(** * Billing: the event processor (crates/basilica-billing/src/domain/processor.rs)

    The [EventHandlers] trait, the dispatch of one event, the processing of a batch,
    the start/stop flag and the processing loop.  The loop is given the successive
    values it reads from the shared [is_running] flag. *)

From Stdlib Require Import ZArith.
From stdpp Require Import base gmap strings list numbers.
From S2P Require Import Prelude Float64 Decimal BillingTypes BillingWorld Events.
Local Open Scope Z_scope.

Section Processor.
Context `{Decimal}.

Class EventHandlers := {
  process_telemetry_event : UsageEvent -> M unit;
  process_status_change : UsageEvent -> M unit;
  process_cost_update : UsageEvent -> M unit;
  process_rental_start : UsageEvent -> M unit;
  process_rental_end : UsageEvent -> M unit;
  process_resource_update : UsageEvent -> M unit;
}.

Context `{!EventHandlers} `{!EventRepository} `{!BatchRepository}.

(** The configuration and the shared cells of an [EventProcessor]. *)
Record EventProcessor := {
  ep_store : EventStore;
  ep_batch_size : option Z;
  ep_is_running : bool;
  ep_current_batch : option ProcessingBatch;
}.

Definition EventProcessor_set_running (b : bool) (p : EventProcessor) : EventProcessor := {|
  ep_store := ep_store p; ep_batch_size := ep_batch_size p;
  ep_is_running := b; ep_current_batch := ep_current_batch p |}.
Definition EventProcessor_set_current (b : ProcessingBatch) (p : EventProcessor)
    : EventProcessor := {|
  ep_store := ep_store p; ep_batch_size := ep_batch_size p;
  ep_is_running := ep_is_running p; ep_current_batch := Some b |}.

(** [start]: the result and the new flag; the loop is spawned on success. *)
Definition EventProcessor_start (p : EventProcessor) : result BillingError unit * EventProcessor :=
  if ep_is_running p then (Err (InvalidState "Event processor is already running"), p)
  else (Ok tt, EventProcessor_set_running true p).

Definition EventProcessor_stop (p : EventProcessor) : result BillingError unit * EventProcessor :=
  (Ok tt, EventProcessor_set_running false p).

Definition process_single_event (event : UsageEvent) : M unit :=
  match uev_event_type event with
  | Telemetry => process_telemetry_event event
  | StatusChange => process_status_change event
  | CostUpdate => process_cost_update event
  | RentalStart => process_rental_start event
  | RentalEnd => process_rental_end event
  | ResourceUpdate => process_resource_update event
  end.

(** The loop over the events: how many succeeded, how many failed (both [i32]), and
    the identifiers of the ones that succeeded. *)
Fixpoint process_events (events : list UsageEvent) (processed failed : Z) (ids : list uuid)
    : M (Z * Z * list uuid) :=
  match events with
  | [] => mret (processed, failed, ids)
  | event :: rest =>
      outcome ← attempt (process_single_event event);
      match outcome with
      | Ok _ => process_events rest (processed + 1) failed (ids ++ [uev_event_id event])
      | Err _ => process_events rest processed (failed + 1) ids
      end
  end.

(** [process_batch] after the batch row exists and is the current batch. *)
Definition process_batch_events (p : EventProcessor) (batch : ProcessingBatch) : M unit :=
  events ← EventStore_get_unprocessed_events (ep_store p) (ep_batch_size p);
  match events with
  | [] => mret tt
  | _ =>
      EventStore_update_batch_status (bat_batch_id batch) BatchProcessing
        (Some (wrap_signed 32 (Z.of_nat (length events))));;
      counts ← process_events events 0 0 [];
      let '(processed_count, failed_count, processed_ids) := counts in
      (match processed_ids with
       | [] => mret tt
       | _ => EventStore_mark_events_processed processed_ids (bat_batch_id batch)
       end);;
      EventStore_complete_batch (bat_batch_id batch) processed_count failed_count
  end.

Definition EventProcessor_process_batch (p : EventProcessor) (env : Env) (w : World)
    : result BillingError unit * EventProcessor * World :=
  match EventStore_create_batch UsageAggregation env w with
  | (Err e, w1) => (Err e, p, w1)
  | (Ok batch, w1) =>
      let p' := EventProcessor_set_current batch p in
      let '(r, w2) := process_batch_events p' batch env w1 in (r, p', w2)
  end.

(** [processing_loop] over the values read from the flag; errors are logged. *)
Fixpoint EventProcessor_processing_loop (flags : list bool) (p : EventProcessor) (env : Env)
    (w : World) : EventProcessor * World :=
  match flags with
  | true :: flags' =>
      let '(_, p', w') := EventProcessor_process_batch p env w in
      EventProcessor_processing_loop flags' p' env w'
  | _ => (p, w)
  end.

Definition EventProcessor_get_current_batch (p : EventProcessor) : option ProcessingBatch :=
  ep_current_batch p.

(** ** Event payloads *)

Record TelemetryData := {
  td_cpu_percent : option dec;
  td_memory_mb : option Z;
  td_network_rx_bytes : option Z;
  td_network_tx_bytes : option Z;
  td_disk_read_bytes : option Z;
  td_disk_write_bytes : option Z;
  td_gpu_metrics : option json;
  td_custom_metrics : option json;
}.

Record StatusChangeData := {
  scd_old_status : string;
  scd_new_status : string;
  scd_reason : option string;
}.

Record CostUpdateData := {
  cud_total_cost : dec;
  cud_hourly_rate : option dec;
  cud_duration_hours : option dec;
}.

Record RentalEndData := {
  red_end_time : DateTime;
  red_final_cost : dec;
  red_termination_reason : option string;
}.

(** ** What the processor needs from the handlers: they leave the events and the
    batches to it. *)
Class EventHandlersLaws := {
  handlers_frame event env w :
    wp (process_single_event event) env w (fun _ w' =>
      usage_events (db w') = usage_events (db w) /\ batches (db w') = batches (db w));
}.
End Processor.

Arguments EventHandlers {_} : assert.
Arguments EventHandlersLaws {_ _} : assert.
