(* ===== verification/Handlers.v ===== *)
(** * Billing: the event handlers (crates/basilica-billing/src/domain/billing_handlers.rs)

    The six handlers of [BillingEventHandlers] over the five repository traits, as an
    instance of [EventHandlers].  The text forms of decimals and instants inside JSON
    are those of the rust_decimal and chrono libraries: the class [SerdeText].  Log
    lines are not modelled, nor is the comparison that only decides on a warning. *)

From Stdlib Require Import ZArith.
From stdpp Require Import base gmap strings list numbers.
From S2P Require Import Prelude Float64 Decimal BillingTypes BillingWorld Credits Rules.
From S2P Require Import Rentals Events Processor.
Local Open Scope Z_scope.

Class SerdeText `{Decimal} := {
  json_of_dec : dec -> json;
  dec_of_json : json -> option dec;
  json_of_time : DateTime -> json;
  time_of_json : json -> option DateTime;
}.

Section Handlers.
Context `{Decimal} `{UuidText} `{!SerdeText}.

(** The trait [UsageRepository] (storage/usage.rs, lines 10-37). *)
Class UsageRepository := {
  urepo_get_usage_for_rental : RentalId -> M UsageMetrics;
  urepo_get_usage_for_user : UserId -> DateTime -> DateTime -> M UsageMetrics;
  urepo_get_cost_for_period : UserId -> DateTime -> DateTime -> M CreditBalance;
  urepo_initialize_rental : RentalId -> UserId -> M unit;
  urepo_update_usage : RentalId -> UserId -> UsageMetrics -> CreditBalance -> M unit;
}.

Context `{!RentalRepository} `{!CreditRepository} `{!UsageRepository} `{!PackageRepository}
  `{!EventRepository}.

(** ** Payloads *)

Definition parse_telemetry_data (event_data : json) : TelemetryData := {|
  td_cpu_percent := (fun v => default dec_zero (dec_of_f64_retain v)) <$>
                      (json_get "cpu_percent" event_data ≫= json_as_f64);
  td_memory_mb := json_get "memory_mb" event_data ≫= json_as_u64;
  td_network_rx_bytes := json_get "network_rx_bytes" event_data ≫= json_as_u64;
  td_network_tx_bytes := json_get "network_tx_bytes" event_data ≫= json_as_u64;
  td_disk_read_bytes := json_get "disk_read_bytes" event_data ≫= json_as_u64;
  td_disk_write_bytes := json_get "disk_write_bytes" event_data ≫= json_as_u64;
  td_gpu_metrics := json_get "gpu_metrics" event_data;
  td_custom_metrics := json_get "custom_metrics" event_data |}.

(** The sum of two [u64] byte counts wraps; [checked_div] never fails here. *)
Definition gigabytes (a b : option Z) : dec :=
  dec_of_Z (wrap 64 (default 0 a + default 0 b) / 1073741824).

Definition telemetry_to_usage_metrics (t : TelemetryData) : UsageMetrics := {|
  cpu_hours := dec_div (default dec_zero (td_cpu_percent t)) (dec_of_Z 100);
  memory_gb_hours :=
    from_option (fun mb => dec_div (dec_of_Z mb) (dec_of_Z 1024)) dec_zero (td_memory_mb t);
  gpu_hours :=
    from_option (fun v => default dec_zero (dec_of_f64_retain (f64_div v (f64_of_Z 100)))) dec_one
      (m ← td_gpu_metrics t; v ← json_get "utilization" m; json_as_f64 v);
  network_gb := gigabytes (td_network_rx_bytes t) (td_network_tx_bytes t);
  storage_gb_hours := dec_zero;
  disk_io_gb := gigabytes (td_disk_read_bytes t) (td_disk_write_bytes t) |}.

(** [serde_json::from_value]. *)
Definition decode_status_change (v : json) : option StatusChangeData :=
  o ← json_field json_as_str "old_status" v;
  n ← json_field json_as_str "new_status" v;
  r ← json_opt_field json_as_str "reason" v;
  Some {| scd_old_status := o; scd_new_status := n; scd_reason := r |}.

Definition decode_cost_update (v : json) : option CostUpdateData :=
  t ← json_field dec_of_json "total_cost" v;
  h ← json_opt_field dec_of_json "hourly_rate" v;
  d ← json_opt_field dec_of_json "duration_hours" v;
  Some {| cud_total_cost := t; cud_hourly_rate := h; cud_duration_hours := d |}.

Definition decode_rental_end (v : json) : option RentalEndData :=
  t ← json_field time_of_json "end_time" v;
  c ← json_field dec_of_json "final_cost" v;
  r ← json_opt_field json_as_str "termination_reason" v;
  Some {| red_end_time := t; red_final_cost := c; red_termination_reason := r |}.

Definition json_of_usage (u : UsageMetrics) : json :=
  JObject [("gpu_hours", json_of_dec (gpu_hours u)); ("cpu_hours", json_of_dec (cpu_hours u));
           ("memory_gb_hours", json_of_dec (memory_gb_hours u));
           ("storage_gb_hours", json_of_dec (storage_gb_hours u));
           ("network_gb", json_of_dec (network_gb u)); ("disk_io_gb", json_of_dec (disk_io_gb u))].

Definition json_of_opt_dec (o : option dec) : json := from_option json_of_dec JNull o.

Definition record_billing_event (event_type entity_id : string) (user_id : option uuid)
    (event_data : json) : M unit :=
  id ← new_v4;
  t ← now;
  erepo_append_billing_event {|
    bev_event_id := id;
    bev_event_type := event_type;
    bev_entity_type := "rental";
    bev_entity_id := entity_id;
    bev_user_id := user_id;
    bev_event_data := event_data;
    bev_metadata := None;
    bev_created_by := "billing_handler";
    bev_created_at := t |};;
  mret tt.

(** [get_rental(id).await?.ok_or(RentalNotFound)?]. *)
Definition load_rental (id : RentalId) : M Rental :=
  found ← rrepo_get_rental id;
  ok_or (RentalNotFound (uuid_to_string id)) found.

(** ** The handlers *)

Definition Billing_process_telemetry_event (event : UsageEvent) : M unit :=
  let telemetry := parse_telemetry_data (uev_event_data event) in
  let usage_metrics := telemetry_to_usage_metrics telemetry in
  let rid := uev_rental_id event in
  rental ← load_rental rid;
  if decide (rental_state rental <> Active) then mret tt
  else
    package ← prepo_get_package (rental_package_id rental);
    let cost_breakdown := BillingPackage_calculate_cost package usage_metrics in
    let user_id := uev_user_id event in
    urepo_update_usage rid user_id usage_metrics (total_cost cost_breakdown);;
    record_billing_event "telemetry_processed" (uuid_to_string rid)
      (UserId_as_uuid (rental_user_id rental))
      (JObject [("usage_metrics", json_of_usage usage_metrics);
                ("cost", JString (CreditBalance_to_string (total_cost cost_breakdown)));
                ("timestamp", json_of_time (uev_timestamp event))]).

Definition parse_new_status (s : string) : option RentalState :=
  if String.eqb s "pending" then Some Pending
  else if String.eqb s "active" then Some Active
  else if String.eqb s "completed" then Some Completed
  else if String.eqb s "failed" then Some Failed
  else None.

(** Ending a rental through its status: charge what was used, try to release the
    reservation; failures of both are only logged. *)
Definition settle_status_change (rid : RentalId) (rental : Rental) : M Rental :=
  t ← now;
  let rental := Rental_with_actual_end_time (Some t) rental in
  usage ← urepo_get_usage_for_rental rid;
  package ← prepo_get_package (rental_package_id rental);
  let final_cost := BillingPackage_calculate_cost package usage in
  let rental := Rental_with_actual_cost (total_cost final_cost) rental in
  attempt (repo_deduct_credits (rental_user_id rental) (total_cost final_cost));;
  (match rental_reservation_id rental with
   | Some reservation_id => attempt (repo_release_reservation reservation_id);; mret tt
   | None => mret tt
   end);;
  mret rental.

(** The [match (old_state, new_state)] of [process_status_change]. *)
Definition status_change_effects (rid : RentalId) (old_state new_state : RentalState)
    (rental : Rental) : M Rental :=
  match old_state, new_state with
  | Pending, Active => t ← now; mret (Rental_with_actual_start_time (Some t) rental)
  | Active, Completed | Active, Failed => settle_status_change rid rental
  | _, _ => mret rental
  end.

Definition Billing_process_status_change (event : UsageEvent) : M unit :=
  status_data ← ok_or (ValidationError "event_data" "Invalid status change data")
                      (decode_status_change (uev_event_data event));
  let rid := uev_rental_id event in
  rental ← load_rental rid;
  match parse_new_status (scd_new_status status_data) with
  | None => mret tt
  | Some new_state =>
      let old_state := rental_state rental in
      let rental := Rental_with_state new_state rental in
      rental ← status_change_effects rid old_state new_state rental;
      rrepo_update_rental rental;;
      record_billing_event "status_changed" (uuid_to_string rid)
        (UserId_as_uuid (rental_user_id rental))
        (JObject [("old_status", JString (scd_old_status status_data));
                  ("new_status", JString (scd_new_status status_data));
                  ("reason", json_of_opt_str (scd_reason status_data));
                  ("timestamp", json_of_time (uev_timestamp event))])
  end.

Definition Billing_process_cost_update (event : UsageEvent) : M unit :=
  cost_data ← ok_or (ValidationError "event_data" "Invalid cost update data")
                    (decode_cost_update (uev_event_data event));
  let rid := uev_rental_id event in
  rental ← load_rental rid;
  let new_cost := CreditBalance_from_decimal (cud_total_cost cost_data) in
  let rental := Rental_with_actual_cost new_cost rental in
  rrepo_update_rental rental;;
  record_billing_event "cost_updated" (uuid_to_string rid)
    (UserId_as_uuid (rental_user_id rental))
    (JObject [("total_cost", json_of_dec (cud_total_cost cost_data));
              ("hourly_rate", json_of_opt_dec (cud_hourly_rate cost_data));
              ("duration_hours", json_of_opt_dec (cud_duration_hours cost_data));
              ("timestamp", json_of_time (uev_timestamp event))]).

Definition one_gpu_hour : UsageMetrics := {|
  gpu_hours := dec_one; cpu_hours := dec_zero; memory_gb_hours := dec_zero;
  storage_gb_hours := dec_zero; network_gb := dec_zero; disk_io_gb := dec_zero |}.

Definition default_resource_spec : ResourceSpec := {|
  gpu_specs := []; cpu_cores := 1; memory_gb := 1; storage_gb := 10; disk_iops := 1000;
  network_bandwidth_mbps := 100 |}.

(** The last part of [process_rental_start]: the rental and its records. *)
Definition create_started_rental (event : UsageEvent) (package_id : PackageId)
    (estimated_cost : CreditBalance) (reservation : Reservation) : M unit :=
  let rid := uev_rental_id event in
  let user_id := uev_user_id event in
  fresh ← Rental_new user_id (uev_executor_id event) (uev_validator_id event) package_id
            default_resource_spec (Some (res_id reservation));
  t ← now;
  let rental :=
    Rental_with_actual_start_time (Some t) (Rental_with_state Active (Rental_with_id rid fresh)) in
  rrepo_create_rental rental;;
  urepo_initialize_rental rid user_id;;
  record_billing_event "rental_started" (uuid_to_string rid) (UserId_as_uuid user_id)
    (JObject [("package_id", JString (rental_package_id rental));
              ("executor_id", JString (uev_executor_id event));
              ("validator_id", JString (uev_validator_id event));
              ("estimated_cost", JString (CreditBalance_to_string estimated_cost));
              ("reservation_id", JString (uuid_to_string (res_id reservation)));
              ("timestamp", json_of_time (uev_timestamp event))]).

(** What [process_rental_start] does when it found no rental. *)
Definition start_new_rental (event : UsageEvent) : M unit :=
  let package_id := default PackageId_h100
                      (json_get "package_id" (uev_event_data event) ≫= json_as_str) in
  package ← prepo_get_package package_id;
  let estimated_cost := total_cost (BillingPackage_calculate_cost package one_gpu_hour) in
  reservation ← repo_reserve_credits (uev_user_id event) estimated_cost (uev_rental_id event);
  create_started_rental event package_id estimated_cost reservation.

Definition Billing_process_rental_start (event : UsageEvent) : M unit :=
  existing ← attempt (rrepo_get_rental (uev_rental_id event));
  match existing with
  | Ok (Some _) => mret tt
  | _ => start_new_rental event
  end.

Definition Billing_process_rental_end (event : UsageEvent) : M unit :=
  end_data ← ok_or (ValidationError "event_data" "Invalid rental end data")
                   (decode_rental_end (uev_event_data event));
  let rid := uev_rental_id event in
  rental ← load_rental rid;
  if decide (rental_state rental = Completed \/ rental_state rental = Failed) then mret tt
  else
    usage ← urepo_get_usage_for_rental rid;
    package ← prepo_get_package (rental_package_id rental);
    let cost_breakdown := BillingPackage_calculate_cost package usage in
    let computed_cost := total_cost cost_breakdown in
    let client_provided_cost := CreditBalance_from_decimal (red_final_cost end_data) in
    let new_state := if decide (red_termination_reason end_data = Some "failed")
                     then Failed else Completed in
    t ← now;
    let rental := Rental_with_actual_cost computed_cost
                    (Rental_with_actual_end_time (Some t) (Rental_with_state new_state rental)) in
    charge_result ← attempt (repo_deduct_credits (rental_user_id rental) computed_cost);
    (match rental_reservation_id rental with
     | Some reservation_id => attempt (repo_release_reservation reservation_id);; mret tt
     | None => mret tt
     end);;
    rrepo_update_rental rental;;
    record_billing_event "rental_ended" (uuid_to_string rid)
      (UserId_as_uuid (rental_user_id rental))
      (JObject [("computed_cost", JString (CreditBalance_to_string computed_cost));
                ("client_provided_cost", JString (CreditBalance_to_string client_provided_cost));
                ("end_time", json_of_time (red_end_time end_data));
                ("termination_reason", json_of_opt_str (red_termination_reason end_data));
                ("usage_metrics", json_of_usage usage);
                ("charge_success", JBool (is_Ok charge_result));
                ("timestamp", json_of_time (uev_timestamp event))]).

Definition Billing_process_resource_update (event : UsageEvent) : M unit :=
  let rid := uev_rental_id event in
  rental ← load_rental rid;
  match json_get "resources" (uev_event_data event) with
  | None => mret tt
  | Some resources =>
      rental ← (match json_get "gpu_model" resources ≫= json_as_str with
                | Some gpu_model =>
                    new_package ← prepo_find_package_for_gpu_model gpu_model;
                    mret (if negb (String.eqb (pkg_id new_package) (rental_package_id rental))
                          then Rental_with_package_id (pkg_id new_package) rental else rental)
                | None => mret rental
                end);
      rrepo_update_rental rental;;
      record_billing_event "resource_updated" (uuid_to_string rid)
        (UserId_as_uuid (rental_user_id rental))
        (JObject [("resources", resources);
                  ("package_id", JString (rental_package_id rental));
                  ("timestamp", json_of_time (uev_timestamp event))])
  end.

#[global] Instance BillingEventHandlers : EventHandlers := {|
  process_telemetry_event := Billing_process_telemetry_event;
  process_status_change := Billing_process_status_change;
  process_cost_update := Billing_process_cost_update;
  process_rental_start := Billing_process_rental_start;
  process_rental_end := Billing_process_rental_end;
  process_resource_update := Billing_process_resource_update;
|}.
End Handlers.

Arguments UsageRepository {_} : assert.
