(* ===== verification/HandlerFacts.v ===== *)
(** * Billing: what the handlers leave alone

    [keeps R m]: every run of [m], whatever fails, relates the database before and
    after by the preorder [R].  It is closed under the monad's operations, so the
    frame properties of the handlers follow from those of the repositories: the
    handlers satisfy the interface [EventHandlersLaws] of the processor. *)

From Stdlib Require Import ZArith.
From stdpp Require Import base gmap strings list numbers.
From Stdlib Require Import ZArith HexString.
From S2P Require Import Prelude.
From S2P Require Import Float64.
From S2P Require Import Decimal.
From S2P Require Import BillingTypes.
From S2P Require Import BillingWorld.
From S2P Require Import Credits.
From S2P Require Import CreditRepo.
From S2P Require Import Ledger.
From S2P Require Import CreditManagerFacts.
From S2P Require Import CreditRepoFacts.
From S2P Require Import Rules.
From S2P Require Import Rentals.
From S2P Require Import Events.
From S2P Require Import Processor.
From S2P Require Import Handlers.
Local Open Scope Z_scope.

Section Keeps.
Context `{Decimal} (R : Db -> Db -> Prop) `{!PreOrder R}.

Definition keeps {A} (m : M A) : Prop :=
  forall env w, wp m env w (fun _ w' => R (db w) (db w')).

Lemma keeps_ret {A} (a : A) : keeps (mret a).
Proof. intros env w. by wp_steps. Qed.
Lemma keeps_throw {A} e : keeps (throw (A := A) e).
Proof. intros env w. by wp_steps. Qed.
Lemma keeps_ok_or {A} e (o : option A) : keeps (ok_or e o).
Proof. intros env w. destruct o; by wp_steps. Qed.
Lemma keeps_now : keeps now.
Proof. intros env w. apply wp_now. by intros t w' ->. Qed.
Lemma keeps_new_v4 : keeps new_v4.
Proof. intros env w. apply wp_new_v4. by intros w' ->. Qed.
Lemma keeps_bind {A B} (m : M A) (f : A -> M B) :
  keeps m -> (forall a, keeps (f a)) -> keeps (m ≫= f).
Proof.
  intros Hm Hf env w. wp_step. eapply wp_mono; [apply Hm|]. intros [a|e] w' HR; [|done].
  eapply wp_mono; [apply Hf|]. intros r w'' HR'. simpl in HR'. by etrans.
Qed.
Lemma keeps_attempt {A} (m : M A) : keeps m -> keeps (attempt m).
Proof. intros Hm env w. apply wp_attempt, Hm. Qed.
Lemma keeps_sql {A} e (stmt : Db -> option (A * Db)) :
  (forall d a d', stmt d = Some (a, d') -> R d d') -> keeps (sql e stmt).
Proof.
  intros Hs env w. apply wp_sql_any; [by intros w' ->|]. intros a d w' E ->. by eapply Hs.
Qed.
Lemma keeps_transaction {A} e1 e2 (m : M A) : keeps m -> keeps (transaction e1 e2 m).
Proof.
  intros Hm env w. apply wp_transaction_any; [by intros e w' ->|]. intros w1 D1.
  eapply wp_mono; [apply Hm|]. intros [a|e] w2 HR w3 D3; rewrite D3; [|done]. by rewrite <- D1.
Qed.
End Keeps.

Create HintDb keeps.
#[export] Hint Extern 0 (PreOrder _) => apply _ : keeps.
#[export] Hint Resolve keeps_ret keeps_throw keeps_ok_or keeps_now keeps_new_v4 : keeps.

(** Split a program into its statements and discharge the rest. *)
Ltac keeps_tac :=
  repeat (first
    [ progress intros
    | solve [eauto 3 with keeps]
    | match goal with |- PreOrder _ => apply _ end
    | apply keeps_bind
    | apply keeps_attempt | apply keeps_transaction
    | apply keeps_sql
    | case_match ]).

(** ** Footprints

    A relation that does not look at a table. *)
Class IgnoresCredits (R : Db -> Db -> Prop) := ignores_credits d m : R d (set_credits m d).
Class IgnoresReservations (R : Db -> Db -> Prop) :=
  ignores_reservations d m : R d (set_reservations m d).
Class IgnoresRentals (R : Db -> Db -> Prop) := ignores_rentals d m : R d (set_rentals m d).
Class IgnoresBillingEvents (R : Db -> Db -> Prop) :=
  ignores_billing_events d m : R d (set_billing_events m d).

#[export] Hint Extern 0 (IgnoresCredits _) => apply _ : keeps.
#[export] Hint Extern 0 (IgnoresReservations _) => apply _ : keeps.
#[export] Hint Extern 0 (IgnoresRentals _) => apply _ : keeps.
#[export] Hint Extern 0 (IgnoresBillingEvents _) => apply _ : keeps.

(** Decompose the [option] computation of a statement. *)
Ltac stmt_tac :=
  repeat match goal with
  | E : (_ ≫= _) = Some _ |- _ => apply bind_Some in E as (? & ? & ?)
  | E : context [match ?x with _ => _ end] |- _ => destruct x eqn:?; try done
  | E : Some _ = Some _ |- _ => injection E as ?; subst
  | E : (_, _) = (_, _) |- _ => injection E as ?; subst
  end; try done;
  first [reflexivity | apply ignores_credits | apply ignores_reservations
        | apply ignores_rentals | apply ignores_billing_events].

Section Frames.
Context `{Decimal} `{UuidText} (R : Db -> Db -> Prop) `{!PreOrder R}.

Lemma keeps_get_rental id : keeps R (SqlRentalRepository_get_rental id).
Proof. unfold SqlRentalRepository_get_rental. keeps_tac; stmt_tac. Qed.

Lemma keeps_create_rental `{!IgnoresRentals R} r : keeps R (SqlRentalRepository_create_rental r).
Proof. unfold SqlRentalRepository_create_rental. keeps_tac; stmt_tac. Qed.

Lemma keeps_update_rental `{!IgnoresRentals R} r : keeps R (SqlRentalRepository_update_rental r).
Proof. unfold SqlRentalRepository_update_rental. keeps_tac; stmt_tac. Qed.

Lemma keeps_append_billing_event `{!IgnoresBillingEvents R} e :
  keeps R (SqlEventRepository_append_billing_event e).
Proof. unfold SqlEventRepository_append_billing_event. keeps_tac; stmt_tac. Qed.

Lemma keeps_release_reservation `{!IgnoresReservations R} id :
  keeps R (SqlCreditRepository_release_reservation id).
Proof. unfold SqlCreditRepository_release_reservation. keeps_tac; stmt_tac. Qed.

Lemma keeps_resolve u : keeps R (resolve_user_uuid u).
Proof. unfold resolve_user_uuid. keeps_tac; stmt_tac. Qed.
Hint Resolve keeps_resolve : keeps.
Lemma keeps_require u : keeps R (require_user_uuid u).
Proof. unfold require_user_uuid. keeps_tac. Qed.
Hint Resolve keeps_require : keeps.
Lemma keeps_get_account u : keeps R (SqlCreditRepository_get_account u).
Proof. unfold SqlCreditRepository_get_account. keeps_tac; stmt_tac. Qed.
Hint Resolve keeps_get_account : keeps.

Lemma keeps_deduct_credits `{!IgnoresCredits R} `{!IgnoresBillingEvents R} u a :
  keeps R (SqlCreditRepository_deduct_credits u a).
Proof.
  unfold SqlCreditRepository_deduct_credits, deduct_statement, record_credit_deduction. keeps_tac; stmt_tac.
Qed.

Lemma keeps_reserve_credits `{!IgnoresCredits R} `{!IgnoresReservations R} u a r :
  keeps R (SqlCreditRepository_reserve_credits u a r).
Proof.
  unfold SqlCreditRepository_reserve_credits, reserve_statements, Reservation_new,
    insert_reservation.
  keeps_tac; stmt_tac.
Qed.
End Frames.

(** The tables that belong to the processor. *)
Definition events_frame (d d' : Db) : Prop :=
  usage_events d' = usage_events d /\ batches d' = batches d.

#[export] Instance events_frame_preorder : PreOrder events_frame.
Proof.
  split; [by intros d|]. intros d1 d2 d3 [E1 E2] [E3 E4]. split; congruence.
Qed.
#[export] Instance events_frame_credits : IgnoresCredits events_frame.
Proof. done. Qed.
#[export] Instance events_frame_reservations : IgnoresReservations events_frame.
Proof. done. Qed.
#[export] Instance events_frame_rentals : IgnoresRentals events_frame.
Proof. done. Qed.
#[export] Instance events_frame_billing_events : IgnoresBillingEvents events_frame.
Proof. done. Qed.

(** What the handlers' theorems ask of the package and usage repositories: they keep
    to their own tables. *)
Definition unchanged (d d' : Db) : Prop := d' = d.

Class ForeignRepositories `{Decimal} `{!PackageRepository} `{!UsageRepository} := {
  foreign_get_package id : keeps unchanged (prepo_get_package id);
  foreign_find_package m : keeps unchanged (prepo_find_package_for_gpu_model m);
  foreign_get_usage id : keeps unchanged (urepo_get_usage_for_rental id);
  foreign_initialize id u : keeps unchanged (urepo_initialize_rental id u);
  foreign_update_usage id u m c : keeps unchanged (urepo_update_usage id u m c);
}.

Section Foreign.
Context `{ForeignRepositories} (R : Db -> Db -> Prop) `{!PreOrder R}.

Lemma keeps_of_unchanged {A} (m : M A) : keeps unchanged m -> keeps R m.
Proof. intros Hm env w. eapply wp_mono; [apply Hm|]. by intros r w' ->. Qed.

Lemma keeps_get_package id : keeps R (prepo_get_package id).
Proof. apply keeps_of_unchanged, foreign_get_package. Qed.
Lemma keeps_find_package m : keeps R (prepo_find_package_for_gpu_model m).
Proof. apply keeps_of_unchanged, foreign_find_package. Qed.
Lemma keeps_get_usage id : keeps R (urepo_get_usage_for_rental id).
Proof. apply keeps_of_unchanged, foreign_get_usage. Qed.
Lemma keeps_initialize id u : keeps R (urepo_initialize_rental id u).
Proof. apply keeps_of_unchanged, foreign_initialize. Qed.
Lemma keeps_update_usage id u m c : keeps R (urepo_update_usage id u m c).
Proof. apply keeps_of_unchanged, foreign_update_usage. Qed.
End Foreign.

#[export] Hint Extern 0 (ForeignRepositories) => apply _ : keeps.
#[export] Hint Resolve keeps_get_package keeps_find_package keeps_get_usage keeps_initialize
  keeps_update_usage : keeps.
#[export] Hint Resolve keeps_get_rental keeps_create_rental keeps_update_rental
  keeps_append_billing_event keeps_release_reservation keeps_deduct_credits
  keeps_reserve_credits : keeps.

Section HandlerFrames.
Context `{Decimal} `{UuidText} `{!SerdeText} `{!PackageRepository} `{!UsageRepository}.
Context (R : Db -> Db -> Prop) `{!PreOrder R} `{!ForeignRepositories}.

Context `{!IgnoresBillingEvents R}.

Lemma keeps_record_event t e u d : keeps R (record_billing_event t e u d).
Proof. unfold record_billing_event; simpl. keeps_tac. Qed.

Lemma keeps_load_rental id : keeps R (load_rental id).
Proof. unfold load_rental; simpl. keeps_tac. Qed.

Lemma keeps_Rental_new u e v p s r : keeps R (Rental_new u e v p s r).
Proof. unfold Rental_new. keeps_tac. Qed.

Hint Resolve keeps_record_event keeps_load_rental keeps_Rental_new : keeps.

Lemma keeps_settle_status_change `{!IgnoresCredits R} `{!IgnoresReservations R} id r :
  keeps R (settle_status_change id r).
Proof. unfold settle_status_change; simpl. keeps_tac. Qed.

Hint Resolve keeps_settle_status_change : keeps.

Lemma keeps_process_single_event `{!IgnoresCredits R} `{!IgnoresReservations R}
    `{!IgnoresRentals R} event : keeps R (process_single_event event).
Proof.
  unfold process_single_event. destruct (uev_event_type event); simpl.
  - unfold Billing_process_telemetry_event; simpl. keeps_tac.
  - unfold Billing_process_status_change, status_change_effects; simpl. keeps_tac.
  - unfold Billing_process_cost_update; simpl. keeps_tac.
  - unfold Billing_process_rental_start, start_new_rental, create_started_rental; simpl. keeps_tac.
  - unfold Billing_process_rental_end; simpl. keeps_tac.
  - unfold Billing_process_resource_update; simpl. keeps_tac.
Qed.
End HandlerFrames.

(** The handlers, over the SQL repositories, satisfy the processor's interface. *)
#[export] Instance BillingEventHandlers_laws `{Decimal} `{UuidText} `{!SerdeText}
  `{!PackageRepository} `{!UsageRepository} `{!ForeignRepositories} :
  EventHandlersLaws.
Proof. split. intros event. exact (keeps_process_single_event events_frame event). Qed.

#[export] Hint Resolve keeps_record_event keeps_load_rental keeps_Rental_new : keeps.

(** ** Billing: a concrete rental with its events

    The state the witnesses of the processor and handler properties run in: alice, the
    credits of [CreditRepoFacts.v], an active rental of hers, the event that ends it
    and an event for a rental that does not exist; a package at 3.50 credits an hour
    and no usage on record. *)

Module Stage.
Import Scenario.

#[export] Instance serde_text : SerdeText := {|
  json_of_dec a := JString (dec_to_string a);
  dec_of_json v := json_as_str v ≫= dec_of_string;
  json_of_time t := JPosInt t;
  time_of_json := json_as_u64;
|}.

Definition h100 : BillingPackage :=
  BillingPackage_new "h100" "H100" "" {| as_decimal := 35 * 10 ^ 27 |} "h100".

Definition flat_cost (usage : UsageMetrics) : CostBreakdown :=
  BillingPackage_calculate_cost h100 usage.

#[export] Instance packages : PackageRepository := {|
  prepo_get_package _ := mret h100;
  prepo_list_packages := mret [h100];
  prepo_find_package_for_gpu_model _ := mret h100;
  prepo_is_package_compatible_with_gpu _ _ := mret true;
  prepo_create_package _ := mret tt;
  prepo_update_package _ := mret tt;
  prepo_delete_package _ := mret tt;
  prepo_activate_package _ := mret tt;
  prepo_deactivate_package _ := mret tt;
  prepo_evaluate_package_cost _ usage := mret (flat_cost usage);
|}.

#[export] Instance usage : UsageRepository := {|
  urepo_get_usage_for_rental _ := mret UsageMetrics_zero;
  urepo_get_usage_for_user _ _ _ := mret UsageMetrics_zero;
  urepo_get_cost_for_period _ _ _ := mret CreditBalance_zero;
  urepo_initialize_rental _ _ := mret tt;
  urepo_update_usage _ _ _ _ := mret tt;
|}.

#[export] Instance foreign : ForeignRepositories.
Proof. by split. Qed.

Definition row0 : rental_row := {|
  rt_user_id := "alice"; rt_executor_id := "exec"; rt_validator_id := Some "val";
  rt_package_id := Some "h100"; rt_status := "active";
  rt_resource_spec := default_resource_spec;
  rt_hourly_rate := 350; rt_start_time := 0; rt_end_time := None; rt_max_duration_hours := 24;
  rt_total_cost := None; rt_metadata := ∅; rt_created_at := 0; rt_updated_at := 0 |}.

(** The end of rental 9; the event claims a cost of zero. *)
Definition end_data : json :=
  JObject [("end_time", JPosInt 7200); ("final_cost", JString "0.0")].

Definition event_row (type : string) (rental : uuid) (data : json) (t : DateTime)
    : usage_event_row := {|
  ue_rental_id := rental; ue_user_id := "alice"; ue_executor_id := "exec";
  ue_validator_id := "val"; ue_event_type := type; ue_event_data := data; ue_timestamp := t;
  ue_processed := false; ue_processed_at := None; ue_batch_id := None |}.

Definition lost_row : usage_event_row := event_row "telemetry" 10%N (JObject []) 1.
Definition end_row : usage_event_row := event_row "rental_end" 9%N end_data 2.

Definition d1 : Db :=
  set_usage_events (<[11%N := lost_row]> {[ 12%N := end_row ]})
    (set_rentals {[ 9%N := row0 ]} d0).

Definition w1 : World := {| db := d1; ticks := 0; drawn := 0; statements := 0 |}.

Definition end_event : UsageEvent := usage_event_of_row 12%N end_row.

Definition start_event : UsageEvent :=
  usage_event_of_row 13%N (event_row "rental_start" 10%N (JObject []) 3).

Definition status_event (s : string) : UsageEvent :=
  usage_event_of_row 14%N (event_row "status_change" 9%N
    (JObject [("old_status", JString "active"); ("new_status", JString s)]) 4).

(** An environment in which only the [n]-th statement is lost. *)
Definition env_losing (n : nat) : Env := {|
  clock := clock env; random_uuid := random_uuid env; fault := Nat.eqb n |}.

Lemma d1_tables_ok : credit_tables_ok d1.
Proof. exact tables_ok. Qed.

(** The cost of the hour the two events are about. *)
Definition hour : CreditBalance := {| as_decimal := 35 * 10 ^ 27 |}.

Lemma hour_ok : amount_ok hour.
Proof.
  assert (E : micros hour = 3500000) by (vm_compute; reflexivity).
  split; [split|]; [|rewrite E; unfold credit_bound; lia|rewrite E; lia].
  exists 3500000. vm_compute. reflexivity.
Qed.

Lemma is_hour (c : CreditBalance) : @eq Z (as_decimal c) (as_decimal hour) -> c = hour.
Proof. destruct c as [d]. unfold hour. cbn [as_decimal]. by intros ->. Qed.

Lemma flat_hour : total_cost (flat_cost UsageMetrics_zero) = hour.
Proof. apply is_hour. vm_compute. reflexivity. Qed.
Lemma flat_estimate : total_cost (flat_cost one_gpu_hour) = hour.
Proof. apply is_hour. vm_compute. reflexivity. Qed.
End Stage.
