(* ===== verification/ProcessorClaims.v ===== *)
(** * Billing: the properties of the event store and the event processor *)

From Stdlib Require Import ZArith.
From stdpp Require Import base gmap strings list numbers sorting.
From S2P Require Import Prelude Float64 Decimal BillingTypes BillingWorld Events Processor.
From S2P Require Import Handlers HandlerFacts CreditRepoFacts.
Local Open Scope Z_scope.

(** ** The pending events *)

Definition pending_rows (limit : Z) (d : Db) : list (uuid * usage_event_row) :=
  take (Z.to_nat limit)
    (sort_by oldest_first
       (filter (fun '(_, r) => ue_processed r = false) (map_to_list (usage_events d)))).

Definition pending_events (limit : Z) (d : Db) : list UsageEvent :=
  (fun '(k, r) => usage_event_of_row k r) <$> pending_rows limit d.

Lemma pending_rows_spec limit d k r :
  (k, r) ∈ pending_rows limit d -> usage_events d !! k = Some r /\ ue_processed r = false.
Proof.
  intros (i & Hi%list_elem_of_lookup_2 & _)%elem_of_take. rewrite sort_by_Permutation in Hi.
  apply list_elem_of_filter in Hi as [Hp Hi]. by apply elem_of_map_to_list in Hi.
Qed.

Lemma pending_event_spec limit d ev :
  ev ∈ pending_events limit d ->
  exists r, ev = usage_event_of_row (uev_event_id ev) r /\
    usage_events d !! uev_event_id ev = Some r /\ ue_processed r = false.
Proof.
  intros ([k r] & -> & Hin)%list_elem_of_fmap. exists r. split; [done|].
  by apply (pending_rows_spec limit).
Qed.

(** ** Running the handlers *)

Section Run.
Context `{Decimal} `{!EventHandlers}.

(** The outcomes of the handlers, one event after the other. *)
Fixpoint run_handlers (events : list UsageEvent) (env : Env) (w : World) : list bool * World :=
  match events with
  | [] => ([], w)
  | ev :: rest =>
      let '(r, w1) := process_single_event ev env w in
      let '(bs, w2) := run_handlers rest env w1 in
      (is_Ok r :: bs, w2)
  end.

(** The identifiers of the events whose handler succeeded. *)
Fixpoint succeeded (events : list UsageEvent) (bs : list bool) : list uuid :=
  match events, bs with
  | ev :: events', b :: bs' =>
      if b then uev_event_id ev :: succeeded events' bs' else succeeded events' bs'
  | _, _ => []
  end.

Definition count_ok (bs : list bool) : Z := Z.of_nat (length (filter (fun b => b = true) bs)).
Definition count_failed (bs : list bool) : Z := Z.of_nat (length (filter (fun b => b = false) bs)).

Lemma run_handlers_length events env w : length (fst (run_handlers events env w)) = length events.
Proof.
  revert w. induction events as [|ev events IH]; intros w; simpl; [done|].
  destruct (process_single_event ev env w) as [r w1]. specialize (IH w1).
  destruct (run_handlers events env w1) as [bs w2]. simpl in *. by rewrite IH.
Qed.

Lemma count_total bs : count_ok bs + count_failed bs = Z.of_nat (length bs).
Proof.
  unfold count_ok, count_failed. induction bs as [|[] bs IH]; [done|..];
    repeat rewrite filter_cons_True by done; repeat rewrite filter_cons_False by done;
    simpl length in *; lia.
Qed.

Lemma process_events_run events env w p f ids :
  process_events events p f ids env w =
    let '(bs, w') := run_handlers events env w in
    (Ok (p + count_ok bs, f + count_failed bs, ids ++ succeeded events bs), w').
Proof.
  revert w p f ids. induction events as [|ev events IH]; intros w p f ids.
  - simpl. unfold mret, M_ret. unfold count_ok, count_failed; simpl.
    by rewrite !Z.add_0_r, app_nil_r.
  - simpl. unfold mbind, M_bind, attempt.
    destruct (process_single_event ev env w) as [[[]|e] w1]; rewrite IH;
      destruct (run_handlers events env w1) as [bs w2]; simpl; unfold count_ok, count_failed;
      rewrite ?filter_cons_True, ?filter_cons_False by done; simpl length; do 3 f_equal.
    all: try (rewrite <- app_assoc; done). all: try lia. all: f_equal; lia.
Qed.

(** Every identifier in [succeeded] belongs to an event whose handler returned [Ok]. *)
Lemma succeeded_ran events env w k :
  k ∈ succeeded events (fst (run_handlers events env w)) ->
  exists ev w1, ev ∈ events /\ uev_event_id ev = k /\
    is_Ok (fst (process_single_event ev env w1)) = true.
Proof.
  revert w. induction events as [|ev events IH]; intros w; simpl; [by intros ?%elem_of_nil|].
  destruct (process_single_event ev env w) as [r w1] eqn:E. specialize (IH w1).
  destruct (run_handlers events env w1) as [bs w2]. simpl in *.
  assert (Hrest : k ∈ succeeded events bs -> exists ev' w1, ev' ∈ ev :: events /\
    uev_event_id ev' = k /\ is_Ok (fst (process_single_event ev' env w1)) = true).
  { intros Hk. destruct (IH Hk) as (ev' & w3 & ? & ? & ?). exists ev', w3.
    split; [by right|done]. }
  destruct r as [[]|e]; simpl; [|done]. intros [->|Hk]%elem_of_cons; [|auto].
  exists ev, w. split; [left|]. by rewrite E.
Qed.

Context `{!EventHandlersLaws}.

Lemma run_handlers_frame events env w :
  let w' := snd (run_handlers events env w) in
  usage_events (db w') = usage_events (db w) /\ batches (db w') = batches (db w).
Proof.
  revert w. induction events as [|ev events IH]; intros w; simpl; [done|].
  pose proof (handlers_frame ev env w) as Hf. unfold wp in Hf.
  destruct (process_single_event ev env w) as [r w1]. specialize (IH w1).
  destruct (run_handlers events env w1) as [bs w2]. simpl in *.
  destruct IH as [-> ->]. done.
Qed.
End Run.

Section Claims.
Context `{Decimal} `{UuidText} `{!EventHandlers} `{!EventHandlersLaws}.

Lemma wp_process_events events env w (Q : _ -> _ -> Prop) :
  (let '(bs, w') := run_handlers events env w in
   Q (Ok (count_ok bs, count_failed bs, succeeded events bs)) w') ->
  wp (process_events events 0 0 []) env w Q.
Proof.
  unfold wp. rewrite process_events_run. by destruct (run_handlers events env w).
Qed.

(** The table after [ids] were marked. *)
Definition marked (ids : list uuid) (t : DateTime) (batch : uuid)
    (m : gmap uuid usage_event_row) : gmap uuid usage_event_row :=
  map_imap (fun k r => Some (if decide (k ∈ ids) then mark_row_processed t batch r else r)) m.

Lemma lookup_marked ids t b m k :
  marked ids t b m !! k =
    (fun r => if decide (k ∈ ids) then mark_row_processed t b r else r) <$> m !! k.
Proof. unfold marked. rewrite map_lookup_imap. by destruct (m !! k). Qed.

Lemma marked_nil t b m : marked [] t b m = m.
Proof.
  apply map_eq. intros k. rewrite lookup_marked. destruct (m !! k); simpl; [|done].
  by destruct (decide (k ∈ [])) as [?%elem_of_nil|].
Qed.

Definition the_limit (p : EventProcessor) : Z :=
  default (store_batch_size (ep_store p)) (ep_batch_size p).

(** ** The steps of a batch, under arbitrary faults *)

Lemma wp_pending_any env p w (Q : _ -> _ -> Prop) :
  (forall e w', db w' = db w -> ~ fault_free env -> Q (Err e) w') ->
  (forall w', db w' = db w -> Q (Ok (pending_events (the_limit p) (db w))) w') ->
  wp (EventStore_get_unprocessed_events (ep_store p) (ep_batch_size p)) env w Q.
Proof.
  intros HE HQ. unfold EventStore_get_unprocessed_events; simpl.
  unfold SqlEventRepository_get_unprocessed_events. wp_step. apply wp_sql_any.
  - intros w' D Hn. apply HE; [done|]. intros Hff. by specialize (Hn Hff).
  - intros rows d w' [= <- <-] D. wp_step. specialize (HQ w' D). unfold the_limit in HQ.
    by destruct (ep_batch_size p).
Qed.

Definition started_row (t : DateTime) (n : Z) (r : batch_row) : batch_row := {|
  pb_batch_type := pb_batch_type r; pb_status := "processing"; pb_events_count := n;
  pb_events_processed := pb_events_processed r; pb_events_failed := pb_events_failed r;
  pb_started_at := Some t; pb_completed_at := pb_completed_at r |}.

Lemma wp_started_any env w b n (Q : _ -> _ -> Prop) :
  (forall e w', db w' = db w -> ~ fault_free env -> Q (Err e) w') ->
  (forall t w', db w' = set_batches (alter (started_row t n) b (batches (db w))) (db w) ->
     Q (Ok tt) w') ->
  wp (EventStore_update_batch_status b BatchProcessing (Some n)) env w Q.
Proof.
  intros HE HQ. unfold EventStore_update_batch_status; simpl.
  unfold SqlBatchRepository_update_batch_status. wp_step. wp_step.
  rename select (db _ = db w) into D. apply wp_sql_any; rewrite D.
  - intros w2 D2 Hn. apply HE; [congruence|]. intros Hff. specialize (Hn Hff). by case_match.
  - intros [] d w2. destruct (batches (db w) !! b) as [r|] eqn:E; intros [= <-] D2;
      apply (HQ t); rewrite D2, alter_alt, E; [done|]. by destruct (db w).
Qed.

Definition completed_row (t : DateTime) (ok failed : Z) (r : batch_row) : batch_row := {|
  pb_batch_type := pb_batch_type r;
  pb_status := if failed =? 0 then "completed" else "failed";
  pb_events_count := pb_events_count r;
  pb_events_processed := ok; pb_events_failed := failed;
  pb_started_at := pb_started_at r; pb_completed_at := Some t |}.

Lemma wp_completed_any env w b ok failed (Q : _ -> _ -> Prop) :
  (forall e w', db w' = db w -> ~ fault_free env -> Q (Err e) w') ->
  (forall t w', usage_events (db w') = usage_events (db w) ->
     batches (db w') = alter (completed_row t ok failed) b (batches (db w)) -> Q (Ok tt) w') ->
  wp (EventStore_complete_batch b ok failed) env w Q.
Proof.
  intros HE HQ. unfold EventStore_complete_batch; simpl.
  unfold SqlBatchRepository_complete_batch. wp_step. wp_step.
  rename select (db _ = db w) into D. apply wp_sql_any; rewrite D.
  - intros w2 D2 Hn. apply HE; [congruence|]. intros Hff. specialize (Hn Hff). by case_match.
  - intros [] d w2. destruct (batches (db w) !! b) as [r|] eqn:E; intros [= <-] D2;
      apply (HQ t); rewrite D2; try done; simpl; rewrite alter_alt, E; [|done].
    unfold completed_row. by destruct (failed =? 0).
Qed.

Lemma wp_mark_any env w ids b (Q : _ -> _ -> Prop) :
  (forall e w', db w' = db w -> ~ fault_free env -> Q (Err e) w') ->
  (forall t w', usage_events (db w') = marked ids t b (usage_events (db w)) ->
     batches (db w') = batches (db w) -> Q (Ok tt) w') ->
  wp (match ids with [] => mret tt | _ => EventStore_mark_events_processed ids b end) env w Q.
Proof.
  intros HE HQ. destruct ids as [|id ids].
  { wp_step. apply (HQ 0); [|done]. by rewrite marked_nil. }
  unfold EventStore_mark_events_processed; simpl.
  unfold SqlEventRepository_mark_events_processed. wp_step. wp_step.
  rename select (db _ = db w) into D. apply wp_sql_any.
  - intros w2 D2 Hn. apply HE; [congruence|]. intros Hff. by specialize (Hn Hff).
  - intros [] d w2 [= <-] D2. apply (HQ t); rewrite D2; simpl; by rewrite D.
Qed.

(** ** A whole batch *)

(** What a batch over [events] leaves behind: the events in [marks] are marked, and
    without faults these are the ones whose handlers succeeded, and the batch row
    records the outcome. *)
Definition batch_outcome (env : Env) (events : list UsageEvent) (b : uuid) (w : World)
    (r : result BillingError unit) (w' : World) : Prop :=
  exists w1 m, db w1 = set_batches m (db w) /\ let bs := fst (run_handlers events env w1) in
  exists marks t, usage_events (db w') = marked marks t b (usage_events (db w)) /\
    (marks = [] \/ marks = succeeded events bs) /\
    (fault_free env ->
      r = Ok tt /\ marks = succeeded events bs /\
      match events with
      | [] => batches (db w') = batches (db w)
      | _ => exists t0 t1, batches (db w') =
          alter (completed_row t1 (count_ok bs) (count_failed bs) ∘
                 started_row t0 (wrap_signed 32 (Z.of_nat (length events)))) b (batches (db w))
      end).

Lemma batch_outcome_err env events b w w' e :
  usage_events (db w') = usage_events (db w) -> ~ fault_free env ->
  batch_outcome env events b w (Err e) w'.
Proof.
  intros E Hnf. exists w, (batches (db w)). split; [by destruct (db w)|]. exists [], 0. rewrite marked_nil. split; [done|].
  split; [by left|]. by intros ?%Hnf.
Qed.

Lemma wp_process_batch_events env p batch w :
  wp (process_batch_events p batch) env w
     (batch_outcome env (pending_events (the_limit p) (db w)) (bat_batch_id batch) w).
Proof.
  unfold process_batch_events. wp_step.
  apply wp_pending_any; [intros; apply batch_outcome_err; [congruence|done]|].
  intros w1 D1. set (events := pending_events _ _).
  destruct events as [|ev0 events'] eqn:Eev.
  { wp_step. exists w, (batches (db w)). split; [by destruct (db w)|].
    exists [], 0. rewrite marked_nil, D1. simpl. auto. }
  rewrite <- Eev. wp_step. apply wp_started_any; [intros; apply batch_outcome_err; [congruence|done]|].
  intros t0 w2 D2. wp_step. apply wp_process_events. rewrite D1 in D2.
  assert (U2 : usage_events (db w2) = usage_events (db w)) by (by rewrite D2).
  pose proof (run_handlers_frame events env w2) as [U3 B3].
  destruct (run_handlers events env w2) as [bs w3] eqn:Erun. simpl in U3, B3.
  assert (Ebs : bs = fst (run_handlers events env w2)) by (by rewrite Erun).
  wp_step. apply wp_mark_any; [intros; apply batch_outcome_err; [congruence|done]|].
  intros t w4 U4 B4. apply wp_completed_any.
  - intros e w5 D5 Hnf. exists w2; eexists; split; [exact D2|]. rewrite <- Ebs. exists (succeeded events bs), t.
    split; [congruence|]. split; [by right|]. by intros ?%Hnf.
  - intros t1 w5 U5 B5. exists w2; eexists; split; [exact D2|]. rewrite <- Ebs. exists (succeeded events bs), t.
    split; [congruence|]. split; [by right|]. intros _. split; [done|]. split; [done|].
    rewrite Eev. exists t0, t1. rewrite <- Eev.
    rewrite B5, B4, B3, D2. simpl. by rewrite <- alter_alter_eq.
Qed.

Definition fresh_batch_row : batch_row := {|
  pb_batch_type := "usage_aggregation"; pb_status := "pending"; pb_events_count := 0;
  pb_events_processed := 0; pb_events_failed := 0; pb_started_at := None;
  pb_completed_at := None |}.

Lemma wp_create_batch_any env w (Q : _ -> _ -> Prop) :
  (forall e w', db w' = db w ->
     (fault_free env -> exists n, is_Some (batches (db w) !! random_uuid env n)) -> Q (Err e) w') ->
  (forall batch w', batches (db w) !! bat_batch_id batch = None ->
     db w' = set_batches (<[bat_batch_id batch := fresh_batch_row]> (batches (db w))) (db w) ->
     Q (Ok batch) w') ->
  wp (EventStore_create_batch UsageAggregation) env w Q.
Proof.
  intros HE HQ. unfold EventStore_create_batch; simpl.
  unfold SqlBatchRepository_create_batch. wp_step. wp_step.
  rename select (db _ = db w) into D. wp_step.
  apply wp_sql_any; rewrite D; destruct (batches (db w) !! _) eqn:E; try done.
  - intros w2 D2 _. apply HE; [congruence|]. eauto.
  - intros w2 D2 Hn. apply HE; [congruence|]. intros Hff. by specialize (Hn Hff).
  - intros [] d w2 [= <-] D2. wp_steps. by apply HQ.
Qed.

(** A row is left alone, or marked after its handler succeeded. *)
Definition marked_after_success (env : Env) (d d' : Db) : Prop :=
  forall k,
    match usage_events d !! k, usage_events d' !! k with
    | None, None => True
    | Some r, Some r' => r' = r \/
        (ue_processed r = false /\ (exists t b, r' = mark_row_processed t b r) /\
         exists w1, is_Ok (fst (process_single_event (usage_event_of_row k r) env w1)) = true)
    | _, _ => False
    end.

Lemma marked_after_success_refl env d d' :
  usage_events d' = usage_events d -> marked_after_success env d d'.
Proof. intros E k. rewrite E. destruct (usage_events d !! k); auto. Qed.

Lemma batch_outcome_safe env limit b w d r w' :
  usage_events (db w) = usage_events d ->
  batch_outcome env (pending_events limit (db w)) b w r w' ->
  marked_after_success env d (db w').
Proof.
  intros E (w1 & m & _ & marks & t & U & Hm & _) k. rewrite U, lookup_marked, E.
  destruct (usage_events d !! k) as [row|] eqn:Er; simpl; [|done].
  case_decide as Hk; [|by left]. right. destruct Hm as [-> | ->]; [by apply elem_of_nil in Hk|].
  apply succeeded_ran in Hk as (ev & w2 & Hin & Eid & Hrun).
  apply pending_event_spec in Hin as (row' & Eev & Er' & Hp). rewrite Eid in Eev, Er'.
  rewrite E, Er in Er'. simplify_eq. eauto 10.
Qed.

(** Whatever statements fail during a batch, no usage event disappears,
    appears or changes, except that an unprocessed event may be marked processed,
    and only after the handler of that very event returned success. *)
Theorem process_batch_marks_only_successes env p w :
  let '(_, _, w') := EventProcessor_process_batch p env w in
  marked_after_success env (db w) (db w').
Proof.
  unfold EventProcessor_process_batch.
  pose proof (wp_create_batch_any env w (fun r w1 =>
    usage_events (db w1) = usage_events (db w))) as Hc.
  unfold wp in Hc. specialize (Hc ltac:(by intros e w' -> _) ltac:(by intros batch w' _ ->)).
  destruct (EventStore_create_batch UsageAggregation env w) as [[batch|e] w1];
    [|by apply marked_after_success_refl].
  pose proof (wp_process_batch_events env (EventProcessor_set_current batch p) batch w1) as Hp.
  unfold wp in Hp. destruct (process_batch_events _ batch env w1) as [r w2].
  by eapply batch_outcome_safe.
Qed.

(** C13: without faults a batch marks exactly the events whose handlers
    succeeded, out of the oldest unprocessed ones up to the batch size, and its row
    records how many succeeded and failed, which add up to the number of events;
    the batch is completed when none failed and failed otherwise. *)
Theorem process_batch_exact env p w :
  fault_free env -> (forall n, batches (db w) !! random_uuid env n = None) ->
  let '(r, p', w') := EventProcessor_process_batch p env w in
  let events := pending_events (the_limit p) (db w) in
  r = Ok tt /\ exists batch w1 t, ep_current_batch p' = Some batch /\
    (exists m, db w1 = set_batches m (db w)) /\
    let bs := fst (run_handlers events env w1) in
    usage_events (db w') = marked (succeeded events bs) t (bat_batch_id batch) (usage_events (db w)) /\
    exists row, batches (db w') = <[bat_batch_id batch := row]> (batches (db w)) /\
      (events <> [] ->
        pb_status row = (if count_failed bs =? 0 then "completed" else "failed") /\
        pb_events_processed row = count_ok bs /\ pb_events_failed row = count_failed bs /\
        pb_events_processed row + pb_events_failed row = Z.of_nat (length events)).
Proof.
  intros Hff Hfresh. unfold EventProcessor_process_batch.
  pose proof (wp_create_batch_any env w (fun r w1 => exists batch, r = Ok batch /\
    db w1 = set_batches (<[bat_batch_id batch := fresh_batch_row]> (batches (db w))) (db w))) as Hc.
  unfold wp in Hc. destruct (EventStore_create_batch UsageAggregation env w) as [r w1].
  destruct Hc as (batch & -> & D1).
  { intros e w' _ Hn. destruct (Hn Hff) as (n & x & Hx). by rewrite Hfresh in Hx. }
  { intros batch w' _ D. eauto. }
  assert (U1 : usage_events (db w1) = usage_events (db w)) by (by rewrite D1).
  pose proof (wp_process_batch_events env (EventProcessor_set_current batch p) batch w1) as Hp.
  unfold wp in Hp. destruct (process_batch_events _ batch env w1) as [r w2].
  assert (Eev : pending_events (the_limit (EventProcessor_set_current batch p)) (db w1) =
                pending_events (the_limit p) (db w))
    by (unfold pending_events, pending_rows; by rewrite U1).
  rewrite Eev in Hp. destruct Hp as (wh & m & Dh & marks & t & U2 & _ & Hp).
  destruct (Hp Hff) as (-> & -> & B2). split; [done|]. exists batch, wh, t. split; [done|].
  split; [exists m; by rewrite Dh, D1|].
  split; [by rewrite U2, U1|].
  assert (Hlen := run_handlers_length (pending_events (the_limit p) (db w)) env wh).
  destruct (pending_events (the_limit p) (db w)) as [|ev evs].
  - exists fresh_batch_row. split; [by rewrite B2, D1|done].
  - destruct B2 as (t0 & t1 & B2). rewrite D1 in B2. simpl in B2. rewrite alter_insert_eq in B2.
    eexists; split; [exact B2|]. intros _. rewrite <- Hlen, <- count_total. done.
Qed.

Lemma all_failed_succeeded events bs : Forall (fun b => b = false) bs -> succeeded events bs = [].
Proof.
  intros Hb. revert events. induction Hb as [|b bs -> Hb IH]; intros [|ev events]; try done.
  simpl. apply IH.
Qed.

(** A batch in which every handler fails leaves the same events first
    in line: the next batch takes exactly the same ones, so a full batch of failing
    events keeps all newer events waiting. *)
Theorem failed_batch_repeats env p batch w :
  (forall ev w1, ev ∈ pending_events (the_limit p) (db w) ->
     is_Ok (fst (process_single_event ev env w1)) = false) ->
  wp (process_batch_events p batch) env w (fun _ w' =>
    pending_events (the_limit p) (db w') = pending_events (the_limit p) (db w)).
Proof.
  intros Hfail. eapply wp_mono; [apply wp_process_batch_events|].
  intros r w' (w1 & m & _ & marks & t & U & Hm & _). unfold pending_events, pending_rows. rewrite U.
  assert (marks = []) as ->; [|by rewrite marked_nil].
  destruct Hm as [->|Hm]; [done|]. rewrite Hm. apply elem_of_nil_inv. intros k Hk.
  apply succeeded_ran in Hk as (ev & w2 & Hin & _ & Hrun). by rewrite Hfail in Hrun.
Qed.

(** ** The event repository *)

Definition row_of_event (ev : UsageEvent) : usage_event_row := {|
  ue_rental_id := uev_rental_id ev; ue_user_id := uev_user_id ev;
  ue_executor_id := uev_executor_id ev; ue_validator_id := uev_validator_id ev;
  ue_event_type := EventType_to_string (uev_event_type ev);
  ue_event_data := uev_event_data ev; ue_timestamp := uev_timestamp ev;
  ue_processed := false; ue_processed_at := None; ue_batch_id := None |}.

(** An event the repository accepts: identifiers given, columns wide enough. *)
Definition event_ok (ev : UsageEvent) : Prop :=
  uev_event_id ev <> uuid_nil /\ uev_user_id ev <> "" /\ uev_executor_id ev <> "" /\
  uev_validator_id ev <> "" /\
  (String.length (uev_user_id ev) <= 255)%nat /\ (String.length (uev_executor_id ev) <= 128)%nat /\
  (String.length (uev_validator_id ev) <= 255)%nat /\
  blank (uev_user_id ev) = false /\ blank (uev_validator_id ev) = false.

Definition add_events (events : list UsageEvent) (m : gmap uuid usage_event_row) :=
  foldl (fun m ev => <[uev_event_id ev := row_of_event ev]> m) m events.

Lemma insert_usage_event_Some ev d u d' :
  insert_usage_event ev d = Some (u, d') ->
  usage_events d !! uev_event_id ev = None /\
  d' = set_usage_events (<[uev_event_id ev := row_of_event ev]> (usage_events d)) d.
Proof.
  unfold insert_usage_event, varchar.
  destruct (String.length (uev_user_id ev) <=? 255)%nat; simpl; [|done].
  destruct (String.length (uev_executor_id ev) <=? 128)%nat; simpl; [|done].
  destruct (String.length (uev_validator_id ev) <=? 255)%nat; simpl; [|done].
  destruct (blank _ || blank _); [done|]. destruct (_ !! _) eqn:E; [done|]. by intros [= <- <-].
Qed.

Lemma insert_usage_event_ok ev d :
  event_ok ev -> usage_events d !! uev_event_id ev = None -> insert_usage_event ev d <> None.
Proof.
  intros (_ & _ & _ & _ & L1 & L2 & L3 & B1 & B2) Hnone. unfold insert_usage_event, varchar.
  rewrite !(proj2 (Nat.leb_le _ _)) by done. simpl. by rewrite B1, B2, Hnone.
Qed.

Lemma wp_append_in_transaction env ev w (Q : _ -> _ -> Prop) :
  (forall e w', (fault_free env -> event_ok ev -> is_Some (usage_events (db w) !! uev_event_id ev)) ->
     Q (Err e) w') ->
  (forall w', usage_events (db w) !! uev_event_id ev = None ->
     db w' = set_usage_events (<[uev_event_id ev := row_of_event ev]> (usage_events (db w))) (db w) ->
     Q (Ok tt) w') ->
  wp (append_in_transaction ev) env w Q.
Proof.
  intros HE HQ. unfold append_in_transaction, validate_event_ids. wp_step.
  destruct (N.eqb_spec (uev_event_id ev) uuid_nil); [wp_step; apply HE; by intros _ []|].
  destruct (String.eqb_spec (uev_user_id ev) ""); [wp_step; apply HE; by intros _ (? & ? & _)|].
  destruct (String.eqb_spec (uev_executor_id ev) "");
    [wp_step; apply HE; by intros _ (? & ? & ? & _)|].
  destruct (String.eqb_spec (uev_validator_id ev) "");
    [wp_step; apply HE; by intros _ (? & ? & ? & ? & _)|].
  wp_step. apply wp_sql_any; [|intros [] d w' [? ->]%insert_usage_event_Some D; auto].
  intros w' _ Hn. apply HE. intros Hff Hok. specialize (Hn Hff).
  destruct (usage_events (db w) !! uev_event_id ev) eqn:E; [done|].
  by apply insert_usage_event_ok in Hn.
Qed.

(** Events the repository will accept together. *)
Definition acceptable (events : list UsageEvent) (d : Db) : Prop :=
  Forall event_ok events /\ NoDup (uev_event_id <$> events) /\
  forall ev, ev ∈ events -> usage_events d !! uev_event_id ev = None.

Lemma wp_append_all env events w :
  wp (for_each append_in_transaction events) env w (fun r w' =>
    match r with
    | Ok _ => db w' = set_usage_events (add_events events (usage_events (db w))) (db w) /\
        NoDup (uev_event_id <$> events) /\
        forall ev, ev ∈ events -> usage_events (db w) !! uev_event_id ev = None
    | Err _ => fault_free env -> ~ acceptable events (db w)
    end).
Proof.
  revert w. induction events as [|ev events IH]; intros w; simpl.
  { wp_steps. split; [by destruct (db w)|]. split; [constructor|]. by intros ? ?%elem_of_nil. }
  wp_step. apply wp_append_in_transaction.
  { intros e w' Hn Hff (Hok & _ & Hfresh). apply Forall_cons in Hok as [Hok _].
    destruct (Hn Hff Hok) as [x Hx]. by rewrite Hfresh in Hx by left. }
  intros w1 Hnone D1. eapply wp_mono; [apply IH|]. intros [[]|e] w2; rewrite D1; simpl.
  - intros (D2 & Hnd & Hall). split; [by rewrite D2|]. split.
    + constructor; [|done]. intros (ev' & Eid & Hin)%list_elem_of_fmap.
      specialize (Hall ev' Hin). by rewrite <- Eid, lookup_insert_eq in Hall.
    + intros ev' [->|Hin]%elem_of_cons; [done|]. specialize (Hall ev' Hin).
      by apply lookup_insert_None in Hall as [? _].
  - intros Hn Hff (Hok & Hnd & Hfresh). apply (Hn Hff). apply Forall_cons in Hok as [_ Hok].
    apply list.NoDup_cons in Hnd as [Hni Hnd]. split; [done|]. split; [done|].
    intros ev' Hin. simpl. apply lookup_insert_None. split; [apply Hfresh; by right|].
    intros Eid. apply Hni. rewrite Eid. by apply list_elem_of_fmap_2.
Qed.

(** Appending a batch of usage events is all or nothing whatever
    statements fail: on success exactly these events were added, under distinct new
    identifiers, all unprocessed; on an error the database is unchanged, and
    without faults acceptable events are never refused. *)
Theorem append_events_atomic env events w :
  wp (SqlEventRepository_append_usage_events_batch events) env w (fun r w' =>
    match r with
    | Ok ids => ids = uev_event_id <$> events /\ NoDup ids /\
        (forall ev, ev ∈ events -> usage_events (db w) !! uev_event_id ev = None) /\
        db w' = set_usage_events (add_events events (usage_events (db w))) (db w)
    | Err _ => db w' = db w /\ (fault_free env -> ~ acceptable events (db w))
    end).
Proof.
  destruct events as [|ev0 events'] eqn:Eev.
  { simpl. wp_steps. split; [done|]. split; [constructor|].
    split; [by intros ? ?%elem_of_nil|]. by destruct (db w). }
  unfold SqlEventRepository_append_usage_events_batch. rewrite <- Eev. wp_step.
  apply wp_transaction_any; [intros e w' D Hnf; split; [done|by intros ?%Hnf]|]. intros w1 D1.
  eapply wp_mono; [apply wp_append_all|]. intros [[]|e] w2; rewrite D1; [|by auto].
  intros (D2 & Hnd & Hall) w3 D3. wp_step.
  split; [done|]. split; [done|]. split; [done|]. congruence.
Qed.

(** Archiving old events never succeeds: the archive table lacks columns of
    the event table, so every call reports an error and nothing is archived. *)
Theorem cleanup_old_events_fails env days w :
  wp (SqlEventRepository_cleanup_old_events days) env w (fun r w' =>
    r = Err (EventStoreError "Failed to archive old events") /\ db w' = db w).
Proof.
  unfold SqlEventRepository_cleanup_old_events. wp_step. wp_step.
  apply wp_sql_any; simpl; [|done]. intros; split; [done|congruence].
Qed.
End Claims.

(** ** A concrete batch *)

Section Witnesses.
Import Scenario Stage.

Definition proc0 : EventProcessor := {|
  ep_store := {| store_batch_size := 100; store_retention_days := 30 |};
  ep_batch_size := None; ep_is_running := true; ep_current_batch := None |}.

(** Two events, one of which fails: the counts add up to two. *)
Lemma process_batch_exact_witness :
  length (pending_events (the_limit proc0) (db w1)) = 2%nat /\
  let '(r, p', w') := EventProcessor_process_batch proc0 env w1 in
  r = Ok tt /\ exists batch row, ep_current_batch p' = Some batch /\
    batches (db w') = <[bat_batch_id batch := row]> ∅ /\
    pb_events_processed row + pb_events_failed row = 2.
Proof.
  assert (Hlen : length (pending_events (the_limit proc0) (db w1)) = 2%nat)
    by (vm_compute; reflexivity).
  split; [exact Hlen|].
  pose proof (process_batch_exact env proc0 w1 env_ok (fun n => lookup_empty _)) as Hp.
  destruct (EventProcessor_process_batch proc0 env w1) as [[r p'] w'].
  destruct Hp as (Er & batch & wh & t & Eb & _ & _ & row & Erow & Hcounts).
  split; [exact Er|]. exists batch, row. split; [exact Eb|]. split; [exact Erow|].
  rewrite Hlen in Hcounts.
  destruct (pending_events (the_limit proc0) (db w1)) as [|ev evs]; [discriminate Hlen|].
  destruct (Hcounts ltac:(discriminate)) as (_ & _ & _ & Hsum). exact Hsum.
Defined.

(** The same batch, with its fifth statement lost. *)
Lemma process_batch_marks_witness :
  let '(_, _, w') := EventProcessor_process_batch proc0 flaky_env w1 in
  match usage_events (db w') !! 11%N with
  | Some r' => r' = lost_row \/ exists t b, r' = mark_row_processed t b lost_row
  | None => False
  end.
Proof.
  pose proof (process_batch_marks_only_successes flaky_env proc0 w1) as Hp.
  destruct (EventProcessor_process_batch proc0 flaky_env w1) as [[r p'] w'].
  specialize (Hp 11%N). change (usage_events (db w1) !! 11%N) with (Some lost_row) in Hp.
  destruct (usage_events (db w') !! 11%N) as [r'|]; [|exact Hp].
  destruct Hp as [E|(_ & E & _)]; [left; exact E|right; exact E].
Defined.

(** An end event without its data fails whatever the tables hold. *)
Definition poison_row : usage_event_row := event_row "rental_end" 9%N (JObject []) 1.
Definition poison_world : World := {|
  db := set_usage_events {[ 12%N := poison_row ]} d0; ticks := 0; drawn := 0; statements := 0 |}.
Definition batch0 : ProcessingBatch := {|
  bat_batch_id := 5%N; bat_batch_type := UsageAggregation; bat_status := BatchPending;
  bat_events_count := 0; bat_events_processed := 0; bat_events_failed := 0;
  bat_started_at := None; bat_completed_at := None |}.

Lemma failed_batch_repeats_witness :
  let w' := snd (process_batch_events proc0 batch0 env poison_world) in
  pending_events 100 (db w') = [usage_event_of_row 12%N poison_row].
Proof.
  assert (Hpend : pending_events (the_limit proc0) (db poison_world) =
                  [usage_event_of_row 12%N poison_row]) by (vm_compute; reflexivity).
  assert (Hfail : forall ev w, ev ∈ pending_events (the_limit proc0) (db poison_world) ->
    is_Ok (fst (process_single_event ev env w)) = false).
  { intros ev w. rewrite Hpend. intros ->%list_elem_of_singleton. reflexivity. }
  pose proof (failed_batch_repeats env proc0 batch0 poison_world Hfail) as Hp.
  unfold wp in Hp. rewrite Hpend in Hp. intros w'. subst w'.
  destruct (process_batch_events proc0 batch0 env poison_world) as [r w']. exact Hp.
Defined.
End Witnesses.
