(* ===== verification/HandlerClaims.v ===== *)
(** * Billing: the properties of the event handlers

    The handlers over the SQL rental, credit and event repositories, for any package
    and usage repository that keeps to its own tables. *)

From Stdlib Require Import ZArith.
From stdpp Require Import base gmap strings list numbers.
From S2P Require Import Prelude Float64 Decimal BillingTypes BillingWorld Credits CreditRepo.
From S2P Require Import Ledger CreditManagerFacts CreditRepoFacts Rules Rentals RentalFacts.
From S2P Require Import Events Processor Handlers HandlerFacts.
Local Open Scope Z_scope.

(** ** Loading a rental and carrying on *)

Section Load.
Context `{Decimal} `{UuidText}.

Lemma wp_load_any {A} env w id (f : Rental -> M A) (Q : _ -> _ -> Prop) :
  (forall e w', db w' = db w -> Q (Err e) w') ->
  (forall row w', rentals (db w) !! id = Some row -> db w' = db w ->
     wp (f (rental_from_row id row)) env w' Q) ->
  wp (load_rental id ≫= f) env w Q.
Proof.
  intros HE HS. wp_step. unfold load_rental; simpl. unfold SqlRentalRepository_get_rental.
  wp_step. wp_step. apply wp_sql_any; [intros; by apply HE|]. intros o d w1 [= <- <-] D1.
  wp_steps. destruct (rentals (db w) !! id) as [row|]; simpl; wp_steps; auto.
Qed.

Lemma wp_update_any env w id row rental (Q : _ -> _ -> Prop) :
  rentals (db w) !! id = Some row -> rental_id rental = id ->
  (forall e w', db w' = db w -> Q (Err e) w') ->
  (forall t row' w', SqlRentalRepository_update_row rental t row = Some row' ->
     db w' = put_row id row' (db w) -> Q (Ok tt) w') ->
  wp (rrepo_update_rental rental) env w Q.
Proof.
  intros Hrow Eid HE HQ. simpl. unfold SqlRentalRepository_update_rental.
  wp_step. wp_step. rename select (db _ = db w) into D. wp_step.
  apply wp_sql_any; rewrite D, Eid, Hrow; [auto|]. intros n d w2.
  destruct (SqlRentalRepository_update_row rental t row) as [row'|] eqn:Eu; simpl; [|done].
  intros [= <- <-] D2. simpl. wp_step. by eapply HQ.
Qed.

Lemma wp_create_any env w rental (Q : _ -> _ -> Prop) :
  (forall e w', db w' = db w -> Q (Err e) w') ->
  (forall row w', rentals (db w) !! rental_id rental = None ->
     rt_user_id row = rental_user_id rental -> rt_executor_id row = rental_executor_id rental ->
     rt_package_id row = Some (rental_package_id rental) ->
     rt_status row = RentalState_to_string (rental_state rental) ->
     rt_end_time row = None -> rt_total_cost row = None ->
     db w' = put_row (rental_id rental) row (db w) -> Q (Ok tt) w') ->
  wp (rrepo_create_rental rental) env w Q.
Proof.
  intros HE HQ. simpl. unfold SqlRentalRepository_create_rental. wp_step. wp_step.
  rename select (db _ = db w) into D. apply wp_sql_any; rewrite D; [auto|].
  intros [] d w1. simpl. intros (u & Eu & (e & Ee & (v & _ & (p & Ep & (h & _ & E)%bind_Some
    )%bind_Some)%bind_Some)%bind_Some)%bind_Some D1.
  destruct (rentals (db w) !! rental_id rental) eqn:Enone; [done|]. injection E as <-.
  unfold varchar in *. repeat case_match; simplify_eq; (eapply HQ; [..|exact D1]; done).
Qed.

Lemma keeps_load_bind {A} (R : Db -> Db -> Prop) `{!PreOrder R} id (f : Rental -> M A) :
  (forall row, keeps R (f (rental_from_row id row))) -> keeps R (load_rental id ≫= f).
Proof.
  intros Hf env w. apply wp_load_any; [by intros e w' ->|].
  intros row w1 _ D1. rewrite <- D1. apply Hf.
Qed.
End Load.

(** ** Which handlers touch the reservations *)

Definition same_reservations (d d' : Db) : Prop := reservations d' = reservations d.

#[export] Instance same_reservations_preorder : PreOrder same_reservations.
Proof. split; [by intros d|]. unfold same_reservations. intros d1 d2 d3. congruence. Qed.
#[export] Instance same_reservations_credits : IgnoresCredits same_reservations.
Proof. done. Qed.
#[export] Instance same_reservations_rentals : IgnoresRentals same_reservations.
Proof. done. Qed.
#[export] Instance same_reservations_billing_events : IgnoresBillingEvents same_reservations.
Proof. done. Qed.

Section Reservations.
Context `{Decimal} `{UuidText} `{!SerdeText} `{!PackageRepository} `{!UsageRepository}.
Context `{!ForeignRepositories}.

(** No event but a rental start changes the reservations, whatever
    fails: in particular ending a rental, by an end event or by a status change,
    never releases the reservation its start made. *)
Theorem only_rental_start_touches_reservations event env w :
  uev_event_type event <> RentalStart ->
  wp (process_single_event event) env w (fun _ w' => reservations (db w') = reservations (db w)).
Proof.
  intros Hty. revert env w. change (keeps same_reservations (process_single_event event)).
  unfold process_single_event. destruct (uev_event_type event); simpl; [..|done| |].
  - unfold Billing_process_telemetry_event. apply keeps_load_bind; [apply _|]. keeps_tac.
  - unfold Billing_process_status_change. apply keeps_bind; [apply _|keeps_tac|]. intros data.
    apply keeps_load_bind; [apply _|]. intros row.
    destruct (parse_new_status _) as [s|]; [|keeps_tac].
    apply keeps_bind; [apply _| |simpl; keeps_tac].
    unfold status_change_effects, settle_status_change. simpl. keeps_tac.
  - unfold Billing_process_cost_update; simpl. keeps_tac.
  - unfold Billing_process_rental_end. apply keeps_bind; [apply _|keeps_tac|]. intros data.
    apply keeps_load_bind; [apply _|]. intros row. simpl. keeps_tac.
  - unfold Billing_process_resource_update; simpl. keeps_tac.
Qed.
End Reservations.

(** ** What no handler changes in a rental *)

Definition same_rentals (d d' : Db) : Prop := rentals d' = rentals d.

#[export] Instance same_rentals_preorder : PreOrder same_rentals.
Proof. split; [by intros d|]. unfold same_rentals. intros d1 d2 d3. congruence. Qed.
#[export] Instance same_rentals_credits : IgnoresCredits same_rentals.
Proof. done. Qed.
#[export] Instance same_rentals_reservations : IgnoresReservations same_rentals.
Proof. done. Qed.
#[export] Instance same_rentals_billing_events : IgnoresBillingEvents same_rentals.
Proof. done. Qed.

(** Rows persist with their identity columns and their end time. *)
Definition rentals_framed (d d' : Db) : Prop :=
  forall id r, rentals d !! id = Some r -> exists r', rentals d' !! id = Some r' /\
    same_identity r r' /\ rt_end_time r' = rt_end_time r.

Lemma same_rentals_framed d d' : same_rentals d d' -> rentals_framed d d'.
Proof. intros E id r Hr. exists r. by rewrite E. Qed.

#[export] Instance rentals_framed_preorder : PreOrder rentals_framed.
Proof.
  split; [intros d; by apply same_rentals_framed|].
  intros d1 d2 d3 H1 H2 id r Hr. destruct (H1 id r Hr) as (r2 & E2 & (?&?&?&?&?&?) & T2).
  destruct (H2 id r2 E2) as (r3 & E3 & (?&?&?&?&?&?) & T3). exists r3. split; [done|].
  split; [repeat split|]; congruence.
Qed.

Section RentalFrame.
Context `{Decimal} `{UuidText}.

Lemma keeps_weaken {A} (R R' : Db -> Db -> Prop) (m : M A) :
  (forall d d', R d d' -> R' d d') -> keeps R m -> keeps R' m.
Proof. intros HR Hm env w. eapply wp_mono; [apply Hm|]. auto. Qed.

Lemma keeps_framed_bind {A B} (m : M A) (f : A -> M B) :
  keeps same_rentals m -> (forall a, keeps rentals_framed (f a)) ->
  keeps rentals_framed (m ≫= f).
Proof.
  intros Hm. apply keeps_bind; [apply _|]. by apply (keeps_weaken same_rentals), Hm;
    apply same_rentals_framed.
Qed.

(** A program that runs where row [id] is [row]. *)
Definition at_row {A} (id : RentalId) (row : rental_row) (m : M A) : Prop :=
  forall env w, rentals (db w) !! id = Some row ->
    wp m env w (fun _ w' => rentals_framed (db w) (db w')).

(** A program that leaves the rentals alone and whose value satisfies [P]. *)
Definition yields {A} (m : M A) (P : A -> Prop) : Prop :=
  forall env w, wp m env w (fun r w' => rentals (db w') = rentals (db w) /\
    match r with Ok a => P a | Err _ => True end).

Lemma keeps_yields {A} (m : M A) : keeps same_rentals m -> yields m (fun _ => True).
Proof. intros Hm env w. eapply wp_mono; [apply Hm|]. intros [a|e] w' E; done. Qed.

Lemma yields_ret {A} (a : A) (P : A -> Prop) : P a -> yields (mret a) P.
Proof. intros Ha env w. by wp_steps. Qed.

Lemma yields_bind {A B} (m : M A) (f : A -> M B) (P : A -> Prop) (Q : B -> Prop) :
  yields m P -> (forall a, P a -> yields (f a) Q) -> yields (m ≫= f) Q.
Proof.
  intros Hm Hf env w. wp_step. eapply wp_mono; [apply Hm|]. intros [a|e] w' [E Ha]; [|done].
  eapply wp_mono; [by apply Hf|]. intros r w'' [E' Hr]. split; [congruence|done].
Qed.

Lemma at_row_bind {A B} id row (m : M A) (f : A -> M B) (P : A -> Prop) :
  yields m P -> (forall a, P a -> at_row id row (f a)) -> at_row id row (m ≫= f).
Proof.
  intros Hm Hf env w Hrow. wp_step. eapply wp_mono; [apply Hm|]. intros [a|e] w' [E Ha].
  - eapply wp_mono; [apply Hf; [done|by rewrite E]|]. intros r w'' HR. simpl in HR.
    etrans; [by apply same_rentals_framed|done].
  - by apply same_rentals_framed.
Qed.

Lemma at_row_keeps {A} id row (m : M A) : keeps same_rentals m -> at_row id row m.
Proof. intros Hm env w _. eapply keeps_weaken; [by apply same_rentals_framed|done]. Qed.

(** Writing back the loaded rental with its identifier and end time. *)
Lemma at_row_update {A} id row rental (k : M A) :
  rental_id rental = id -> rental_ended_at rental = rt_end_time row -> keeps same_rentals k ->
  at_row id row (rrepo_update_rental rental;; k).
Proof.
  intros Eid Eend Hk env w Hrow. wp_step.
  eapply wp_update_any; [done..|by intros e w1 -> |]. intros t row' w1 Eu D1.
  eapply wp_mono; [apply (keeps_weaken _ rentals_framed _ same_rentals_framed Hk)|].
  intros r w2 HR. simpl in HR. etrans; [|exact HR]. rewrite D1. intros id' r' Hr'. simpl.
  unfold SqlRentalRepository_update_row in Eu.
  apply bind_Some in Eu as (h & _ & (c & _ & [= <-])%bind_Some).
  destruct (decide (id = id')) as [<-|].
  - rewrite lookup_insert_eq. eexists; split; [done|]. by simplify_eq.
  - rewrite lookup_insert_ne by done. by exists r'.
Qed.

Lemma keeps_load_at_row {A} id (f : Rental -> M A) :
  (forall row, at_row id row (f (rental_from_row id row))) ->
  keeps rentals_framed (load_rental id ≫= f).
Proof.
  intros Hf env w. apply wp_load_any; [by intros e w' ->|]. intros row w1 Hrow D1.
  rewrite <- D1. apply Hf. by rewrite D1.
Qed.

Lemma keeps_create_framed r : keeps rentals_framed (SqlRentalRepository_create_rental r).
Proof.
  intros env w. apply (wp_create_any env w r); [by intros e w' ->|].
  intros row w' Hnone _ _ _ _ _ _ D id' r' Hr'. rewrite D. simpl.
  rewrite lookup_insert_ne by congruence. by exists r'.
Qed.
End RentalFrame.

Section RentalClaims.
Context `{Decimal} `{UuidText} `{!SerdeText} `{!PackageRepository} `{!UsageRepository}.
Context `{!ForeignRepositories}.

(** Same identifier and end time as the loaded row. *)
Local Definition unmoved (id : RentalId) (row : rental_row) (r : Rental) : Prop :=
  rental_id r = id /\ rental_ended_at r = rt_end_time row.

Lemma yields_effects id s s' r (P : Rental -> Prop) :
  P r -> (forall t, P (Rental_with_actual_start_time t r)) ->
  (forall t c, P (Rental_with_actual_cost c (Rental_with_actual_end_time t r))) ->
  yields (status_change_effects id s s' r) P.
Proof.
  intros Hr Hstart Hend.
  assert (Hsettle : yields (settle_status_change id r) P).
  { unfold settle_status_change. simpl.
    do 5 (eapply yields_bind; [apply keeps_yields; keeps_tac|]; intros ? _). by apply yields_ret. }
  destruct s, s'; simpl; try done; try (by apply yields_ret).
Qed.

(** No handler, whatever fails, ever drops a rental, changes its
    user, executor, validator, package or start, or sets its end time: an event
    that ends a rental leaves its end time empty, and one that changes the GPU
    model leaves its package. *)
Theorem handlers_keep_rental_identity event env w :
  wp (process_single_event event) env w (fun _ w' => rentals_framed (db w) (db w')).
Proof.
  revert env w. change (keeps rentals_framed (process_single_event event)).
  unfold process_single_event. destruct (uev_event_type event); simpl.
  - unfold Billing_process_telemetry_event. apply keeps_load_at_row. intros row.
    apply at_row_keeps. keeps_tac.
  - unfold Billing_process_status_change. apply keeps_bind; [apply _|keeps_tac|]. intros data.
    apply keeps_load_at_row. intros row.
    destruct (parse_new_status _) as [s|]; [|apply at_row_keeps; keeps_tac].
    eapply (at_row_bind _ _ _ _ (unmoved (uev_rental_id event) row)).
    + by apply yields_effects.
    + intros r [Eid Eend]. apply at_row_update; [done..|]. keeps_tac.
  - unfold Billing_process_cost_update. apply keeps_bind; [apply _|keeps_tac|]. intros data.
    apply keeps_load_at_row. intros row. apply at_row_update; [done..|]. keeps_tac.
  - unfold Billing_process_rental_start, start_new_rental, create_started_rental. apply keeps_bind; [apply _| |].
    + apply (keeps_weaken same_rentals); [apply same_rentals_framed|]. simpl. keeps_tac.
    + intros [[existing|]|e]; [apply keeps_ret; apply _|..]; simpl;
        (do 4 (apply keeps_framed_bind; [keeps_tac|intros ?]));
        (apply keeps_bind; [apply _|apply keeps_create_framed|intros _]);
        (apply (keeps_weaken same_rentals); [apply same_rentals_framed|keeps_tac]).
  - unfold Billing_process_rental_end. apply keeps_bind; [apply _|keeps_tac|]. intros data.
    apply keeps_load_at_row. intros row. case_decide; [apply at_row_keeps; keeps_tac|].
    eapply at_row_bind; [apply keeps_yields; keeps_tac|]. intros usage _.
    eapply at_row_bind; [apply keeps_yields; keeps_tac|]. intros package _.
    eapply at_row_bind; [apply keeps_yields; keeps_tac|]. intros t _.
    eapply at_row_bind; [apply keeps_yields; simpl; keeps_tac|]. intros charge _.
    eapply at_row_bind; [apply keeps_yields; simpl; keeps_tac|]. intros x _.
    apply at_row_update; [done..|]. keeps_tac.
  - unfold Billing_process_resource_update. apply keeps_load_at_row. intros row.
    case_match; [|apply at_row_keeps; keeps_tac].
    eapply (at_row_bind _ _ _ _ (unmoved (uev_rental_id event) row)).
    + case_match; [|by apply yields_ret].
      eapply yields_bind; [apply keeps_yields; keeps_tac|]. intros package _.
      apply yields_ret. by case_match.
    + intros r [Eid Eend]. apply at_row_update; [done..|]. keeps_tac.
Qed.
End RentalClaims.

(** ** A concrete event *)

Section Witnesses.
Import Scenario Stage.

(** The end of alice's rental, with its seventh statement lost. *)
Lemma only_rental_start_witness :
  reservations (db (snd (process_single_event end_event (env_losing 6) w1))) = reservations d1.
Proof.
  assert (Hty : uev_event_type end_event <> RentalStart).
  { intros E. vm_compute in E. discriminate E. }
  pose proof (only_rental_start_touches_reservations end_event (env_losing 6) w1 Hty) as Hp.
  unfold wp in Hp. destruct (process_single_event end_event (env_losing 6) w1) as [r w'].
  exact Hp.
Defined.

Lemma handlers_keep_rental_identity_witness :
  exists r', rentals (db (snd (process_single_event end_event env w1))) !! 9%N = Some r' /\
    same_identity row0 r' /\ rt_end_time r' = None.
Proof.
  pose proof (handlers_keep_rental_identity end_event env w1) as Hp. unfold wp in Hp.
  destruct (process_single_event end_event env w1) as [r w'].
  exact (Hp 9%N row0 eq_refl).
Defined.
End Witnesses.
