(* ===== verification/SettlementClaims.v ===== *)
(** * Billing: what starting and ending a rental does to the ledger

    The two handlers that move credits, against the ledger: for any package and usage
    repository that leaves the tables of the other components alone. *)

From Stdlib Require Import ZArith.
From stdpp Require Import base gmap strings list numbers.
From S2P Require Import Prelude Float64 Decimal BillingTypes BillingWorld Credits CreditRepo.
From S2P Require Import Ledger CreditManagerFacts CreditRepoFacts Rules Rentals RentalFacts.
From S2P Require Import Events Processor Handlers HandlerFacts HandlerClaims.
Local Open Scope Z_scope.

(** ** The tables the ledger and the rentals live in *)

Definition same_core (d d' : Db) : Prop :=
  users d' = users d /\ credits d' = credits d /\ reservations d' = reservations d /\
  rentals d' = rentals d.

#[export] Instance same_core_preorder : PreOrder same_core.
Proof.
  split; [by intros d|]. intros d1 d2 d3 (?&?&?&?) (?&?&?&?). unfold same_core.
  repeat split; congruence.
Qed.
#[export] Instance same_core_billing_events : IgnoresBillingEvents same_core.
Proof. done. Qed.

Definition same_users (d d' : Db) : Prop := users d' = users d.

#[export] Instance same_users_preorder : PreOrder same_users.
Proof. split; [by intros d|]. unfold same_users. intros d1 d2 d3. congruence. Qed.
#[export] Instance same_users_credits : IgnoresCredits same_users.
Proof. done. Qed.
#[export] Instance same_users_reservations : IgnoresReservations same_users.
Proof. done. Qed.
#[export] Instance same_users_billing_events : IgnoresBillingEvents same_users.
Proof. done. Qed.

Section Core.
Context `{DecimalLaws} `{UuidTextLaws}.

Lemma core_ledger d d' : same_core d d' -> ledger d' = ledger d.
Proof. intros (Eu & Ec & Er & _). unfold ledger; simpl. by rewrite Ec, Er. Qed.

Lemma core_resolve d d' u : same_core d d' -> resolve d' u = resolve d u.
Proof. intros (Eu & _). unfold resolve. by rewrite Eu. Qed.

Lemma core_account d d' u : same_core d d' -> cr_account d' u = cr_account d u.
Proof. intros (Eu & Ec & _). unfold cr_account; simpl. unfold resolve. by rewrite Eu, Ec. Qed.

Lemma core_tables_ok d d' : same_core d d' -> credit_tables_ok d -> credit_tables_ok d'.
Proof.
  intros (Eu & Ec & Er & _). unfold credit_tables_ok, user_exists. by rewrite Eu, Ec, Er.
Qed.

(** Some run of [m] returns [a]. *)
Definition may_return {A} (m : M A) (a : A) : Prop :=
  exists env w, fst (m env w) = Ok a.

(** Carry on after a program that leaves the tables alone. *)
Lemma wp_still_bind {A B} (m : M A) (f : A -> M B) env w (Q : _ -> _ -> Prop) :
  keeps unchanged m ->
  (forall e w', db w' = db w -> Q (Err e) w') ->
  (forall a w', may_return m a -> db w' = db w -> wp (f a) env w' Q) ->
  wp (m ≫= f) env w Q.
Proof.
  intros Hm HE HS. wp_step. specialize (Hm env w). unfold wp in *.
  destruct (m env w) as [[a|e] w'] eqn:E; [|by apply HE].
  apply HS; [|done]. exists env, w. by rewrite E.
Qed.

(** What trying to charge [cost] to user [u] leaves of the ledger: the charge, or,
    for one of the reasons a charge can fail, nothing. *)
Definition charge_outcome (env : Env) (u : UserId) (cost : CreditBalance) (d d' : Db) : Prop :=
  (exists k, resolve d u = Some k /\ spec_charge k (micros cost) (ledger d) = Some (ledger d')) \/
  ledger d' = ledger d /\
  (fault_free env ->
     match cr_account d u with
     | None => True
     | Some (k, _) =>
         match spec_charge k (micros cost) (ledger d) with
         | None => True
         | Some l' => ~ storable (account l' k) \/ cannot_record env u d
         end
     end).

Lemma wp_try_charge env w u cost (Q : _ -> _ -> Prop) :
  credit_tables_ok (db w) -> amount_ok cost ->
  (forall r w', rentals (db w') = rentals (db w) ->
     charge_outcome env u cost (db w) (db w') -> Q (Ok r) w') ->
  wp (attempt (repo_deduct_credits u cost)) env w Q.
Proof.
  intros Hok Ha HQ. apply wp_attempt.
  eapply wp_mono; [apply wp_and; [by apply wp_sql_deduct|]|].
  { apply (keeps_deduct_credits same_rentals). }
  intros r w' [[_ Hr] Hrent]. apply HQ; [done|]. destruct r as [[]|e].
  - destruct Hr as (k & _ & _ & Ek & Hc & _). left. eauto.
  - destruct Hr as [[-> | (k & Ek & _ & Hc)] Hwhy]; [right|left]; eauto.
Qed.
End Core.

(** ** Ending *)

Section End.
Context `{DecimalLaws} `{UuidTextLaws} `{!SerdeText} `{!PackageRepository} `{!UsageRepository}.
Context `{!ForeignRepositories}.

Definition ended (s : RentalState) : Prop := s = Completed \/ s = Failed.

(** The state an end event asks for. *)
Definition end_state (data : RentalEndData) : RentalState :=
  if decide (red_termination_reason data = Some "failed") then Failed else Completed.

(** The row of a rental that ended in state [s] at cost [cost]. *)
Definition ended_row (s : RentalState) (cost : CreditBalance) (row row' : rental_row) : Prop :=
  rt_status row' = RentalState_to_string s /\ same_identity row row' /\
  rt_end_time row' = rt_end_time row /\
  rt_total_cost row' = (if dec_eqb (as_decimal cost) dec_zero then None
                        else numeric_of_dec 10 2 (as_decimal cost)).

(** A cost the handler can compute for the rental [id] with package [pid]. *)
Definition computed_cost (id : RentalId) (pid : PackageId) (cost : CreditBalance) : Prop :=
  exists usage package, may_return (urepo_get_usage_for_rental id) usage /\
    may_return (prepo_get_package pid) package /\
    cost = total_cost (BillingPackage_calculate_cost package usage).

Lemma update_row_ended id row s t t' cost row' :
  SqlRentalRepository_update_row
    (Rental_with_actual_cost cost (Rental_with_actual_end_time (Some t)
       (Rental_with_state s (rental_from_row id row)))) t' row = Some row' ->
  ended_row s cost row row'.
Proof.
  unfold SqlRentalRepository_update_row. intros (h & _ & (c & Ec & [= <-])%bind_Some)%bind_Some.
  split; [done|]. split; [done|]. split; [done|]. simpl in *.
  destruct (dec_eqb _ _); simplify_eq; [done|].
  by apply fmap_Some in Ec as (z & -> & ->).
Qed.

Lemma end_of_ended event row env w (Q : _ -> _ -> Prop) :
  rentals (db w) !! uev_rental_id event = Some row -> ended (row_state row) ->
  (forall r w', db w' = db w -> Q r w') ->
  wp (Billing_process_rental_end event) env w Q.
Proof.
  intros Hrow Hend HQ. unfold Billing_process_rental_end. wp_step.
  destruct (decode_rental_end _) as [data|]; wp_step; [|by apply HQ].
  apply wp_load_any; [by auto|]. intros row1 w1 Hrow1 D1. rewrite Hrow in Hrow1.
  injection Hrow1 as <-. rewrite decide_True by exact Hend. wp_step. by apply HQ.
Qed.

Lemma end_ends event env w :
  wp (Billing_process_rental_end event) env w (fun r w' => is_Ok r = true ->
    exists row, rentals (db w') !! uev_rental_id event = Some row /\ ended (row_state row)).
Proof.
  unfold Billing_process_rental_end. wp_step.
  destruct (decode_rental_end _) as [data|]; wp_step; [|done].
  apply wp_load_any; [done|]. intros row w1 Hrow D1. case_decide as Hend.
  { wp_step. intros _. exists row. by rewrite D1. }
  apply wp_still_bind; [apply foreign_get_usage|done|]. intros usage w2 _ D2.
  apply wp_still_bind; [apply foreign_get_package|done|]. intros package w3 _ D3.
  wp_step. wp_step. rename select (db _ = db w3) into D4. wp_step. wp_step.
  eapply wp_mono; [apply (keeps_deduct_credits same_rentals)|]. intros r w5 R5. simpl in R5.
  simpl. wp_step. wp_step. wp_step.
  eapply (wp_update_any env w5 (uev_rental_id event) row); [congruence|done..|].
  intros t' row' w6 Erow' D6. apply update_row_ended in Erow' as (Es & _).
  eapply wp_mono; [apply (keeps_record_event same_rentals)|]. intros r' w7 R7 _.
  exists row'. simpl in R7. rewrite R7, D6. simpl. rewrite lookup_insert_eq. split; [done|].
  unfold row_state. rewrite Es, parse_state_string. unfold ended. case_decide; auto.
Qed.

(** C11: once an end event was handled successfully, another end event for the
    same rental, at any later time while its row stands, changes nothing: it is not
    charged twice. *)
Theorem rental_end_once event event' env env' w :
  uev_event_type event = RentalEnd -> uev_event_type event' = RentalEnd ->
  uev_rental_id event' = uev_rental_id event ->
  wp (process_single_event event) env w (fun r w1 => is_Ok r = true ->
    forall w2, rentals (db w2) !! uev_rental_id event = rentals (db w1) !! uev_rental_id event ->
      wp (process_single_event event') env' w2 (fun _ w3 => db w3 = db w2)).
Proof.
  intros Hty Hty' Eid. unfold process_single_event. rewrite Hty, Hty'. simpl.
  eapply wp_mono; [apply end_ends|]. intros r w1 Hend Hok w2 E2.
  destruct (Hend Hok) as (row & Hrow & Hst). apply (end_of_ended event' row); [|done|done].
  by rewrite Eid, E2.
Qed.

(** C10: ending a live rental tries to charge its user the cost computed
    from the recorded usage and the package, never the cost the event carries; the
    rental then ends in the state the event asks for with that cost on record, also
    when the charge failed.  An error leaves the ledger as it was or with that one
    charge. *)
Theorem rental_end_charges_computed_cost event data row env w :
  let id := uev_rental_id event in
  let pid := default PackageId_custom (rt_package_id row) in
  uev_event_type event = RentalEnd -> decode_rental_end (uev_event_data event) = Some data ->
  rentals (db w) !! id = Some row -> ~ ended (row_state row) ->
  credit_tables_ok (db w) -> (forall cost, computed_cost id pid cost -> amount_ok cost) ->
  wp (process_single_event event) env w (fun r w' =>
    match r with
    | Ok _ => exists cost row', computed_cost id pid cost /\
        charge_outcome env (rt_user_id row) cost (db w) (db w') /\
        rentals (db w') = <[id := row']> (rentals (db w)) /\
        ended_row (end_state data) cost row row'
    | Err _ => ledger (db w') = ledger (db w) \/
        exists cost k, computed_cost id pid cost /\ resolve (db w) (rt_user_id row) = Some k /\
          spec_charge k (micros cost) (ledger (db w)) = Some (ledger (db w'))
    end).
Proof.
  intros id pid Hty Hdata Hrow Hlive Hok Hcost. unfold process_single_event. rewrite Hty. simpl.
  unfold Billing_process_rental_end. rewrite Hdata. wp_step. wp_step.
  apply wp_load_any; [intros e w1 ->; by left|]. intros row1 w1 Hrow1 D1.
  fold id in Hrow1. rewrite Hrow in Hrow1. injection Hrow1 as <-.
  rewrite decide_False by exact Hlive.
  apply wp_still_bind; [apply foreign_get_usage|intros e w2 ->; left; by rewrite D1|].
  intros usage w2 Hu D2.
  apply wp_still_bind; [apply foreign_get_package|intros e w3 ->; left; by rewrite D2, D1|].
  intros package w3 Hp D3. wp_step. wp_step. rename select (db _ = db w3) into D4.
  assert (D : db w' = db w) by congruence.
  set (cost := total_cost (BillingPackage_calculate_cost package usage)).
  assert (Hc : computed_cost id pid cost) by (exists usage, package; auto).
  wp_step. apply wp_try_charge; rewrite ?D; [done|by apply Hcost|].
  intros r w5 R5 Hch. simpl. wp_step. wp_step. wp_step.
  assert (Hledger : ledger (db w5) = ledger (db w) \/
    exists cost k, computed_cost id pid cost /\ resolve (db w) (rt_user_id row) = Some k /\
      spec_charge k (micros cost) (ledger (db w)) = Some (ledger (db w5))).
  { destruct Hch as [(k & ? & ?)|[? _]]; [right|by left]. eauto. }
  eapply (wp_update_any env w5 id row); [by rewrite R5|done|by intros e w6 ->|].
  intros t' row' w6 Erow' D6. apply update_row_ended in Erow'.
  eapply wp_mono; [apply (keeps_record_event same_core)|].
  intros r' w7 Hcore. simpl in Hcore. pose proof (core_ledger _ _ Hcore) as Hl7.
  rewrite D6 in Hl7.
  change (ledger (put_row id row' (db w5))) with (ledger (db w5)) in Hl7.
  destruct r' as [[]|e].
  - exists cost, row'. split; [done|]. split; [by unfold charge_outcome; rewrite Hl7|].
    destruct Hcore as (_ & _ & _ & ->). rewrite D6. simpl. by rewrite R5.
  - by rewrite Hl7.
Qed.
End End.

(** ** Starting *)

Section Start.
Context `{DecimalLaws} `{UuidTextLaws} `{!SerdeText} `{!PackageRepository} `{!UsageRepository}.
Context `{!ForeignRepositories}.

Definition start_package_id (event : UsageEvent) : PackageId :=
  default PackageId_h100 (json_get "package_id" (uev_event_data event) ≫= json_as_str).

(** An hour of a package the event may name. *)
Definition hour_cost (event : UsageEvent) (cost : CreditBalance) : Prop :=
  exists package, may_return (prepo_get_package (start_package_id event)) package /\
    cost = total_cost (BillingPackage_calculate_cost package one_gpu_hour).

(** The row of the rental an event starts. *)
Definition started_rental (event : UsageEvent) (row : rental_row) : Prop :=
  rt_user_id row = uev_user_id event /\ rt_executor_id row = uev_executor_id event /\
  rt_package_id row = Some (start_package_id event) /\ rt_status row = "active" /\
  rt_end_time row = None /\ rt_total_cost row = None.

(** One hour held for the user of the event. *)
Definition hour_held (event : UsageEvent) (d d' : Db) : Prop :=
  exists k cost id, resolve d (uev_user_id event) = Some k /\ hour_cost event cost /\
    spec_reserve k (micros cost) id (ledger d) = Some (ledger d').

Definition rental_added (event : UsageEvent) (d d' : Db) : Prop :=
  rentals d !! uev_rental_id event = None /\
  exists row, started_rental event row /\
    rentals d' = <[uev_rental_id event := row]> (rentals d).

Lemma wp_create_started event cost rv env w (Q : _ -> _ -> Prop) :
  (forall e w', ledger (db w') = ledger (db w) -> rentals (db w') = rentals (db w) ->
     Q (Err e) w') ->
  (forall r w', ledger (db w') = ledger (db w) -> rental_added event (db w) (db w') -> Q r w') ->
  wp (create_started_rental event (start_package_id event) cost rv) env w Q.
Proof.
  intros HE HQ. unfold create_started_rental, Rental_new. do 8 wp_step.
  match goal with E1 : db ?w1 = db w, E2 : db ?w2 = db ?w1, E3 : db ?w3 = db ?w2 |- _ =>
    assert (D3 : db w3 = db w) by congruence; clear E1 E2 E3 end.
  wp_step. apply wp_create_any; simpl; [intros e w4 D4; apply HE; by rewrite D4, D3|].
  intros row w4 Hnone Eu Ee Ep Es Et Ec D4. rewrite D3 in *.
  assert (Hadd : forall wx, same_core (db w4) (db wx) -> rental_added event (db w) (db wx)).
  { intros wx (_ & _ & _ & Rx). split; [done|]. exists row. rewrite Rx, D4. done. }
  assert (Hl : forall wx, same_core (db w4) (db wx) -> ledger (db wx) = ledger (db w)).
  { intros wx Hc. rewrite (core_ledger _ _ Hc), D4. done. }
  apply wp_still_bind; [apply foreign_initialize|intros e w5 D5; apply HQ; [apply Hl|apply Hadd];
    by rewrite D5|]. intros [] w5 _ D5.
  eapply wp_mono; [apply (keeps_record_event same_core)|]. intros r w6 Hc. simpl in Hc.
  rewrite D5 in Hc. apply HQ; auto.
Qed.

Definition start_failed (event : UsageEvent) (d d' : Db) : Prop :=
  d' = d \/ hour_held event d d' /\ (rentals d' = rentals d \/ rental_added event d d').

Lemma wp_start_new event env w :
  credit_tables_ok (db w) -> (forall cost, hour_cost event cost -> amount_ok cost) ->
  wp (start_new_rental event) env w (fun r w' =>
    match r with
    | Ok _ => hour_held event (db w) (db w') /\ rental_added event (db w) (db w')
    | Err _ => start_failed event (db w) (db w')
    end).
Proof.
  intros Hok Hcost. unfold start_new_rental. fold (start_package_id event).
  apply wp_still_bind; [apply foreign_get_package|intros e w1 ->; by left|].
  intros package w1 Hp D1. set (cost := total_cost _).
  assert (Hc : hour_cost event cost) by (exists package; auto). wp_step.
  eapply wp_mono; [apply wp_and; [apply wp_sql_reserve; rewrite ?D1; auto|]|].
  { apply (keeps_reserve_credits same_rentals). }
  rewrite D1. intros [rv|e] w2 [Hr R2]; [|by left; destruct Hr].
  destruct Hr as (_ & _ & k & Ek & Hres). unfold same_rentals in R2.
  assert (Hheld : forall wx, ledger (db wx) = ledger (db w2) -> hour_held event (db w) (db wx)).
  { intros wx Hl. exists k, cost, (res_id rv). by rewrite Hl. }
  apply wp_create_started.
  - intros e w3 Hl R3. right. split; [auto|left; congruence].
  - intros r w3 Hl (Hnone & row & Hrow & R3). rewrite R2 in Hnone, R3.
    assert (Hadd : rental_added event (db w) (db w3)) by (split; eauto).
    destruct r; [split; auto|right; auto].
Qed.

(** Starting a rental that already exists changes nothing; otherwise success
    means that one hour of the event's package is held for its user, in full and
    within the available balance, and that an active rental with the event's
    user, executor and package was added.  An error leaves everything unchanged, or
    leaves the hold in place, with or without the rental. *)
Theorem rental_start_holds_one_hour event env w :
  uev_event_type event = RentalStart -> credit_tables_ok (db w) ->
  (forall cost, hour_cost event cost -> amount_ok cost) ->
  wp (process_single_event event) env w (fun r w' =>
    match r with
    | Ok _ => is_Some (rentals (db w) !! uev_rental_id event) /\ db w' = db w \/
        hour_held event (db w) (db w') /\ rental_added event (db w) (db w')
    | Err _ => (fault_free env -> rentals (db w) !! uev_rental_id event = None) /\
        start_failed event (db w) (db w')
    end).
Proof.
  intros Hty Hok Hcost. unfold process_single_event. rewrite Hty. simpl.
  unfold Billing_process_rental_start. wp_step. wp_step. simpl.
  unfold SqlRentalRepository_get_rental. wp_step. apply wp_sql_any.
  - intros w1 D1 Hn. eapply wp_mono; [apply wp_start_new; rewrite ?D1; auto|]. rewrite D1.
    intros [[]|e] w2 Hr; [by right|]. split; [|done]. intros Hff. by specialize (Hn Hff).
  - intros o d w1 [= <- <-] D1. wp_step.
    destruct (rentals (db w) !! uev_rental_id event) as [row|]; simpl.
    { wp_step. left. eauto. }
    eapply wp_mono; [apply wp_start_new; rewrite ?D1; auto|]. rewrite D1.
    intros [[]|e] w2 Hr; [by right|done].
Qed.
End Start.

(** ** Status changes *)

Section Status.
Context `{DecimalLaws} `{UuidTextLaws} `{!SerdeText} `{!PackageRepository} `{!UsageRepository}.
Context `{!ForeignRepositories}.

Lemma effects_keep_ledger id s s' r :
  ~ (s = Active /\ ended s') -> keeps unchanged (status_change_effects id s s' r).
Proof.
  intros Hne env w. destruct s, s'; simpl; try (by wp_step);
    try (exfalso; apply Hne; split; [done|]; by (left + right)).
Qed.

(** A status event sets the rental to the state it names whatever the
    state was (also when it had ended: the life cycle is not consulted), and it
    moves credits only when it ends an active rental. *)
Theorem status_change_is_unchecked event data row s env w :
  uev_event_type event = StatusChange -> decode_status_change (uev_event_data event) = Some data ->
  parse_new_status (scd_new_status data) = Some s ->
  rentals (db w) !! uev_rental_id event = Some row ->
  wp (process_single_event event) env w (fun r w' =>
    (is_Ok r = false /\ rentals (db w') = rentals (db w) \/
     exists row', rentals (db w') = <[uev_rental_id event := row']> (rentals (db w)) /\
       row_state row' = s /\ same_identity row row') /\
    (~ (row_state row = Active /\ ended s) -> ledger (db w') = ledger (db w))).
Proof.
  intros Hty Hdata Hs Hrow. unfold process_single_event. rewrite Hty. simpl.
  unfold Billing_process_status_change. rewrite Hdata. wp_step. wp_step.
  apply wp_load_any; [intros e w1 ->; auto|]. intros row1 w1 Hrow1 D1.
  rewrite Hrow in Hrow1. injection Hrow1 as <-. rewrite Hs. wp_step.
  change (rental_state (rental_from_row (uev_rental_id event) row)) with (row_state row).
  set (r0 := Rental_with_state s _).
  eapply wp_mono; [apply wp_and|].
  { apply (yields_effects _ _ _ r0 (fun r => rental_id r = uev_rental_id event /\
      rental_state r = s)); done. }
  { instantiate (1 := fun _ w' => ~ (row_state row = Active /\ ended s) -> db w' = db w1).
    unfold wp. destruct (status_change_effects _ _ _ _ env w1) as [r1 w2] eqn:E. intros Hne.
    pose proof (effects_keep_ledger (uev_rental_id event) (row_state row) s r0 Hne env w1) as Hk.
    unfold wp in Hk. rewrite E in Hk. exact Hk. }
  intros [r1|e] w2 [[R2 Hr1] Hdb2]; rewrite D1 in *;
    [|split; [by left|]; intros Hne; by rewrite Hdb2].
  destruct Hr1 as [Eid Est]. wp_step.
  eapply (wp_update_any env w2 (uev_rental_id event) row); [by rewrite R2|done| |].
  { intros e w3 ->. split; [by left|]. intros Hne. by rewrite Hdb2. }
  intros t row' w3 Eu D3. unfold SqlRentalRepository_update_row in Eu.
  apply bind_Some in Eu as (h & _ & (c & _ & [= <-])%bind_Some).
  eapply wp_mono; [apply (keeps_record_event same_core)|]. intros r w4 Hcore. simpl in Hcore.
  split.
  - right. destruct Hcore as (_ & _ & _ & ->). rewrite D3. simpl. rewrite R2.
    eexists; split; [done|]. split; [|done]. unfold row_state; simpl.
    by rewrite Est, parse_state_string.
  - intros Hne. rewrite (core_ledger _ _ Hcore), D3. specialize (Hdb2 Hne). by rewrite <- Hdb2.
Qed.
End Status.

(** ** Concrete events *)

Section Witnesses.
Import Scenario Stage.

Lemma returned {A} (a b : A) : may_return (mret a) b -> a = b.
Proof. intros (e & w & E). by injection E. Qed.

Lemma end_cost cost : computed_cost 9%N "h100" cost -> cost = hour.
Proof.
  intros (u & p & <-%returned & <-%returned & ->). exact flat_hour.
Qed.

Lemma start_cost event cost : hour_cost event cost -> cost = hour.
Proof. intros (p & <-%returned & ->). exact flat_estimate. Qed.

Lemma rental_end_once_witness :
  let w' := snd (process_single_event end_event env w1) in
  is_Ok (fst (process_single_event end_event env w1)) = true /\
  db (snd (process_single_event end_event flaky_env w')) = db w'.
Proof.
  pose proof (rental_end_once end_event end_event env flaky_env w1 eq_refl eq_refl eq_refl) as Hp.
  run_ok Hp. destruct Hp as (u & Eu & Hp). intros w'. split; [by rewrite Eu|].
  specialize (Hp eq_refl w' eq_refl). unfold wp in Hp.
  destruct (process_single_event end_event flaky_env w') as [r w'']. exact Hp.
Defined.

(** The event claims no cost; the computed hour is put on record. *)
Lemma rental_end_charges_witness :
  let run := process_single_event end_event env w1 in
  is_Ok (fst run) = true /\ charge_outcome env "alice" hour d1 (db (snd run)) /\
  exists row', rentals (db (snd run)) = <[9%N := row']> (rentals d1) /\
    ended_row Completed hour row0 row'.
Proof.
  assert (Hdata : exists data, decode_rental_end (uev_event_data end_event) = Some data /\
    end_state data = Completed) by (eexists; split; reflexivity).
  destruct Hdata as (data & Hdata & Hst).
  assert (Hlive : ~ ended (row_state row0)) by (intros [E|E]; vm_compute in E; discriminate E).
  assert (Hcost : forall cost, computed_cost (uev_rental_id end_event)
    (default PackageId_custom (rt_package_id row0)) cost -> amount_ok cost).
  { intros cost Hc. rewrite (end_cost cost Hc). exact hour_ok. }
  pose proof (rental_end_charges_computed_cost end_event data row0 env w1 eq_refl Hdata eq_refl
    Hlive d1_tables_ok Hcost) as Hp. run_ok Hp.
  destruct Hp as (u & Eu & cost & row' & Hc & Hch & Hr & Hrow). rewrite Hst in Hrow.
  apply end_cost in Hc. subst cost. intros run. split; [vm_compute; reflexivity|].
  split; [exact Hch|]. exists row'. split; [exact Hr|exact Hrow].
Defined.

Lemma rental_start_witness :
  let run := process_single_event start_event env w1 in
  is_Ok (fst run) = true /\ hour_held start_event d1 (db (snd run)) /\
  rental_added start_event d1 (db (snd run)).
Proof.
  assert (Hcost : forall cost, hour_cost start_event cost -> amount_ok cost).
  { intros cost Hc. rewrite (start_cost _ cost Hc). exact hour_ok. }
  pose proof (rental_start_holds_one_hour start_event env w1 eq_refl d1_tables_ok Hcost) as Hp.
  run_ok Hp. destruct Hp as (u & Eu & [[[row Hrow] _]|[Hh Ha]]).
  - exfalso. change (rentals (db w1) !! uev_rental_id start_event)
      with (@None rental_row) in Hrow. discriminate Hrow.
  - intros run. split; [vm_compute; reflexivity|]. split; [exact Hh|exact Ha].
Defined.

(** The active rental is set back to pending, without a charge. *)
Lemma status_change_witness :
  let run := process_single_event (status_event "pending") env w1 in
  (exists row', rentals (db (snd run)) = <[9%N := row']> (rentals d1) /\
     row_state row' = Pending) /\ ledger (db (snd run)) = ledger d1.
Proof.
  assert (Hdata : exists data, decode_status_change (uev_event_data (status_event "pending")) =
    Some data /\ parse_new_status (scd_new_status data) = Some Pending)
    by (eexists; split; reflexivity).
  destruct Hdata as (data & Hdata & Hst).
  pose proof (status_change_is_unchecked (status_event "pending") data row0 Pending env w1 eq_refl
    Hdata Hst eq_refl) as Hp. run_ok Hp. destruct Hp as (u & Eu & Hrows & Hledger).
  intros run. split.
  - destruct Hrows as [[E _]|(row' & Hr & Hs & _)]; [discriminate E|]. exists row'.
    split; [exact Hr|exact Hs].
  - apply Hledger. intros [_ [E|E]]; discriminate E.
Defined.

(** An end event whose last rental update is lost after the charge
    reports an error and leaves the rental active, so that handling the event again
    charges the hour a second time: 100 credits become 93, not 96.5. *)
Theorem retried_end_charges_twice :
  let first := process_single_event end_event (env_losing 6) w1 in
  let second := process_single_event end_event (env_losing 6) (snd first) in
  is_Ok (fst first) = false /\
  rt_status <$> rentals (db (snd first)) !! 9%N = Some "active" /\
  c_balance <$> credits (db (snd first)) !! 1%N = Some (9650000000) /\
  is_Ok (fst second) = true /\
  rt_status <$> rentals (db (snd second)) !! 9%N = Some "completed" /\
  c_balance <$> credits (db (snd second)) !! 1%N = Some (9300000000).
Proof. cbv zeta. repeat split; vm_compute; reflexivity. Qed.
End Witnesses.
