(* ===== verification/BillingService.v ===== *)
(** * Billing: the gRPC service (crates/basilica-billing/src/grpc/billing_service.rs)

    The requests that move credits and rentals, as they are decoded, handed to the
    managers and answered.  A request ends in a response or a [Status]: its code, the
    fixed part of its message and the billing error behind it.  Overflows of a
    [chrono::Duration] panic.  [rust_decimal]'s [normalize], [fract] and [trunc] are the
    class [DecimalDisplay].  Telemetry ingestion, usage reports and package preferences
    are left out. *)

From Stdlib Require Import ZArith Ascii.
From stdpp Require Import base gmap strings list numbers.
From S2P Require Import Prelude Text Float64 Decimal BillingTypes BillingWorld Credits.
From S2P Require Import Rentals Events.
Local Open Scope Z_scope.

Inductive Code := InvalidArgument | NotFound | FailedPrecondition | Internal.

Class DecimalDisplay `{Decimal} := {
  dec_normalize : dec -> dec;
  dec_fract : dec -> dec;
  dec_trunc : dec -> dec;
}.

(** ** Messages *)

Record ProtoDuration := { pd_seconds : Z; pd_nanos : Z }.

Record ProtoGpuSpec := { pg_model : string; pg_memory_mb : Z; pg_count : Z }.

Record ProtoResourceSpec := {
  ps_cpu_cores : Z;
  ps_memory_mb : Z;
  ps_gpus : list ProtoGpuSpec;
  ps_disk_gb : Z;
  ps_network_bandwidth_mbps : Z
}.

Inductive RentalStatus := Unspecified | StPending | StActive | Stopping | Stopped | StFailed.

Definition RentalStatus_as_str_name (s : RentalStatus) : string :=
  match s with
  | Unspecified => "RENTAL_STATUS_UNSPECIFIED"
  | StPending => "RENTAL_STATUS_PENDING"
  | StActive => "RENTAL_STATUS_ACTIVE"
  | Stopping => "RENTAL_STATUS_STOPPING"
  | Stopped => "RENTAL_STATUS_STOPPED"
  | StFailed => "RENTAL_STATUS_FAILED"
  end.

Definition rental_status_to_domain (s : RentalStatus) : RentalState :=
  match s with
  | StPending => Pending
  | StActive => Active
  | Stopping => Terminating
  | Stopped => Completed
  | StFailed => Failed
  | Unspecified => Pending
  end.

Definition domain_status_to_proto (s : RentalState) : RentalStatus :=
  match s with
  | Pending => StPending
  | Active => StActive
  | Suspended => Stopping
  | Terminating => Stopping
  | Completed => Stopped
  | Failed => StFailed
  end.

Record ApplyCreditsRequest := {
  ac_user_id : string; ac_amount : string; ac_transaction_id : string;
  ac_payment_method : string; ac_metadata : gmap string string }.
Record ApplyCreditsResponse := {
  ac_success : bool; ac_new_balance : string; ac_credit_id : string; ac_applied_at : DateTime }.

Record GetBalanceResponse := {
  gb_available_balance : string; gb_reserved_balance : string; gb_total_balance : string;
  gb_last_updated : DateTime }.

Record ReserveCreditsRequest := {
  rc_user_id : string; rc_amount : string; rc_rental_id : string;
  rc_duration : option ProtoDuration }.
Record ReserveCreditsResponse := {
  rc_success : bool; rc_reservation_id : string; rc_reserved_amount : string;
  rc_reserved_until : DateTime; rc_error_message : string }.

Record ReleaseReservationResponse := {
  rl_success : bool; rl_charged_amount : string; rl_refunded_amount : string;
  rl_new_balance : string }.

Record TrackRentalRequest := {
  tr_rental_id : string;
  tr_user_id : string;
  tr_executor_id : string;
  tr_validator_id : string;
  tr_resource_spec : option ProtoResourceSpec;
  tr_hourly_rate : string;
  tr_start_time : option DateTime;
  tr_max_duration : option ProtoDuration;
  tr_metadata : gmap string string }.
Record TrackRentalResponse := {
  tr_success : bool; tr_tracking_id : string; tr_reservation_id : string;
  tr_estimated_cost : string }.

Record UpdateRentalStatusResponse := {
  us_success : bool; us_current_cost : string; us_updated_at : DateTime }.

Record FinalizeRentalResponse := {
  fr_success : bool; fr_total_cost : string; fr_duration : ProtoDuration;
  fr_charged_amount : string; fr_refunded_amount : string }.

Inductive RentalFilter :=
  | ByUser (user_id : string)
  | ByExecutor (executor_id : string)
  | ByValidator (validator_id : string).

Record ActiveRental := {
  ar_rental_id : string;
  ar_user_id : string;
  ar_executor_id : string;
  ar_validator_id : string;
  ar_status : RentalStatus;
  ar_resource_spec : ProtoResourceSpec;
  ar_hourly_rate : string;
  ar_current_cost : string;
  ar_start_time : DateTime;
  ar_last_updated : DateTime;
  ar_metadata : gmap string string
}.

(** [Duration::seconds(s) + Duration::nanoseconds(n)]: [None] is the panic of an
    overflow; a [Duration] is at most [i64::MAX] milliseconds either way. *)
Definition duration_of_proto (d : ProtoDuration) : option Duration :=
  let total := pd_seconds d * nanos_per_sec + pd_nanos d in
  if (Z.abs (pd_seconds d) <=? 9223372036854775) && (Z.abs total <=? 9223372036854775807 * 1000000)
  then Some total else None.

(** [num_seconds] and the remainder of [num_nanoseconds], which is [None] beyond 64
    bits. *)
Definition proto_of_duration (d : Duration) : ProtoDuration := {|
  pd_seconds := Duration_num_seconds d;
  pd_nanos :=
    let n := if (- 2 ^ 63 <=? d) && (d <? 2 ^ 63) then d else 0 in Z.rem n 1000000000 |}.

(** ** Effects *)

Section Service.
Context `{Decimal} `{UuidText} `{!DecimalDisplay}.

Inductive ServiceError :=
  | Status (code : Code) (message : string) (cause : option BillingError)
  | Panicked.

Definition SM (A : Type) : Type := Env -> World -> result ServiceError A * World.

#[global] Instance SM_ret : MRet SM := fun A a env w => (Ok a, w).
#[global] Instance SM_bind : MBind SM := fun A B f m env w =>
  match m env w with
  | (Ok a, w') => f a env w'
  | (Err e, w') => (Err e, w')
  end.

Definition fail {A} (e : ServiceError) : SM A := fun _ w => (Err e, w).

(** [.await.map_err(f)?] on a billing result. *)
Definition map_err {A} (f : BillingError -> ServiceError) (m : M A) : SM A := fun env w =>
  match m env w with
  | (Ok a, w') => (Ok a, w')
  | (Err e, w') => (Err (f e), w')
  end.

Definition internal {A} (message : string) : M A -> SM A :=
  map_err (fun e => Status Internal message (Some e)).

Definition or_fail {A} (e : ServiceError) (o : option A) : SM A :=
  match o with Some a => mret a | None => fail e end.

Definition clock_reading : SM DateTime := map_err (fun _ => Panicked) now.

(** ** Amounts *)

Definition parse_decimal_field (s : string) : option dec := dec_of_string s.

Definition invalid (message : string) : ServiceError := Status InvalidArgument message None.

Definition parse_amount (message s : string) : SM dec :=
  or_fail (invalid message) (parse_decimal_field s).

Definition format_decimal (d : dec) : string :=
  let normalized := dec_normalize d in
  if dec_num (dec_fract normalized) =? 0 then dec_to_string (dec_trunc normalized)
  else
    let s := dec_to_string normalized in
    if contains "." s then trim_end_char "." (trim_end_char "0" s) else s.

Definition format_credit_balance (b : CreditBalance) : string := format_decimal (as_decimal b).

Definition parse_rental_id (s : string) : SM RentalId :=
  or_fail (invalid "Invalid rental ID") (RentalId_from_str s).

(** ** Credits *)

Context `{!CreditRepository} `{!RentalRepository} `{!EventRepository}.

Definition BillingService_apply_credits (req : ApplyCreditsRequest) : SM ApplyCreditsResponse :=
  amount ← parse_amount "Invalid amount" (ac_amount req);
  new_balance ← internal "Failed to apply credits"
    (CreditManager_apply_credits (ac_user_id req) (CreditBalance_from_decimal amount));
  t ← clock_reading;
  mret {| ac_success := true; ac_new_balance := format_credit_balance new_balance;
          ac_credit_id := ac_transaction_id req; ac_applied_at := t |}.

Definition BillingService_get_balance (user_id : string) : SM GetBalanceResponse :=
  account ← internal "Failed to get account" (CreditManager_get_account user_id);
  mret {| gb_available_balance := format_credit_balance (CreditAccount_available_balance account);
          gb_reserved_balance := format_credit_balance (acct_reserved account);
          gb_total_balance := format_credit_balance (acct_balance account);
          gb_last_updated := acct_last_updated account |}.

(** An insufficient balance is the caller's precondition, anything else is internal. *)
Definition reserve_status (e : BillingError) : ServiceError :=
  match e with
  | InsufficientBalance _ _ => Status FailedPrecondition "Insufficient balance" (Some e)
  | _ => Status Internal "Failed to reserve credits" (Some e)
  end.

Definition BillingService_reserve_credits (req : ReserveCreditsRequest) : SM ReserveCreditsResponse :=
  rental_id ← (if String.eqb (rc_rental_id req) "" then mret None
               else id ← parse_rental_id (rc_rental_id req); mret (Some id));
  amount ← parse_amount "Invalid amount" (rc_amount req);
  let credit_balance := CreditBalance_from_decimal amount in
  proto_duration ← or_fail (invalid "Duration is required") (rc_duration req);
  duration ← or_fail Panicked (duration_of_proto proto_duration);
  reservation_id ← map_err reserve_status
    (CreditManager_reserve_credits (rc_user_id req) credit_balance duration rental_id);
  reservation ← internal "Failed to get reservation" (CreditManager_get_reservation reservation_id);
  mret {| rc_success := true; rc_reservation_id := uuid_to_string reservation_id;
          rc_reserved_amount := format_credit_balance (res_amount reservation);
          rc_reserved_until := res_expires_at reservation; rc_error_message := "" |}.

Definition release_status (e : BillingError) : ServiceError :=
  match e with
  | ReservationNotFound _ => Status NotFound "Reservation not found" (Some e)
  | ReservationAlreadyReleased _ => Status FailedPrecondition "Reservation already released" (Some e)
  | _ => Status Internal "Failed to release reservation" (Some e)
  end.

Definition BillingService_release_reservation (reservation_id_text final_amount_text : string)
    : SM ReleaseReservationResponse :=
  reservation_id ← or_fail (invalid "Invalid reservation ID") (uuid_parse_str reservation_id_text);
  final_amount ← parse_amount "Invalid amount" final_amount_text;
  let final_balance := CreditBalance_from_decimal final_amount in
  reservation ← map_err (fun e => Status NotFound "Reservation not found" (Some e))
    (CreditManager_get_reservation reservation_id);
  new_balance ← map_err release_status
    (CreditManager_charge_from_reservation reservation_id final_balance);
  let refunded :=
    default CreditBalance_zero (CreditBalance_subtract (res_amount reservation) final_balance) in
  mret {| rl_success := true; rl_charged_amount := format_decimal final_amount;
          rl_refunded_amount := format_credit_balance refunded;
          rl_new_balance := format_credit_balance new_balance |}.

(** ** Rentals *)

Definition resource_spec_of_proto (o : option ProtoResourceSpec) : ResourceSpec :=
  match o with
  | Some spec => {|
      gpu_specs := (fun g => {| gpu_spec_model := pg_model g; gpu_spec_memory_mb := pg_memory_mb g;
                                gpu_spec_count := pg_count g |}) <$> ps_gpus spec;
      cpu_cores := ps_cpu_cores spec;
      memory_gb := wrap 32 (ps_memory_mb spec / 1024);
      storage_gb := wrap 32 (ps_disk_gb spec);
      disk_iops := 0;
      network_bandwidth_mbps := ps_network_bandwidth_mbps spec |}
  | None => {|
      gpu_specs := []; cpu_cores := 4; memory_gb := 16; storage_gb := 100; disk_iops := 1000;
      network_bandwidth_mbps := 1000 |}
  end.

(** The package of the first GPU's model. *)
Definition package_of_spec (spec : ResourceSpec) : PackageId :=
  match gpu_specs spec with
  | g :: _ => PackageId_from_gpu_model (gpu_spec_model g)
  | [] => PackageId_custom
  end.

Definition json_of_resource_spec (r : ResourceSpec) : json :=
  JObject [("gpu_specs", JArray ((fun g => JObject
              [("model", JString (gpu_spec_model g)); ("memory_mb", JPosInt (gpu_spec_memory_mb g));
               ("count", JPosInt (gpu_spec_count g))]) <$> gpu_specs r));
           ("cpu_cores", JPosInt (cpu_cores r)); ("memory_gb", JPosInt (memory_gb r));
           ("storage_gb", JPosInt (storage_gb r)); ("disk_iops", JPosInt (disk_iops r));
           ("network_bandwidth_mbps", JPosInt (network_bandwidth_mbps r))].

(** A new event of the service, not yet processed. *)
Definition service_event (rental : RentalId) (user executor validator : string)
    (type : EventType) (data : json) : SM UsageEvent :=
  id ← map_err (fun _ => Panicked) new_v4;
  t ← clock_reading;
  mret {| uev_event_id := id; uev_rental_id := rental; uev_user_id := user;
          uev_executor_id := executor; uev_validator_id := validator; uev_event_type := type;
          uev_event_data := data; uev_timestamp := t; uev_processed := false;
          uev_processed_at := None; uev_batch_id := None |}.

(** The requested rental identifier is only checked; the rental gets a new one.  The
    rental is created before the duration and the balance are looked at. *)
Definition BillingService_track_rental (req : TrackRentalRequest) : SM TrackRentalResponse :=
  _ ← parse_rental_id (tr_rental_id req);
  hourly_rate ← parse_amount "Invalid hourly rate" (tr_hourly_rate req);
  let credit_rate := CreditBalance_from_decimal hourly_rate in
  let resource_spec := resource_spec_of_proto (tr_resource_spec req) in
  let package_id := package_of_spec resource_spec in
  rental_id ← internal "Failed to create rental"
    (RentalManager_create_rental (tr_user_id req) (tr_executor_id req) (tr_validator_id req)
       package_id resource_spec None);
  _ ← internal "Failed to get created rental" (RentalManager_get_rental rental_id);
  proto_duration ← or_fail (invalid "Max duration is required") (tr_max_duration req);
  max_duration ← or_fail Panicked (duration_of_proto proto_duration);
  let max_duration_hours := wrap 32 (Duration_num_hours max_duration) in
  let estimated_cost := CreditBalance_multiply credit_rate (dec_of_Z max_duration_hours) in
  reservation_id ← map_err reserve_status
    (CreditManager_reserve_credits (tr_user_id req) estimated_cost max_duration (Some rental_id));
  event ← service_event rental_id (tr_user_id req) (tr_executor_id req) (tr_validator_id req)
    RentalStart
    (JObject [("package_id", JString package_id);
              ("hourly_rate", JString (format_decimal hourly_rate));
              ("resource_spec", json_of_resource_spec resource_spec);
              ("estimated_cost", JString (format_credit_balance estimated_cost));
              ("max_duration_hours", JPosInt max_duration_hours)]);
  _ ← internal "Failed to store rental start event" (EventStore_append_usage_event event);
  mret {| tr_success := true; tr_tracking_id := uuid_to_string rental_id;
          tr_reservation_id := uuid_to_string reservation_id;
          tr_estimated_cost := format_credit_balance estimated_cost |}.

Definition update_status_error (e : BillingError) : ServiceError :=
  match e with
  | RentalNotFound _ => Status NotFound "Rental not found" (Some e)
  | InvalidStateTransition _ _ => Status FailedPrecondition "Invalid state transition" (Some e)
  | _ => Status Internal "Failed to update rental" (Some e)
  end.

(** The event calls the new status of the request the old one. *)
Definition BillingService_update_rental_status (rental_id_text : string) (status : RentalStatus)
    (reason : string) : SM UpdateRentalStatusResponse :=
  rental_id ← parse_rental_id rental_id_text;
  let new_status := rental_status_to_domain status in
  _ ← map_err update_status_error (RentalManager_update_status rental_id new_status);
  rental ← internal "Failed to get rental" (RentalManager_get_rental rental_id);
  internal "Failed to persist status" (rrepo_update_rental rental);;
  event ← service_event rental_id (rental_user_id rental) (rental_executor_id rental)
    (rental_validator_id rental) StatusChange
    (JObject [("old_status", JString (RentalStatus_as_str_name status));
              ("new_status", JString (RentalState_to_string new_status));
              ("reason", if String.eqb reason "" then JNull else JString reason)]);
  _ ← internal "Failed to store status change event" (EventStore_append_usage_event event);
  t ← clock_reading;
  mret {| us_success := true;
          us_current_cost := format_credit_balance (total_cost (rental_cost_breakdown rental));
          us_updated_at := t |}.

Definition active_rental_of (r : Rental) : ActiveRental :=
  let spec := rental_resource_spec r in {|
  ar_rental_id := uuid_to_string (rental_id r);
  ar_user_id := rental_user_id r;
  ar_executor_id := rental_executor_id r;
  ar_validator_id := rental_validator_id r;
  ar_status := domain_status_to_proto (rental_state r);
  ar_resource_spec := {|
    ps_cpu_cores := cpu_cores spec;
    ps_memory_mb := wrap 64 (memory_gb spec * 1024);
    ps_gpus := (fun g => {| pg_model := gpu_spec_model g; pg_memory_mb := gpu_spec_memory_mb g;
                            pg_count := gpu_spec_count g |}) <$> gpu_specs spec;
    ps_disk_gb := storage_gb spec;
    ps_network_bandwidth_mbps := network_bandwidth_mbps spec |};
  ar_hourly_rate := format_credit_balance (base_cost (rental_cost_breakdown r));
  ar_current_cost := format_credit_balance (total_cost (rental_cost_breakdown r));
  ar_start_time := rental_created_at r;
  ar_last_updated := rental_last_updated r;
  ar_metadata := ∅ |}.

Definition BillingService_get_active_rentals (f : option RentalFilter)
    : SM (list ActiveRental * Z) :=
  rentals ← internal "Failed to list rentals"
    (match f with
     | Some (ByUser user_id) => rrepo_get_active_rentals (Some user_id)
     | Some (ByExecutor executor_id) =>
         l ← rrepo_get_active_rentals None;
         mret (List.filter (fun r => String.eqb (rental_executor_id r) executor_id) l)
     | Some (ByValidator validator_id) =>
         l ← rrepo_get_active_rentals None;
         mret (List.filter (fun r => String.eqb (rental_validator_id r) validator_id) l)
     | None => rrepo_get_active_rentals None
     end);
  let active := active_rental_of <$>
    List.filter (fun r => RentalState_is_active (rental_state r)) rentals in
  mret (active, Z.of_nat (length active)).

(** Settle the rental's reservation, or charge the account when there is none. *)
Definition settle_rental (rental : Rental) (final_balance : CreditBalance)
    : SM (CreditBalance * CreditBalance) :=
  reservations ← internal "Failed to get reservations"
    (CreditManager_get_active_reservations (rental_user_id rental));
  match List.find (fun r => bool_decide (res_rental_id r = Some (rental_id rental))) reservations with
  | Some reservation =>
      let refunded :=
        default CreditBalance_zero (CreditBalance_subtract (res_amount reservation) final_balance) in
      _ ← internal "Failed to charge reservation"
        (CreditManager_charge_from_reservation (res_id reservation) final_balance);
      mret (final_balance, refunded)
  | None =>
      _ ← internal "Failed to charge credits"
        (CreditManager_charge_credits (rental_user_id rental) final_balance);
      mret (final_balance, CreditBalance_zero)
  end.

Definition BillingService_finalize_rental (rental_id_text final_cost_text : string)
    : SM FinalizeRentalResponse :=
  id ← parse_rental_id rental_id_text;
  final_cost ← parse_amount "Invalid final cost" final_cost_text;
  let final_balance := CreditBalance_from_decimal final_cost in
  rental ← internal "Failed to finalize rental" (RentalManager_finalize_rental id);
  let duration := rental_last_updated rental - rental_created_at rental in
  amounts ← settle_rental rental final_balance;
  final_rental ← internal "Failed to get rental" (RentalManager_get_rental id);
  internal "Failed to persist rental" (rrepo_update_rental final_rental);;
  mret {| fr_success := true; fr_total_cost := format_decimal final_cost;
          fr_duration := proto_of_duration duration;
          fr_charged_amount := format_credit_balance (fst amounts);
          fr_refunded_amount := format_credit_balance (snd amounts) |}.
End Service.
