(* ===== verification/ServiceClaims.v ===== *)
(** * Billing: the properties of the gRPC service

    Finalizing a rental, through the service, the two managers and the SQL repositories:
    what becomes of the rental and of the credits. *)

From Stdlib Require Import ZArith.
From stdpp Require Import base gmap strings list numbers.
From S2P Require Import Prelude Text Float64 Decimal BillingTypes BillingWorld.
From S2P Require Import Credits CreditRepo Ledger CreditManagerFacts CreditRepoFacts.
From S2P Require Import Rentals RentalFacts Events HandlerFacts BillingService.
Local Open Scope Z_scope.

(** ** Runs of the service *)

Section Runs.
Context `{Decimal} `{UuidText} `{!DecimalDisplay}.

Definition swp {A} (m : SM A) (env : Env) (w : World)
    (Q : result ServiceError A -> World -> Prop) : Prop :=
  let '(r, w') := m env w in Q r w'.

Lemma swp_ret {A} (a : A) env w (Q : _ -> _ -> Prop) : Q (Ok a) w -> swp (mret a) env w Q.
Proof. done. Qed.

Lemma swp_bind {A B} (m : SM A) (f : A -> SM B) env w Q :
  swp m env w (fun r w' => match r with Ok a => swp (f a) env w' Q | Err e => Q (Err e) w' end) ->
  swp (m ≫= f) env w Q.
Proof. unfold swp, mbind, SM_bind. by destruct (m env w) as [[a | e] w']. Qed.

Lemma swp_mono {A} (m : SM A) env w (Q Q' : _ -> _ -> Prop) :
  swp m env w Q -> (forall r w', Q r w' -> Q' r w') -> swp m env w Q'.
Proof. unfold swp. destruct (m env w) as [r w']. auto. Qed.

Lemma swp_map_err {A} g (m : M A) env w (Q : _ -> _ -> Prop) :
  wp m env w (fun r w' => match r with Ok a => Q (Ok a) w' | Err e => Q (Err (g e)) w' end) ->
  swp (map_err g m) env w Q.
Proof. unfold wp, swp, map_err. by destruct (m env w) as [[a | e] w']. Qed.

Lemma swp_or_fail {A} e (a : A) env w (Q : _ -> _ -> Prop) :
  Q (Ok a) w -> swp (or_fail e (Some a)) env w Q.
Proof. done. Qed.
End Runs.

(** An amount of at most six decimals, in plain notation. *)
Lemma parsed_amount `{DecimalLaws} text m s k :
  parse_plain text = Some (m, s) -> (s <= 6)%nat -> m * 10 ^ Z.of_nat (6 - s) = k ->
  0 <= k <= 10 ^ 27 ->
  exists d, dec_of_string text = Some d /\ amount_ok (CreditBalance_from_decimal d) /\
    micros (CreditBalance_from_decimal d) = k.
Proof.
  intros Hp Hs Hk Hb. assert (Hm : m < 2 ^ 96) by (enough (m <= k) by lia; nia).
  destruct (dec_parse_plain _ m s Hp ltac:(lia) Hm) as (d & Hd & Ed). exists d.
  assert (En : dec_num d = k * micro).
  { rewrite Ed, <- Hk. unfold micro.
    replace (28 - Z.of_nat s) with (Z.of_nat (6 - s) + 22) by lia. rewrite Z.pow_add_r by lia. lia. }
  assert (Hmic : micros (CreditBalance_from_decimal d) = k) by by apply from_decimal_micros.
  split_and!; [done| |done]. split; [|lia].
  apply (wf_from_micros d k); [done|]. unfold credit_bound. lia.
Qed.

(** ** What the credit manager leaves alone *)

Definition same_rentals (d d' : Db) : Prop := rentals d' = rentals d.

#[export] Instance same_rentals_preorder : PreOrder same_rentals.
Proof. split; [by intros d|]. unfold same_rentals. intros d1 d2 d3 E1 E2. congruence. Qed.
#[export] Instance same_rentals_credits : IgnoresCredits same_rentals.
Proof. done. Qed.
#[export] Instance same_rentals_reservations : IgnoresReservations same_rentals.
Proof. done. Qed.
#[export] Instance same_rentals_events : IgnoresBillingEvents same_rentals.
Proof. done. Qed.

Section Charges.
Context `{Decimal} `{UuidText} (R : Db -> Db -> Prop) `{!PreOrder R}.
Hint Resolve keeps_require keeps_get_account : keeps.

Lemma keeps_get_reservation id : keeps R (SqlCreditRepository_get_reservation id).
Proof. unfold SqlCreditRepository_get_reservation. keeps_tac; stmt_tac. Qed.

Lemma keeps_update_reservation `{!IgnoresReservations R} r :
  keeps R (SqlCreditRepository_update_reservation r).
Proof. unfold SqlCreditRepository_update_reservation. keeps_tac; stmt_tac. Qed.

Lemma keeps_update_account `{!IgnoresCredits R} c : keeps R (SqlCreditRepository_update_account c).
Proof. unfold SqlCreditRepository_update_account. keeps_tac; stmt_tac. Qed.
Hint Resolve keeps_get_reservation keeps_update_reservation keeps_update_account : keeps.

Context `{!IgnoresCredits R} `{!IgnoresReservations R}.

Lemma keeps_charge_credits u a : keeps R (CreditManager_charge_credits u a).
Proof. unfold CreditManager_charge_credits, CreditAccount_charge; simpl. keeps_tac. Qed.

Lemma keeps_charge_from_reservation id a : keeps R (CreditManager_charge_from_reservation id a).
Proof.
  unfold CreditManager_charge_from_reservation, CreditAccount_charge_from_reservation,
    CreditAccount_release_reservation, CreditAccount_charge; simpl. keeps_tac.
Qed.
End Charges.

(** ** Live reservations *)

(** An active reservation for the rental. *)
Definition reserved_for (d : Db) (rental : RentalId) (rid : uuid) (row : reservation_row) : Prop :=
  reservations d !! rid = Some row /\ rr_rental_id row = Some rental /\ rr_status row = "active".

Section Finalize.
Context `{DecimalLaws} `{UuidTextLaws} `{!DecimalDisplay}.
Context (env : Env) (Hff : fault_free env).

(** The reservations of a user that have not expired, and no others. *)
Lemma wp_active_reservations w u :
  wp (CreditManager_get_active_reservations u) env w (fun r w' => db w' = db w /\
    match r with
    | Err _ => resolve (db w) u = None
    | Ok l => exists k n, resolve (db w) u = Some k /\
        (forall rv, rv ∈ l -> exists row, reservations (db w) !! res_id rv = Some row /\
           rr_user_id row = k /\ rr_rental_id row = res_rental_id rv /\ rr_status row = "active") /\
        (forall rid row, reservations (db w) !! rid = Some row -> rr_user_id row = k ->
           rr_status row = "active" -> clock env n < rr_expires_at row ->
           exists rv, rv ∈ l /\ res_rental_id rv = rr_rental_id row)
    end).
Proof.
  unfold CreditManager_get_active_reservations; simpl.
  unfold SqlCreditRepository_get_active_reservations. wp_step.
  apply wp_require_any; [naive_solver|]. intros k w1 D1 Ek. wp_step.
  unfold wp at 1, now. wp_step. apply wp_sql; [done|]. intros w2. simpl. intros D2. rewrite D1 in D2.
  wp_steps. split; [done|]. exists k, (ticks w1). rewrite D1. split; [done|]. split.
  - intros rv ([rid row] & -> & Hin)%list_elem_of_fmap.
    apply elem_of_sort_by in Hin. apply list_elem_of_filter in Hin as [(Hu & Hs & _) Hin].
    apply elem_of_map_to_list in Hin. by exists row.
  - intros rid row Hrow Hu Hs Ht. eexists. split; [|by instantiate (1 := reservation_of_row
      row_status_released rid row)]. apply list_elem_of_fmap. exists (rid, row). split; [done|].
    apply elem_of_sort_by, list_elem_of_filter. split; [done|]. by apply elem_of_map_to_list.
Qed.
(** The rental's reservation is settled, or the account charged; on an error nothing is
    charged, but a reservation that was found is gone, and the new account could not be
    stored or the balance is too small. *)
Definition settle_outcome (rental : RentalId) (user : UserId) (k : Z) (ok : bool) (d d' : Db) : Prop :=
  (exists rid row, reserved_for d rental rid row /\ resolve d user = Some (rr_user_id row) /\
     if ok then Some (ledger d') ≡ spec_settle rid k (ledger d)
     else ledger d' ≡ spec_drop_hold rid (ledger d) /\
       forall l, spec_settle rid k (ledger d) = Some l -> ~ storable (account l (rr_user_id row))) \/
  ((forall rid row, reserved_for d rental rid row -> resolve d user = Some (rr_user_id row) ->
      exists n, rr_expires_at row <= clock env n) /\
   if ok then exists u, resolve d' user = Some u /\ Some (ledger d') ≡ spec_charge u k (ledger d)
   else ledger d' ≡ ledger d /\
     forall u a l, cr_account d user = Some (u, a) -> spec_charge u k (ledger d) = Some l ->
       ~ storable (account l u)).

Lemma live_hold d rid row :
  credit_tables_ok d -> reservations d !! rid = Some row -> rr_status row = "active" ->
  exists h, l_holds (ledger d) !! rid = Some h /\ h_user h = rr_user_id row.
Proof.
  intros [_ Hr] Hrow Hs. destruct (Hr rid row Hrow) as [[_ Hrel] _].
  exists (sh_hold (row_hold row)). split; [|done]. apply ledger_live.
  - simpl. by rewrite lookup_fmap, Hrow.
  - simpl. unfold row_released. by rewrite Hs, Hrel.
Qed.

Lemma swp_settle_rental w rental amount :
  credit_tables_ok (db w) -> covered (ledger (db w)) -> amount_ok amount ->
  swp (settle_rental rental amount) env w (fun r w' =>
    credit_tables_ok (db w') /\ rentals (db w') = rentals (db w) /\
    settle_outcome (rental_id rental) (rental_user_id rental) (micros amount) (is_Ok r)
      (db w) (db w')).
Proof.
  intros Hok Hcov Ham. unfold settle_rental, internal. apply swp_bind, swp_map_err.
  eapply wp_mono; [apply wp_active_reservations|]. intros [l | e] w1 [D1 Hl].
  2:{ rewrite D1. split_and!; [done..|]. right. simpl. split; [congruence|]. split; [done|].
      intros u a l [Eu _]%cr_account_Some. simpl in Eu. congruence. }
  destruct Hl as (k & n & Ek & Hin & Hall).
  destruct (List.find _ l) as [rv|] eqn:Ef.
  - apply List.find_some in Ef as [Hrv Ei%bool_decide_eq_true].
    destruct (Hin rv) as (row & Hrow & <- & Ern & Hs); [by apply list_elem_of_In|].
    apply swp_bind, swp_map_err. rewrite <- D1 in *.
    destruct (live_hold _ _ _ Hok Hrow Hs) as (h & Hh & Eh).
    eapply wp_mono; [apply wp_and; [by apply wp_charge_from_reservation|
      apply (keeps_charge_from_reservation same_rentals)]|].
    assert (Hres : reserved_for (db w1) (rental_id rental) (res_id rv) row)
      by (split_and!; [done|congruence|done]).
    intros [b | e] w2 [Hc Hk]; [apply swp_ret|].
    + destruct Hc as (Hok2 & HL & _). split_and!; [done..|]. left. by exists (res_id rv), row.
    + destruct Hc as (Hok2 & HL & He). split_and!; [done..|]. left. exists (res_id rv), row.
      split_and!; [done..|]. simpl. split; [done|]. intros l' El. rewrite El, Hh, Eh in He.
      by destruct He.
  - apply swp_bind, swp_map_err. rewrite <- D1 in *.
    assert (Hno : forall rid row, reserved_for (db w1) (rental_id rental) rid row ->
      resolve (db w1) (rental_user_id rental) = Some (rr_user_id row) ->
      exists n, rr_expires_at row <= clock env n).
    { intros rid row (Hrow & Er & Hs) Eu. exists n. apply Z.nlt_ge. intros Ht.
      destruct (Hall rid row) as (rv & Hrv & Erv); [done|congruence|done..|].
      eapply List.find_none in Ef; [|by apply list_elem_of_In].
      apply bool_decide_eq_false in Ef. congruence. }
    eapply wp_mono; [apply wp_and; [by apply wp_charge_credits|
      apply (keeps_charge_credits same_rentals)]|].
    intros [b | e] w2 [Hc Hk]; [apply swp_ret|].
    + destruct Hc as (Hok2 & u & Hu & HL & _). split_and!; [done..|]. right. split; [done|].
      by exists u.
    + destruct Hc as (D2 & He). rewrite D2. split_and!; [done..|]. right. split; [done|].
      split; [done|]. intros u a l' Ea El. rewrite Ea, El in He. by destruct He.
Qed.
(** Only the given rental changed, and it is completed. *)
Definition rental_completed (id : RentalId) (d d' : Db) : Prop :=
  exists row, rentals d' = <[id := row]> (rentals d) /\ row_state row = Completed.

(** Reading the rental again and writing it back. *)
Lemma wp_write_back w id row :
  rentals_ok (db w) -> rentals (db w) !! id = Some row ->
  wp (rental ← RentalManager_get_rental id; rrepo_update_rental rental) env w (fun r w' =>
    r = Ok tt /\ exists t, db w' = put_row id (written_row (rental_from_row id row) t row) (db w)).
Proof.
  intros Hok Hrow. apply (wp_get_exact env Hff); [congruence|]. intros row' w1 Hrow' D1.
  assert (row' = row) as -> by congruence.
  eapply (wp_update_exact env Hff w1 id row); [by rewrite D1|by apply (Hok id)|done..|].
  intros t w2 D2. split; [done|]. exists t. by rewrite D2, D1.
Qed.

Lemma swp_write_back {A} w id row (a : A) (Q : _ -> _ -> Prop) :
  rentals_ok (db w) -> rentals (db w) !! id = Some row -> row_state row = Completed ->
  (forall w', rental_completed id (db w) (db w') ->
     db w' = set_rentals (rentals (db w')) (db w) -> Q (Ok a) w') ->
  swp (final ← internal "Failed to get rental" (RentalManager_get_rental id);
       internal "Failed to persist rental" (rrepo_update_rental final);; mret a) env w Q.
Proof.
  intros Hok Hrow Hs HQ.
  pose proof (wp_write_back w id row Hok Hrow) as Hw. unfold wp, mbind, M_bind in Hw.
  unfold swp, internal, map_err, mbind, SM_bind, mret, SM_ret.
  destruct (RentalManager_get_rental id env w) as [[rental | e] w1]; [|by destruct Hw].
  destruct (rrepo_update_rental rental env w1) as [[u | e] w2]; [|by destruct Hw].
  destruct Hw as (_ & t & D). apply HQ; [|by rewrite D].
  eexists. split; [by rewrite D|]. unfold row_state. simpl. rewrite parse_state_string.
  done.
Qed.

(** The part of the request after the rental was completed, from the tables [d]. *)
Lemma swp_settle_and_write {A} d w rental amount row (f : CreditBalance * CreditBalance -> A) :
  credit_tables_ok d -> covered (ledger d) -> rentals_ok (db w) -> amount_ok amount ->
  row_state row = Completed -> db w = put_row (rental_id rental) row d ->
  swp (amounts ← settle_rental rental amount;
       final ← internal "Failed to get rental" (RentalManager_get_rental (rental_id rental));
       internal "Failed to persist rental" (rrepo_update_rental final);;
       mret (f amounts)) env w (fun r w' =>
    credit_tables_ok (db w') /\ rental_completed (rental_id rental) d (db w') /\
    settle_outcome (rental_id rental) (rental_user_id rental) (micros amount) (is_Ok r) d (db w')).
Proof.
  intros Hok Hcov Hrok Ham Hs D. apply swp_bind.
  eapply swp_mono; [apply swp_settle_rental; [by rewrite D|by rewrite D|done]|].
  assert (Hdone : forall d', rentals d' = rentals (db w) -> rental_completed (rental_id rental) d d').
  { intros d' E. exists row. by rewrite E, D. }
  rewrite D. intros [amounts | e] w2 (Hok2 & Er & Ho); [|by split_and!; [|apply Hdone; rewrite D|]].
  eapply (swp_write_back w2 (rental_id rental) row).
  - unfold rentals_ok. rewrite Er, <- D. done.
  - rewrite Er. simpl. by rewrite lookup_insert_eq.
  - done.
  - intros w3 (row3 & E3 & Hs3) D3. rewrite D3. split_and!; [done| |done].
    exists row3. split; [|done]. simpl. rewrite E3, Er. simpl. by rewrite insert_insert_eq.
Qed.

End Finalize.

(** C17: finalizing a rental.  When no statement of the database fails, finalizing a rental
    at a plain decimal cost of [k] micro-credits, not negative, through the service: a rental that is missing, pending, suspended or
    failed is refused and nothing changes.  Otherwise that rental ends up completed, no
    other changes, and the ledger is settled once: an active reservation for the rental
    is released and [k] charged, or, when all of them have expired, [k] is charged to the
    user's account.  If the request reports an error instead, nothing was charged, the
    charge was not possible, and a reservation that was found is gone.  (A lost statement
    can make the request fail after the charge: [lost_write_back_charges].) *)
Theorem finalize_rental_settles `{DecimalLaws} `{UuidTextLaws} `{!DecimalDisplay}
    env (Hff : fault_free env) w id_text cost_text id m s k :
  credit_tables_ok (db w) -> covered (ledger (db w)) -> rentals_ok (db w) ->
  RentalId_from_str id_text = Some id -> parse_plain cost_text = Some (m, s) -> (s <= 6)%nat ->
  m * 10 ^ Z.of_nat (6 - s) = k -> 0 <= k <= 10 ^ 27 ->
  let '(r, w') := BillingService_finalize_rental id_text cost_text env w in
  match (fun row => (row, row_state row)) <$> rentals (db w) !! id with
  | Some (row, (Active | Terminating | Completed)) =>
      credit_tables_ok (db w') /\ rental_completed id (db w) (db w') /\
      settle_outcome env id (rt_user_id row) k (is_Ok r) (db w) (db w')
  | _ => is_Ok r = false /\ db w' = db w
  end.
Proof.
  intros Hok Hcov Hrok Hid Hp Hs Hk Hb.
  destruct (parsed_amount _ _ _ _ Hp Hs Hk Hb) as (d & Hd & Ham & Hmic).
  match goal with |- let '(r, w') := ?x env w in @?Q r w' => change (swp x env w Q) end.
  unfold BillingService_finalize_rental, parse_rental_id, parse_amount, parse_decimal_field.
  rewrite Hid, Hd. do 2 apply swp_bind, swp_or_fail. apply swp_bind, swp_map_err.
  pose proof (wp_finalize env Hff w id Hrok) as Hf.
  pose proof (serve_rental_evolves env (FinalizeRental id) w Hrok) as (Hrok2 & _ & _).
  simpl in Hrok2. unfold wp in *. destruct (RentalManager_finalize_rental id env w) as [r w2].
  simpl in Hrok2. destruct (rentals (db w) !! id) as [row|] eqn:Erow; simpl;
    [|by destruct Hf as [-> ->]].
  destruct (row_state row) eqn:Es; try by destruct Hf as [-> ->].
  all: destruct Hf as (rental & t & t' & -> & _ & <- & Eu & D2); rewrite <- Eu, <- Hmic;
    (eapply swp_settle_and_write; [done..| |done]); unfold row_state; simpl;
    by rewrite ?parse_state_string.
Qed.

(** ** A rental of alice with its reservation of thirty credits *)

Module ServiceScenario.
Import Scenario Stage.

#[export] Instance display : DecimalDisplay := {|
  dec_normalize d := d; dec_fract d := d; dec_trunc d := d |}.

Definition d2 : Db :=
  set_reservations {[ 7%N := {|
    rr_user_id := 1%N; rr_rental_id := Some 9%N; rr_amount := 30 * 10 ^ 8; rr_status := "active";
    rr_reserved_at := 0; rr_expires_at := 2000000; rr_released_at := None |} ]} d1.

Definition w2 : World := {| db := d2; ticks := 0; drawn := 0; statements := 0 |}.

Lemma d2_tables_ok : credit_tables_ok d2.
Proof.
  split; [exact (proj1 tables_ok)|]. simpl. intros id r [<- <-]%lookup_singleton_Some.
  split; [|by eexists]. split; [|done]. by split; [exists (30 * 10 ^ 6)|].
Qed.

Lemma d2_covered : covered (ledger d2).
Proof.
  assert (E : ledger d2 = ledger d0) by (vm_compute; reflexivity). rewrite E. exact ledger_covered.
Qed.

Lemma d2_rentals_ok : rentals_ok d2.
Proof. apply map_Forall_singleton. split; [by exists Active|]. by split. Qed.

Lemma finalize_rental_settles_witness :
  let run := BillingService_finalize_rental (uuid_to_string 9%N) "5.25" env w2 in
  is_Ok (fst run) = true /\ rental_completed 9%N d2 (db (snd run)) /\
  settle_outcome env 9%N "alice" 5250000 true d2 (db (snd run)) /\
  account (ledger (db (snd run))) 1%N =
    {| a_balance := 94750000; a_reserved := 0; a_spent := 5250000 |}.
Proof.
  assert (Hid : RentalId_from_str (uuid_to_string 9%N) = Some 9%N) by (vm_compute; reflexivity).
  assert (Hp : parse_plain "5.25" = Some (525, 2%nat)) by (vm_compute; reflexivity).
  pose proof (finalize_rental_settles env env_ok w2 (uuid_to_string 9%N) "5.25" 9%N 525 2 5250000
    d2_tables_ok d2_covered d2_rentals_ok Hid Hp ltac:(lia) eq_refl ltac:(lia)) as Hf.
  intros run.
  assert (Er : is_Ok (fst run) = true) by (vm_compute; reflexivity).
  assert (Ea : account (ledger (db (snd run))) 1%N =
    {| a_balance := 94750000; a_reserved := 0; a_spent := 5250000 |}) by (vm_compute; reflexivity).
  fold run in Hf. destruct run as [r w']. simpl in Er, Ea. rewrite Er in Hf.
  destruct Hf as (_ & Hc & Ho). split_and!; [exact Er|exact Hc|exact Ho|exact Ea].
Defined.

(** The last statement of the request is lost: it reports an error, and the cost is
    charged. *)
Lemma lost_write_back_charges :
  let lossy := {| clock := clock env; random_uuid := random_uuid env; fault n := Nat.eqb n 9 |} in
  let run := BillingService_finalize_rental (uuid_to_string 9%N) "5.25" lossy w2 in
  is_Ok (fst run) = false /\
  account (ledger (db (snd run))) 1%N = {| a_balance := 94750000; a_reserved := 0; a_spent := 5250000 |}.
Proof. vm_compute. by split. Qed.

(** A negative cost is not refused, and adds to the balance. *)
Lemma negative_cost_adds_credits :
  let run := BillingService_finalize_rental (uuid_to_string 9%N) "-5.25" env w2 in
  is_Ok (fst run) = true /\
  a_balance (account (ledger (db (snd run))) 1%N) = 105250000.
Proof. vm_compute. by split. Qed.
End ServiceScenario.
