(* ===== verification/PaymentsWorld.v ===== *)
(** * Payments: database and effects

    The tables of migrations/001_payments_schema.sql of crates/basilica-payments, and
    the effect monad of the payments service: a program reads an environment, indexed
    by the number of interactions so far (the clock, which statements fail, what the
    price API and the wallet generator answer), and transforms a world (the tables, the
    price cache with its lock, the accounts the monitor knows, and the state of the
    billing service behind its client).  A task that waits for a lock no one will
    release is the error [Blocked], which no handler sees.

    What PostgreSQL makes of a text parameter bound to a NUMERIC(78, 0) column, RFC 3339
    text, the text of an [f64] and encryption are parameters ([PaymentsText]); the
    billing service is reached through the trait [BillingClient]. *)

From stdpp Require Import base strings list pretty.
From Stdlib Require Import Ascii ZArith QArith Qround.
From stdpp Require Import base gmap strings list.
From Stdlib Require Import ZArith.
From S2P Require Import Prelude.
From S2P Require Import Text.
From S2P Require Import Float64.
Local Open Scope Z_scope.

(** ** Arbitrary-precision decimals

    [sqlx::types::BigDecimal] is a library type: its operations are the class
    [BigDecimal], the documented behaviour the payments code relies on the class
    [BigDecimalLaws].  [bd_val] is the number a value denotes.  The module [ConcreteBig]
    gives an instance and proves the laws. *)

(** [m / 10^s] *)
Definition decimal_Q (m : Z) (s : nat) : Q := m # Z.to_pos (10 ^ Z.of_nat s).

Class BigDecimal := {
  bd : Type;
  bd_val : bd -> Q;
  bd_of_string : string -> option bd;
  bd_to_string : bd -> string;
  bd_div : bd -> bd -> bd;
  bd_mul : bd -> bd -> bd;
  bd_is_positive : bd -> bool;
  bd_of_numeric : Z -> bd                (* a NUMERIC(_, 0) column *)
}.

Class BigDecimalLaws `{BigDecimal} := {
  (** Digits with an optional point, and powers of ten, parse to their value. *)
  bd_parse_plain t m s :
    parse_plain t = Some (m, s) -> exists b, bd_of_string t = Some b /\ (bd_val b == decimal_Q m s)%Q;
  bd_parse_pow10 k :
    0 <= k <= 100 ->
    exists b, bd_of_string ("1e" +:+ show_int k) = Some b /\ (bd_val b == inject_Z (10 ^ k))%Q;
  (** Non-negative values print in plain notation. *)
  bd_print_plain b :
    (0 <= bd_val b)%Q ->
    exists m s, parse_plain (bd_to_string b) = Some (m, s) /\ (bd_val b == decimal_Q m s)%Q;
  (** Products are exact; quotients have a precision of a hundred digits, which the
      integers of a NUMERIC(78, 0) column do not exceed over a power of ten. *)
  bd_mul_val a b : (bd_val (bd_mul a b) == bd_val a * bd_val b)%Q;
  bd_div_pow10 a b z k :
    0 <= k <= 100 -> Z.abs z < 10 ^ 78 -> (bd_val a == inject_Z z)%Q ->
    (bd_val b == inject_Z (10 ^ k))%Q ->
    (bd_val (bd_div a b) == inject_Z z / inject_Z (10 ^ k))%Q;
  bd_positive b : bd_is_positive b = true <-> (0 < bd_val b)%Q;
  bd_numeric_val z : (bd_val (bd_of_numeric z) == inject_Z z)%Q
}.

(** Rounding a fraction down to [n] decimals. *)
Definition truncate_Q (n : nat) (q : Q) : Z := Qfloor (q * inject_Z (10 ^ Z.of_nat n)).

Lemma Qfloor_div a b : 0 < b -> Qfloor (a # Z.to_pos b) = a / b.
Proof. intros Hb. unfold Qfloor. by rewrite Z2Pos.id by done. Qed.

Lemma decimal_Q_shift m s n :
  (decimal_Q m s * inject_Z (10 ^ Z.of_nat n) ==
    (m * 10 ^ Z.of_nat n) # Z.to_pos (10 ^ Z.of_nat s))%Q.
Proof. unfold decimal_Q, inject_Z, Qeq, Qmult. simpl. by rewrite Pos.mul_1_r. Qed.

(** Truncating a number in plain notation, on its digits. *)
Lemma truncate_long m s n :
  (n <= s)%nat -> truncate_Q n (decimal_Q m s) = m / 10 ^ Z.of_nat (s - n).
Proof.
  intros Hs. unfold truncate_Q. rewrite decimal_Q_shift, Qfloor_div by lia.
  replace (Z.of_nat s) with (Z.of_nat (s - n) + Z.of_nat n) by lia.
  rewrite Z.pow_add_r by lia. apply Z.div_mul_cancel_r; lia.
Qed.

Lemma truncate_short m s n :
  (s <= n)%nat -> truncate_Q n (decimal_Q m s) = m * 10 ^ Z.of_nat (n - s).
Proof.
  intros Hs. unfold truncate_Q. rewrite decimal_Q_shift, Qfloor_div by lia.
  replace (Z.of_nat n) with (Z.of_nat (n - s) + Z.of_nat s) by lia.
  rewrite Z.pow_add_r by lia. rewrite Z.mul_assoc. apply Z.div_mul. lia.
Qed.

#[export] Instance truncate_Q_proper n : Proper (Qeq ==> eq) (truncate_Q n).
Proof. intros p q E. unfold truncate_Q. by rewrite E. Qed.

(** ** A concrete instance: a mantissa over a power of ten *)

Module ConcreteBig.

(** Quotients keep a hundred more digits. *)
#[export] Instance scaled_big : BigDecimal := {|
  bd := Z * nat;
  bd_val b := decimal_Q b.1 b.2;
  bd_of_string t :=
    match strip_prefix "1e" t with
    | Some e => k ← parse_i64 e; Some (10 ^ k, O)
    | None => parse_plain_Z t
    end;
  bd_to_string b := plain_Z b.1 b.2;
  bd_div a b := (a.1 * 10 ^ Z.of_nat (100 + b.2) / b.1, (a.2 + 100)%nat);
  bd_mul a b := (a.1 * b.1, (a.2 + b.2)%nat);
  bd_is_positive b := 0 <? b.1;
  bd_of_numeric z := (z, O)
|}.

Lemma pow10_pos s : 0 < 10 ^ Z.of_nat s.
Proof. lia. Qed.

Lemma decimal_Q_sign m s : (0 < decimal_Q m s)%Q <-> 0 < m.
Proof. unfold Qlt, decimal_Q. simpl. lia. Qed.

Lemma plain_has_no_exponent t r : parse_plain t = Some r -> strip_prefix "1e" t = None.
Proof.
  destruct t as [|c [|c' t]]; intros Hp; cbn [strip_prefix]; [done|by case_match|].
  destruct (Ascii.eqb_spec "1" c) as [<- | ?]; [|done].
  destruct (Ascii.eqb_spec "e" c') as [<- | ?]; [|done]. exfalso. revert Hp.
  unfold parse_plain. cbn [split_once strip_prefix]. simpl (Ascii.eqb _ _). cbv iota.
  destruct (split_once "." t) as [[a b]|]; [|done]. simpl. by destruct b.
Qed.

Lemma decimal_Q_num z : (decimal_Q z 0 == inject_Z z)%Q.
Proof. reflexivity. Qed.

Lemma decimal_Q_div m s k :
  0 <= k <= 100 ->
  (decimal_Q (m * 10 ^ (100 - k)) (s + 100) == decimal_Q m s / inject_Z (10 ^ k))%Q.
Proof.
  intros Hk. assert (Hp : inject_Z (10 ^ k) = (Z.pos (Z.to_pos (10 ^ k)) # 1)%Q).
  { rewrite Z2Pos.id by lia. done. }
  rewrite Hp. unfold Qdiv, Qinv. cbn [Qnum Qden].
  unfold decimal_Q, Qeq, Qmult. cbn [Qnum Qden].
  rewrite Pos2Z.inj_mul, !Z2Pos.id by lia.
  rewrite Nat2Z.inj_add, Z.pow_add_r, Z.mul_1_r by lia. change (Z.of_nat 100) with 100.
  replace (10 ^ 100) with (10 ^ (100 - k) * 10 ^ k) by (rewrite <- Z.pow_add_r by lia; f_equal; lia).
  ring.
Qed.

#[export] Instance scaled_big_laws : BigDecimalLaws.
Proof.
  split; cbn [scaled_big bd bd_val bd_of_string bd_to_string bd_div bd_mul bd_is_positive
              bd_of_numeric].
  - intros t m s Ht. exists (m, s). rewrite (plain_has_no_exponent _ _ Ht).
    by rewrite (parse_plain_unsigned _ _ Ht).
  - intros k Hk. exists (10 ^ k, O).
    change (strip_prefix "1e" ("1e" +:+ show_int k)) with (Some (show_int k)). cbv iota.
    rewrite parse_show_i64 by lia. done.
  - intros [m s] Hm. cbn [fst snd] in *. exists m, s. split; [|done].
    unfold plain_Z. rewrite (proj2 (Z.ltb_ge _ _)).
    + rewrite parse_plain_plain. rewrite Z2N.id; [done|]. revert Hm. unfold Qle, decimal_Q. simpl. lia.
    + revert Hm. unfold Qle, decimal_Q. simpl. lia.
  - intros [m s] [m' s']. unfold decimal_Q, Qeq, Qmult. cbn [fst snd Qnum Qden].
    rewrite Nat2Z.inj_add, Z.pow_add_r, Pos2Z.inj_mul, !Z2Pos.id by lia. lia.
  - intros [m s] [m' s'] z k Hk _. cbn [fst snd]. intros <- Hb.
    assert (m' = 10 ^ (k + Z.of_nat s')) as ->.
    { revert Hb. unfold decimal_Q, Qeq, inject_Z. cbn [Qnum Qden].
      rewrite Z2Pos.id, Z.pow_add_r by lia. lia. }
    rewrite <- (decimal_Q_div m s k Hk). f_equiv.
    replace (Z.of_nat (100 + s')) with ((100 - k) + (k + Z.of_nat s')) by lia.
    rewrite (Z.pow_add_r 10 (100 - k)), Z.mul_assoc by lia. apply Z.div_mul. lia.
  - intros [m s]. simpl. rewrite Z.ltb_lt. by rewrite decimal_Q_sign.
  - intros z. reflexivity.
Qed.
End ConcreteBig.

(** ** The world of the payments service *)

Class PaymentsText := {
  numeric_of_text : string -> option Z;   (* [None]: the statement is refused *)
  rfc3339 : Z -> string;
  f64_show : f64 -> string
}.

(** domain/types.rs, the trait [BillingClient]; the first argument distinguishes calls. *)
Class BillingClient := {
  billing_state : Type;
  client_apply_credits :
    nat -> string -> string -> string -> billing_state -> result string string * billing_state
}.

(** ** Tables *)

(** deposit_accounts, keyed by [user_id]. *)
Record deposit_account := {
  da_address_ss58 : string;
  da_account_id_hex : string;
  da_hotkey_public_hex : string;
  da_hotkey_mnemonic_ct : string
}.

(** observed_deposits, keyed by block number and event index. *)
Record observed_deposit := {
  od_to_account_hex : string;
  od_from_account_hex : string;
  od_amount_plancks : Z;
  od_status : string;
  od_observed_at : Z;
  od_credited_at : option Z;
  od_billing_credit_id : option string
}.

(** billing_outbox, keyed by [id]. *)
Record outbox_entry := {
  ob_user_id : string;
  ob_amount_plancks : Z;
  ob_transaction_id : string;
  ob_attempts : Z;
  ob_claimed_at : option Z;
  ob_next_attempt_at : Z;
  ob_created_at : Z;
  ob_dispatched_at : option Z
}.

Record PaymentsDb := {
  deposit_accounts : gmap string deposit_account;
  observed_deposits : gmap (Z * Z) observed_deposit;
  billing_outbox : gmap Z outbox_entry
}.

Definition set_accounts (m : gmap string deposit_account) (d : PaymentsDb) : PaymentsDb := {|
  deposit_accounts := m; observed_deposits := observed_deposits d;
  billing_outbox := billing_outbox d |}.
Definition set_observed (m : gmap (Z * Z) observed_deposit) (d : PaymentsDb) : PaymentsDb := {|
  deposit_accounts := deposit_accounts d; observed_deposits := m;
  billing_outbox := billing_outbox d |}.
Definition set_outbox (m : gmap Z outbox_entry) (d : PaymentsDb) : PaymentsDb := {|
  deposit_accounts := deposit_accounts d; observed_deposits := observed_deposits d;
  billing_outbox := m |}.

Definition empty_payments_db : PaymentsDb :=
  {| deposit_accounts := ∅; observed_deposits := ∅; billing_outbox := ∅ |}.

(** ** The price cache and its lock *)

Section PaymentsWorld.
Context `{BigDecimal} `{BillingClient}.

Record CachedPrice := { cp_price : bd; cp_timestamp : Z }.

(** The [RwLock] hands out read guards unless a writer waits, and a write guard only
    when no read guard is out. *)
Record PriceCache := {
  cached_price : option CachedPrice;
  read_guards : nat;
  waiting_writers : nat
}.

Inductive PaymentsError :=
  | PaymentsSqlError
  | PriceUnavailable
  | InvalidPrice
  | InvalidDecimal
  | BillingRefused (message : string)
  | WalletError
  | EncryptionError
  | Blocked.

Record PaymentsEnv := {
  p_clock : nat -> Z;
  p_sql_fails : nat -> bool;
  api_answer : nat -> option f64;            (* the price in the API's JSON *)
  writer_arrives : nat -> bool;              (* the background task wants to write *)
  wallet : nat -> option (string * string * string * string);
  encrypted : nat -> string -> option string
}.

(** A credit as it was requested, with the identifier of the answer. *)
Record Credit := {
  cr_user_id : string;
  cr_credits : string;
  cr_transaction_id : string;
  cr_credit_id : string
}.

Record PaymentsWorld := {
  p_db : PaymentsDb;
  outbox_sequence : Z;                       (* BIGSERIAL, not rolled back *)
  cache : PriceCache;
  known_accounts : gset string;
  billing : billing_state;
  confirmed : list Credit;                   (* credits the client reported as applied *)
  p_steps : nat
}.

Definition with_p_db (w : PaymentsWorld) (d : PaymentsDb) : PaymentsWorld := {|
  p_db := d; outbox_sequence := outbox_sequence w; cache := cache w;
  known_accounts := known_accounts w; billing := billing w; confirmed := confirmed w; p_steps := p_steps w |}.
Definition with_sequence (w : PaymentsWorld) (n : Z) : PaymentsWorld := {|
  p_db := p_db w; outbox_sequence := n; cache := cache w;
  known_accounts := known_accounts w; billing := billing w; confirmed := confirmed w; p_steps := p_steps w |}.
Definition with_cache (w : PaymentsWorld) (c : PriceCache) : PaymentsWorld := {|
  p_db := p_db w; outbox_sequence := outbox_sequence w; cache := c;
  known_accounts := known_accounts w; billing := billing w; confirmed := confirmed w; p_steps := p_steps w |}.
Definition with_known (w : PaymentsWorld) (k : gset string) : PaymentsWorld := {|
  p_db := p_db w; outbox_sequence := outbox_sequence w; cache := cache w;
  known_accounts := k; billing := billing w; confirmed := confirmed w; p_steps := p_steps w |}.
Definition with_billing (w : PaymentsWorld) (b : billing_state) (l : list Credit)
    : PaymentsWorld := {|
  p_db := p_db w; outbox_sequence := outbox_sequence w; cache := cache w;
  known_accounts := known_accounts w; billing := b; confirmed := l; p_steps := p_steps w |}.
Definition with_p_steps (w : PaymentsWorld) (n : nat) : PaymentsWorld := {|
  p_db := p_db w; outbox_sequence := outbox_sequence w; cache := cache w;
  known_accounts := known_accounts w; billing := billing w; confirmed := confirmed w; p_steps := n |}.

(** ** Effects *)

Definition PM (A : Type) : Type :=
  PaymentsEnv -> PaymentsWorld -> result PaymentsError A * PaymentsWorld.

#[global] Instance PM_ret : MRet PM := fun A a _ w => (Ok a, w).
#[global] Instance PM_bind : MBind PM := fun A B k m env w =>
  match m env w with
  | (Ok a, w') => k a env w'
  | (Err e, w') => (Err e, w')
  end.

Definition pfail {A} (e : PaymentsError) : PM A := fun _ w => (Err e, w).

(** A result that is inspected; a task that waits for ever inspects nothing. *)
Definition ptry {A} (m : PM A) : PM (result PaymentsError A) := fun env w =>
  match m env w with
  | (Err Blocked, w') => (Err Blocked, w')
  | (r, w') => (Ok r, w')
  end.

Definition pnext : PM nat := fun _ w => (Ok (p_steps w), with_p_steps w (S (p_steps w))).
Definition pask {A} (f : PaymentsEnv -> A) : PM A := fun env w => (Ok (f env), w).
Definition pgets {A} (f : PaymentsWorld -> A) : PM A := fun _ w => (Ok (f w), w).
Definition ptransform {A} (f : PaymentsWorld -> result PaymentsError A * PaymentsWorld) : PM A :=
  fun _ w => f w.
(** [nextval] of the outbox sequence. *)
Definition pnextval : PM Z := fun _ w =>
  (Ok (outbox_sequence w), with_sequence w (outbox_sequence w + 1)).
Definition pmodify (f : PaymentsWorld -> PaymentsWorld) : PM unit := fun _ w => (Ok tt, f w).

Definition pnow : PM Z := n ← pnext; pask (fun env => p_clock env n).

(** One statement; [None] is a violated constraint or a refused parameter. *)
Definition pstatement {A} (f : PaymentsDb -> option (A * PaymentsDb)) : PM A :=
  n ← pnext;
  fails ← pask (fun env => p_sql_fails env n);
  if fails : bool then pfail PaymentsSqlError
  else ptransform (fun w =>
    match f (p_db w) with
    | Some (a, d) => (Ok a, with_p_db w d)
    | None => (Err PaymentsSqlError, w)
    end).

Definition pquery {A} (f : PaymentsDb -> A) : PM A := pstatement (fun d => Some (f d, d)).

(** [begin], the body with the transaction's [now()], [commit]; any failure rolls the
    tables back. *)
Definition ptransaction {A} (body : Z -> PM A) : PM A := fun env w =>
  match (pquery (fun _ => tt);; t ← pnow; a ← body t; pquery (fun _ => a)) env w with
  | (Ok a, w') => (Ok a, w')
  | (Err e, w') => (Err e, with_p_db w' (p_db w))
  end.

(** [for x in l { body(x)?; }] *)
Fixpoint pfor {A} (body : A -> PM unit) (l : list A) : PM unit :=
  match l with
  | [] => mret tt
  | x :: rest => body x;; pfor body rest
  end.
End PaymentsWorld.
