(* ===== verification/Payments.v ===== *)
(** * Payments: deposits, prices and the dispatcher

    crates/basilica-payments: the repositories of storage/, the price oracle and
    converter (price_oracle/, domain/price.rs), the monitor of deposits
    (blockchain/monitor.rs) with the block processing of
    crates/bittensor/src/chain_monitor.rs, the gRPC service (grpc/) and the dispatcher
    that hands deposits to the billing service (processor/).  The values of chain events
    are given by their text, which the chain library prints. *)

From stdpp Require Import base gmap strings list sorting.
From Stdlib Require Import Ascii ZArith.
From S2P Require Import Prelude.
From S2P Require Import Bytes.
From S2P Require Import Text.
From S2P Require Import Float64.
From S2P Require Import Collections.
From S2P Require Import PaymentsWorld.
Local Open Scope Z_scope.

(** ["b{}#e{}#{}"] *)
Definition transaction_id (block event_index : Z) (to : string) : string :=
  "b" +:+ show_int block +:+ "#e" +:+ show_int event_index +:+ "#" +:+ to.

(** [2^min(6, attempts - 1)], with a saturating subtraction on [u32]. *)
Definition backoff_secs (attempts : Z) : Z := 2 ^ Z.min 6 (Z.max 0 (wrap 32 attempts - 1)).

Definition second : Z := 1000000000.
Definition claim_timeout : Z := 300 * second.

(** Not dispatched, due, and not claimed in the last five minutes. *)
Definition claimable (now : Z) (o : outbox_entry) : bool :=
  match ob_dispatched_at o with None => true | Some _ => false end
  && (ob_next_attempt_at o <=? now)
  && match ob_claimed_at o with None => true | Some t => t <? now - claim_timeout end.

Definition claim (now : Z) (o : outbox_entry) : outbox_entry := {|
  ob_user_id := ob_user_id o; ob_amount_plancks := ob_amount_plancks o;
  ob_transaction_id := ob_transaction_id o; ob_attempts := ob_attempts o + 1;
  ob_claimed_at := Some now; ob_next_attempt_at := ob_next_attempt_at o;
  ob_created_at := ob_created_at o; ob_dispatched_at := ob_dispatched_at o |}.

Definition dispatched (now : Z) (o : outbox_entry) : outbox_entry := {|
  ob_user_id := ob_user_id o; ob_amount_plancks := ob_amount_plancks o;
  ob_transaction_id := ob_transaction_id o; ob_attempts := ob_attempts o;
  ob_claimed_at := ob_claimed_at o; ob_next_attempt_at := ob_next_attempt_at o;
  ob_created_at := ob_created_at o; ob_dispatched_at := Some now |}.

Definition postponed (t : Z) (o : outbox_entry) : outbox_entry := {|
  ob_user_id := ob_user_id o; ob_amount_plancks := ob_amount_plancks o;
  ob_transaction_id := ob_transaction_id o; ob_attempts := ob_attempts o;
  ob_claimed_at := ob_claimed_at o; ob_next_attempt_at := t;
  ob_created_at := ob_created_at o; ob_dispatched_at := ob_dispatched_at o |}.

Definition credited (now : Z) (credit_id : string) (o : observed_deposit) : observed_deposit := {|
  od_to_account_hex := od_to_account_hex o; od_from_account_hex := od_from_account_hex o;
  od_amount_plancks := od_amount_plancks o; od_status := "CREDITED";
  od_observed_at := od_observed_at o; od_credited_at := Some now;
  od_billing_credit_id := Some credit_id |}.

Definition account_user (d : PaymentsDb) (hex : string) : option string :=
  fst <$> List.find (fun kv => String.eqb (da_account_id_hex kv.2) hex)
            (map_to_list (deposit_accounts d)).

Record OutboxRow := {
  or_id : Z;
  or_user_id : string;
  or_amount_plancks : string;
  or_transaction_id : string;
  or_attempts : Z
}.

Record ObservedRow := {
  ow_block_number : Z;
  ow_event_index : Z;
  ow_from_account_hex : string;
  ow_to_account_hex : string;
  ow_amount_plancks : string;
  ow_status : string;
  ow_observed_at : string;
  ow_credited_at : string;
  ow_billing_credit_id : string
}.

(** [clamp_precision]: the text up to the first point and [max_decimals] characters
    behind it. *)
Definition clamp_precision (s : string) (max_decimals : nat) : string :=
  match split_once "." s with
  | Some (before, decimals) =>
      if (max_decimals <? String.length decimals)%nat
      then before +:+ String "." (take_str max_decimals decimals) else s
  | None => s
  end.

Section Payments.
Context `{HashOrder} `{BigDecimal} `{BillingClient} `{PaymentsText}.

(** ** storage/deposit_accounts.rs *)

Definition get_by_user (user_id : string) : PM (option deposit_account) :=
  pquery (fun d => deposit_accounts d !! user_id).

Definition insert_account (user_id addr acct_hex pub_hex mnemonic_ct : string) (d : PaymentsDb)
    : option (unit * PaymentsDb) :=
  if match deposit_accounts d !! user_id with Some _ => true | None => false end
     || existsb (fun a => String.eqb (da_address_ss58 a) addr
                          || String.eqb (da_account_id_hex a) acct_hex)
          (snd <$> map_to_list (deposit_accounts d))
  then None
  else Some (tt, set_accounts (<[user_id := {|
         da_address_ss58 := addr; da_account_id_hex := acct_hex;
         da_hotkey_public_hex := pub_hex; da_hotkey_mnemonic_ct := mnemonic_ct |}]>
         (deposit_accounts d)) d).

Definition insert_account_tx (user_id addr acct_hex pub_hex mnemonic_ct : string) : PM unit :=
  pstatement (insert_account user_id addr acct_hex pub_hex mnemonic_ct).

Definition list_account_hexes : PM (list string) :=
  pquery (fun d => da_account_id_hex <$> (snd <$> map_to_list (deposit_accounts d))).

(** ** storage/observed_deposits.rs *)

(** [ON CONFLICT DO NOTHING]; the receiving account must exist. *)
Definition insert_finalized (now block idx : Z) (to_hex from_hex amount : string) (d : PaymentsDb)
    : option (unit * PaymentsDb) :=
  plancks ← numeric_of_text amount;
  match observed_deposits d !! (block, idx) with
  | Some _ => Some (tt, d)
  | None =>
      _ ← account_user d to_hex;
      Some (tt, set_observed (<[(block, idx) := {|
        od_to_account_hex := to_hex; od_from_account_hex := from_hex;
        od_amount_plancks := plancks; od_status := "FINALIZED"; od_observed_at := now;
        od_credited_at := None; od_billing_credit_id := None |}]> (observed_deposits d)) d)
  end.

Definition insert_finalized_tx (now block idx : Z) (to_hex from_hex amount : string) : PM unit :=
  pstatement (insert_finalized now block idx to_hex from_hex amount).

(** Every deposit whose identifier, rebuilt from its columns, is the given one. *)
Definition mark_credited (now : Z) (txid credit_id : string) (d : PaymentsDb) : PaymentsDb :=
  set_observed (map_imap (fun k o =>
    Some (if String.eqb (transaction_id k.1 k.2 (od_to_account_hex o)) txid
          then credited now credit_id o else o)) (observed_deposits d)) d.

Definition mark_credited_tx (now : Z) (txid credit_id : string) : PM unit :=
  pstatement (fun d => Some (tt, mark_credited now txid credit_id d)).

(** Latest first. *)
Definition deposit_order (a b : (Z * Z) * observed_deposit) : bool :=
  if a.1.1 =? b.1.1 then b.1.2 <=? a.1.2 else b.1.1 <? a.1.1.

Definition observed_row (e : (Z * Z) * observed_deposit) : ObservedRow :=
  let '(block, idx, o) := e in {|
  ow_block_number := block; ow_event_index := idx;
  ow_from_account_hex := od_from_account_hex o; ow_to_account_hex := od_to_account_hex o;
  ow_amount_plancks := bd_to_string (bd_of_numeric (od_amount_plancks o));
  ow_status := od_status o;
  ow_observed_at := rfc3339 (od_observed_at o);
  ow_credited_at := from_option rfc3339 "" (od_credited_at o);
  ow_billing_credit_id := default "" (od_billing_credit_id o) |}.

Definition list_by_user (user_id : string) (limit offset : Z) : PM (list ObservedRow) :=
  pquery (fun d =>
    let mine := List.filter (fun e : (Z * Z) * observed_deposit =>
      match deposit_accounts d !! user_id with
      | Some a => String.eqb (da_account_id_hex a) (od_to_account_hex e.2)
      | None => false
      end) (map_to_list (observed_deposits d)) in
    observed_row <$> take (Z.to_nat limit) (drop (Z.to_nat offset) (sort_by deposit_order mine))).

(** ** storage/outbox.rs *)

Definition enqueue (id now : Z) (to_hex amount txid : string) (d : PaymentsDb)
    : option (unit * PaymentsDb) :=
  match account_user d to_hex with
  | None => Some (tt, d)
  | Some user_id =>
      plancks ← numeric_of_text amount;
      if existsb (fun o => String.eqb (ob_transaction_id o) txid)
           (snd <$> map_to_list (billing_outbox d))
      then Some (tt, d)
      else Some (tt, set_outbox (<[id := {|
             ob_user_id := user_id; ob_amount_plancks := plancks; ob_transaction_id := txid;
             ob_attempts := 0; ob_claimed_at := None; ob_next_attempt_at := now;
             ob_created_at := now; ob_dispatched_at := None |}]> (billing_outbox d)) d)
  end.

(** The sequence advances once per statement; a gap more or less, where no row is
    inserted, shows nowhere but in the identifiers. *)
Definition enqueue_tx (now : Z) (to_hex amount txid : string) : PM unit :=
  id ← pnextval;
  pstatement (enqueue id now to_hex amount txid).

(** The oldest claimable entries. *)
Definition claim_candidates (now limit : Z) (d : PaymentsDb) : list (Z * outbox_entry) :=
  take (Z.to_nat limit)
    (sort_by (fun a b => a.1 <=? b.1)
       (List.filter (fun e => claimable now e.2) (map_to_list (billing_outbox d)))).

Definition outbox_row (e : Z * outbox_entry) : OutboxRow := {|
  or_id := e.1; or_user_id := ob_user_id e.2;
  or_amount_plancks := bd_to_string (bd_of_numeric (ob_amount_plancks e.2));
  or_transaction_id := ob_transaction_id e.2; or_attempts := ob_attempts e.2 |}.

(** [attempts] is an INT: its overflow fails the statement.  The rows come back in any
    order. *)
Definition claim_rows (n : nat) (now limit : Z) (d : PaymentsDb)
    : option (list OutboxRow * PaymentsDb) :=
  let rows := (fun e => (e.1, claim now e.2)) <$> claim_candidates now limit d in
  if existsb (fun e => 2 ^ 31 <=? ob_attempts e.2) rows then None
  else Some (outbox_row <$> shuffle n "claim_batch" rows,
             set_outbox (foldr (fun e m => <[e.1 := e.2]> m) (billing_outbox d) rows) d).

Definition claim_batch (limit : Z) : PM (list OutboxRow) :=
  n ← pnext;
  now ← pask (fun env => p_clock env n);
  pstatement (claim_rows n now limit).

Definition mark_dispatched_tx (now id : Z) : PM unit :=
  pstatement (fun d =>
    Some (tt, set_outbox (alter (dispatched now) id (billing_outbox d)) d)).

Definition backoff (id secs : Z) : PM unit :=
  now ← pnow;
  pstatement (fun d =>
    Some (tt, set_outbox (alter (postponed (now + secs * second)) id (billing_outbox d)) d)).

(** ** price_oracle/mod.rs *)

Record PriceOracleConfig := {
  update_interval : Z;
  max_price_age : Z;
  request_timeout : Z
}.

Definition PriceOracleConfig_default : PriceOracleConfig :=
  {| update_interval := 60; max_price_age := 300; request_timeout := 10 |}.

Definition price_is_stale (now : Z) (max_age : Z) (c : CachedPrice) : bool :=
  max_age <? now - cp_timestamp c.

Definition set_guards (c : PriceCache) (guards writers : nat) : PriceCache :=
  {| cached_price := cached_price c; read_guards := guards; waiting_writers := writers |}.

(** [cached_price.read().await] and the end of the guard's scope. *)
Definition read_lock : PM (option CachedPrice) := fun _ w =>
  let c := cache w in
  if (0 <? waiting_writers c)%nat then (Err Blocked, w)
  else (Ok (cached_price c), with_cache w (set_guards c (S (read_guards c)) (waiting_writers c))).

Definition read_unlock : PM unit :=
  pmodify (fun w => let c := cache w in
    with_cache w (set_guards c (pred (read_guards c)) (waiting_writers c))).

(** [*cached_price.write().await = v] *)
Definition write_price (v : CachedPrice) : PM unit := fun _ w =>
  let c := cache w in
  if (0 <? read_guards c)%nat || (0 <? waiting_writers c)%nat
  then (Err Blocked, with_cache w (set_guards c (read_guards c) (S (waiting_writers c))))
  else (Ok tt, with_cache w {| cached_price := Some v; read_guards := read_guards c;
                               waiting_writers := waiting_writers c |}).

Definition fetch_price_from_api : PM bd :=
  n ← pnext;
  answer ← pask (fun env => api_answer env n);
  match answer with
  | None => pfail PriceUnavailable
  | Some usd =>
      match bd_of_string (f64_show usd) with
      | None => pfail InvalidPrice
      | Some price => if bd_is_positive price then mret price else pfail InvalidPrice
      end
  end.

(** While a task awaits the API, the background task may come to wait for the write
    lock. *)
Definition background_write : PM unit :=
  n ← pnext;
  arrives ← pask (fun env => writer_arrives env n);
  pmodify (fun w => let c := cache w in
    if arrives && (0 <? read_guards c)%nat
    then with_cache w (set_guards c (read_guards c) (S (waiting_writers c))) else w).

(** The arm without a fresh price.  The read guard taken before it lives to the end of
    the function, across the attempt to write. *)
Definition fetch_and_store : PM bd :=
  r ← ptry fetch_price_from_api;
  background_write;;
  match r with
  | Ok price =>
      t ← pnow;
      write_price {| cp_price := price; cp_timestamp := t |};;
      mret price
  | Err _ =>
      again ← read_lock;
      read_unlock;;
      match again with
      | Some c => mret (cp_price c)
      | None => pfail PriceUnavailable
      end
  end.

(** The guard [cache] goes out of scope when the function returns, with a value or an
    error. *)
Definition get_tao_usd_price (config : PriceOracleConfig) : PM bd :=
  cached ← read_lock;
  t ← pnow;
  r ← match cached with
      | Some c =>
          if negb (price_is_stale t (max_price_age config * second) c) then mret (Ok (cp_price c))
          else ptry fetch_and_store
      | None => ptry fetch_and_store
      end;
  read_unlock;;
  match r with Ok price => mret price | Err e => pfail e end.

Definition refresh_price : PM bd :=
  price ← fetch_price_from_api;
  t ← pnow;
  write_price {| cp_price := price; cp_timestamp := t |};;
  mret price.

(** One tick of the background task: a failed fetch is logged. *)
Definition oracle_tick : PM unit := ptry refresh_price;; mret tt.

Definition get_cache_status : PM (option (bd * Z)) :=
  cached ← read_lock;
  t ← pnow;
  read_unlock;;
  mret ((fun c => (cp_price c, t - cp_timestamp c)) <$> cached).

(** ** domain/price.rs *)

Record PriceConverter := { pc_config : PriceOracleConfig; pc_decimals : Z }.

(** [BigDecimal::from_str(&format!("1e{}", decimals)).unwrap()] *)
Definition planck_scale (p : PriceConverter) : option bd :=
  bd_of_string ("1e" +:+ show_int (pc_decimals p)).

Definition tao_to_credits (p : PriceConverter) (tao_dec : string) : PM string :=
  match bd_of_string tao_dec, planck_scale p with
  | Some amt, Some scale =>
      let tao := bd_div amt scale in
      tao_usd ← get_tao_usd_price (pc_config p);
      mret (clamp_precision (bd_to_string (bd_mul tao tao_usd)) 6)
  | _, _ => pfail InvalidDecimal
  end.

Definition plancks_to_credits_with_rate (p : PriceConverter) (plancks_dec tao_usd_rate : string)
    : option string :=
  amt ← bd_of_string plancks_dec;
  scale ← planck_scale p;
  tao_usd ← bd_of_string tao_usd_rate;
  Some (clamp_precision (bd_to_string (bd_mul (bd_div amt scale) tao_usd)) 6).

(** ** The monitor of deposits *)

Inductive EventFields :=
  | Named (fields : list (string * string))
  | Unnamed (fields : list string).

Record ChainEvent := { ev_pallet : string; ev_variant : string; ev_fields : option EventFields }.

(** A finalized block; the events, or one of them, may fail to decode. *)
Record Block := { block_number : Z; block_events : option (list (option ChainEvent)) }.

Definition extract_account_bytes (s : string) : option (list Z) :=
  if String.prefix "0x" s && (String.length s =? 66)%nat then hex_decode (drop_str 2 s)
  else if (String.length s =? 64)%nat then hex_decode s
  else None.

Definition extract_account_hex (s : string) : option string := to_hex <$> extract_account_bytes s.

(** The last field of a name counts; an account that does not decode clears it. *)
Definition extract_named_transfer_fields (fields : list (string * string))
    : option (string * string * string) :=
  let '(from, to, amount) :=
    fold_left (fun acc f =>
      let '(from, to, amount) := acc in
      let '(name, value) := f in
      if String.eqb name "from" then (extract_account_hex value, to, amount)
      else if String.eqb name "to" then (from, extract_account_hex value, amount)
      else if String.eqb name "amount" then (from, to, Some value)
      else acc) fields (None, None, None) in
  f ← from; t ← to; a ← amount; Some (f, t, a).

Definition extract_unnamed_transfer_fields (fields : list string)
    : option (string * string * string) :=
  match fields with
  | f0 :: f1 :: f2 :: _ =>
      from ← extract_account_hex f0; to ← extract_account_hex f1; Some (from, to, f2)
  | _ => None
  end.

Definition extract_transfer_details (ev : ChainEvent) : option (string * string * string) :=
  fields ← ev_fields ev;
  match fields with
  | Named fields => extract_named_transfer_fields fields
  | Unnamed fields => extract_unnamed_transfer_fields fields
  end.

(** [PaymentsEventHandler::new] and [refresh_known_accounts] *)
Definition refresh_known_accounts : PM unit :=
  accounts ← list_account_hexes;
  pmodify (fun w => with_known w (list_to_set accounts)).

(** The two inserts of a deposit, in one transaction. *)
Definition record_deposit (from to amount : string) (block event_index : Z) : PM unit :=
  ptransaction (fun now =>
    insert_finalized_tx now block (wrap_signed 32 event_index) to from amount;;
    enqueue_tx now to amount (transaction_id block event_index to)).

(** A failure to record is logged and the transfer skipped. *)
Definition handle_transfer (from to amount : string) (block event_index : Z) : PM unit :=
  known ← pgets known_accounts;
  if negb (bool_decide (to ∈ known)) then mret tt
  else ptry (record_deposit from to amount block event_index);; mret tt.

Definition on_block_end (block : Z) : PM unit :=
  if block mod 128 =? 0 then refresh_known_accounts else mret tt.

Definition process_event (block : Z) (e : Z * option ChainEvent) : PM unit :=
  match e.2 with
  | None => mret tt
  | Some ev =>
      if String.eqb (ev_pallet ev) "Balances" && String.eqb (ev_variant ev) "Transfer" then
        match extract_transfer_details ev with
        | Some (from, to, amount) => handle_transfer from to amount block e.1
        | None => mret tt
        end
      else mret tt
  end.

Definition enumerate {A} (l : list A) : list (Z * A) := zip (Z.of_nat <$> seq 0 (length l)) l.

Definition process_block (b : Block) : PM unit :=
  match block_events b with
  | None => mret tt
  | Some events =>
      pfor (process_event (block_number b)) (enumerate events);;
      on_block_end (block_number b)
  end.

(** [BlockchainMonitor::run] on the blocks of a subscription; a block that fails to
    arrive is skipped. *)
Definition monitor_run (blocks : list (option Block)) : PM unit :=
  pfor (fun o => match o with Some b => process_block b | None => mret tt end) blocks.

(** ** grpc/payments_service.rs *)

Record DepositAccountResponse := {
  dr_user_id : string; dr_address_ss58 : string; dr_hotkey_public : string }.

Definition create_deposit_account (user_id : string) : PM DepositAccountResponse :=
  found ← get_by_user user_id;
  match found with
  | Some a => mret {| dr_user_id := user_id; dr_address_ss58 := da_address_ss58 a;
                      dr_hotkey_public := da_hotkey_public_hex a |}
  | None =>
      n ← pnext;
      generated ← pask (fun env => wallet env n);
      match generated with
      | None => pfail WalletError
      | Some (addr, acct_hex, pub_hex, mnemonic) =>
          ct ← pask (fun env => encrypted env n mnemonic);
          match ct with
          | None => pfail EncryptionError
          | Some mnemonic_ct =>
              ptransaction (fun _ => insert_account_tx user_id addr acct_hex pub_hex mnemonic_ct);;
              mret {| dr_user_id := user_id; dr_address_ss58 := addr; dr_hotkey_public := pub_hex |}
          end
      end
  end.

Definition get_deposit_account (user_id : string) : PM (string * string * bool) :=
  found ← get_by_user user_id;
  mret (match found with
        | Some a => (user_id, da_address_ss58 a, true)
        | None => (user_id, "", false)
        end).

Record DepositRecord := {
  dp_tx_hash : string;
  dp_block_number : Z;
  dp_event_index : Z;
  dp_from_address : string;
  dp_to_address : string;
  dp_amount_plancks : string;
  dp_credited_credit_id : string;
  dp_status : string;
  dp_observed_at : string;
  dp_finalized_at : string;
  dp_credited_at : string
}.

Definition deposit_record (r : ObservedRow) : DepositRecord := {|
  dp_tx_hash := transaction_id (ow_block_number r) (ow_event_index r) (ow_to_account_hex r);
  dp_block_number := wrap 64 (ow_block_number r);
  dp_event_index := wrap 32 (ow_event_index r);
  dp_from_address := ow_from_account_hex r;
  dp_to_address := ow_to_account_hex r;
  dp_amount_plancks := ow_amount_plancks r;
  dp_credited_credit_id := ow_billing_credit_id r;
  dp_status := ow_status r;
  dp_observed_at := ow_observed_at r;
  dp_finalized_at := ow_observed_at r;
  dp_credited_at := ow_credited_at r |}.

Definition list_deposits (user_id : string) (limit offset : Z) : PM (list DepositRecord) :=
  rows ← list_by_user user_id (Z.max limit 1) offset;
  mret (deposit_record <$> rows).

(** ** processor/dispatcher.rs *)

(** [BillingClient::apply_credits] *)
Definition billing_apply (user_id credits txid : string) : PM string :=
  n ← pnext;
  ptransform (fun w =>
    match client_apply_credits n user_id credits txid (billing w) with
    | (Ok id, b) =>
        (Ok id, with_billing w b (confirmed w ++ [{|
           cr_user_id := user_id; cr_credits := credits; cr_transaction_id := txid;
           cr_credit_id := id |}]))
    | (Err e, b) => (Err (BillingRefused e), with_billing w b (confirmed w))
    end).

(** After a credit: both marks in one transaction; if they fail, try again later. *)
Definition settle (r : OutboxRow) (credit_id : string) : PM unit :=
  marked ← ptry (ptransaction (fun now =>
    mark_dispatched_tx now (or_id r);;
    mark_credited_tx now (or_transaction_id r) credit_id));
  match marked with
  | Ok _ => mret tt
  | Err _ => ptry (backoff (or_id r) (backoff_secs (or_attempts r)));; mret tt
  end.

Definition dispatch_row (p : PriceConverter) (r : OutboxRow) : PM unit :=
  credits ← ptry (tao_to_credits p (or_amount_plancks r));
  match credits with
  | Err _ => ptry (backoff (or_id r) (backoff_secs (or_attempts r)));; mret tt
  | Ok credits =>
      applied ← ptry (billing_apply (or_user_id r) credits (or_transaction_id r));
      match applied with
      | Ok credit_id => settle r credit_id
      | Err _ => backoff (or_id r) (backoff_secs (or_attempts r))
      end
  end.

(** One turn of the loop; an empty batch only waits. *)
Definition dispatch_round (p : PriceConverter) : PM unit :=
  rows ← claim_batch 100;
  pfor (dispatch_row p) rows.

Fixpoint dispatcher_run (turns : nat) (p : PriceConverter) : PM unit :=
  match turns with
  | O => mret tt
  | S k => dispatch_round p;; dispatcher_run k p
  end.
End Payments.
