(* ===== verification/PaymentsFacts.v ===== *)
(** * Facts about the payments service

    Transaction identifiers are injective, truncated amounts, and which operations keep
    which relation between the worlds before and after. *)

From stdpp Require Import base gmap strings list pretty sorting.
From Stdlib Require Import Ascii ZArith QArith Qround.
From S2P Require Import Prelude.
From S2P Require Import Text.
From S2P Require Import Float64.
From S2P Require Import Collections.
From S2P Require Import PaymentsWorld.
From S2P Require Import Payments.
Local Open Scope Z_scope.

(** ** Identifiers *)

(** Text without the separator. *)
Fixpoint no_hash (s : string) : bool :=
  match s with
  | EmptyString => true
  | String c s' => negb (Ascii.eqb c "#") && no_hash s'
  end.

Lemma pretty_N_go_no_hash x s : no_hash s = true -> no_hash (pretty_N_go x s) = true.
Proof.
  revert s. induction (N.lt_wf_0 x) as [x _ IH]; intros s Hs.
  assert (x = 0 \/ 0 < x)%N as [-> | Hx] by lia; [by rewrite pretty_N_go_0|].
  rewrite pretty_N_go_step by done. apply IH; [apply N.div_lt; lia|]. cbn [no_hash].
  rewrite Hs. unfold pretty_N_char. by repeat case_match.
Qed.

Lemma pretty_N_no_hash (x : N) : no_hash (pretty x) = true.
Proof. unfold pretty, pretty_N. case_decide; [done|]. by apply pretty_N_go_no_hash. Qed.

Lemma show_int_no_hash z : no_hash (show_int z) = true.
Proof.
  unfold show_int. destruct z as [|p|p]; [done|apply (pretty_N_no_hash (Npos p))|].
  change (pretty (Z.neg p)) with (String "-" (pretty (Npos p))). cbn [no_hash].
  rewrite pretty_N_no_hash. done.
Qed.

Lemma cut_at_hash a b s t :
  no_hash a = true -> no_hash b = true ->
  a +:+ String "#" s = b +:+ String "#" t -> a = b /\ s = t.
Proof.
  revert b. induction a as [|c a IH]; intros [|c' b] Ha Hb; unfold "+:+" in *; simpl in *.
  - by intros [= ->].
  - intros [= <- _]. by rewrite Ascii.eqb_refl in Hb.
  - intros [= -> _]. by rewrite Ascii.eqb_refl in Ha.
  - intros [= <- E]. apply andb_true_iff in Ha as [_ Ha], Hb as [_ Hb].
    destruct (IH b Ha Hb E) as [-> ->]. done.
Qed.

Lemma show_int_inj z z' : show_int z = show_int z' -> z = z'.
Proof. unfold show_int. intros E. by apply (inj pretty). Qed.

Lemma transaction_id_inj b i t b' i' t' :
  transaction_id b i t = transaction_id b' i' t' -> b = b' /\ i = i' /\ t = t'.
Proof.
  unfold transaction_id. intros [= E].
  apply cut_at_hash in E as [->%show_int_inj E]; [|apply show_int_no_hash..].
  injection E as E. apply cut_at_hash in E as [->%show_int_inj ->]; [done|apply show_int_no_hash..].
Qed.

(** ** Truncated amounts *)

(** A number in plain notation, clamped, is the number rounded down. *)
Lemma clamp_precision_truncates t m s n :
  (0 < n)%nat -> parse_plain t = Some (m, s) ->
  exists m' s', parse_plain (clamp_precision t n) = Some (m', s') /\ (s' <= n)%nat /\
    m' * 10 ^ Z.of_nat (n - s') = truncate_Q n (decimal_Q m s).
Proof.
  intros Hn Hp. pose proof (parse_plain_inv _ _ _ Hp) as Hi. unfold clamp_precision.
  destruct (split_once "." t) as [[a b]|] eqn:Es.
  - destruct Hi as (Ha & -> & Hs & Hd). destruct (n <? String.length b)%nat eqn:El.
    + apply Nat.ltb_lt in El. exists (m / 10 ^ Z.of_nat (String.length b - n)), n.
      rewrite (parse_plain_truncate a b m n) by (done || lia).
      split_and!; [done|lia|]. rewrite truncate_long by lia.
      rewrite Nat.sub_diag. lia.
    + apply Nat.ltb_ge in El. exists m, (String.length b). split_and!; [done|lia|].
      by rewrite truncate_short by lia.
  - destruct Hi as [-> _]. exists m, O. split_and!; [done|lia|]. by rewrite truncate_short by lia.
Qed.

(** ** Programs that keep a relation between the worlds before and after *)

Section Keeps.
Context `{HashOrder} `{BigDecimal} `{BillingClient} `{PaymentsText}.

Definition pkeeps (R : PaymentsWorld -> PaymentsWorld -> Prop) {A} (m : PM A) : Prop :=
  forall env w, R w (m env w).2.

Context (R : PaymentsWorld -> PaymentsWorld -> Prop) `{!PreOrder R}.

Lemma pkeeps_ret {A} (a : A) : pkeeps R (mret a).
Proof. intros env w. simpl. reflexivity. Qed.

Lemma pkeeps_fail {A} e : pkeeps R (pfail e : PM A).
Proof. intros env w. simpl. reflexivity. Qed.

Lemma pkeeps_bind {A B} (m : PM A) (k : A -> PM B) :
  pkeeps R m -> (forall a, pkeeps R (k a)) -> pkeeps R (m ≫= k).
Proof.
  intros Hm Hk env w. specialize (Hm env w). unfold mbind, PM_bind.
  destruct (m env w) as [[a | e] w']; simpl in *; [|done].
  etrans; [done|apply Hk].
Qed.

Lemma pkeeps_try {A} (m : PM A) : pkeeps R m -> pkeeps R (ptry m).
Proof.
  intros Hm env w. specialize (Hm env w). unfold ptry.
  destruct (m env w) as [[a | e] w']; simpl in *; [done|]. by destruct e.
Qed.

Lemma pkeeps_for {A} (f : A -> PM unit) l : (forall x, x ∈ l -> pkeeps R (f x)) -> pkeeps R (pfor f l).
Proof.
  induction l as [|x l IH]; intros Hf; simpl; [apply pkeeps_ret|].
  apply pkeeps_bind; [apply Hf; left|]. intros _. apply IH. intros y Hy. apply Hf. by right.
Qed.
End Keeps.

Ltac pkeeps_step :=
  match goal with
  | |- pkeeps _ (mret _) => apply pkeeps_ret, _
  | |- pkeeps _ (pfail _) => apply pkeeps_fail, _
  | |- pkeeps _ (_ ≫= _) => apply pkeeps_bind; [apply _| |intros]
  | |- pkeeps _ (ptry _) => apply pkeeps_try
  | |- pkeeps _ (match ?x with _ => _ end) => destruct x
  | |- pkeeps _ _ => solve [eauto with pkeeps typeclass_instances]
  end.
Ltac pkeeps_tac := repeat pkeeps_step.
Create HintDb pkeeps.

(** ** Relations on the tables and the confirmed credits *)

Section Relations.
Context `{HashOrder} `{BigDecimal} `{BillingClient} `{PaymentsText}.

(** A relation between worlds that only concerns the tables and the confirmed credits:
    the rest may change, and the outbox sequence may move on. *)
Class WorldRelation (R : PaymentsWorld -> PaymentsWorld -> Prop) := {
  world_preorder :: PreOrder R;
  world_frame w w' : p_db w' = p_db w -> confirmed w' = confirmed w ->
    outbox_sequence w <= outbox_sequence w' -> R w w'
}.

Definition credits_kept (w w' : PaymentsWorld) : Prop :=
  confirmed w' = confirmed w /\ outbox_sequence w <= outbox_sequence w'.

#[export] Instance credits_kept_relation : WorldRelation credits_kept.
Proof.
  split; [split|by split].
  - intros w. split; [done|lia].
  - intros w1 w2 w3 [? ?] [? ?]. split; [congruence|lia].
Qed.

Section Keeping.
Context (R : PaymentsWorld -> PaymentsWorld -> Prop) `{!WorldRelation R}.
Notation K := (pkeeps R).

Lemma keeps_pure {A} (m : PM A) :
  (forall env w, p_db (m env w).2 = p_db w /\ confirmed (m env w).2 = confirmed w /\
                 outbox_sequence (m env w).2 = outbox_sequence w) -> K m.
Proof. intros Hm env w. destruct (Hm env w) as (? & ? & E). apply world_frame; [done..|lia]. Qed.

Lemma keeps_next : K pnext.
Proof. by apply keeps_pure. Qed.
Lemma keeps_ask {A} (f : PaymentsEnv -> A) : K (pask f).
Proof. by apply keeps_pure. Qed.
Lemma keeps_gets {A} (f : PaymentsWorld -> A) : K (pgets f).
Proof. by apply keeps_pure. Qed.
Lemma keeps_known k : K (pmodify (fun w => with_known w k)).
Proof. by apply keeps_pure. Qed.
Lemma keeps_nextval : K pnextval.
Proof. intros env w. apply world_frame; [done..|simpl; lia]. Qed.
Lemma pkeeps_now : K pnow.
Proof. by apply keeps_pure. Qed.

Lemma keeps_read_lock : K read_lock.
Proof. apply keeps_pure. intros env w. unfold read_lock. by case_match. Qed.
Lemma keeps_read_unlock : K read_unlock.
Proof. by apply keeps_pure. Qed.
Lemma keeps_write_price v : K (write_price v).
Proof. apply keeps_pure. intros env w. unfold write_price. by case_match. Qed.
Lemma keeps_background_write : K background_write.
Proof.
  apply keeps_pure. intros env w. unfold background_write, pmodify, mbind, PM_bind. simpl.
  by case_match.
Qed.

Lemma keeps_statement {A} (f : PaymentsDb -> option (A * PaymentsDb)) :
  (forall w a d, f (p_db w) = Some (a, d) -> R w (with_p_db w d)) -> K (pstatement f).
Proof.
  intros Hf env w. unfold pstatement, pnext, pask, pfail, ptransform, mbind, PM_bind.
  simpl. destruct (p_sql_fails env (p_steps w)); simpl; [by apply world_frame|].
  destruct (f (p_db w)) as [[a d]|] eqn:E; simpl; [|by apply world_frame].
  etrans; [by eapply Hf|]. by apply world_frame.
Qed.

Lemma keeps_query {A} (f : PaymentsDb -> A) : K (pquery f).
Proof. apply keeps_statement. intros w a d [= _ <-]. by apply world_frame. Qed.

(** The parts of a transaction around its body. *)
Lemma keeps_around {A} (body : Z -> PM A) :
  (forall t, K (body t)) ->
  K (pquery (fun _ => tt);; t ← pnow; a ← body t; pquery (fun _ => a)).
Proof.
  intros Hb. apply pkeeps_bind; [apply _|apply keeps_query|]. intros _.
  apply pkeeps_bind; [apply _|apply pkeeps_now|]. intros t.
  apply pkeeps_bind; [apply _|apply Hb|]. intros a. apply keeps_query.
Qed.

Lemma keeps_billing_apply u c t :
  (forall w b id, R w (with_billing w b (confirmed w ++ [{|
     cr_user_id := u; cr_credits := c; cr_transaction_id := t; cr_credit_id := id |}]))) ->
  K (billing_apply u c t).
Proof.
  intros Hb env w. unfold billing_apply, ptransform, mbind, PM_bind. simpl.
  destruct (client_apply_credits _ _ _ _ _) as [[id | e] b]; simpl; [|by apply world_frame].
  transitivity (with_p_steps w (S (p_steps w))); [by apply world_frame|].
  apply (Hb (with_p_steps w (S (p_steps w)))).
Qed.
End Keeping.

Lemma pkeeps_ptransaction R `{!WorldRelation R} {A} (body : Z -> PM A) :
  (forall t, pkeeps R (body t)) -> (forall t, pkeeps credits_kept (body t)) ->
  pkeeps R (ptransaction body).
Proof.
  intros Hb Hc env w. pose proof (keeps_around R body Hb env w) as Hr.
  pose proof (keeps_around credits_kept body Hc env w) as Hk. unfold ptransaction.
  match type of Hr with R _ (snd ?r) => destruct r as [[a | e] w'] end; [exact Hr|].
  destruct Hk. by apply world_frame.
Qed.
End Relations.

#[export] Hint Resolve keeps_next keeps_ask keeps_gets keeps_nextval keeps_known pkeeps_now
  keeps_read_lock keeps_read_unlock keeps_write_price keeps_background_write
  keeps_query : pkeeps.

Section Programs.
Context `{HashOrder} `{BigDecimal} `{BillingClient} `{PaymentsText}.
Context (R : PaymentsWorld -> PaymentsWorld -> Prop) `{!WorldRelation R}.
Notation K := (pkeeps R).

Lemma keeps_fetch : K fetch_price_from_api.
Proof. unfold fetch_price_from_api. pkeeps_tac. Qed.
#[local] Hint Resolve keeps_fetch : pkeeps.

Lemma keeps_fetch_and_store : K fetch_and_store.
Proof. unfold fetch_and_store. pkeeps_tac. Qed.
#[local] Hint Resolve keeps_fetch_and_store : pkeeps.

Lemma keeps_get_price c : K (get_tao_usd_price c).
Proof. unfold get_tao_usd_price. pkeeps_tac. Qed.
#[local] Hint Resolve keeps_get_price : pkeeps.

Lemma keeps_oracle_tick : K oracle_tick.
Proof. unfold oracle_tick, refresh_price. pkeeps_tac. Qed.

Lemma keeps_tao_to_credits p t : K (tao_to_credits p t).
Proof. unfold tao_to_credits. pkeeps_tac. Qed.

Lemma keeps_refresh : K refresh_known_accounts.
Proof. unfold refresh_known_accounts, list_account_hexes. pkeeps_tac. Qed.
End Programs.

#[export] Hint Resolve keeps_tao_to_credits keeps_refresh keeps_oracle_tick : pkeeps.

(** The bodies of the transactions leave the confirmed credits alone. *)
Lemma credits_kept_statement `{BigDecimal} `{BillingClient} {A}
    (f : PaymentsDb -> option (A * PaymentsDb)) :
  pkeeps credits_kept (pstatement f).
Proof. apply keeps_statement; [apply _|]. intros w a d _. by split; [|simpl; lia]. Qed.
#[export] Hint Resolve credits_kept_statement : pkeeps.
