(* ===== verification/DepositInvariant.v ===== *)
(** * Deposits and the outbox

    The invariant of the payments tables: the outbox and the observed deposits agree
    entry by entry, and with the chain.  Every operation keeps it, under any failing
    statements. *)

From stdpp Require Import base gmap strings list sorting.
From Stdlib Require Import ZArith.
From S2P Require Import Prelude.
From S2P Require Import Text.
From S2P Require Import Float64.
From S2P Require Import Collections.
From S2P Require Import PaymentsWorld.
From S2P Require Import Payments.
From S2P Require Import PaymentsFacts.
Local Open Scope Z_scope.

(** ** Accounts *)

(** No two users share an account. *)
Definition accounts_ok (d : PaymentsDb) : Prop :=
  forall u u' a a', deposit_accounts d !! u = Some a -> deposit_accounts d !! u' = Some a' ->
    da_account_id_hex a = da_account_id_hex a' -> u = u'.

(** The user owns the account. *)
Definition owns (d : PaymentsDb) (user hex : string) : Prop :=
  exists a, deposit_accounts d !! user = Some a /\ da_account_id_hex a = hex.

Lemma account_user_owns d hex u : account_user d hex = Some u -> owns d u hex.
Proof.
  unfold account_user. destruct (List.find _ _) as [[u' a]|] eqn:E; [|done].
  apply List.find_some in E as [Hin E]. simpl. intros [= <-].
  apply list_elem_of_In, elem_of_map_to_list in Hin. apply String.eqb_eq in E. by exists a.
Qed.

Lemma owns_unique d u u' hex : accounts_ok d -> owns d u hex -> owns d u' hex -> u = u'.
Proof. intros Hd (a & Ha & E) (a' & Ha' & E'). eapply Hd; [done..|congruence]. Qed.

Lemma account_user_some d hex u : owns d u hex -> is_Some (account_user d hex).
Proof.
  intros (a & Ha & E). unfold account_user.
  destruct (List.find _ _) as [x|] eqn:Ef; [by eexists|]. exfalso.
  eapply List.find_none in Ef; [|by apply list_elem_of_In, elem_of_map_to_list].
  simpl in Ef. by rewrite E, String.eqb_refl in Ef.
Qed.

Lemma insert_account_inv u addr hex pub ct d x d' :
  insert_account u addr hex pub ct d = Some (x, d') ->
  observed_deposits d' = observed_deposits d /\ billing_outbox d' = billing_outbox d /\
  (forall u' h, owns d u' h -> owns d' u' h) /\ (accounts_ok d -> accounts_ok d').
Proof.
  unfold insert_account. destruct (deposit_accounts d !! u) as [?|] eqn:Eu; [done|]. simpl.
  destruct (existsb _ _) eqn:Ex; [done|]. intros [= <- <-].
  assert (Hnew : forall u' a, deposit_accounts d !! u' = Some a -> da_account_id_hex a <> hex).
  { intros u' a Ha E. apply not_true_iff_false in Ex. apply Ex. apply existsb_exists. exists a.
    rewrite E, String.eqb_refl, orb_true_r. split; [|done].
    apply list_elem_of_In, list_elem_of_fmap. exists (u', a). by rewrite elem_of_map_to_list. }
  split_and!; [done..| |].
  - intros u' h (a & Ha & E). exists a. split; [|done]. simpl.
    rewrite lookup_insert_ne; congruence.
  - intros Hd u1 u2 a1 a2. simpl. rewrite !lookup_insert. repeat case_decide; subst; simpl; [done|..].
    + intros [= <-] H2 E. simpl in E. by destruct (Hnew _ _ H2).
    + intros H1 [= <-] E. simpl in E. by destruct (Hnew _ _ H1).
    + apply Hd.
Qed.

(** ** Runs of statements and transactions *)

Section Runs.
Context `{HashOrder} `{BigDecimal} `{BillingClient} `{PaymentsText}.

Lemma pbind_Ok {A B} (m : PM A) (k : A -> PM B) env w b w' :
  (m ≫= k) env w = (Ok b, w') -> exists a w1, m env w = (Ok a, w1) /\ k a env w1 = (Ok b, w').
Proof. unfold mbind, PM_bind. destruct (m env w) as [[a | e] w1]; [eauto|done]. Qed.

(** The parts of the world a statement leaves alone. *)
Definition frame (w w' : PaymentsWorld) : Prop :=
  outbox_sequence w' = outbox_sequence w /\ billing w' = billing w /\ confirmed w' = confirmed w.

Lemma pstatement_Ok {A} (f : PaymentsDb -> option (A * PaymentsDb)) env w a w' :
  pstatement f env w = (Ok a, w') -> f (p_db w) = Some (a, p_db w') /\ frame w w'.
Proof.
  unfold pstatement, pnext, pask, pfail, ptransform, mbind, PM_bind. simpl.
  destruct (p_sql_fails env (p_steps w)); [done|]. simpl.
  destruct (f (p_db w)) as [[x d]|]; [|done]. by intros [= <- <-].
Qed.

Lemma pquery_Ok {A} (f : PaymentsDb -> A) env w a w' :
  pquery f env w = (Ok a, w') -> a = f (p_db w) /\ p_db w' = p_db w /\ frame w w'.
Proof. intros (E & ?)%pstatement_Ok. injection E as -> ->. done. Qed.

Lemma pnow_Ok env w t w' : pnow env w = (Ok t, w') -> p_db w' = p_db w /\ frame w w'.
Proof. unfold pnow, pnext, pask, mbind, PM_bind. simpl. by intros [= <- <-]. Qed.

(** A transaction leaves no trace in the tables, or commits what its body did. *)
Lemma ptransaction_run {A} (body : Z -> PM A) env w :
  let '(r, w') := ptransaction body env w in
  match r with
  | Err _ => p_db w' = p_db w
  | Ok a => exists t w1 w2, body t env w1 = (Ok a, w2) /\ p_db w1 = p_db w /\ frame w w1 /\
      p_db w' = p_db w2 /\ frame w2 w'
  end.
Proof.
  unfold ptransaction.
  match goal with |- context [match ?m env w with _ => _ end] =>
    destruct (m env w) as [[a | e] w'] eqn:E end; [|done].
  apply pbind_Ok in E as (? & w1 & (_ & E1 & F1)%pquery_Ok & E).
  apply pbind_Ok in E as (t & w2 & (E2 & F2)%pnow_Ok & E).
  apply pbind_Ok in E as (a' & w3 & Eb & (-> & E3 & F3)%pquery_Ok).
  exists t, w2, w3. split_and!; try congruence.
  destruct F1 as (? & ? & ?), F2 as (? & ? & ?). unfold frame. split_and!; congruence.
Qed.
End Runs.

(** ** The invariant *)

Section Invariant.
Context `{PaymentsText}.
(** The events of each finalized block. *)
Context (chain : Z -> list (option ChainEvent)).

(** The transfer at an index of a block. *)
Definition transfer_of (e : option ChainEvent) : option (string * string * string) :=
  ev ← e;
  if String.eqb (ev_pallet ev) "Balances" && String.eqb (ev_variant ev) "Transfer"
  then extract_transfer_details ev else None.

Definition transfer_at (b i : Z) : option (string * string * string) :=
  e ← chain b !! Z.to_nat i; transfer_of e.

(** The deposit is the transfer of the chain. *)
Definition on_chain (b i : Z) (o : observed_deposit) : Prop :=
  exists amount,
    transfer_at b i = Some (od_from_account_hex o, od_to_account_hex o, amount) /\
    numeric_of_text amount = Some (od_amount_plancks o).

(** The outbox entry is for the deposit, and dispatched exactly if it is credited. *)
Definition entry_for (d : PaymentsDb) (b i : Z) (o : observed_deposit) (e : outbox_entry) : Prop :=
  ob_transaction_id e = transaction_id b i (od_to_account_hex o) /\
  ob_amount_plancks e = od_amount_plancks o /\
  owns d (ob_user_id e) (od_to_account_hex o) /\
  (od_status o = "CREDITED" <-> is_Some (ob_dispatched_at e)).

Record deposits_ok (d : PaymentsDb) (sequence : Z) : Prop := {
  ok_accounts : accounts_ok d;
  ok_observed b i o : observed_deposits d !! (b, i) = Some o ->
    on_chain b i o /\ exists id e, billing_outbox d !! id = Some e /\ entry_for d b i o e;
  ok_outbox id e : billing_outbox d !! id = Some e ->
    id < sequence /\ exists b i o, observed_deposits d !! (b, i) = Some o /\ entry_for d b i o e;
  ok_unique id id' e e' : billing_outbox d !! id = Some e -> billing_outbox d !! id' = Some e' ->
    ob_transaction_id e = ob_transaction_id e' -> id = id'
}.

Lemma empty_ok s : deposits_ok empty_payments_db s.
Proof. by split. Qed.

(** The entry of a deposit and the deposit of an entry determine each other. *)
Lemma entry_for_unique d b i o b' i' o' e :
  entry_for d b i o e -> entry_for d b' i' o' e -> b = b' /\ i = i'.
Proof. intros (E & _) (E' & _). rewrite E in E'. by apply transaction_id_inj in E' as (-> & -> & _). Qed.

(** ** Changes that keep it *)

(** Same identity, not dispatched by the change. *)
Definition touched (e e' : outbox_entry) : Prop :=
  ob_user_id e' = ob_user_id e /\ ob_amount_plancks e' = ob_amount_plancks e /\
  ob_transaction_id e' = ob_transaction_id e /\ ob_dispatched_at e' = ob_dispatched_at e.

Definition touch (d d' : PaymentsDb) : Prop :=
  deposit_accounts d' = deposit_accounts d /\ observed_deposits d' = observed_deposits d /\
  forall id, option_Forall2 touched (billing_outbox d !! id) (billing_outbox d' !! id).

Lemma touched_entry_for d d' b i o e e' :
  deposit_accounts d' = deposit_accounts d -> touched e e' ->
  entry_for d b i o e -> entry_for d' b i o e'.
Proof.
  intros Ha (Eu & Em & Et & Ed) (H1 & H2 & H3 & H4).
  unfold entry_for, owns in *. rewrite Eu, Em, Et, Ed, Ha. done.
Qed.

Lemma touch_lookup d d' id e' :
  touch d d' -> billing_outbox d' !! id = Some e' ->
  exists e, billing_outbox d !! id = Some e /\ touched e e'.
Proof. intros (_ & _ & Ho) E. specialize (Ho id). rewrite E in Ho. inversion Ho. eauto. Qed.

Lemma touch_lookup' d d' id e :
  touch d d' -> billing_outbox d !! id = Some e ->
  exists e', billing_outbox d' !! id = Some e' /\ touched e e'.
Proof. intros (_ & _ & Ho) E. specialize (Ho id). rewrite E in Ho. inversion Ho. eauto. Qed.

Lemma touch_ok d d' s : touch d d' -> deposits_ok d s -> deposits_ok d' s.
Proof.
  intros Ht [H1 H2 H3 H4]. pose proof Ht as (Ea & Eo & _). split.
  - intros u u' a a'. rewrite Ea. apply H1.
  - intros b i o Ho. rewrite Eo in Ho. destruct (H2 b i o Ho) as [Hc (id & e & He & Hf)].
    split; [done|]. destruct (touch_lookup' d d' id e Ht He) as (e' & He' & Hte).
    exists id, e'. split; [done|]. by eapply touched_entry_for.
  - intros id e' He'. destruct (touch_lookup d d' id e' Ht He') as (e & He & Hte).
    destruct (H3 id e He) as [Hs (b & i & o & Ho & Hf)]. split; [done|].
    exists b, i, o. rewrite Eo. split; [done|]. by eapply touched_entry_for.
  - intros id id' e e' He He'.
    destruct (touch_lookup d d' id e Ht He) as (e1 & He1 & _ & _ & E1 & _).
    destruct (touch_lookup d d' id' e' Ht He') as (e2 & He2 & _ & _ & E2 & _).
    rewrite E1, E2. by apply H4.
Qed.

Lemma alter_touch f id d :
  (forall e, touched e (f e)) -> touch d (set_outbox (alter f id (billing_outbox d)) d).
Proof.
  intros Hf. split_and!; [done..|]. intros id'. simpl. rewrite lookup_alter.
  case_decide; subst; destruct (billing_outbox d !! _); simpl; constructor; done.
Qed.

Lemma sequence_ok d s s' : s <= s' -> deposits_ok d s -> deposits_ok d s'.
Proof.
  intros Hs [H1 H2 H3 H4]. split; [done..| |done].
  intros id e He. destruct (H3 id e He) as [? ?]. split; [lia|done].
Qed.

Lemma accounts_extend_ok d d' s :
  observed_deposits d' = observed_deposits d -> billing_outbox d' = billing_outbox d ->
  (forall u h, owns d u h -> owns d' u h) -> (accounts_ok d -> accounts_ok d') ->
  deposits_ok d s -> deposits_ok d' s.
Proof.
  intros Eo Eb Hown Hacc [H1 H2 H3 H4].
  assert (Hf : forall b i o e, entry_for d b i o e -> entry_for d' b i o e).
  { intros b i o e (? & ? & ? & ?). split_and!; auto. }
  split; rewrite ?Eo, ?Eb; [auto|..|done].
  - intros b i o Ho. destruct (H2 b i o Ho) as [? (id & e & ? & ?)].
    split; [done|]. exists id, e. auto.
  - intros id e He. destruct (H3 id e He) as [? (b & i & o & ? & ?)].
    split; [done|]. exists b, i, o. auto.
Qed.

(** ** Recording a deposit *)

Definition new_deposit (now plancks : Z) (from to : string) : observed_deposit := {|
  od_to_account_hex := to; od_from_account_hex := from; od_amount_plancks := plancks;
  od_status := "FINALIZED"; od_observed_at := now; od_credited_at := None;
  od_billing_credit_id := None |}.

Definition new_entry (now plancks : Z) (user txid : string) : outbox_entry := {|
  ob_user_id := user; ob_amount_plancks := plancks; ob_transaction_id := txid; ob_attempts := 0;
  ob_claimed_at := None; ob_next_attempt_at := now; ob_created_at := now;
  ob_dispatched_at := None |}.

Definition with_deposit (b i s now plancks : Z) (from to user : string) (d : PaymentsDb)
    : PaymentsDb :=
  set_outbox (<[s := new_entry now plancks user (transaction_id b i to)]> (billing_outbox d))
    (set_observed (<[(b, i) := new_deposit now plancks from to]> (observed_deposits d)) d).

(** No entry carries the identifier of a deposit that was not observed. *)
Lemma fresh_transaction d s b i to id e :
  deposits_ok d s -> observed_deposits d !! (b, i) = None ->
  billing_outbox d !! id = Some e -> ob_transaction_id e <> transaction_id b i to.
Proof.
  intros Hok Ho He E. destruct (ok_outbox _ _ Hok id e He) as (_ & b' & i' & o & Ho' & Ef & _).
  rewrite E in Ef. apply transaction_id_inj in Ef as (-> & -> & _). congruence.
Qed.

Lemma with_deposit_ok d s now b i from to amount plancks u :
  transfer_at b i = Some (from, to, amount) -> numeric_of_text amount = Some plancks ->
  observed_deposits d !! (b, i) = None -> owns d u to ->
  deposits_ok d s -> deposits_ok (with_deposit b i s now plancks from to u d) (s + 1).
Proof.
  intros Hc En Eo Hu Hok. pose proof Hok as [H1 H2 H3 H4].
  assert (Hs : billing_outbox d !! s = None).
  { destruct (billing_outbox d !! s) eqn:E; [|done]. destruct (H3 _ _ E). lia. }
  assert (Hnew : entry_for (with_deposit b i s now plancks from to u d) b i
                   (new_deposit now plancks from to) (new_entry now plancks u (transaction_id b i to))).
  { split_and!; [done..|]. split; [done|]. by intros [? ?]. }
  split; [done|..]; simpl.
  - intros b' i' o. destruct (decide ((b, i) = (b', i'))) as [[= <- <-] | Hne].
    + rewrite lookup_insert_eq. intros [= <-]. split; [by exists amount|].
      exists s, (new_entry now plancks u (transaction_id b i to)). by rewrite lookup_insert_eq.
    + rewrite lookup_insert_ne by done. intros Ho.
      destruct (H2 b' i' o Ho) as [? (id & e & He & Hf)]. split; [done|].
      exists id, e. rewrite lookup_insert_ne by congruence. done.
  - intros id e. destruct (decide (s = id)) as [<- | Hne].
    + rewrite lookup_insert_eq. intros [= <-]. split; [lia|].
      exists b, i, (new_deposit now plancks from to). by rewrite lookup_insert_eq.
    + rewrite lookup_insert_ne by done. intros He.
      destruct (H3 id e He) as [? (b' & i' & o & Ho & Hf)]. split; [lia|].
      exists b', i', o. rewrite lookup_insert_ne by congruence. done.
  - intros id id' e e'. rewrite !lookup_insert. repeat case_decide; subst; [done|..].
    + intros [= <-] He' E. by destruct (fresh_transaction d _ b i to id' e' Hok Eo He').
    + intros He [= <-] E. by destruct (fresh_transaction d _ b i to id e Hok Eo He).
    + apply H4.
Qed.

(** What the two inserts of a transfer of the chain add: nothing when it was seen
    before, else the deposit and its entry. *)
Lemma record_result d d1 d2 s now b i from to amount x y :
  transfer_at b i = Some (from, to, amount) ->
  insert_finalized now b i to from amount d = Some (x, d1) ->
  enqueue s now to amount (transaction_id b i to) d1 = Some (y, d2) ->
  deposits_ok d s ->
  d2 = d \/ exists plancks u, d2 = with_deposit b i s now plancks from to u d /\
    numeric_of_text amount = Some plancks /\ observed_deposits d !! (b, i) = None /\ owns d u to.
Proof.
  intros Hc. unfold insert_finalized. destruct (numeric_of_text amount) as [plancks|] eqn:En; [|done].
  simpl. destruct (observed_deposits d !! (b, i)) as [o|] eqn:Eo.
  - (* seen before: its entry is in the outbox *)
    intros [= _ <-] He Hok. left.
    destruct (ok_observed _ _ Hok b i o Eo) as [(a' & Ht & _) (id & e & Hid & Hf)].
    rewrite Hc in Ht. injection Ht as -> Eto _.
    revert He. unfold enqueue. destruct (account_user d to); [|by intros [= _ <-]].
    rewrite En. simpl. destruct (existsb _ _) eqn:Ex; [by intros [= _ <-]|]. exfalso.
    apply not_true_iff_false in Ex. apply Ex, existsb_exists. exists e. split.
    + apply list_elem_of_In, list_elem_of_fmap. exists (id, e). by rewrite elem_of_map_to_list.
    + destruct Hf as (-> & _). rewrite Eto. apply String.eqb_refl.
  - destruct (account_user d to) as [u|] eqn:Eu; [|done]. simpl. intros [= _ <-].
    unfold enqueue. change (account_user (set_observed _ d) to) with (account_user d to).
    rewrite Eu, En. simpl. intros He Hok. apply account_user_owns in Eu.
    right. exists plancks, u. split_and!; [|done..].
    destruct (existsb _ _) eqn:Ex; [|by injection He]. exfalso.
    apply existsb_exists in Ex as (e & He' & Et). apply String.eqb_eq in Et.
    apply list_elem_of_In, list_elem_of_fmap in He' as ([id e'] & -> & He').
    apply elem_of_map_to_list in He'. by eapply fresh_transaction.
Qed.

(** ** Settling an entry *)

Definition settled (now id : Z) (txid credit_id : string) (d : PaymentsDb) : PaymentsDb :=
  mark_credited now txid credit_id (set_outbox (alter (dispatched now) id (billing_outbox d)) d).

Lemma settled_observed now id txid c d b i :
  observed_deposits (settled now id txid c d) !! (b, i) =
    (fun o => if String.eqb (transaction_id b i (od_to_account_hex o)) txid
              then credited now c o else o) <$> observed_deposits d !! (b, i).
Proof.
  simpl. rewrite map_lookup_imap. simpl. by destruct (observed_deposits d !! (b, i)).
Qed.

Lemma settled_outbox now id txid c d id' :
  billing_outbox (settled now id txid c d) !! id' =
    (if decide (id = id') then dispatched now <$> billing_outbox d !! id'
     else billing_outbox d !! id').
Proof. simpl. rewrite lookup_alter. by case_decide; subst. Qed.

(** The pair of a deposit and its entry, before and after the entry [id] is settled. *)
Lemma settled_pair d s now id e txid c b i o id' e' :
  deposits_ok d s -> billing_outbox d !! id = Some e -> ob_transaction_id e = txid ->
  observed_deposits d !! (b, i) = Some o -> billing_outbox d !! id' = Some e' ->
  entry_for d b i o e' ->
  exists o' e'', observed_deposits (settled now id txid c d) !! (b, i) = Some o' /\
    billing_outbox (settled now id txid c d) !! id' = Some e'' /\
    entry_for (settled now id txid c d) b i o' e'' /\
    od_from_account_hex o' = od_from_account_hex o /\
    od_to_account_hex o' = od_to_account_hex o /\ od_amount_plancks o' = od_amount_plancks o.
Proof.
  intros Hok He Ht Ho He' (E1 & E2 & E3 & E4).
  rewrite settled_observed, settled_outbox, Ho, He'. cbn [fmap option_fmap option_map].
  destruct (decide (id = id')) as [<- | Hne].
  - replace e' with e in * by congruence. rewrite <- E1, Ht, String.eqb_refl.
    eexists _, _. split_and!; [done..|]. by split.
  - rewrite (proj2 (String.eqb_neq _ _)).
    + eexists _, _. by split_and!.
    + intros E. apply Hne. eapply (ok_unique _ _ Hok); [done..|]. congruence.
Qed.

Lemma settled_ok d s now id e txid c :
  deposits_ok d s -> billing_outbox d !! id = Some e -> ob_transaction_id e = txid ->
  deposits_ok (settled now id txid c d) s.
Proof.
  intros Hok He Ht. pose proof Hok as [H1 H2 H3 H4]. split.
  - exact H1.
  - intros b i o'. rewrite settled_observed.
    destruct (observed_deposits d !! (b, i)) as [o|] eqn:Ho; [|done]. simpl. intros Eo'.
    destruct (H2 b i o Ho) as [(a & Hc & Hn) (id' & e' & He' & Hf)].
    destruct (settled_pair d s now id e txid c b i o id' e' Hok He Ht Ho He' Hf)
      as (o2 & e2 & Ho2 & He2 & Hf2 & Ef & Eto & Ea).
    rewrite settled_observed, Ho in Ho2. simpl in Ho2.
    assert (o2 = o') as -> by congruence. split; [|by exists id', e2].
    exists a. by rewrite Ef, Eto, Ea.
  - intros id' e'' He''. rewrite settled_outbox in He''.
    assert (exists e', billing_outbox d !! id' = Some e') as [e' He'].
    { case_decide; [|eauto]. destruct (billing_outbox d !! id'); [eauto|done]. }
    destruct (H3 id' e' He') as [Hs (b & i & o & Ho & Hf)]. split; [done|].
    destruct (settled_pair d s now id e txid c b i o id' e' Hok He Ht Ho He' Hf)
      as (o2 & e2 & Ho2 & He2 & Hf2 & _).
    exists b, i, o2. split; [done|]. rewrite settled_outbox in He2. congruence.
  - intros id1 id2 e1 e2. rewrite !settled_outbox.
    assert (Hid : forall i x, (if decide (id = i) then dispatched now <$> billing_outbox d !! i
                               else billing_outbox d !! i) = Some x ->
      exists y, billing_outbox d !! i = Some y /\ ob_transaction_id y = ob_transaction_id x).
    { intros i x. case_decide; [|eauto]. destruct (billing_outbox d !! i) as [y|]; [|done].
      intros [= <-]. eauto. }
    intros (y1 & Hy1 & E1)%Hid (y2 & Hy2 & E2)%Hid E. eapply H4; [done..|congruence].
Qed.
End Invariant.

(** ** Claiming entries *)

Section Claiming.
Context `{HashOrder} `{BigDecimal} `{BillingClient} `{PaymentsText}.

Lemma foldr_update_lookup (f : outbox_entry -> outbox_entry) (l : list (Z * outbox_entry))
    (m : gmap Z outbox_entry) id :
  (forall k e, (k, e) ∈ l -> m !! k = Some e) ->
  foldr (fun e m => <[e.1 := e.2]> m) m ((fun e => (e.1, f e.2)) <$> l) !! id =
    (if decide (id ∈ l.*1) then f <$> m !! id else m !! id).
Proof.
  induction l as [|[k e] l IH]; intros Hl.
  { rewrite decide_False; [done|]. apply not_elem_of_nil. }
  rewrite !fmap_cons. cbn [foldr fst snd].
  rewrite lookup_insert, IH by (intros k' e' Hin; apply Hl; by right).
  destruct (decide (k = id)) as [-> | Hne].
  - rewrite decide_True by left. by rewrite (Hl id e) by left.
  - destruct (decide (id ∈ l.*1)) as [Hin | Hin].
    + by rewrite decide_True by (by right).
    + rewrite decide_False; [done|]. intros [-> | ?]%elem_of_cons; done.
Qed.

Lemma elem_of_claim_candidates now limit d id e :
  (id, e) ∈ claim_candidates now limit d ->
  billing_outbox d !! id = Some e /\ claimable now e = true.
Proof.
  unfold claim_candidates. intros Hin.
  assert ((id, e) ∈ sort_by (fun a b : Z * outbox_entry => a.1 <=? b.1)
    (List.filter (fun e => claimable now e.2) (map_to_list (billing_outbox d)))) as Hs.
  { by apply (subseteq_take (Z.to_nat limit)). }
  apply elem_of_sort_by, list_elem_of_In, List.filter_In in Hs as [Hin' Hc].
  by apply list_elem_of_In, elem_of_map_to_list in Hin'.
Qed.

Lemma claim_rows_inv n now limit d rows d' :
  claim_rows n now limit d = Some (rows, d') ->
  touch d d' /\
  forall r, r ∈ rows -> exists e, billing_outbox d' !! or_id r = Some (claim now e) /\
    billing_outbox d !! or_id r = Some e /\ claimable now e = true /\
    r = outbox_row (or_id r, claim now e).
Proof.
  unfold claim_rows. destruct (existsb _ _); [done|]. intros [= <- <-].
  assert (Hl : forall id, billing_outbox (set_outbox (foldr (fun e m => <[e.1 := e.2]> m)
      (billing_outbox d) ((fun e => (e.1, claim now e.2)) <$> claim_candidates now limit d)) d) !! id =
    (if decide (id ∈ (claim_candidates now limit d).*1) then claim now <$> billing_outbox d !! id
     else billing_outbox d !! id)).
  { intros id. apply foldr_update_lookup. intros k e Hin. by apply elem_of_claim_candidates in Hin as [? _]. }
  split.
  - split_and!; [done..|]. intros id. rewrite Hl.
    case_decide; destruct (billing_outbox d !! id); simpl; constructor; done.
  - intros r (x & -> & Hx)%list_elem_of_fmap. rewrite shuffle_Permutation in Hx.
    apply list_elem_of_fmap in Hx as ([id e] & -> & Hin). simpl. exists e. rewrite Hl.
    rewrite decide_True by (apply list_elem_of_fmap; by exists (id, e)).
    apply elem_of_claim_candidates in Hin as [-> ->]. done.
Qed.
End Claiming.

(** ** Programs *)

Section Programs.
Context `{HashOrder} `{BigDecimal} `{BillingClient} `{PaymentsText}.
Context (chain : Z -> list (option ChainEvent)).

(** The outbox still has the entries of the rows, and the invariant holds. *)
Definition row_in (d : PaymentsDb) (r : OutboxRow) : Prop :=
  exists e, billing_outbox d !! or_id r = Some e /\ ob_transaction_id e = or_transaction_id r /\
    ob_user_id e = or_user_id r /\
    bd_to_string (bd_of_numeric (ob_amount_plancks e)) = or_amount_plancks r.

Definition holds (rows : list OutboxRow) (w : PaymentsWorld) : Prop :=
  deposits_ok chain (p_db w) (outbox_sequence w) /\ forall r, r ∈ rows -> row_in (p_db w) r.

Definition keeps_holding (rows : list OutboxRow) (w w' : PaymentsWorld) : Prop :=
  holds rows w -> holds rows w'.

#[export] Instance keeps_holding_relation rows : WorldRelation (keeps_holding rows).
Proof.
  split; [split|].
  - intros w. unfold keeps_holding. done.
  - intros w1 w2 w3. unfold keeps_holding. auto.
  - intros w w' Ed _ Es [Hok Hr].
    split; rewrite Ed; [by eapply sequence_ok|done].
Qed.

Lemma row_in_touch d d' r : touch d d' -> row_in d r -> row_in d' r.
Proof.
  intros Ht (e & He & E1 & E2 & E3). destruct (touch_lookup' d d' _ e Ht He) as (e' & He' & Hte).
  destruct Hte as (Eu & Ea & Et & _). exists e'. rewrite Eu, Ea, Et. done.
Qed.

Lemma keeps_backoff rows id secs : pkeeps (keeps_holding rows) (backoff id secs).
Proof.
  unfold backoff. pkeeps_tac. apply keeps_statement; [apply _|]. intros w x d [= _ <-] [Hok Hr].
  assert (touch (p_db w) (set_outbox (alter (postponed (a + secs * second)) id
    (billing_outbox (p_db w))) (p_db w))) as Ht by by apply alter_touch.
  split; [by eapply touch_ok|]. intros r Hin. eapply row_in_touch; [done|by apply Hr].
Qed.
#[local] Hint Resolve keeps_backoff : pkeeps.

(** The transaction that settles a row. *)
Lemma settle_transaction_run r c env w :
  let '(x, w') := ptransaction (fun now =>
    mark_dispatched_tx now (or_id r);; mark_credited_tx now (or_transaction_id r) c) env w in
  confirmed w' = confirmed w /\ outbox_sequence w <= outbox_sequence w' /\
  match x with
  | Err _ => p_db w' = p_db w
  | Ok _ => exists now, p_db w' = settled now (or_id r) (or_transaction_id r) c (p_db w)
  end.
Proof.
  set (body := fun now => mark_dispatched_tx now (or_id r);; mark_credited_tx now (or_transaction_id r) c).
  assert (Hk : forall t, pkeeps credits_kept (body t)).
  { intros t. unfold body, mark_dispatched_tx, mark_credited_tx. pkeeps_tac. }
  pose proof (pkeeps_ptransaction credits_kept body Hk Hk env w) as [Hc Hs].
  pose proof (ptransaction_run body env w) as Hrun.
  destruct (ptransaction body env w) as [[u | e] w']; simpl in Hc, Hs; [|done].
  split_and!; [done..|]. destruct Hrun as (t & w1 & w2 & Eb & E1 & F1 & E2 & F2).
  apply pbind_Ok in Eb as (? & w3 & (E3 & _)%pstatement_Ok & (E4 & _)%pstatement_Ok).
  exists t. injection E3 as _ E3. injection E4 as _ E4. rewrite E2, <- E4, <- E3, E1. done.
Qed.

Lemma row_in_settled now id txid c d r : row_in d r -> row_in (settled now id txid c d) r.
Proof.
  intros (e & He & E1 & E2 & E3). unfold row_in. rewrite settled_outbox, He.
  case_decide; eexists; split_and!; done.
Qed.

Lemma keeps_settle_transaction rows r c :
  r ∈ rows -> pkeeps (keeps_holding rows) (ptransaction (fun now =>
    mark_dispatched_tx now (or_id r);; mark_credited_tx now (or_transaction_id r) c)).
Proof.
  intros Hin env w [Hok Hr]. pose proof (settle_transaction_run r c env w) as Hrun.
  destruct (ptransaction _ env w) as [[u | e] w']; destruct Hrun as (_ & Hs & Hd); simpl.
  - destruct Hd as [now Hd]. destruct (Hr r Hin) as (e & He & Et & _). unfold holds. rewrite Hd.
    split; [|intros r' Hr'; apply row_in_settled; auto].
    eapply sequence_ok; [exact Hs|]. by eapply settled_ok.
  - unfold holds. rewrite Hd. split; [by eapply sequence_ok|done].
Qed.

Lemma keeps_settle rows r c : r ∈ rows -> pkeeps (keeps_holding rows) (settle r c).
Proof. intros Hr. unfold settle. pkeeps_tac. by apply keeps_settle_transaction. Qed.

Lemma holding_billing_apply rows u c t : pkeeps (keeps_holding rows) (billing_apply u c t).
Proof. apply keeps_billing_apply; [apply _|]. intros w b id Hw. exact Hw. Qed.
#[local] Hint Resolve holding_billing_apply keeps_settle : pkeeps.

Lemma keeps_dispatch_row rows p r : r ∈ rows -> pkeeps (keeps_holding rows) (dispatch_row p r).
Proof. intros Hr. unfold dispatch_row. pkeeps_tac. Qed.

(** What a claim returns. *)
Lemma claim_batch_run limit env w :
  let '(x, w') := claim_batch limit env w in
  confirmed w' = confirmed w /\ outbox_sequence w' = outbox_sequence w /\
  match x with
  | Err _ => p_db w' = p_db w
  | Ok rows => touch (p_db w) (p_db w') /\ forall r, r ∈ rows -> row_in (p_db w') r
  end.
Proof.
  unfold claim_batch, pstatement, pnext, pask, pfail, ptransform, mbind, PM_bind. simpl.
  destruct (p_sql_fails env (S (p_steps w))); simpl; [done|].
  destruct (claim_rows _ _ _ _) as [[rows d]|] eqn:E; simpl; [|done].
  apply claim_rows_inv in E as [Ht Hr]. split_and!; [done..|]. intros r Hin.
  destruct (Hr r Hin) as (e & He & _ & _ & Er). exists (claim (p_clock env (p_steps w)) e).
  split; [done|]. rewrite Er. done.
Qed.

Lemma keeps_dispatch_round p : pkeeps (keeps_holding []) (dispatch_round p).
Proof.
  intros env w [Hok _]. unfold dispatch_round, mbind, PM_bind.
  pose proof (claim_batch_run 100 env w) as Hrun.
  destruct (claim_batch 100 env w) as [[rows | e] w1]; destruct Hrun as (_ & Hs & Hd); simpl.
  - destruct Hd as [Ht Hr]. assert (Hw1 : holds rows w1).
    { split; [|done]. rewrite Hs. by eapply touch_ok. }
    destruct (pkeeps_for (keeps_holding rows) (dispatch_row p) rows
      (fun r Hin => keeps_dispatch_row rows p r Hin) env w1 Hw1) as [? _].
    by split; [|intros r ?%elem_of_nil].
  - unfold holds. rewrite Hd, Hs. split; [done|by intros r ?%elem_of_nil].
Qed.

Lemma keeps_dispatcher_run k p : pkeeps (keeps_holding []) (dispatcher_run k p).
Proof.
  induction k as [|k IH]; simpl; [apply pkeeps_ret, _|].
  apply pkeeps_bind; [apply _|apply keeps_dispatch_round|done].
Qed.

(** ** The monitor *)

(** Recording a transfer of the chain, under any failures. *)
Lemma record_deposit_run from to amount b i env w :
  transfer_at chain b i = Some (from, to, amount) -> wrap_signed 32 i = i ->
  deposits_ok chain (p_db w) (outbox_sequence w) ->
  let w' := (record_deposit from to amount b i env w).2 in
  confirmed w' = confirmed w /\ outbox_sequence w <= outbox_sequence w' /\
  (p_db w' = p_db w \/ exists now plancks u,
    p_db w' = with_deposit b i (outbox_sequence w) now plancks from to u (p_db w) /\
    outbox_sequence w' = outbox_sequence w + 1 /\ numeric_of_text amount = Some plancks /\
    observed_deposits (p_db w) !! (b, i) = None /\ owns (p_db w) u to).
Proof.
  intros Hc Hi Hok. unfold record_deposit. rewrite Hi.
  set (body := fun now => insert_finalized_tx now b i to from amount;;
                          enqueue_tx now to amount (transaction_id b i to)).
  assert (Hk : forall t, pkeeps credits_kept (body t)).
  { intros t. unfold body, insert_finalized_tx, enqueue_tx. pkeeps_tac. }
  pose proof (pkeeps_ptransaction credits_kept body Hk Hk env w) as [Hf Hs].
  pose proof (ptransaction_run body env w) as Hrun.
  destruct (ptransaction body env w) as [[u | e] w']; simpl in *; (split_and!; [done..|]); [|by left].
  destruct Hrun as (t & w1 & w2 & Eb & E1 & (F1 & _) & E2 & (F2 & _)).
  apply pbind_Ok in Eb as (? & w3 & (E3 & F3 & _)%pstatement_Ok & Eb).
  apply pbind_Ok in Eb as (id & w4 & En & (E4 & F4 & _)%pstatement_Ok).
  injection En as <- <-. simpl in E4, F4. rewrite F3, F1 in E4. rewrite E1 in E3. rewrite E2.
  destruct (record_result chain _ _ _ _ _ _ _ _ _ _ _ _ Hc E3 E4 Hok)
    as [-> | (plancks & v & -> & ? & ? & ?)]; [by left|right].
  exists t, plancks, v. split_and!; try done. rewrite F2, F4, F3, F1. done.
Qed.

Lemma keeps_record_deposit from to amount b i :
  transfer_at chain b i = Some (from, to, amount) -> wrap_signed 32 i = i ->
  pkeeps (keeps_holding []) (record_deposit from to amount b i).
Proof.
  intros Hc Hi env w [Hok _].
  destruct (record_deposit_run from to amount b i env w Hc Hi Hok)
    as (_ & Hs & [E | (now & plancks & u & E & Es & En & Eo & Hu)]);
    (split; [rewrite E|by intros r ?%elem_of_nil]).
  - by eapply sequence_ok.
  - rewrite Es. by eapply with_deposit_ok.
Qed.

Lemma keeps_process_event b i e :
  chain b !! Z.to_nat i = Some e -> wrap_signed 32 i = i ->
  pkeeps (keeps_holding []) (process_event b (i, e)).
Proof.
  intros He Hi. unfold process_event. simpl. destruct e as [ev|]; [|apply pkeeps_ret, _].
  destruct (_ && _) eqn:Et; [|apply pkeeps_ret, _].
  destruct (extract_transfer_details ev) as [[[from to] amount]|] eqn:Ex; [|apply pkeeps_ret, _].
  unfold handle_transfer. pkeeps_tac. apply keeps_record_deposit; [|done].
  unfold transfer_at, transfer_of. rewrite He. simpl. by rewrite Et.
Qed.

(** The events of a block, within 31 bits. *)
Definition block_on_chain (b : Block) : Prop :=
  match block_events b with
  | None => True
  | Some events => chain (block_number b) = events /\ Z.of_nat (length events) <= 2 ^ 31
  end.

Lemma elem_of_enumerate {A} (l : list A) i x :
  (i, x) ∈ enumerate l -> l !! Z.to_nat i = Some x /\ 0 <= i < Z.of_nat (length l).
Proof.
  unfold enumerate. intros Hin. apply list_elem_of_lookup in Hin as [k Hk].
  apply lookup_zip_Some in Hk as [Hi Hx]. rewrite list_lookup_fmap in Hi.
  destruct (seq 0 (length l) !! k) as [j|] eqn:Ej; [|done]. apply lookup_seq in Ej as [-> Hlt].
  simpl in Hi. injection Hi as <-. rewrite Nat2Z.id. split; [done|lia].
Qed.

Lemma wrap_signed_small i : 0 <= i < 2 ^ 31 -> wrap_signed 32 i = i.
Proof.
  intros Hi. unfold wrap_signed. change (32 - 1) with 31. rewrite Z.mod_small by lia.
  by rewrite (proj2 (Z.ltb_lt _ _)) by lia.
Qed.

Lemma keeps_process_block b : block_on_chain b -> pkeeps (keeps_holding []) (process_block b).
Proof.
  unfold block_on_chain, process_block. destruct (block_events b) as [events|];
    [|intros _; apply pkeeps_ret, _]. intros [<- Hl].
  apply pkeeps_bind; [apply _| |intros _].
  - apply pkeeps_for; [apply _|]. intros [i e] [He Hi]%elem_of_enumerate.
    apply keeps_process_event; [done|]. apply wrap_signed_small. lia.
  - unfold on_block_end. pkeeps_tac.
Qed.

Lemma keeps_create_deposit_account u : pkeeps (keeps_holding []) (create_deposit_account u).
Proof.
  unfold create_deposit_account, get_by_user. pkeeps_tac.
  all: apply pkeeps_ptransaction; [apply _| |]; intros t; unfold insert_account_tx; [|pkeeps_tac].
  all: apply keeps_statement; [apply _|]; intros w x d (Eo & Eb & Ho & Ha)%insert_account_inv [Hok _].
  all: split; [by eapply accounts_extend_ok|by intros r' ?%elem_of_nil].
Qed.
End Programs.
