(* ===== verification/CreditSafety.v ===== *)
(** * Confirmed credits

    What the dispatcher asks the billing service for, and what it marks: credits are
    requested only for recorded deposits, and only confirmed credits are marked. *)

From stdpp Require Import base gmap strings list sorting.
From Stdlib Require Import ZArith.
From S2P Require Import Prelude.
From S2P Require Import Text.
From S2P Require Import Collections.
From S2P Require Import PaymentsWorld.
From S2P Require Import Payments.
From S2P Require Import PaymentsFacts.
From S2P Require Import DepositInvariant.
Local Open Scope Z_scope.

(** The credit was requested for the entry. *)
Definition credit_for (e : outbox_entry) (c : Credit) : Prop :=
  cr_transaction_id c = ob_transaction_id e /\ cr_user_id c = ob_user_id e.

Record credits_ok (d : PaymentsDb) (confirmed : list Credit) : Prop := {
  ok_dispatched id e : billing_outbox d !! id = Some e -> is_Some (ob_dispatched_at e) ->
    exists c, c ∈ confirmed /\ credit_for e c;
  ok_confirmed c : c ∈ confirmed -> exists id e, billing_outbox d !! id = Some e /\ credit_for e c;
  ok_credited b i o : observed_deposits d !! (b, i) = Some o -> od_status o = "CREDITED" ->
    exists c, c ∈ confirmed /\ cr_transaction_id c = transaction_id b i (od_to_account_hex o) /\
      od_billing_credit_id o = Some (cr_credit_id c)
}.

Lemma empty_credits_ok : credits_ok empty_payments_db [].
Proof. split; [done| |done]. by intros c ?%elem_of_nil. Qed.

(** The entry keeps its user and identifier. *)
Definition same_entry (e e' : outbox_entry) : Prop :=
  ob_transaction_id e' = ob_transaction_id e /\ ob_user_id e' = ob_user_id e.

Lemma same_entry_refl e : same_entry e e.
Proof. by split. Qed.
#[local] Hint Resolve same_entry_refl : core.

Lemma same_entry_credit e e' c : same_entry e e' -> credit_for e' c <-> credit_for e c.
Proof. intros [E1 E2]. unfold credit_for. by rewrite E1, E2. Qed.

(** Changes that dispatch and credit nothing. *)
Record no_credit (d d' : PaymentsDb) : Prop := {
  nc_dispatched id e' : billing_outbox d' !! id = Some e' -> is_Some (ob_dispatched_at e') ->
    exists e, billing_outbox d !! id = Some e /\ same_entry e e' /\ is_Some (ob_dispatched_at e);
  nc_kept id e : billing_outbox d !! id = Some e ->
    exists e', billing_outbox d' !! id = Some e' /\ same_entry e e';
  nc_credited k o : observed_deposits d' !! k = Some o -> od_status o = "CREDITED" ->
    observed_deposits d !! k = Some o
}.

Lemma no_credit_ok d d' l : no_credit d d' -> credits_ok d l -> credits_ok d' l.
Proof.
  intros [N1 N2 N3] [H1 H2 H3]. split.
  - intros id e' He' Hd. destruct (N1 id e' He' Hd) as (e & He & Hs & Hd').
    destruct (H1 id e He Hd') as (c & Hc & Hf). exists c. by rewrite (same_entry_credit e e').
  - intros c Hc. destruct (H2 c Hc) as (id & e & He & Hf). destruct (N2 id e He) as (e' & He' & Hs).
    exists id, e'. by rewrite (same_entry_credit e e').
  - intros b i o Ho Hs. apply H3; [by apply N3|done].
Qed.

Lemma touch_no_credit d d' : touch d d' -> no_credit d d'.
Proof.
  intros Ht. split.
  - intros id e' He' Hd. destruct (touch_lookup d d' id e' Ht He') as (e & He & Eu & _ & Et & Ed).
    exists e. rewrite Ed in Hd. done.
  - intros id e He. destruct (touch_lookup' d d' id e Ht He) as (e' & He' & Eu & _ & Et & _). by exists e'.
  - intros k o. destruct Ht as (_ & -> & _). done.
Qed.

Lemma same_tables_no_credit d d' :
  observed_deposits d' = observed_deposits d -> billing_outbox d' = billing_outbox d -> no_credit d d'.
Proof. intros E1 E2. split; rewrite ?E1, ?E2; eauto. Qed.

Lemma with_deposit_no_credit b i s now plancks from to u d :
  billing_outbox d !! s = None -> observed_deposits d !! (b, i) = None ->
  no_credit d (with_deposit b i s now plancks from to u d).
Proof.
  intros Hs Ho. split; simpl.
  - intros id e'. rewrite lookup_insert. case_decide; [intros [= <-] [? [=]]|]. eauto 6.
  - intros id e He. exists e. rewrite lookup_insert_ne by congruence. done.
  - intros k o. rewrite lookup_insert. case_decide; [by intros [= <-] [=]|done].
Qed.

(** Settling an entry whose credit is confirmed. *)
Lemma settled_credits_ok now id e c d l :
  credits_ok d l -> billing_outbox d !! id = Some e -> c ∈ l -> credit_for e c ->
  credits_ok (settled now id (cr_transaction_id c) (cr_credit_id c) d) l.
Proof.
  intros [H1 H2 H3] He Hc Hf. split.
  - intros id' e'. rewrite settled_outbox. case_decide as E; [subst|apply H1].
    rewrite He. intros [= <-] _. by exists c.
  - intros c' Hc'. destruct (H2 c' Hc') as (id' & e' & He' & Hf').
    exists id'. rewrite settled_outbox, He'. case_decide; eexists; split; done.
  - intros b i o'. rewrite settled_observed.
    destruct (observed_deposits d !! (b, i)) as [o|] eqn:Ho; [|done].
    cbn [fmap option_fmap option_map].
    destruct (String.eqb_spec (transaction_id b i (od_to_account_hex o)) (cr_transaction_id c)) as [E | E];
      intros [= <-]; [|by apply H3].
    intros _. exists c. split; [done|]. by split.
Qed.

Section Safety.
Context `{HashOrder} `{BigDecimal} `{BillingClient} `{PaymentsText}.
Context (chain : Z -> list (option ChainEvent)).

(** The deposit invariant, the rows at hand, the credits, and credits known to be
    confirmed. *)
Definition safe (rows : list OutboxRow) (known : list Credit) (w : PaymentsWorld) : Prop :=
  holds chain rows w /\ credits_ok (p_db w) (confirmed w) /\ forall c, c ∈ known -> c ∈ confirmed w.

Definition keeps_safe rows known (w w' : PaymentsWorld) : Prop :=
  safe rows known w -> safe rows known w'.

#[export] Instance keeps_safe_relation rows known : WorldRelation (keeps_safe rows known).
Proof.
  split; [split|].
  - intros w. unfold keeps_safe. done.
  - intros w1 w2 w3. unfold keeps_safe. auto.
  - intros w w' Ed Ec Es (Hh & Hc & Hk). split_and!; [|by rewrite Ed, Ec|by rewrite Ec].
    by apply (world_frame (R := keeps_holding chain rows) w w').
Qed.

(** A statement that keeps the deposit invariant and credits nothing. *)
Lemma safe_statement rows known {A} (f : PaymentsDb -> option (A * PaymentsDb)) :
  (forall w a d, f (p_db w) = Some (a, d) -> keeps_holding chain rows w (with_p_db w d)) ->
  (forall d a d', f d = Some (a, d') -> no_credit d d') ->
  pkeeps (keeps_safe rows known) (pstatement f).
Proof.
  intros Hf Hn. apply keeps_statement; [apply _|]. intros w a d E (Hh & Hc & Hk).
  split_and!; [by eapply Hf|by eapply no_credit_ok; [eapply Hn|]|done].
Qed.

Lemma safe_backoff rows known id secs : pkeeps (keeps_safe rows known) (backoff id secs).
Proof.
  unfold backoff. pkeeps_tac. apply safe_statement.
  - intros w x d [= _ <-] [Hok Hr].
    assert (touch (p_db w) (set_outbox (alter (postponed (a + secs * second)) id
      (billing_outbox (p_db w))) (p_db w))) as Ht by by apply alter_touch.
    split; [by eapply touch_ok|]. intros r Hin. eapply row_in_touch; [done|by apply Hr].
  - intros d x d' [= _ <-]. by apply touch_no_credit, alter_touch.
Qed.
#[local] Hint Resolve safe_backoff : pkeeps.

Lemma safe_settle rows c r :
  r ∈ rows -> cr_transaction_id c = or_transaction_id r -> cr_user_id c = or_user_id r ->
  pkeeps (keeps_safe rows [c]) (settle r (cr_credit_id c)).
Proof.
  intros Hin Et Eu. unfold settle. pkeeps_tac. intros env w (Hh & Hc & Hk).
  pose proof (keeps_settle_transaction chain rows r (cr_credit_id c) Hin env w Hh) as Hh'.
  pose proof (settle_transaction_run r (cr_credit_id c) env w) as Hrun.
  destruct (ptransaction _ env w) as [[u | e] w']; destruct Hrun as (Ec & _ & Hd); simpl in *.
  - destruct Hd as [now Hd]. split_and!; [done| |by rewrite Ec]. rewrite Hd, Ec, <- Et.
    destruct Hh as [_ Hr]. destruct (Hr r Hin) as (e & He & Et' & Eu' & _).
    eapply settled_credits_ok; [done..| |]; [by apply Hk; left|split; congruence].
  - by split_and!; [|rewrite Hd, Ec|rewrite Ec].
Qed.

Lemma safe_billing_apply rows known u c t r env w :
  r ∈ rows -> u = or_user_id r -> t = or_transaction_id r -> safe rows known w ->
  let '(x, w') := billing_apply u c t env w in
  match x with
  | Ok id => exists credit, cr_credit_id credit = id /\ cr_transaction_id credit = t /\
      cr_user_id credit = u /\ safe rows (credit :: known) w'
  | Err _ => safe rows known w'
  end.
Proof.
  intros Hin -> -> (Hh & Hc & Hk). unfold billing_apply, ptransform, mbind, PM_bind. simpl.
  destruct (client_apply_credits _ _ _ _ _) as [[id | e] b]; simpl; [|done].
  exists {| cr_user_id := or_user_id r; cr_credits := c;
            cr_transaction_id := or_transaction_id r; cr_credit_id := id |}.
  split_and!; [done..|split_and!; [exact Hh| |]].
  - destruct Hc as [C1 C2 C3]. split; simpl.
    + intros id' e' He' Hd. destruct (C1 id' e' He' Hd) as (x & Hx & Hf). exists x. split; [set_solver|done].
    + intros x [Hx | ->%list_elem_of_singleton]%elem_of_app; [by apply C2|].
      destruct Hh as [_ Hr]. destruct (Hr r Hin) as (e' & He' & E1 & E2 & _).
      by exists (or_id r), e'.
    + intros b' i' o Ho Hs. destruct (C3 b' i' o Ho Hs) as (x & Hx & Hf). exists x. split; [set_solver|done].
  - simpl. intros x [-> | Hx]%elem_of_cons; [set_solver|]. apply elem_of_app. left. by apply Hk.
Qed.

Lemma safe_weaken rows known rows' known' w :
  (forall r, r ∈ rows' -> r ∈ rows) -> (forall c, c ∈ known' -> c ∈ known) ->
  safe rows known w -> safe rows' known' w.
Proof. intros Hr Hk ([Hok Hin] & Hc & Hw). split_and!; [split|..]; auto. Qed.

Lemma safe_dispatch_row rows p r : r ∈ rows -> pkeeps (keeps_safe rows []) (dispatch_row p r).
Proof.
  intros Hin. unfold dispatch_row. pkeeps_step; [pkeeps_tac|]. destruct a as [credits | e]; [|pkeeps_tac].
  intros env w Hw. unfold mbind, PM_bind, ptry.
  pose proof (safe_billing_apply rows [] _ credits _ r env w Hin eq_refl eq_refl Hw) as Hrun.
  destruct (billing_apply _ _ _ env w) as [[id | e] w1].
  - destruct Hrun as (c & <- & Et & Eu & Hw1).
    eapply safe_weaken; [done|..|apply (safe_settle rows c r Hin Et Eu env w1)];
      [by intros x ?%elem_of_nil|]. done.
  - destruct e; try exact Hrun; by apply safe_backoff.
Qed.

Lemma safe_dispatch_round p : pkeeps (keeps_safe [] []) (dispatch_round p).
Proof.
  intros env w (Hh & Hc & Hk). unfold dispatch_round, mbind, PM_bind.
  pose proof (claim_batch_run 100 env w) as Hrun.
  destruct (claim_batch 100 env w) as [[rows | e] w1]; destruct Hrun as (Ec & Hs & Hd); simpl.
  - destruct Hd as [Ht Hr]. assert (Hw1 : safe rows [] w1).
    { destruct Hh as [Hok _]. split_and!; [split; [|done]| |by intros c ?%elem_of_nil].
      - rewrite Hs. by eapply touch_ok.
      - rewrite Ec. by eapply no_credit_ok; [apply touch_no_credit|]. }
    eapply safe_weaken; [| |apply (pkeeps_for (keeps_safe rows []) (dispatch_row p) rows
      (fun r Hin => safe_dispatch_row rows p r Hin) env w1 Hw1)]; by intros x ?%elem_of_nil.
  - destruct Hh as [Hok _]. split_and!; [split|..]; rewrite ?Hd, ?Hs, ?Ec; try done;
      by intros x ?%elem_of_nil.
Qed.

Lemma safe_dispatcher_run k p : pkeeps (keeps_safe [] []) (dispatcher_run k p).
Proof.
  induction k as [|k IH]; simpl; [apply pkeeps_ret, _|].
  apply pkeeps_bind; [apply _|apply safe_dispatch_round|done].
Qed.

Lemma safe_process_event b i e :
  chain b !! Z.to_nat i = Some e -> wrap_signed 32 i = i ->
  pkeeps (keeps_safe [] []) (process_event b (i, e)).
Proof.
  intros He Hi. unfold process_event. simpl. destruct e as [ev|]; [|apply pkeeps_ret, _].
  destruct (_ && _) eqn:Et; [|apply pkeeps_ret, _].
  destruct (extract_transfer_details ev) as [[[from to] amount]|] eqn:Ex; [|apply pkeeps_ret, _].
  assert (transfer_at chain b i = Some (from, to, amount)) as Hc.
  { unfold transfer_at, transfer_of. rewrite He. simpl. by rewrite Et. }
  unfold handle_transfer. pkeeps_tac. intros env w (Hh & Hcr & Hk).
  pose proof (keeps_record_deposit chain _ _ _ _ _ Hc Hi env w Hh) as Hh'.
  destruct Hh as [Hok _].
  destruct (record_deposit_run chain from to amount b i env w Hc Hi Hok)
    as (Ec & _ & [E | (now & plancks & u & E & _ & _ & Eo & _)]);
    (split_and!; [done| |by intros c ?%elem_of_nil]); rewrite Ec, E; [done|].
  eapply no_credit_ok; [|done]. apply with_deposit_no_credit; [|done].
  destruct (billing_outbox (p_db w) !! _) eqn:En; [|done].
  destruct (ok_outbox _ _ _ Hok _ _ En). lia.
Qed.

Lemma safe_process_block b : block_on_chain chain b -> pkeeps (keeps_safe [] []) (process_block b).
Proof.
  unfold block_on_chain, process_block. destruct (block_events b) as [events|];
    [|intros _; apply pkeeps_ret, _]. intros [<- Hl].
  apply pkeeps_bind; [apply _| |intros _].
  - apply pkeeps_for; [apply _|]. intros [i e] [He Hi]%elem_of_enumerate.
    apply safe_process_event; [done|]. apply wrap_signed_small. lia.
  - unfold on_block_end. pkeeps_tac.
Qed.

Lemma safe_create_deposit_account u : pkeeps (keeps_safe [] []) (create_deposit_account u).
Proof.
  unfold create_deposit_account, get_by_user. pkeeps_tac.
  all: apply pkeeps_ptransaction; [apply _| |]; intros t; unfold insert_account_tx; [|pkeeps_tac].
  all: apply safe_statement.
  all: try (intros w x d (Eo & Eb & Ho & Ha)%insert_account_inv [Hok _];
            split; [by eapply accounts_extend_ok|by intros r' ?%elem_of_nil]).
  all: intros d x d' (Eo & Eb & _ & _)%insert_account_inv; by apply same_tables_no_credit.
Qed.

(** ** Everything the service does *)

Inductive PaymentsRequest :=
  | CreateAccount (user_id : string)
  | RestartMonitor
  | FinalizedBlock (b : Block)
  | Dispatch (turns : nat)
  | PriceTick.

Definition handle_request (p : PriceConverter) (r : PaymentsRequest) : PM unit :=
  match r with
  | CreateAccount user_id => create_deposit_account user_id;; mret tt
  | RestartMonitor => refresh_known_accounts
  | FinalizedBlock b => process_block b
  | Dispatch turns => dispatcher_run turns p
  | PriceTick => oracle_tick
  end.

(** The tasks one after the other; a failure ends the task at hand. *)
Fixpoint payments_run (p : PriceConverter) (reqs : list PaymentsRequest) (env : PaymentsEnv)
    (w : PaymentsWorld) : PaymentsWorld :=
  match reqs with
  | [] => w
  | r :: rest => payments_run p rest env (handle_request p r env w).2
  end.

Definition follows_chain (r : PaymentsRequest) : Prop :=
  match r with FinalizedBlock b => block_on_chain chain b | _ => True end.

Lemma payments_run_safe p reqs env w :
  Forall follows_chain reqs -> safe [] [] w -> safe [] [] (payments_run p reqs env w).
Proof.
  intros Hr. revert w. induction Hr as [|r reqs Hf _ IH]; intros w Hw; [done|]. simpl. apply IH.
  assert (pkeeps (keeps_safe [] []) (handle_request p r)) as Hk; [|by apply Hk].
  destruct r; simpl; [pkeeps_step; [apply safe_create_deposit_account|pkeeps_tac]| | | |];
    [pkeeps_tac|by apply safe_process_block|apply safe_dispatcher_run|pkeeps_tac].
Qed.

Definition initial_world (b : billing_state) : PaymentsWorld := {|
  p_db := empty_payments_db; outbox_sequence := 1;
  cache := {| cached_price := None; read_guards := 0; waiting_writers := 0 |};
  known_accounts := ∅; billing := b; confirmed := []; p_steps := 0 |}.

Lemma initial_safe b : safe [] [] (initial_world b).
Proof.
  split_and!; [split|..]; simpl; [apply empty_ok| |apply empty_credits_ok|];
    by intros x ?%elem_of_nil.
Qed.
End Safety.
