(* ===== verification/PaymentsClaims.v ===== *)
(** * Payments: the properties

    Deposits and the outbox agree, credits are requested and marked only for recorded
    deposits, a dispatched deposit credits its account with the converted amount in the
    ledger of the billing service, and when a price lookup returns. *)

From stdpp Require Import base gmap strings list sorting.
From Stdlib Require Import ZArith QArith Qround.
From S2P Require Import Prelude.
From S2P Require Import Text.
From S2P Require Import Float64.
From S2P Require Import Decimal.
From S2P Require Import Collections.
From S2P Require Import BillingTypes.
From S2P Require Import BillingWorld.
From S2P Require Import Credits.
From S2P Require Import CreditRepo.
From S2P Require Import Ledger.
From S2P Require Import CreditManagerFacts.
From S2P Require Import CreditRepoFacts.
From S2P Require Import Rentals.
From S2P Require Import Events.
From S2P Require Import BillingService.
From S2P Require Import ServiceClaims.
From S2P Require Import PaymentsWorld.
From S2P Require Import Payments.
From S2P Require Import PaymentsFacts.
From S2P Require Import DepositInvariant.
From S2P Require Import CreditSafety.
Local Open Scope Z_scope.

Section Deposits.
Context `{HashOrder} `{BigDecimal} `{BillingClient} `{PaymentsText}.

(** C28: deposits and the outbox agree.  After any sequence of requests and blocks of
    one chain, under any failures of the database, the price API, the wallet generator
    and the billing client: every observed deposit is the transfer of the chain at its
    place, and has exactly one outbox entry, for the owner of its account and with its
    amount, dispatched exactly if the deposit is credited; and every outbox entry is that
    of exactly one observed deposit. *)
Theorem deposits_match_outbox chain p reqs env b :
  Forall (follows_chain chain) reqs ->
  let d := p_db (payments_run p reqs env (initial_world b)) in
  (forall n i o, observed_deposits d !! (n, i) = Some o ->
    on_chain chain n i o /\
    exists id e, billing_outbox d !! id = Some e /\ entry_for d n i o e /\
      forall id' e', billing_outbox d !! id' = Some e' -> entry_for d n i o e' -> id' = id) /\
  (forall id e, billing_outbox d !! id = Some e ->
    exists n i o, observed_deposits d !! (n, i) = Some o /\ entry_for d n i o e /\
      forall n' i' o', entry_for d n' i' o' e -> (n', i') = (n, i)).
Proof.
  intros Hr d. destruct (payments_run_safe chain p reqs env _ Hr (initial_safe chain b)) as [[Hok _] _].
  split.
  - intros n i o Ho. destruct (ok_observed _ _ _ Hok n i o Ho) as [Hc (id & e & He & Hf)].
    split; [done|]. exists id, e. split_and!; [done..|]. intros id' e' He' Hf'.
    eapply (ok_unique _ _ _ Hok); [done..|]. destruct Hf as (-> & _), Hf' as (-> & _). done.
  - intros id e He. destruct (ok_outbox _ _ _ Hok id e He) as (_ & n & i & o & Ho & Hf).
    exists n, i, o. split_and!; [done..|]. intros n' i' o' Hf'.
    destruct (entry_for_unique _ _ _ _ _ _ _ _ Hf Hf') as [-> ->]. done.
Qed.

(** C30: credits belong to deposits.  After any such sequence: an outbox entry is
    dispatched only if the billing service confirmed a credit for its user and
    transaction; every confirmed credit is for the user and transaction of an outbox
    entry; and a deposit marked as credited names a credit confirmed for its
    transaction. *)
Theorem credits_belong_to_deposits chain p reqs env b :
  Forall (follows_chain chain) reqs ->
  let w := payments_run p reqs env (initial_world b) in
  (forall id e, billing_outbox (p_db w) !! id = Some e -> is_Some (ob_dispatched_at e) ->
    exists c, c ∈ confirmed w /\ credit_for e c) /\
  (forall c, c ∈ confirmed w ->
    exists id e, billing_outbox (p_db w) !! id = Some e /\ credit_for e c) /\
  (forall n i o, observed_deposits (p_db w) !! (n, i) = Some o -> od_status o = "CREDITED" ->
    exists c, c ∈ confirmed w /\ cr_transaction_id c = transaction_id n i (od_to_account_hex o) /\
      od_billing_credit_id o = Some (cr_credit_id c)).
Proof.
  intros Hr w.
  destruct (payments_run_safe chain p reqs env _ Hr (initial_safe chain b)) as (_ & [? ? ?] & _).
  done.
Qed.

(** ** Prices *)

(** The cached price, if it is fresh at [now]. *)
Definition fresh_price (config : PriceOracleConfig) (now : Z) (c : PriceCache) : option bd :=
  p ← cached_price c;
  if price_is_stale now (max_price_age config * second) p then None else Some (cp_price p).

(** What the API's answer to the [n]-th request is worth. *)
Definition fetched (env : PaymentsEnv) (n : nat) : option bd :=
  usd ← api_answer env n; price ← bd_of_string (f64_show usd);
  if bd_is_positive price then Some price else None.

Definition unlocked (c : PriceCache) : Prop := read_guards c = O /\ waiting_writers c = O.

(** No lookup, and no refresh that fetched a price, ever returns. *)
Definition stuck (c : PriceCache) : Prop :=
  forall config env w, cache w = c ->
    (get_tao_usd_price config env w).1 = Err Blocked /\
    (is_Some (fetched env (p_steps w)) -> (refresh_price env w).1 = Err Blocked).

Lemma fetch_run env w :
  exists e, e <> Blocked /\ fetch_price_from_api env w =
    (match fetched env (p_steps w) with Some price => Ok price | None => Err e end,
     with_p_steps w (S (p_steps w))).
Proof.
  unfold fetch_price_from_api, fetched, mbind, PM_bind, pnext, pask, pfail, mret, PM_ret. simpl.
  destruct (api_answer env (p_steps w)) as [usd|]; simpl; [|by exists PriceUnavailable].
  destruct (bd_of_string (f64_show usd)) as [price|]; simpl; [|by exists InvalidPrice].
  destruct (bd_is_positive price); simpl; by exists InvalidPrice.
Qed.

(** A lock with a reader that waits for itself, or for a writer that waits for it. *)
Lemma waiting_stuck c : (0 < waiting_writers c)%nat -> stuck c.
Proof.
  intros Hw config env w Ec. split.
  - unfold get_tao_usd_price, mbind, PM_bind, read_lock. rewrite Ec.
    by rewrite (proj2 (Nat.ltb_lt _ _) Hw).
  - intros [price Hp]. unfold refresh_price, mbind, PM_bind.
    destruct (fetch_run env w) as (e & _ & ->). rewrite Hp. simpl.
    unfold write_price. simpl. rewrite Ec, (proj2 (Nat.ltb_lt _ _) Hw), orb_true_r. done.
Qed.

(** The arm without a fresh price, while the caller holds its read guard. *)
Lemma fetch_and_store_run env w :
  read_guards (cache w) = 1%nat -> waiting_writers (cache w) = O ->
  let '(r, w') := fetch_and_store env w in
  match fetched env (p_steps w) with
  | Some _ => r = Err Blocked /\ stuck (cache w')
  | None =>
      if writer_arrives env (S (p_steps w)) then r = Err Blocked /\ stuck (cache w')
      else cache w' = cache w /\
        r = match cached_price (cache w) with Some c => Ok (cp_price c) | None => Err PriceUnavailable end
  end.
Proof.
  destruct w as [d s [cp g wr] k b l n]. cbn [cache read_guards waiting_writers p_steps cached_price].
  intros -> ->. unfold fetch_and_store, mbind, PM_bind, ptry.
  destruct (fetch_run env {| p_db := d; outbox_sequence := s; known_accounts := k; billing := b;
    confirmed := l; p_steps := n;
    cache := {| cached_price := cp; read_guards := 1; waiting_writers := 0 |} |}) as (e & He & ->).
  cbn [p_steps]. destruct (fetched env n) as [price|].
  - unfold background_write, pnow, pmodify, mbind, PM_bind, write_price. simpl.
    destruct (writer_arrives env (S n)); simpl; (split; [done|]); apply waiting_stuck; simpl; lia.
  - destruct e; try done; unfold background_write, pmodify, mbind, PM_bind, read_lock; simpl;
      (destruct (writer_arrives env (S n)); simpl;
        [split; [done|]; apply waiting_stuck; simpl; lia|by destruct cp]).
Qed.

(** C32: when a price lookup returns.  With the lock free, a lookup returns the cached
    price while it is fresh, and the cache stays as it is.  Otherwise it asks the API:
    if the API fails and no writer has arrived meanwhile, it returns the stale price, or
    an error when there is none, and the lock is free again.  But if the API answers, or
    a writer is waiting, the lookup never returns, and from then on no lookup and no
    refresh with a new price ever does. *)
Theorem price_lookup_outcome config env w :
  unlocked (cache w) ->
  let '(r, w') := get_tao_usd_price config env w in
  match fresh_price config (p_clock env (p_steps w)) (cache w) with
  | Some price => r = Ok price /\ cache w' = cache w
  | None =>
      match fetched env (S (p_steps w)), writer_arrives env (S (S (p_steps w))) with
      | None, false => cache w' = cache w /\
          r = match cached_price (cache w) with
              | Some c => Ok (cp_price c)
              | None => Err PriceUnavailable
              end
      | _, _ => r = Err Blocked /\ stuck (cache w')
      end
  end.
Proof.
  destruct w as [d s [cp g wr] k b l n]. cbn [cache p_steps]. intros [Hg Hw]. simpl in Hg, Hw. subst.
  set (w1 := {| p_db := d; outbox_sequence := s; known_accounts := k; billing := b;
    confirmed := l; p_steps := S n;
    cache := {| cached_price := cp; read_guards := 1; waiting_writers := 0 |} |}).
  assert (Hrun : get_tao_usd_price config env {| p_db := d; outbox_sequence := s; known_accounts := k;
      billing := b; confirmed := l; p_steps := n;
      cache := {| cached_price := cp; read_guards := 0; waiting_writers := 0 |} |} =
    (r ← match fresh_price config (p_clock env n) (cache w1) with
         | Some price => mret (Ok price)
         | None => ptry fetch_and_store
         end;
     read_unlock;; match r with Ok price => mret price | Err e => pfail e end) env w1).
  { unfold get_tao_usd_price, fresh_price, w1, mbind, PM_bind, read_lock, pnow, pnext, pask. simpl.
    destruct cp as [c|]; [|done]. simpl. by destruct (price_is_stale _ _ c). }
  rewrite Hrun. clear Hrun. change (fresh_price config (p_clock env n) (cache w1)) with
    (fresh_price config (p_clock env n) {| cached_price := cp; read_guards := 0; waiting_writers := 0 |}).
  destruct (fresh_price _ _ _) as [price|]; [done|].
  pose proof (fetch_and_store_run env w1 eq_refl eq_refl) as Hf. unfold mbind, PM_bind, ptry.
  destruct (fetch_and_store env w1) as [r w2]. cbn [p_steps cached_price cache w1] in Hf.
  destruct (fetched env (S n)) as [price|]; [by destruct Hf as [-> ?]|].
  destruct (writer_arrives env (S (S n))); [by destruct Hf as [-> ?]|].
  destruct Hf as [Ec ->]. destruct cp as [c|]; simpl; unfold read_unlock, pmodify;
    simpl; by rewrite Ec.
Qed.
End Deposits.

(** ** Credits in the billing service *)

Inductive Delivery := Delivered | RequestLost | ReplyLost.

Section Credit.
Context `{HashOrder} `{DecimalLaws} `{UuidTextLaws} `{!DecimalDisplay} `{BigDecimalLaws}
  `{PaymentsText}.

(** The request the client makes of a deposit. *)
Definition deposit_credit (user_id credits_dec transaction_id : string) : ApplyCreditsRequest := {|
  ac_user_id := user_id; ac_amount := credits_dec; ac_transaction_id := transaction_id;
  ac_payment_method := "TAO_ONCHAIN_DEPOSIT";
  ac_metadata := <["unit" := "credit"]> {[ "asset" := "USD_CREDIT" ]} |}.

(** [GrpcBillingClient::apply_credits]: the request is lost, or the service runs and its
    answer arrives or is lost. *)
Definition grpc_apply_credits (benv : Env) (net : nat -> Delivery) (n : nat)
    (user_id credits_dec transaction_id : string) (bw : World) : result string string * World :=
  let req := deposit_credit user_id credits_dec transaction_id in
  match net n with
  | RequestLost => (Err "unavailable", bw)
  | Delivered =>
      match BillingService_apply_credits req benv bw with
      | (Ok resp, bw') => (Ok (ac_credit_id resp), bw')
      | (Err _, bw') => (Err "status", bw')
      end
  | ReplyLost => (Err "cancelled", (BillingService_apply_credits req benv bw).2)
  end.

Definition GrpcBillingClient (benv : Env) (net : nat -> Delivery) : BillingClient :=
  {| billing_state := World; client_apply_credits := grpc_apply_credits benv net |}.

(** An amount in plancks at a price, in micro-credits, rounded down. *)
Definition credit_micros (p : PriceConverter) (plancks : Z) (price : bd) : Z :=
  truncate_Q 6 (inject_Z plancks / inject_Z (10 ^ pc_decimals p) * bd_val price).

(** The text the converter makes of an amount at a price. *)
Definition converted (p : PriceConverter) (plancks : Z) (price : bd) (text : string) : Prop :=
  exists amt scale, bd_of_string (bd_to_string (bd_of_numeric plancks)) = Some amt /\
    planck_scale p = Some scale /\
    text = clamp_precision (bd_to_string (bd_mul (bd_div amt scale) price)) 6.

Lemma conversion p plancks price :
  0 <= pc_decimals p <= 100 -> 0 <= plancks < 10 ^ 78 -> (0 < bd_val price)%Q ->
  exists text m s, converted p plancks price text /\ parse_plain text = Some (m, s) /\ (s <= 6)%nat /\
    m * 10 ^ Z.of_nat (6 - s) = credit_micros p plancks price.
Proof.
  intros Hd Hp Hpr.
  assert (Hn : (0 <= bd_val (bd_of_numeric plancks))%Q).
  { rewrite bd_numeric_val. unfold Qle, inject_Z. simpl. lia. }
  destruct (bd_print_plain _ Hn) as (m0 & s0 & Ht & Hv).
  destruct (bd_parse_plain _ _ _ Ht) as (amt & Ha & Hva).
  destruct (bd_parse_pow10 _ Hd) as (scale & Hs & Hvs).
  set (c := bd_mul (bd_div amt scale) price).
  assert (Hc : (bd_val c == inject_Z plancks / inject_Z (10 ^ pc_decimals p) * bd_val price)%Q).
  { unfold c. rewrite bd_mul_val, (bd_div_pow10 amt _ plancks _ Hd); [done|lia| |done].
    by rewrite Hva, <- Hv, bd_numeric_val. }
  assert (Hc0 : (0 <= bd_val c)%Q).
  { rewrite Hc. apply Qmult_le_0_compat; [|by apply Qlt_le_weak].
    apply Qle_shift_div_l; [unfold Qlt, inject_Z; simpl; lia|].
    rewrite Qmult_0_l. unfold Qle, inject_Z. simpl. lia. }
  destruct (bd_print_plain _ Hc0) as (m & s & Hp1 & Hv1).
  destruct (clamp_precision_truncates _ m s 6 ltac:(lia) Hp1) as (m' & s' & Hcl & Hs' & Em).
  exists (clamp_precision (bd_to_string c) 6), m', s'. split_and!; [by exists amt, scale|done..|].
  rewrite Em. unfold credit_micros. by rewrite <- Hv1, Hc.
Qed.

(** Running the service's request. *)
Lemma service_apply_credits benv req bw m s k :
  fault_free benv -> credit_tables_ok (db bw) ->
  parse_plain (ac_amount req) = Some (m, s) -> (s <= 6)%nat ->
  m * 10 ^ Z.of_nat (6 - s) = k -> 0 <= k <= 10 ^ 27 ->
  let '(r, bw') := BillingService_apply_credits req benv bw in
  credit_tables_ok (db bw') /\
  match r with
  | Ok resp => ac_credit_id resp = ac_transaction_id req /\
      exists u, resolve (db bw') (ac_user_id req) = Some u /\
        ledger (db bw') ≡ spec_apply u k (ledger (db bw))
  | Err _ => ledger (db bw') ≡ ledger (db bw)
  end.
Proof.
  intros Hff Hok Hp Hs Hk Hb. unfold BillingService_apply_credits, parse_amount, parse_decimal_field.
  destruct (parsed_amount _ _ _ _ Hp Hs Hk Hb) as (d & -> & Ham & Hmic).
  set (amount := CreditBalance_from_decimal d) in *.
  pose proof (wp_apply_credits benv Hff bw (ac_user_id req) amount Hok Ham) as Hw.
  unfold mbind, SM_bind, or_fail, mret, SM_ret, internal, map_err, clock_reading. fold amount.
  unfold wp in Hw. destruct (CreditManager_apply_credits _ _ benv bw) as [[b | e] bw1]; simpl.
  - destruct Hw as (Hok' & u & Hu & HL & _). split; [done|]. split; [done|]. exists u.
    by rewrite <- Hmic.
  - destruct Hw as (_ & Hok' & HL & _). done.
Qed.

Section Dispatch.
Context (benv : Env) (net : nat -> Delivery) (p : PriceConverter) (env : PaymentsEnv).
#[local] Instance client : BillingClient := GrpcBillingClient benv net.

(** Nothing is lost: not in the payments database, not on the way to the billing service. *)
Definition calm : Prop := (forall n, p_sql_fails env n = false) /\ (forall n, net n = Delivered).

Lemma calm_statement {A} (f : PaymentsDb -> option (A * PaymentsDb)) w a d :
  calm -> f (p_db w) = Some (a, d) ->
  pstatement f env w = (Ok a, with_p_db (with_p_steps w (S (p_steps w))) d).
Proof.
  intros [Hc _] E. unfold pstatement, pnext, pask, pfail, ptransform, mbind, PM_bind. simpl.
  rewrite Hc. simpl. by rewrite E.
Qed.

Lemma calm_query {A} (f : PaymentsDb -> A) w :
  calm -> pquery f env w = (Ok (f (p_db w)), with_p_steps w (S (p_steps w))).
Proof. intros Hc. unfold pquery. erewrite calm_statement by done. by destruct w. Qed.

(** The transaction that settles a row goes through. *)
Lemma calm_settle r c w :
  calm -> exists now n, settle r c env w =
    (Ok tt, with_p_steps (with_p_db w (settled now (or_id r) (or_transaction_id r) c (p_db w))) n).
Proof.
  intros Hc. unfold settle, ptransaction, mark_dispatched_tx, mark_credited_tx, pnow, ptry.
  unfold mbind, PM_bind. rewrite calm_query by done. simpl.
  erewrite calm_statement by done. simpl. erewrite calm_statement by done. simpl.
  rewrite calm_query by done. simpl. eexists _, _. by destruct w.
Qed.

Lemma calm_backoff id secs w :
  calm -> exists t n, backoff id secs env w =
    (Ok tt, with_p_steps (with_p_db w (set_outbox (alter (postponed t) id
       (billing_outbox (p_db w))) (p_db w))) n).
Proof.
  intros Hc. unfold backoff, pnow, mbind, PM_bind. simpl. erewrite calm_statement by done.
  simpl. eexists _, _. by destruct w.
Qed.

Lemma lookup_fresh w price :
  unlocked (cache w) -> fresh_price (pc_config p) (p_clock env (p_steps w)) (cache w) = Some price ->
  get_tao_usd_price (pc_config p) env w = (Ok price, with_p_steps w (S (p_steps w))).
Proof.
  destruct w as [d s [cp g wr] k b l n]. cbn [cache p_steps]. intros [Hg Hw]. simpl in Hg, Hw. subst.
  unfold fresh_price. simpl. destruct cp as [c|]; [|done]. simpl.
  unfold get_tao_usd_price, mbind, PM_bind, read_lock, pnow, pnext, pask. simpl.
  destruct (price_is_stale _ _ c); [done|]. by intros [= <-].
Qed.

Lemma tao_to_credits_run w price text amt scale :
  bd_of_string text = Some amt -> planck_scale p = Some scale -> unlocked (cache w) ->
  fresh_price (pc_config p) (p_clock env (p_steps w)) (cache w) = Some price ->
  tao_to_credits p text env w =
    (Ok (clamp_precision (bd_to_string (bd_mul (bd_div amt scale) price)) 6),
     with_p_steps w (S (p_steps w))).
Proof.
  intros Ha Hs Hu Hf. unfold tao_to_credits. rewrite Ha, Hs. unfold mbind, PM_bind.
  by rewrite (lookup_fresh w price).
Qed.

(** C31: a dispatched deposit credits its account.  When nothing is lost and the cached
    price is fresh, dispatching an outbox entry adds to its user's account in the billing
    ledger exactly the amount in plancks at that price, rounded down to whole
    micro-credits, and marks the entry and its deposit with the transaction's own
    identifier; or the billing service refuses, its ledger stays as it was, and the entry
    is postponed.  Nothing lost means that no statement of the two databases fails and no
    reply of the billing service is lost ([calm]); a lost reply credits the account and
    postpones the entry ([lost_reply_credits_twice]). *)
Theorem dispatch_credits_account r e w price :
  fault_free benv -> calm -> 0 <= pc_decimals p <= 100 ->
  billing_outbox (p_db w) !! or_id r = Some e -> r = outbox_row (or_id r, e) ->
  0 <= ob_amount_plancks e < 10 ^ 78 -> unlocked (cache w) ->
  fresh_price (pc_config p) (p_clock env (p_steps w)) (cache w) = Some price ->
  (0 < bd_val price)%Q -> credit_tables_ok (db (billing w)) ->
  credit_micros p (ob_amount_plancks e) price <= 10 ^ 27 ->
  let '(x, w') := dispatch_row p r env w in
  x = Ok tt /\ credit_tables_ok (db (billing w')) /\
  ((exists k now, resolve (db (billing w')) (ob_user_id e) = Some k /\
      ledger (db (billing w')) ≡
        spec_apply k (credit_micros p (ob_amount_plancks e) price) (ledger (db (billing w))) /\
      p_db w' = settled now (or_id r) (ob_transaction_id e) (ob_transaction_id e) (p_db w)) \/
   (ledger (db (billing w')) ≡ ledger (db (billing w)) /\
    exists t, p_db w' = set_outbox (alter (postponed t) (or_id r) (billing_outbox (p_db w))) (p_db w))).
Proof.
  intros Hff Hcalm Hdec He Er Ham Hun Hfr Hpos Hok Hb.
  destruct (conversion p (ob_amount_plancks e) price Hdec Ham Hpos)
    as (text & m & s & (amt & scale & Ha & Hs & Ht) & Hp & Hs6 & Hm).
  assert (Hk : 0 <= credit_micros p (ob_amount_plancks e) price <= 10 ^ 27).
  { apply parse_plain_nonneg in Hp. split; [|done]. rewrite <- Hm. nia. }
  unfold dispatch_row. rewrite Er. cbn [outbox_row or_id or_user_id or_amount_plancks or_transaction_id
    fst snd]. unfold mbind at 1, PM_bind at 1, ptry at 1.
  rewrite (tao_to_credits_run w price _ _ _ Ha Hs Hun Hfr), <- Ht.
  set (w1 := with_p_steps w (S (p_steps w))). unfold billing_apply, ptry, ptransform, pnext, mbind, PM_bind.
  cbn -[settle backoff grpc_apply_credits credit_micros]. unfold grpc_apply_credits at 1.
  rewrite (proj2 Hcalm).
  pose proof (service_apply_credits benv (deposit_credit (ob_user_id e) text (ob_transaction_id e))
    (billing w) m s _ Hff Hok Hp Hs6 Hm Hk) as Hrun.
  simpl in Hrun. destruct (BillingService_apply_credits _ benv (billing w)) as [[resp | err] bw];
    destruct Hrun as [Hok' Hrun]; simpl.
  - destruct Hrun as [-> (k & Hu & HL)].
    match goal with |- context [settle ?r ?c env ?w] =>
      destruct (calm_settle r c w Hcalm) as (now & n & ->) end.
    split_and!; [done..|]. left. exists k, now. done.
  - match goal with |- context [backoff ?i ?c env ?w] =>
      destruct (calm_backoff i c w Hcalm) as (t & n & ->) end.
    split_and!; [done..|]. right. split; [done|]. by exists t.
Qed.
End Dispatch.
End Credit.

(** ** A deposit of two TAO, from the account's creation to the credit *)

Module PaymentsScenario.
Import Scenario ConcreteBig.

#[export] Existing Instance storage_order.

#[export] Instance payments_text : PaymentsText := {|
  numeric_of_text := parse_i64;
  rfc3339 := show_int;
  f64_show _ := "300.5" |}.

#[export] Existing Instance ServiceScenario.display.

Definition everything_arrives (n : nat) : Delivery := Delivered.

#[export] Instance billing_client : BillingClient := client env everything_arrives.

Definition alice_hex : string := "aaaaaaaaaaaaaaaaaaaaaaaaaaaaaaaaaaaaaaaaaaaaaaaaaaaaaaaaaaaaaaaa".
Definition other_hex : string := "bbbbbbbbbbbbbbbbbbbbbbbbbbbbbbbbbbbbbbbbbbbbbbbbbbbbbbbbbbbbbbbb".

Definition p_env : PaymentsEnv := {|
  p_clock n := Z.of_nat n;
  p_sql_fails _ := false;
  api_answer _ := Some f64_zero;
  writer_arrives _ := false;
  wallet _ := Some ("5Alice", alice_hex, "5pub", "words");
  encrypted _ mnemonic := Some mnemonic |}.

Definition transfer : ChainEvent := {|
  ev_pallet := "Balances"; ev_variant := "Transfer";
  ev_fields := Some (Named [("from", other_hex); ("to", alice_hex); ("amount", "2000000000")]) |}.

Definition chain (n : Z) : list (option ChainEvent) := [None; Some transfer].

Definition converter : PriceConverter :=
  {| pc_config := PriceOracleConfig_default; pc_decimals := 9 |}.

Definition to_the_block : list PaymentsRequest :=
  [CreateAccount "alice"; RestartMonitor; PriceTick;
   FinalizedBlock {| block_number := 7; block_events := Some (chain 7) |}].
Definition requests : list PaymentsRequest := to_the_block ++ [Dispatch 1].

Lemma requests_on_chain : Forall (follows_chain chain) requests.
Proof. repeat constructor; simpl; lia. Qed.

Definition fresh_start : PaymentsWorld := initial_world w0.
Definition world_at_dispatch : PaymentsWorld :=
  payments_run converter to_the_block p_env (initial_world w0).
Definition final_world : PaymentsWorld := payments_run converter requests p_env (initial_world w0).

Definition the_deposit : observed_deposit :=
  credited 19 (transaction_id 7 1 alice_hex) (new_deposit 10 2000000000 other_hex alice_hex).

Lemma deposit_observed : observed_deposits (p_db final_world) !! (7, 1) = Some the_deposit.
Proof. vm_compute. reflexivity. Qed.

Lemma deposits_match_outbox_witness :
  exists id e, billing_outbox (p_db final_world) !! id = Some e /\
    entry_for (p_db final_world) 7 1 the_deposit e.
Proof.
  destruct (@deposits_match_outbox _ _ billing_client _ chain converter requests p_env w0 requests_on_chain) as [Ho _].
  destruct (Ho 7 1 the_deposit deposit_observed) as (_ & id & e & He & Hf & _).
  exists id, e. exact (conj He Hf).
Defined.

Lemma credits_belong_to_deposits_witness :
  exists c, c ∈ confirmed final_world /\
    cr_transaction_id c = transaction_id 7 1 alice_hex /\
    od_billing_credit_id the_deposit = Some (cr_credit_id c).
Proof.
  destruct (@credits_belong_to_deposits _ _ billing_client _ chain converter requests p_env w0 requests_on_chain)
    as (_ & _ & Hc).
  exact (Hc 7 1 the_deposit deposit_observed eq_refl).
Defined.

(** No price is known, and the API does not answer. *)
Lemma price_lookup_outcome_witness :
  let silent := {| p_clock := p_clock p_env; p_sql_fails := p_sql_fails p_env;
    api_answer _ := None; writer_arrives := writer_arrives p_env;
    wallet := wallet p_env; encrypted := encrypted p_env |} in
  (get_tao_usd_price PriceOracleConfig_default silent fresh_start).1 = Err PriceUnavailable /\
  (get_tao_usd_price PriceOracleConfig_default p_env fresh_start).1 = Err Blocked.
Proof.
  intros silent. assert (Hu : unlocked (cache fresh_start)) by done. split.
  - pose proof (@price_lookup_outcome _ billing_client _ PriceOracleConfig_default silent _ Hu) as Hp.
    destruct (get_tao_usd_price PriceOracleConfig_default silent fresh_start) as [r w].
    exact (proj2 Hp).
  - pose proof (@price_lookup_outcome _ billing_client _ PriceOracleConfig_default p_env _ Hu) as Hp.
    destruct (get_tao_usd_price PriceOracleConfig_default p_env fresh_start) as [r w].
    exact (proj1 Hp).
Defined.

Definition the_entry : outbox_entry :=
  new_entry 10 2000000000 "alice" (transaction_id 7 1 alice_hex).
Definition the_row : OutboxRow := outbox_row (1, the_entry).
Definition the_price : bd := (3005, 1%nat).

Lemma dispatch_credits_account_witness :
  let w' := (dispatch_row converter the_row p_env world_at_dispatch).2 in
  (dispatch_row converter the_row p_env world_at_dispatch).1 = Ok tt /\
  credit_micros converter 2000000000 the_price = 601 * 10 ^ 6 /\
  credit_tables_ok (db (billing w')).
Proof.
  assert (Hcalm : calm everything_arrives p_env) by done.
  assert (Hdec : 0 <= pc_decimals converter <= 100) by (simpl; lia).
  assert (He : billing_outbox (p_db world_at_dispatch) !! 1 = Some the_entry)
    by (vm_compute; reflexivity).
  assert (Ham : 0 <= ob_amount_plancks the_entry < 10 ^ 78)
    by (change (ob_amount_plancks the_entry) with 2000000000; lia).
  assert (Hun : unlocked (cache world_at_dispatch)) by (split; vm_compute; reflexivity).
  assert (Hfr : fresh_price PriceOracleConfig_default
    (p_clock p_env (p_steps world_at_dispatch)) (cache world_at_dispatch) = Some the_price)
    by (vm_compute; reflexivity).
  assert (Hpos : (0 < bd_val the_price)%Q) by (vm_compute; reflexivity).
  assert (Hdb : db (billing world_at_dispatch) = d0) by (vm_compute; reflexivity).
  assert (Hok : credit_tables_ok (db (billing world_at_dispatch))) by (rewrite Hdb; apply tables_ok).
  assert (Hb : credit_micros converter (ob_amount_plancks the_entry) the_price <= 10 ^ 27)
    by (vm_compute; discriminate).
  pose proof (dispatch_credits_account env everything_arrives converter p_env the_row the_entry
    world_at_dispatch the_price env_ok Hcalm Hdec He eq_refl Ham Hun Hfr Hpos Hok Hb) as Hp.
  fold billing_client in Hp. destruct (dispatch_row converter the_row p_env world_at_dispatch) as [x w'].
  destruct Hp as (Hx & Hok' & _). split; [exact Hx|].
  split; [vm_compute; reflexivity|exact Hok'].
Defined.

(** A dispatch whose answer is lost is repeated, and the account credited again: the
    billing service does not look at the transaction's identifier. *)
Definition first_reply_lost (n : nat) : Delivery := if Nat.ltb n 20 then ReplyLost else Delivered.

Definition slow_env : PaymentsEnv := {|
  p_clock n := Z.of_nat n * 20 * second; p_sql_fails := p_sql_fails p_env;
  api_answer := api_answer p_env; writer_arrives := writer_arrives p_env;
  wallet := wallet p_env; encrypted := encrypted p_env |}.

Lemma lost_reply_credits_twice :
  let w := @payments_run _ _ (GrpcBillingClient env first_reply_lost) _ converter
    (to_the_block ++ [Dispatch 2; PriceTick; PriceTick; PriceTick; PriceTick; PriceTick; PriceTick;
                      Dispatch 1])
    slow_env (@initial_world _ (GrpcBillingClient env first_reply_lost) w0) in
  length (confirmed w) = 1%nat /\
  a_balance (account (ledger (db (billing w))) 1%N) = (100 + 2 * 601) * 10 ^ 6.
Proof. vm_compute. done. Qed.

(** A claimed entry that is postponed by a second is not claimed again for five minutes. *)
Lemma backoff_waits_for_claim now t e now' :
  claimable now' (postponed t (claim now e)) = true -> now + claim_timeout < now'.
Proof.
  unfold claimable. simpl. rewrite !andb_true_iff, Z.ltb_lt. lia.
Qed.
End PaymentsScenario.
