(* ===== verification/Emission.v ===== *)
(** * Emission configuration: config/emission.rs of the validator

    How the validator splits the emission of the subnet: a burnt share and a share
    per GPU model.  Each [anyhow!] message is a constructor of [EmissionError] with
    the values the message shows. *)

From stdpp Require Import base gmap strings list.
From S2P Require Import Prelude.
From S2P Require Import Float64.
From S2P Require Import Collections.
Local Open Scope Z_scope.

Definition DEFAULT_BURN_UID : Z := 204.

Record GpuAllocation := {
  weight : f64;
  min_gpu_count : Z;
  min_gpu_vram : option Z
}.

Definition default_min_gpu_count : Z := 1.
Definition default_min_miners_per_category : Z := 1.

Definition GpuAllocation_new (weight : f64) : GpuAllocation :=
  {| weight := weight; min_gpu_count := default_min_gpu_count; min_gpu_vram := None |}.

Definition GpuAllocation_with_min_count (weight : f64) (min_gpu_count : Z) : GpuAllocation :=
  {| weight := weight; min_gpu_count := min_gpu_count; min_gpu_vram := None |}.

Definition GpuAllocation_with_requirements (weight : f64) (min_gpu_count : Z)
    (min_gpu_vram : option Z) : GpuAllocation :=
  {| weight := weight; min_gpu_count := min_gpu_count; min_gpu_vram := min_gpu_vram |}.

(** The two formats of an entry in the configuration file. *)
Inductive GpuAllocationEntry :=
  | Legacy (weight : f64)
  | Full (allocation : GpuAllocation).

Definition deserialize_gpu_allocations (raw : gmap string GpuAllocationEntry)
    : gmap string GpuAllocation :=
  (fun value => match value with
                | Legacy weight => GpuAllocation_new weight
                | Full allocation => allocation
                end) <$> raw.

Record EmissionConfig := {
  burn_percentage : f64;
  burn_uid : Z;
  gpu_allocations : gmap string GpuAllocation;
  min_miners_per_category : Z;
  weight_set_interval_blocks : Z;
  weight_version_key : Z
}.

Inductive EmissionError :=
  | BurnPercentageOutOfRange (p : f64)
  | ZeroWeightSetInterval
  | NoGpuAllocations
  | AllocationsDoNotSumTo100 (total : f64)
  | NegativeWeight (gpu_model : string) (weight : f64)
  | ZeroMinGpuCount (gpu_model : string)
  | ZeroMinGpuVram (gpu_model : string)
  | ConfigUnreadable (reason : string)
  | ConfigUnparsable (reason : string).

Definition hundred : f64 := f64_of_Z 100.

(** The checks on one entry, in the order of the loop body. *)
Definition validate_allocation_entry (gpu_model : string) (allocation : GpuAllocation)
    : result EmissionError unit :=
  if f64_ltb (weight allocation) f64_zero then Err (NegativeWeight gpu_model (weight allocation))
  else if min_gpu_count allocation =? 0 then Err (ZeroMinGpuCount gpu_model)
  else match min_gpu_vram allocation with
       | Some vram => if vram =? 0 then Err (ZeroMinGpuVram gpu_model) else Ok ()
       | None => Ok ()
       end.

Fixpoint validate_entries (entries : list (string * GpuAllocation)) : result EmissionError unit :=
  match entries with
  | [] => Ok ()
  | (gpu_model, allocation) :: rest =>
      match validate_allocation_entry gpu_model allocation with
      | Err e => Err e
      | Ok _ => validate_entries rest
      end
  end.

Section Validate.
Context `{HashOrder}.

Definition total_allocation (n : nat) (c : EmissionConfig) : f64 :=
  f64_sum (weight <$> values n "total_allocation" (gpu_allocations c)).

Definition EmissionConfig_validate (n : nat) (c : EmissionConfig) : result EmissionError unit :=
  if f64_ltb (burn_percentage c) f64_zero || f64_ltb hundred (burn_percentage c)
  then Err (BurnPercentageOutOfRange (burn_percentage c))
  else if weight_set_interval_blocks c =? 0 then Err ZeroWeightSetInterval
  else if is_empty (gpu_allocations c) then Err NoGpuAllocations
  else
    let total := total_allocation n c in
    if f64_ltb (f64_lit 1 100) (f64_abs (f64_sub total hundred))
    then Err (AllocationsDoNotSumTo100 total)
    else validate_entries (iter n "gpu_allocations" (gpu_allocations c)).

(** [toml] is a crate: the parsed configuration or the parser's message. *)
Definition EmissionConfig_from_toml_file (n : nat) (content : result string string)
    (toml_from_str : string -> result string EmissionConfig)
    : result EmissionError EmissionConfig :=
  match content with
  | Err e => Err (ConfigUnreadable e)
  | Ok text =>
      match toml_from_str text with
      | Err e => Err (ConfigUnparsable e)
      | Ok config =>
          match EmissionConfig_validate n config with
          | Err e => Err e
          | Ok _ => Ok config
          end
      end
  end.

(** [sort_by] with [b.weight.partial_cmp(a.weight)]: heavier models first, models of
    equal weight in the order of the iteration. *)
Definition gpu_models_by_allocation (n : nat) (c : EmissionConfig)
    : list (string * GpuAllocation) :=
  sort_by (fun a b => negb (f64_ltb (weight (snd a)) (weight (snd b))))
    (iter n "gpu_models_by_allocation" (gpu_allocations c)).
End Validate.

Definition EmissionConfig_default : EmissionConfig := {|
  burn_percentage := f64_zero;
  burn_uid := DEFAULT_BURN_UID;
  gpu_allocations := ∅;
  min_miners_per_category := 1;
  weight_set_interval_blocks := 360;
  weight_version_key := 0
|}.

Definition merge_with_defaults (c : EmissionConfig) : EmissionConfig := {|
  burn_percentage := burn_percentage c;
  burn_uid := burn_uid c;
  gpu_allocations :=
    if is_empty (gpu_allocations c) then gpu_allocations EmissionConfig_default
    else gpu_allocations c;
  min_miners_per_category := min_miners_per_category c;
  weight_set_interval_blocks :=
    if weight_set_interval_blocks c =? 0 then weight_set_interval_blocks EmissionConfig_default
    else weight_set_interval_blocks c;
  weight_version_key := weight_version_key c
|}.

Definition EmissionConfig_for_testing : EmissionConfig := {|
  burn_percentage := f64_of_Z 10;
  burn_uid := 999;
  gpu_allocations :=
    <["B200" := GpuAllocation_new (f64_of_Z 80)]>
      (<["H100" := GpuAllocation_new (f64_of_Z 12)]>
        (<["A100" := GpuAllocation_new (f64_of_Z 8)]> ∅));
  min_miners_per_category := 1;
  weight_set_interval_blocks := 360;
  weight_version_key := 0
|}.

Definition gpu_model_count (c : EmissionConfig) : nat := len (gpu_allocations c).
Definition has_gpu_model (c : EmissionConfig) (model : string) : bool :=
  bool_decide (is_Some (gpu_allocations c !! model)).
Definition get_gpu_allocation (c : EmissionConfig) (model : string) : option GpuAllocation :=
  gpu_allocations c !! model.
Definition get_gpu_allocation_weight (c : EmissionConfig) (model : string) : option f64 :=
  weight <$> gpu_allocations c !! model.

Definition with_allocations (c : EmissionConfig) (m : gmap string GpuAllocation) : EmissionConfig := {|
  burn_percentage := burn_percentage c;
  burn_uid := burn_uid c;
  gpu_allocations := m;
  min_miners_per_category := min_miners_per_category c;
  weight_set_interval_blocks := weight_set_interval_blocks c;
  weight_version_key := weight_version_key c
|}.

Definition set_gpu_allocation_with_vram (c : EmissionConfig) (model : string) (w : f64)
    (count : Z) (vram : option Z) : result EmissionError EmissionConfig :=
  if f64_ltb w f64_zero then Err (NegativeWeight model w)
  else if count =? 0 then Err (ZeroMinGpuCount model)
  else if bool_decide (vram = Some 0) then Err (ZeroMinGpuVram model)
  else Ok (with_allocations c
             (<[model := GpuAllocation_with_requirements w count vram]> (gpu_allocations c))).

Definition set_gpu_allocation (c : EmissionConfig) (model : string) (w : f64) (count : Z)
    : result EmissionError EmissionConfig :=
  set_gpu_allocation_with_vram c model w count None.

Definition remove_gpu_allocation (c : EmissionConfig) (model : string)
    : option GpuAllocation * EmissionConfig :=
  (gpu_allocations c !! model, with_allocations c (delete model (gpu_allocations c))).
