(* ===== verification/Categories.v ===== *)
(** * GPU categories and miner profiles: gpu/categorization.rs of the validator

    Instants ([DateTime<Utc>]) are nanoseconds in Z, miner UIDs are 16-bit integers in
    Z, [u32] counters wrap. *)

From stdpp Require Import base gmap strings list.
From S2P Require Import Prelude.
From S2P Require Import Text.
From S2P Require Import Float64.
From S2P Require Import Collections.
Local Open Scope Z_scope.

Inductive GpuCategory :=
  | A100
  | H100
  | B200
  | Other (model : string).

#[export] Instance GpuCategory_eq_dec : EqDecision GpuCategory.
Proof. solve_decision. Defined.

Definition GpuCategory_description (c : GpuCategory) : string :=
  match c with
  | A100 => "High-end training & inference"
  | H100 => "Flagship AI training & inference"
  | B200 => "Next-gen AI acceleration"
  | Other _ => "General GPU compute"
  end.

Definition GpuCategory_as_str (c : GpuCategory) : string :=
  match c with
  | A100 => "A100"
  | H100 => "H100"
  | B200 => "B200"
  | Other _ => "OTHER"
  end.

Definition GpuCategory_to_string (c : GpuCategory) : string := GpuCategory_as_str c.

Definition GpuCategory_from_str (s : string) : GpuCategory :=
  let model := to_uppercase s in
  let cleaned := trim (remove_all "TESLA" (remove_all "GEFORCE" (remove_all "NVIDIA" model))) in
  if contains "A100" cleaned then A100
  else if contains "H100" cleaned then H100
  else if contains "B200" cleaned then B200
  else Other s.

Definition model_to_category (model : string) : GpuCategory := GpuCategory_from_str model.

(** The name under which the model of a GPU is counted and rewarded. *)
Definition normalized_model (gpu_name : string) : string :=
  GpuCategory_to_string (GpuCategory_from_str gpu_name).

Record ExecutorValidationResult := {
  executor_id : string;
  is_valid : bool;
  gpu_model : string;
  gpu_count : Z;
  gpu_memory_gb : f64;
  attestation_valid : bool;
  validation_timestamp : Z
}.

(** A validation that counts: it passed, with a valid attestation. *)
Definition validation_ok (v : ExecutorValidationResult) : bool :=
  is_valid v && attestation_valid v.

(** The loop of [calculate_gpu_distribution], with the executors seen so far. *)
Fixpoint count_gpus (vs : list ExecutorValidationResult) (seen : gset string)
    (gpu_counts : gmap string Z) : gmap string Z :=
  match vs with
  | [] => gpu_counts
  | v :: rest =>
      if validation_ok v then
        let '(new, seen') := set_insert (executor_id v) seen in
        if new then
          count_gpus rest seen'
            (entry_add (normalized_model (gpu_model v)) (wrap 32 (gpu_count v)) gpu_counts)
        else count_gpus rest seen' gpu_counts
      else count_gpus rest seen gpu_counts
  end.

Definition calculate_gpu_distribution (vs : list ExecutorValidationResult) : gmap string Z :=
  count_gpus vs ∅ ∅.

Record MinerGpuProfile := {
  miner_uid : Z;
  gpu_counts : gmap string Z;
  total_score : f64;
  verification_count : Z;
  last_updated : Z;
  last_successful_validation : option Z
}.

(** [now] is the reading of [Utc::now()]. *)
Definition MinerGpuProfile_new (now uid : Z) (vs : list ExecutorValidationResult)
    (score : f64) : MinerGpuProfile := {|
  miner_uid := uid;
  gpu_counts := calculate_gpu_distribution vs;
  total_score := score;
  verification_count := wrap 32 (Z.of_nat (length vs));
  last_updated := now;
  last_successful_validation := None
|}.

Definition update_with_validations (now : Z) (p : MinerGpuProfile)
    (vs : list ExecutorValidationResult) (new_score : f64) : MinerGpuProfile := {|
  miner_uid := miner_uid p;
  gpu_counts := calculate_gpu_distribution vs;
  total_score := new_score;
  verification_count := wrap 32 (Z.of_nat (length vs));
  last_updated := now;
  last_successful_validation := last_successful_validation p
|}.

(** [values().sum()] at 32 bits: the order does not matter. *)
Definition total_gpu_count (p : MinerGpuProfile) : Z :=
  wrap 32 (table_sum (fun _ c => c) (gpu_counts p)).

Definition profile_has_gpu_model (p : MinerGpuProfile) (model : string) : bool :=
  bool_decide (is_Some (gpu_counts p !! model)).

Definition get_gpu_count (p : MinerGpuProfile) (model : string) : Z :=
  default 0 (gpu_counts p !! model).

(** [sort_by(|a, b| b.1.cmp(&a.1))]. *)
Definition gpu_models_by_count `{HashOrder} (n : nat) (p : MinerGpuProfile) : list (string * Z) :=
  sort_by (fun a b => snd b <=? snd a) (iter n "gpu_models_by_count" (gpu_counts p)).

(** ** What the distribution counts

    The reference: the first passing validation of each executor, and the GPUs of the
    models of one category among them. *)

Fixpoint first_per_executor (vs : list ExecutorValidationResult) (seen : gset string)
    : list ExecutorValidationResult :=
  match vs with
  | [] => []
  | v :: rest =>
      if decide (executor_id v ∈ seen) then first_per_executor rest seen
      else v :: first_per_executor rest ({[executor_id v]} ∪ seen)
  end.

Definition counted (vs : list ExecutorValidationResult) : list ExecutorValidationResult :=
  first_per_executor (filter (fun v => validation_ok v = true) vs) ∅.

Definition in_category (k : string) (v : ExecutorValidationResult) : Prop :=
  normalized_model (gpu_model v) = k.

#[export] Instance in_category_dec k v : Decision (in_category k v).
Proof. unfold in_category. apply _. Defined.

Definition gpus_in (k : string) (vs : list ExecutorValidationResult) : Z :=
  Zsum (gpu_count <$> filter (in_category k) vs).

Lemma normalized_model_cases s :
  normalized_model s = "A100" \/ normalized_model s = "H100" \/
  normalized_model s = "B200" \/ normalized_model s = "OTHER".
Proof.
  unfold normalized_model, GpuCategory_from_str. repeat case_match; simpl; auto.
Qed.

(** Normalising a normalised name changes nothing. *)
Lemma normalized_model_idemp s : normalized_model (normalized_model s) = normalized_model s.
Proof. destruct (normalized_model_cases s) as [-> | [-> | [-> | ->]]]; reflexivity. Qed.

Lemma entry_add_lookup k n m k' :
  entry_add k n m !! k' =
    if decide (k = k') then Some (wrap 32 (default 0 (m !! k) + n)) else m !! k'.
Proof.
  unfold entry_add. case_decide as E; [subst; apply lookup_insert_eq|by apply lookup_insert_ne].
Qed.

Lemma elem_of_first_per_executor v vs seen :
  v ∈ first_per_executor vs seen -> v ∈ vs /\ executor_id v ∉ seen.
Proof.
  revert seen. induction vs as [|w vs IH]; intros seen; simpl.
  - by rewrite elem_of_nil.
  - case_decide as Hs; [|rewrite elem_of_cons].
    + intros [? ?]%IH. split; [by right|done].
    + intros [-> | [? ?]%IH]; [by split; [left|]|].
      split; [by right|set_solver].
Qed.

Lemma first_per_executor_NoDup vs seen : NoDup (executor_id <$> first_per_executor vs seen).
Proof.
  revert seen. induction vs as [|v vs IH]; intros seen; simpl; [constructor|].
  case_decide; [apply IH|]. rewrite fmap_cons. constructor; [|apply IH].
  intros (w & E & Hw)%list_elem_of_fmap. apply elem_of_first_per_executor in Hw as [_ Hw].
  set_solver.
Qed.

Lemma first_per_executor_covers v vs seen :
  v ∈ vs -> executor_id v ∉ seen ->
  exists w, w ∈ first_per_executor vs seen /\ executor_id w = executor_id v.
Proof.
  revert seen. induction vs as [|w vs IH]; intros seen; [by rewrite elem_of_nil|].
  intros [-> | Hv]%elem_of_cons Hs; simpl.
  - rewrite decide_False by done. exists w. by split; [left|].
  - case_decide as Hw; [by apply IH|].
    destruct (decide (executor_id w = executor_id v)) as [E | E].
    + exists w. by split; [left|].
    + destruct (IH ({[executor_id w]} ∪ seen)) as (u & Hu & Eu); [done|set_solver|].
      exists u. by split; [right|].
Qed.

Lemma count_gpus_lookup vs seen m k :
  count_gpus vs seen m !! k =
    match filter (in_category k) (first_per_executor (filter (fun v => validation_ok v = true) vs) seen) with
    | [] => m !! k
    | l => Some (wrap 32 (default 0 (m !! k) + Zsum (gpu_count <$> l)))
    end.
Proof.
  revert seen m. induction vs as [|v vs IH]; intros seen m; [done|]. simpl.
  rewrite filter_cons. destruct (validation_ok v) eqn:Hv; simpl; [|apply IH].
  unfold set_insert. case_bool_decide as Hn; simpl.
  - rewrite decide_False by done. rewrite IH, entry_add_lookup, filter_cons. clear IH.
    destruct (decide (in_category k v)) as [E | E]; unfold in_category in E;
      [rewrite decide_True by done; subst k|by rewrite decide_False by done].
    destruct (filter _ _) as [|w l]; simpl; f_equal.
    + by rewrite wrap_add_r, Z.add_0_r.
    + rewrite wrap_add_l. rewrite <- Z.add_assoc, (Z.add_comm (wrap 32 _)), Z.add_assoc.
      rewrite wrap_add_r. f_equal. lia.
  - rewrite decide_True by done.
    replace ({[executor_id v]} ∪ seen) with seen by set_solver.
    apply IH.
Qed.
