(* ===== verification/WeightAllocation.v ===== *)
(** * Weight allocation: bittensor_core/weight_allocation.rs of the validator

    The engine turns scored miners per GPU category into the weight vector of the
    subnet.  Weights are 16-bit, pools 64-bit; arithmetic wraps as in a release build.
    Each [anyhow!] is a constructor of [AllocationError]. *)

From stdpp Require Import base gmap strings list.
From S2P Require Import Prelude.
From S2P Require Import Float64.
From S2P Require Import Collections.
From S2P Require Import Emission.
Local Open Scope Z_scope.

Record NormalizedWeight := { nw_uid : Z; nw_weight : Z }.

Record BurnAllocation := { burn_to : Z; burn_weight : Z; percentage : f64 }.

Record CategoryAllocation := {
  ca_gpu_model : string;
  miner_count : Z;
  ca_total_score : f64;
  weight_pool : Z;
  allocation_percentage : f64
}.

Record WeightDistribution := {
  weights : list NormalizedWeight;
  burn_allocation : option BurnAllocation;
  category_allocations : gmap string CategoryAllocation;
  total_weight : Z;
  miners_served : Z
}.

Inductive AllocationError :=
  | TotalExceedsMaximum (total maximum : Z)
  | DuplicateUid (uid : Z).

Record WeightAllocationEngine := {
  emission_config : EmissionConfig;
  min_score_threshold : f64
}.

Definition WeightAllocationEngine_new (c : EmissionConfig) (threshold : f64)
    : WeightAllocationEngine :=
  {| emission_config := c; min_score_threshold := threshold |}.

(** A category's miners with their scores. *)
Definition Miners : Type := list (Z * f64).

Definition calculate_burn_allocation (e : WeightAllocationEngine) (total : Z)
    : option BurnAllocation :=
  let c := emission_config e in
  if f64_leb (burn_percentage c) f64_zero then None
  else
    let w := f64_to_u16 (f64_div (f64_mul (f64_of_Z total) (burn_percentage c)) hundred) in
    if w =? 0 then None
    else Some {| burn_to := burn_uid c; burn_weight := w; percentage := burn_percentage c |}.

(** Despite its name the filter looks at the number of miners only. *)
Definition filter_miners_by_score (e : WeightAllocationEngine) (m : gmap string Miners)
    : gmap string Miners :=
  filter (fun kv => min_miners_per_category (emission_config e) <= Z.of_nat (length kv.2)) m.

Definition category_pool (remaining : Z) (a : GpuAllocation) : Z :=
  f64_to_u64 (f64_div (f64_mul (f64_of_Z remaining) (weight a)) hundred).

Definition calculate_all_category_pools (e : WeightAllocationEngine) (remaining : Z)
    : gmap string Z :=
  category_pool remaining <$> gpu_allocations (emission_config e).

Definition distribute_equally (miners : Miners) (pool : Z) : list NormalizedWeight :=
  match miners with
  | [] => []
  | _ =>
      let per_miner := wrap 16 (pool / Z.of_nat (length miners)) in
      if 0 <? per_miner
      then (fun m => {| nw_uid := fst m; nw_weight := per_miner |}) <$> miners
      else []
  end.

(** A miner's share by score, before the clamp to 16 bits. *)
Definition proportional_share (pool : Z) (total : f64) (score : f64) : Z :=
  f64_to_u64 (f64_div (f64_mul (f64_of_Z pool) score) total).

(** The loop of [distribute_category_weight]: the last miner takes what is left. *)
Fixpoint distribute_by_score (pool : Z) (total : f64) (miners : Miners) (allocated : Z)
    : list NormalizedWeight :=
  match miners with
  | [] => []
  | (uid, score) :: rest =>
      let w := match rest with
               | [] => wrap 64 (pool - allocated)
               | _ => proportional_share pool total score
               end in
      let w := Z.min w u16_max in
      if 0 <? w
      then {| nw_uid := uid; nw_weight := w |}
             :: distribute_by_score pool total rest (wrap 64 (allocated + w))
      else distribute_by_score pool total rest allocated
  end.

Definition miners_total_score (miners : Miners) : f64 := f64_sum (snd <$> miners).

Definition distribute_category_weight (miners : Miners) (pool : Z) : list NormalizedWeight :=
  match miners with
  | [] => []
  | _ =>
      let total := miners_total_score miners in
      if f64_leb total f64_zero then distribute_equally miners pool
      else distribute_by_score pool total miners 0
  end.

(** Add a weight to the entry of its miner, or append it. *)
Fixpoint merge_weight (ws : list NormalizedWeight) (w : NormalizedWeight)
    : list NormalizedWeight :=
  match ws with
  | [] => [w]
  | x :: rest =>
      if nw_uid x =? nw_uid w
      then {| nw_uid := nw_uid x; nw_weight := Z.min (nw_weight x + nw_weight w) u16_max |} :: rest
      else x :: merge_weight rest w
  end.

(** The first repeated UID, in the order of the list. *)
Fixpoint find_duplicate (ws : list NormalizedWeight) (seen : gset Z) : option Z :=
  match ws with
  | [] => None
  | w :: rest =>
      let '(new, seen') := set_insert (nw_uid w) seen in
      if new then find_duplicate rest seen' else Some (nw_uid w)
  end.

Definition sum_weights (ws : list NormalizedWeight) : Z := Zsum (nw_weight <$> ws).

Definition validate_allocation (ws : list NormalizedWeight) : result AllocationError () :=
  let total_allocated := sum_weights ws in
  if u16_max <? total_allocated then Err (TotalExceedsMaximum total_allocated u16_max)
  else match find_duplicate ws ∅ with
       | Some uid => Err (DuplicateUid uid)
       | None => Ok ()
       end.

(** The pool of a category that is served: it has miners and a non-zero pool. *)
Definition served_pool (pools : gmap string Z) (category : string) (miners : Miners) : option Z :=
  let pool := default 0 (pools !! category) in
  if (pool =? 0) || bool_decide (miners = []) then None else Some pool.

(** One category of the distribution loop. *)
Definition serve_category (remaining : Z) (pools : gmap string Z)
    (acc : list NormalizedWeight * gmap string CategoryAllocation) (entry : string * Miners)
    : list NormalizedWeight * gmap string CategoryAllocation :=
  let '(category, miners) := entry in
  match served_pool pools category miners with
  | None => acc
  | Some pool =>
      (fold_left merge_weight (distribute_category_weight miners pool) (fst acc),
       <[category := {|
           ca_gpu_model := category;
           miner_count := wrap 32 (Z.of_nat (length miners));
           ca_total_score := miners_total_score miners;
           weight_pool := pool;
           allocation_percentage :=
             f64_mul (f64_div (f64_of_Z pool) (f64_of_Z remaining)) hundred
         |}]> (snd acc))
  end.

(** The pools of the configured categories nobody serves; the sum wraps at 64 bits. *)
Definition empty_category_burn (pools : gmap string Z) (active : gmap string Miners) : Z :=
  wrap 64 (table_sum (fun _ pool => pool) (filter (fun kv => active !! kv.1 = None) pools)).

Section Distribution.
Context `{HashOrder}.

Definition calculate_weight_distribution (n : nat) (e : WeightAllocationEngine)
    (miners_by_category : gmap string Miners) : result AllocationError WeightDistribution :=
  let total_weight := u16_max in
  let burn := match calculate_burn_allocation e total_weight with
              | Some b => burn_weight b
              | None => 0
              end in
  let remaining := total_weight - burn in
  let filtered := filter_miners_by_score e miners_by_category in
  let pools := calculate_all_category_pools e remaining in
  let empty_burn := empty_category_burn pools filtered in
  let '(all_weights, allocations) :=
    fold_left (serve_category remaining pools) (iter n "filtered_miners" filtered) ([], ∅) in
  let total_burn := wrap 64 (burn + empty_burn) in
  let capped_burn := Z.min total_burn u16_max in
  let burn_to_uid := burn_uid (emission_config e) in
  let all_weights :=
    if 0 <? total_burn
    then merge_weight all_weights {| nw_uid := burn_to_uid; nw_weight := capped_burn |}
    else all_weights in
  match validate_allocation all_weights with
  | Err err => Err err
  | Ok _ =>
      Ok {|
        weights := all_weights;
        burn_allocation :=
          if 0 <? total_burn
          then Some {|
                 burn_to := burn_to_uid;
                 burn_weight := capped_burn;
                 percentage :=
                   f64_mul (f64_div (f64_of_Z total_burn) (f64_of_Z total_weight)) hundred
               |}
          else None;
        category_allocations := allocations;
        total_weight := total_weight;
        miners_served :=
          wrap 32 (wrap 32 (Z.of_nat (length all_weights)) - (if 0 <? total_burn then 1 else 0))
      |}
  end.
End Distribution.
