(* ===== verification/AllocationFacts.v ===== *)
(** * Facts about the weight allocation

    Merging weights per miner, the reference list of claims, and what a category
    spends of its pool. *)

From stdpp Require Import base gmap strings list.
From S2P Require Import Prelude.
From S2P Require Import Float64.
From S2P Require Import Collections.
From S2P Require Import Emission.
From S2P Require Import WeightAllocation.
Local Open Scope Z_scope.

(** ** Merging *)

Definition uids (ws : list NormalizedWeight) : list Z := nw_uid <$> ws.

(** The weight a vector gives to one UID. *)
Definition weight_of (u : Z) (ws : list NormalizedWeight) : Z :=
  sum_weights (filter (fun w => nw_uid w = u) ws).

Definition weight_wf (w : NormalizedWeight) : Prop := 0 < nw_weight w <= u16_max.

Lemma sum_weights_cons w ws : sum_weights (w :: ws) = nw_weight w + sum_weights ws.
Proof. done. Qed.

Lemma sum_weights_app ws ws' : sum_weights (ws ++ ws') = sum_weights ws + sum_weights ws'.
Proof. unfold sum_weights. rewrite fmap_app. apply Zsum_app. Qed.

Lemma sum_weights_nonneg ws : Forall weight_wf ws -> 0 <= sum_weights ws.
Proof.
  induction 1 as [|w ws [? ?] _ IH]; [done|]. rewrite sum_weights_cons. lia.
Qed.

Lemma weight_of_cons u w ws :
  weight_of u (w :: ws) = (if decide (nw_uid w = u) then nw_weight w else 0) + weight_of u ws.
Proof. unfold weight_of. rewrite filter_cons. by case_decide. Qed.

Lemma weight_of_app u ws ws' : weight_of u (ws ++ ws') = weight_of u ws + weight_of u ws'.
Proof. unfold weight_of. by rewrite filter_app, sum_weights_app. Qed.

Lemma weight_of_nonneg u ws : Forall weight_wf ws -> 0 <= weight_of u ws.
Proof. intros H. apply sum_weights_nonneg, Forall_forall.
  intros w [_ Hw]%list_elem_of_filter. by eapply Forall_forall in Hw; [|exact H].
Qed.

Lemma weight_of_le_sum u ws : Forall weight_wf ws -> weight_of u ws <= sum_weights ws.
Proof.
  induction 1 as [|w ws [? _] _ IH]; [done|]. rewrite weight_of_cons, sum_weights_cons.
  case_decide; lia.
Qed.

Lemma weight_of_not_in u ws : u ∉ uids ws -> weight_of u ws = 0.
Proof.
  induction ws as [|w ws IH]; [done|]. unfold uids. rewrite fmap_cons, not_elem_of_cons.
  intros [Hu Hws]. rewrite weight_of_cons, decide_False by congruence. rewrite IH by done. lia.
Qed.

Lemma uids_merge ws w :
  uids (merge_weight ws w) = if decide (nw_uid w ∈ uids ws) then uids ws else uids ws ++ [nw_uid w].
Proof.
  induction ws as [|x ws IH]; simpl; [done|].
  destruct (nw_uid x =? nw_uid w) eqn:E; b2p.
  - rewrite decide_True by (rewrite <- E; left). done.
  - unfold uids in *. rewrite !fmap_cons, IH.
    repeat case_decide; try done; set_solver.
Qed.

Lemma merge_NoDup ws w : NoDup (uids ws) -> NoDup (uids (merge_weight ws w)).
Proof.
  intros H. rewrite uids_merge. case_decide as Hw; [done|].
  apply NoDup_app. split_and!; [done|set_solver|apply NoDup_singleton].
Qed.

Lemma merge_wf ws w :
  Forall weight_wf ws -> weight_wf w -> Forall weight_wf (merge_weight ws w).
Proof.
  unfold weight_wf, u16_max.
  induction 1 as [|x ws Hx Hws IH]; intros Hw; simpl; [by apply Forall_singleton|].
  destruct (nw_uid x =? nw_uid w); constructor; simpl; auto. unfold u16_max. lia.
Qed.

Lemma weight_of_merge u ws w :
  NoDup (uids ws) -> Forall weight_wf ws -> weight_wf w ->
  weight_of u (merge_weight ws w) =
    if decide (u = nw_uid w) then Z.min (weight_of u ws + nw_weight w) u16_max
    else weight_of u ws.
Proof.
  intros Hnd Hwf [Hw0 Hw1]. induction Hwf as [|x ws [Hx0 Hx1] _ IH]; simpl.
  - rewrite !weight_of_cons. unfold weight_of, sum_weights. simpl.
    repeat case_decide; simplify_eq; lia.
  - apply NoDup_cons in Hnd as [Hx Hnd]. specialize (IH Hnd).
    destruct (nw_uid x =? nw_uid w) eqn:E; b2p; rewrite !weight_of_cons; simpl.
    + pose proof (weight_of_not_in _ _ Hx) as H0. rewrite E in *.
      repeat case_decide; try congruence; subst; lia.
    + rewrite IH. repeat case_decide; simplify_eq; try congruence; lia.
Qed.

Lemma sum_merge ws w :
  sum_weights (merge_weight ws w) = sum_weights ws + nw_weight w \/
  (sum_weights (merge_weight ws w) <= sum_weights ws + nw_weight w /\
   exists x, x ∈ merge_weight ws w /\ nw_weight x = u16_max).
Proof.
  induction ws as [|x ws IH]; simpl; [left; unfold sum_weights; simpl; lia|].
  destruct (nw_uid x =? nw_uid w).
  - rewrite !sum_weights_cons. simpl.
    destruct (Z.le_gt_cases (nw_weight x + nw_weight w) u16_max); [left; lia|right].
    split; [lia|]. eexists. split; [left|]. simpl. lia.
  - rewrite !sum_weights_cons. destruct IH as [-> | [? (y & ? & ?)]]; [left; lia|right].
    split; [lia|]. exists y. by split; [right|].
Qed.

(** The merge of a whole list of weights. *)
Definition merge_all (cs : list NormalizedWeight) : list NormalizedWeight :=
  fold_left merge_weight cs [].

Lemma merge_all_snoc cs c : merge_all (cs ++ [c]) = merge_weight (merge_all cs) c.
Proof. apply fold_left_app. Qed.

Lemma merge_all_wf cs :
  Forall weight_wf cs -> NoDup (uids (merge_all cs)) /\ Forall weight_wf (merge_all cs).
Proof.
  induction cs as [|c cs IH] using rev_ind; intros Hcs; [by split; constructor|].
  apply Forall_snoc in Hcs as [Hcs Hc]. destruct (IH Hcs).
  rewrite merge_all_snoc. split; [by apply merge_NoDup|by apply merge_wf].
Qed.

(** Each miner gets what is claimed for it, up to the largest weight. *)
Lemma weight_of_merge_all u cs :
  Forall weight_wf cs -> weight_of u (merge_all cs) = Z.min (weight_of u cs) u16_max.
Proof.
  induction cs as [|c cs IH] using rev_ind; intros Hcs; [done|].
  apply Forall_snoc in Hcs as [Hcs Hc].
  destruct (merge_all_wf cs Hcs) as [Hnd Hwf]. destruct Hc as [Hc0 Hc1].
  rewrite merge_all_snoc, weight_of_merge, weight_of_app, weight_of_cons by done.
  rewrite IH by done. change (weight_of u []) with 0.
  pose proof (weight_of_nonneg u cs Hcs). unfold u16_max in *.
  repeat case_decide; simplify_eq; try congruence; lia.
Qed.

Lemma elem_of_sum_le x ws : Forall weight_wf ws -> x ∈ ws -> nw_weight x <= sum_weights ws.
Proof.
  intros Hws Hx. unfold sum_weights. apply Zsum_elem_le.
  - apply Forall_fmap. eapply Forall_impl; [done|]. intros ? []. simpl. lia.
  - by apply list_elem_of_fmap_2.
Qed.

(** Nothing is lost in the merge unless some weight is at its maximum. *)
Lemma sum_merge_all cs :
  Forall weight_wf cs ->
  sum_weights (merge_all cs) = sum_weights cs \/
  (u16_max <= sum_weights (merge_all cs) <= sum_weights cs).
Proof.
  induction cs as [|c cs IH] using rev_ind; intros Hcs; [by left|].
  apply Forall_snoc in Hcs as [Hcs Hc].
  destruct (merge_all_wf cs Hcs) as [Hnd Hwf].
  pose proof (merge_wf _ _ Hwf Hc) as Hwf'. pose proof (sum_weights_nonneg _ Hwf) as Hpos.
  rewrite merge_all_snoc, sum_weights_app, sum_weights_cons.
  change (sum_weights []) with 0. destruct Hc as [Hc0 Hc1]. specialize (IH Hcs).
  destruct (sum_merge (merge_all cs) c) as [-> | [Hle (x & Hx & Ex)]]; [lia|].
  pose proof (elem_of_sum_le x _ Hwf' Hx). lia.
Qed.

(** ** Validation *)

Lemma find_duplicate_None ws seen :
  NoDup (uids ws) -> (forall u, u ∈ uids ws -> u ∉ seen) -> find_duplicate ws seen = None.
Proof.
  revert seen. induction ws as [|w ws IH]; intros seen Hnd Hs; [done|]. simpl.
  apply NoDup_cons in Hnd as [Hw Hnd]. unfold set_insert.
  rewrite bool_decide_true by (apply Hs; left). apply IH; [done|].
  intros u Hu. assert (u ∉ seen) by (apply Hs; by right).
  assert (u <> nw_uid w) by (by intros ->). set_solver.
Qed.

Lemma validate_merged cs :
  Forall weight_wf cs ->
  validate_allocation (merge_all cs) =
    if u16_max <? sum_weights (merge_all cs)
    then Err (TotalExceedsMaximum (sum_weights (merge_all cs)) u16_max) else Ok ().
Proof.
  intros Hcs. unfold validate_allocation. case_match; [done|].
  by rewrite find_duplicate_None; [|apply merge_all_wf|set_solver].
Qed.

(** ** The claims of a distribution

    The reference: every category in turn, then the burnt weight, without merging. *)

Definition category_claims (pools : gmap string Z) (entry : string * Miners)
    : list NormalizedWeight :=
  match served_pool pools entry.1 entry.2 with
  | None => []
  | Some pool => distribute_category_weight entry.2 pool
  end.

Definition burn_claim (uid total_burn : Z) : list NormalizedWeight :=
  if 0 <? total_burn then [{| nw_uid := uid; nw_weight := Z.min total_burn u16_max |}] else [].

Definition burn_of (e : WeightAllocationEngine) : Z :=
  match calculate_burn_allocation e u16_max with Some b => burn_weight b | None => 0 end.

Definition pools_of (e : WeightAllocationEngine) : gmap string Z :=
  calculate_all_category_pools e (u16_max - burn_of e).

Definition total_burn_of (e : WeightAllocationEngine) (m : gmap string Miners) : Z :=
  wrap 64 (burn_of e + empty_category_burn (pools_of e) (filter_miners_by_score e m)).

Lemma served_pool_inv e k ms pool :
  served_pool (pools_of e) k ms = Some pool -> 0 <= pool /\ ms <> [].
Proof.
  unfold served_pool. case_match eqn:E; [done|]. intros [= <-].
  apply orb_false_iff in E as [_ E%bool_decide_eq_false]. split; [|done].
  unfold pools_of, calculate_all_category_pools. rewrite lookup_fmap.
  destruct (gpu_allocations _ !! k); simpl; [by apply f64_to_uint_range|done].
Qed.

Section Claims.
Context `{HashOrder}.

Definition claims (n : nat) (e : WeightAllocationEngine) (m : gmap string Miners)
    : list NormalizedWeight :=
  concat (category_claims (pools_of e) <$> iter n "filtered_miners" (filter_miners_by_score e m))
  ++ burn_claim (burn_uid (emission_config e)) (total_burn_of e m).

Lemma serve_categories_merge remaining pools entries acc :
  (fold_left (serve_category remaining pools) entries acc).1 =
    fold_left merge_weight (concat (category_claims pools <$> entries)) acc.1.
Proof.
  revert acc. induction entries as [|[k ms] entries IH]; intros acc; [done|].
  simpl. rewrite fold_left_app, IH. f_equal. unfold category_claims. simpl.
  by destruct (served_pool pools k ms).
Qed.

Lemma calculate_weight_distribution_unfold n e m :
  exists d,
    calculate_weight_distribution n e m =
      match validate_allocation (merge_all (claims n e m)) with
      | Err err => Err err
      | Ok _ => Ok d
      end /\
    weights d = merge_all (claims n e m).
Proof.
  unfold calculate_weight_distribution. fold (burn_of e). fold (pools_of e).
  fold (total_burn_of e m).
  destruct (fold_left _ _ _) as [ws cas] eqn:E.
  assert (Hm : (if 0 <? total_burn_of e m
                then merge_weight ws {| nw_uid := burn_uid (emission_config e);
                                        nw_weight := Z.min (total_burn_of e m) u16_max |}
                else ws) = merge_all (claims n e m)).
  { unfold merge_all, claims. rewrite fold_left_app.
    pose proof (serve_categories_merge (u16_max - burn_of e) (pools_of e)
      (iter n "filtered_miners" (filter_miners_by_score e m)) ([], ∅)) as Hs.
    rewrite E in Hs. simpl in Hs. rewrite <- Hs. unfold burn_claim. by case_match. }
  rewrite Hm. eexists. split; reflexivity.
Qed.
End Claims.

(** ** Every claim is a positive 16-bit weight *)

Lemma distribute_equally_wf miners pool : Forall weight_wf (distribute_equally miners pool).
Proof.
  destruct miners as [|m ms]; [constructor|]. unfold distribute_equally.
  pose proof (wrap_range 16 (pool / Z.of_nat (length (m :: ms))) ltac:(lia)) as Hr.
  change (2 ^ 16) with 65536 in Hr.
  destruct (0 <? _) eqn:E; [|constructor]. b2p. apply Forall_fmap, Forall_true.
  intros x. unfold compose, weight_wf, u16_max. cbn [nw_weight]. lia.
Qed.

Lemma distribute_by_score_wf pool total miners a :
  Forall weight_wf (distribute_by_score pool total miners a).
Proof.
  revert a. induction miners as [|[u s] miners IH]; intros a; [constructor|].
  simpl. destruct (0 <? _) eqn:E; [|apply IH]. b2p.
  constructor; [|apply IH]. unfold weight_wf. simpl. lia.
Qed.

Lemma distribute_category_wf miners pool :
  Forall weight_wf (distribute_category_weight miners pool).
Proof.
  destruct miners; [constructor|]. unfold distribute_category_weight.
  case_match; [apply distribute_equally_wf|apply distribute_by_score_wf].
Qed.

Lemma claims_wf `{HashOrder} n e m : Forall weight_wf (claims n e m).
Proof.
  apply Forall_app. split.
  - apply Forall_concat, Forall_fmap, Forall_true. intros [k ms]. unfold category_claims. simpl.
    case_match; [apply distribute_category_wf|constructor].
  - unfold burn_claim. destruct (0 <? _) eqn:E; [|constructor]. b2p.
    apply Forall_singleton. unfold weight_wf, u16_max. simpl. lia.
Qed.

#[export] Hint Resolve claims_wf distribute_category_wf : basilica.

(** ** What a category spends *)

(** The shares of all miners but the last, clamped to 16 bits. *)
Definition early_shares (pool : Z) (total : f64) (miners : Miners) : Z :=
  Zsum ((fun m => Z.min (proportional_share pool total m.2) u16_max) <$> removelast miners).

Lemma proportional_share_nonneg pool total s : 0 <= proportional_share pool total s.
Proof. apply f64_to_uint_range. done. Qed.

Lemma early_shares_cons pool total m m' ms :
  early_shares pool total (m :: m' :: ms) =
    Z.min (proportional_share pool total m.2) u16_max + early_shares pool total (m' :: ms).
Proof. done. Qed.

Lemma distribute_by_score_cons pool total u s m ms a :
  distribute_by_score pool total ((u, s) :: m :: ms) a =
    let w := Z.min (proportional_share pool total s) u16_max in
    if 0 <? w
    then {| nw_uid := u; nw_weight := w |}
           :: distribute_by_score pool total (m :: ms) (wrap 64 (a + w))
    else distribute_by_score pool total (m :: ms) a.
Proof. done. Qed.

Lemma early_shares_bounds pool total ms :
  0 <= early_shares pool total ms <= u16_max * Z.of_nat (length ms).
Proof.
  induction ms as [|m [|m' ms] IH]; [done|done|].
  rewrite early_shares_cons. pose proof (proportional_share_nonneg pool total m.2).
  cbn [length] in *. unfold u16_max in *. lia.
Qed.

Lemma distribute_by_score_sum pool total ms a :
  ms <> [] -> 0 <= a -> a + early_shares pool total ms < 2 ^ 64 ->
  sum_weights (distribute_by_score pool total ms a) =
    early_shares pool total ms
    + Z.min (wrap 64 (pool - (a + early_shares pool total ms))) u16_max.
Proof.
  intros Hms. revert a. induction ms as [|[u s] ms IH]; [done|]. intros a Ha Hlt.
  destruct ms as [|m ms].
  - simpl. change (early_shares pool total [(u, s)]) with 0 in *. rewrite Z.add_0_r.
    pose proof (wrap_range 64 (pool - a) ltac:(lia)) as Hw.
    set (w := wrap 64 (pool - a)) in *. clearbody w.
    destruct (0 <? _) eqn:E; b2p; unfold sum_weights, u16_max in *; cbn; lia.
  - rewrite distribute_by_score_cons. cbv zeta. rewrite early_shares_cons in *. cbn [snd] in *.
    pose proof (proportional_share_nonneg pool total s).
    pose proof (early_shares_bounds pool total (m :: ms)) as Hb.
    destruct (0 <? _) eqn:E; b2p.
    + rewrite sum_weights_cons. cbn [nw_weight]. rewrite wrap_small by (unfold u16_max in *; lia).
      rewrite IH by (done || (unfold u16_max in *; lia)).
      rewrite (Z.add_assoc a), Z.add_assoc. done.
    + assert (Z.min (proportional_share pool total s) u16_max = 0) as E0
        by (unfold u16_max in *; lia).
      rewrite E0 in *. rewrite IH by (done || lia). by rewrite Z.add_0_l.
Qed.

(** A number of miners that no subnet comes near, so that sums stay below 64 bits. *)
Definition reasonable (ms : Miners) : Prop := Z.of_nat (length ms) <= 2 ^ 40.

Lemma by_score_spends_pool pool total ms :
  ms <> [] -> reasonable ms -> 0 <= pool <= u16_max ->
  early_shares pool total ms <= pool ->
  sum_weights (distribute_by_score pool total ms 0) = pool.
Proof.
  intros Hms Hr Hp He. pose proof (early_shares_bounds pool total ms) as Hb.
  unfold reasonable, u16_max in *. rewrite distribute_by_score_sum by (done || lia).
  rewrite wrap_small by lia. unfold u16_max. lia.
Qed.

(** When the shares before the last do not fit, the subtraction wraps and the last
    miner is given the largest weight. *)
Lemma distribute_by_score_last pool total ms u s a :
  0 <= a -> a + early_shares pool total (ms ++ [(u, s)]) < 2 ^ 64 ->
  exists ws, distribute_by_score pool total (ms ++ [(u, s)]) a =
    ws ++ (let w := Z.min (wrap 64 (pool - (a + early_shares pool total (ms ++ [(u, s)])))) u16_max in
           if 0 <? w then [{| nw_uid := u; nw_weight := w |}] else []) /\
    sum_weights ws = early_shares pool total (ms ++ [(u, s)]) /\
    (forall w, w ∈ ws -> nw_uid w ∈ ms.*1).
Proof.
  revert a. induction ms as [|[v t] ms IH]; intros a Ha Hlt.
  - exists []. change (early_shares pool total ([] ++ [(u, s)])) with 0 in *.
    rewrite Z.add_0_r. split_and!; [done|done|]. intros w Hw. by apply elem_of_nil in Hw.
  - simpl app in *. destruct (ms ++ [(u, s)]) as [|m ms'] eqn:Em; [by destruct ms|].
    rewrite distribute_by_score_cons. cbv zeta. rewrite early_shares_cons in *. cbn [snd] in *.
    pose proof (proportional_share_nonneg pool total t).
    pose proof (early_shares_bounds pool total (m :: ms')) as Hb.
    set (w := Z.min (proportional_share pool total t) u16_max) in *.
    assert (0 <= w) by (subst w; unfold u16_max; lia).
    destruct (IH (a + w)) as (ws & E & Hsum & Hin); [lia|lia|].
    rewrite <- Z.add_assoc in E. destruct (0 <? w) eqn:Ew; b2p.
    + rewrite wrap_small by lia. exists ({| nw_uid := v; nw_weight := w |} :: ws).
      rewrite E, sum_weights_cons, Hsum. split_and!; [done|done|].
      intros x [-> | Hx]%elem_of_cons; [left|right; by apply Hin].
    + assert (w = 0) as E0 by lia. rewrite E0, Z.add_0_r in E. exists ws.
      rewrite E, Hsum, E0. split_and!; [done|lia|].
      intros x Hx. right. by apply Hin.
Qed.

Lemma distribute_equally_sum pool ms :
  ms <> [] -> reasonable ms -> 0 <= pool <= u16_max ->
  sum_weights (distribute_equally ms pool) =
    Z.of_nat (length ms) * (pool / Z.of_nat (length ms)).
Proof.
  intros Hms Hr Hp. assert (0 < Z.of_nat (length ms)) as Hn by (destruct ms; [done|simpl; lia]).
  assert (0 <= pool / Z.of_nat (length ms) <= pool) as Hd.
  { split; [apply Z.div_pos; lia|]. apply Z.div_le_upper_bound; nia. }
  unfold distribute_equally. destruct ms as [|m ms]; [done|].
  rewrite wrap_small by (unfold u16_max in *; lia).
  set (w := pool / Z.of_nat (length (m :: ms))) in *.
  assert (forall l : Miners, sum_weights ((fun m => {| nw_uid := fst m; nw_weight := w |}) <$> l)
            = Z.of_nat (length l) * w) as Hl.
  { induction l as [|x l IH]; [done|]. rewrite fmap_cons, sum_weights_cons, IH.
    cbn [length nw_weight]. lia. }
  destruct (0 <? w) eqn:Ew; b2p; [apply Hl|].
  assert (w = 0) as -> by lia. unfold sum_weights. simpl. lia.
Qed.

(** ** A merged vector is determined by the weight of each UID *)

Lemma weight_of_unique w ws : NoDup (uids ws) -> w ∈ ws -> weight_of (nw_uid w) ws = nw_weight w.
Proof.
  induction ws as [|x ws IH]; intros Hnd Hw; [by apply elem_of_nil in Hw|].
  apply NoDup_cons in Hnd as [Hx Hnd]. rewrite weight_of_cons.
  apply elem_of_cons in Hw as [-> | Hw].
  - rewrite decide_True, weight_of_not_in by done. lia.
  - rewrite decide_False, IH by (done || (intros E; apply Hx; rewrite E; by apply list_elem_of_fmap_2)).
    lia.
Qed.

Lemma weight_of_positive u ws : 0 < weight_of u ws -> exists w, w ∈ ws /\ nw_uid w = u.
Proof.
  intros Hu. destruct (decide (u ∈ uids ws)) as [(w & -> & Hw)%list_elem_of_fmap | Hn]; [eauto|].
  rewrite weight_of_not_in in Hu by done. lia.
Qed.

Lemma elem_of_by_weight w ws :
  NoDup (uids ws) -> Forall weight_wf ws ->
  w ∈ ws <-> 0 < nw_weight w /\ weight_of (nw_uid w) ws = nw_weight w.
Proof.
  intros Hnd Hwf. split.
  - intros Hw. split; [|by apply weight_of_unique].
    by apply (proj1 (Forall_forall _ _) Hwf).
  - intros [Hpos E]. destruct (weight_of_positive (nw_uid w) ws) as (x & Hx & Ex); [lia|].
    rewrite <- Ex, (weight_of_unique x ws Hnd Hx) in E. destruct w, x; simpl in *. by subst.
Qed.

Lemma merged_Permutation ws ws' :
  NoDup (uids ws) -> Forall weight_wf ws -> NoDup (uids ws') -> Forall weight_wf ws' ->
  (forall u, weight_of u ws = weight_of u ws') -> ws ≡ₚ ws'.
Proof.
  intros Hnd Hwf Hnd' Hwf' E.
  apply NoDup_Permutation; [by eapply NoDup_fmap_1|by eapply NoDup_fmap_1|].
  intros w. rewrite !elem_of_by_weight by done. by rewrite E.
Qed.

#[export] Instance sum_weights_proper : Proper ((≡ₚ) ==> (=)) sum_weights.
Proof. intros ws ws' E. unfold sum_weights. by rewrite E. Qed.

#[export] Instance weight_of_proper u : Proper ((≡ₚ) ==> (=)) (weight_of u).
Proof. intros ws ws' E. unfold weight_of. by rewrite E. Qed.

Lemma concat_Permutation {A B} (f : A -> list B) l l' :
  l ≡ₚ l' -> concat (f <$> l) ≡ₚ concat (f <$> l').
Proof.
  induction 1; simpl; [done| | |by etrans].
  - by f_equiv.
  - rewrite !(assoc_L (++)). by rewrite (Permutation_app_comm (f y)).
Qed.

(** Whatever the iteration order, the claims are the same up to their order, and so is
    the merged vector. *)
Lemma claims_Permutation (o o' : HashOrder) n n' e m : @claims o n e m ≡ₚ @claims o' n' e m.
Proof.
  unfold claims. f_equiv. apply concat_Permutation.
  by rewrite (@iter_Permutation o), (@iter_Permutation o').
Qed.

Lemma merge_claims_Permutation (o o' : HashOrder) n n' e m :
  merge_all (@claims o n e m) ≡ₚ merge_all (@claims o' n' e m).
Proof.
  pose proof (@claims_wf o n e m) as Hw. pose proof (@claims_wf o' n' e m) as Hw'.
  destruct (merge_all_wf _ Hw), (merge_all_wf _ Hw'). apply merged_Permutation; [done..|].
  intros u. rewrite !weight_of_merge_all by done. by rewrite (claims_Permutation o o' n n').
Qed.

(** The other fields of a distribution, as functions of its vector. *)
Lemma calculate_weight_distribution_served `{HashOrder} n e m d :
  calculate_weight_distribution n e m = Ok d ->
  miners_served d =
    wrap 32 (wrap 32 (Z.of_nat (length (weights d))) - (if 0 <? total_burn_of e m then 1 else 0)).
Proof.
  unfold calculate_weight_distribution. fold (burn_of e). fold (pools_of e).
  fold (total_burn_of e m). destruct (fold_left _ _ _) as [ws cas].
  case_match; [|done]. intros [= <-]. done.
Qed.

(** What acceptance says about the merged claims. *)
Lemma accepted_inv `{HashOrder} n e m d :
  calculate_weight_distribution n e m = Ok d ->
  weights d = merge_all (claims n e m) /\ sum_weights (weights d) <= u16_max.
Proof.
  destruct (calculate_weight_distribution_unfold n e m) as (d' & -> & Hw).
  rewrite validate_merged by auto with basilica. rewrite <- Hw.
  destruct (u16_max <? _) eqn:E; [done|]. b2p. intros [= <-]. auto.
Qed.

Lemma accepted_wf `{HashOrder} n e m d :
  calculate_weight_distribution n e m = Ok d -> Forall weight_wf (weights d).
Proof. intros [-> _]%accepted_inv. apply merge_all_wf, claims_wf. Qed.

(** ** Where weights come from *)

Lemma uids_merge_all u cs : u ∈ uids (merge_all cs) -> u ∈ uids cs.
Proof.
  induction cs as [|c cs IH] using rev_ind; [done|].
  rewrite merge_all_snoc, uids_merge. unfold uids in *. rewrite fmap_app, elem_of_app.
  case_decide; [auto|]. rewrite elem_of_app. intros [Hu | Hu]; auto.
Qed.

Lemma distribute_by_score_uids pool total ms a u :
  u ∈ uids (distribute_by_score pool total ms a) -> u ∈ ms.*1.
Proof.
  revert a. induction ms as [|[v sc] ms IH]; intros a; simpl; [done|].
  destruct (0 <? _); unfold uids in *; simpl; rewrite ?elem_of_cons; [|by eauto].
  intros [-> | Hu]; [auto|eauto].
Qed.

Lemma distribute_category_uids ms pool u :
  u ∈ uids (distribute_category_weight ms pool) -> u ∈ ms.*1.
Proof.
  destruct ms as [|m0 ms]; [done|]. unfold distribute_category_weight. cbv zeta.
  case_match; [|apply distribute_by_score_uids].
  unfold distribute_equally. case_match; [|by intros ?%elem_of_nil].
  unfold uids. rewrite <- list_fmap_compose. done.
Qed.

(** A claim is the burn or comes from a miner of a configured category. *)
Lemma claims_uids `{HashOrder} n e m u :
  u ∈ uids (claims n e m) ->
  u = burn_uid (emission_config e) \/
  exists k ms, m !! k = Some ms /\ u ∈ ms.*1 /\ has_gpu_model (emission_config e) k = true.
Proof.
  unfold claims, uids. rewrite fmap_app, elem_of_app. intros [Hu | Hu].
  - right. apply list_elem_of_fmap in Hu as (c & -> & Hc).
    apply list_elem_of_In, in_concat in Hc as (l & Hl%list_elem_of_In & Hc%list_elem_of_In).
    apply list_elem_of_fmap in Hl as ([k ms] & -> & Hk%elem_of_iter).
    apply map_lookup_filter_Some in Hk as [Hk _]. exists k, ms. split; [done|].
    revert Hc. unfold category_claims, served_pool, has_gpu_model. simpl.
    unfold pools_of, calculate_all_category_pools. rewrite lookup_fmap.
    destruct (gpu_allocations _ !! k) as [a|]; simpl; [|by intros ?%elem_of_nil].
    case_match; [|by intros ?%elem_of_nil]. intros Hc. split; [|done].
    eapply distribute_category_uids. by apply list_elem_of_fmap_2.
  - left. revert Hu. unfold burn_claim. case_match; simpl; [|by intros ?%elem_of_nil].
    by intros ?%list_elem_of_singleton.
Qed.
