(* ===== verification/AllocationClaims.v ===== *)
(** * Properties of the weight allocation *)

From stdpp Require Import base gmap strings list.
From S2P Require Import Prelude.
From S2P Require Import Float64.
From S2P Require Import Collections.
From S2P Require Import Emission.
From S2P Require Import WeightAllocation.
From S2P Require Import AllocationFacts.
Local Open Scope Z_scope.

Lemma merged_sum_when_accepted cs :
  Forall weight_wf cs -> sum_weights (merge_all cs) <= u16_max ->
  sum_weights (merge_all cs) = Z.min (sum_weights cs) u16_max.
Proof. intros Hcs Hle. destruct (sum_merge_all cs Hcs); lia. Qed.

Lemma weight_of_two_le u v ws :
  u <> v -> Forall weight_wf ws -> weight_of u ws + weight_of v ws <= sum_weights ws.
Proof.
  intros Huv. induction 1 as [|w ws [Hw _] Hws IH]; [done|].
  rewrite !weight_of_cons, sum_weights_cons. repeat case_decide; simplify_eq; lia.
Qed.

Lemma weight_of_elem w ws : Forall weight_wf ws -> w ∈ ws -> nw_weight w <= weight_of (nw_uid w) ws.
Proof.
  intros Hws Hw. apply elem_of_sum_le.
  - apply Forall_forall. intros x [_ Hx]%list_elem_of_filter. by eapply Forall_forall in Hx.
  - by apply list_elem_of_filter.
Qed.

Lemma weight_of_concat_le u ws wss :
  Forall (Forall weight_wf) wss -> ws ∈ wss -> weight_of u ws <= weight_of u (concat wss).
Proof.
  induction 1 as [|x wss Hx Hwss IH]; intros Hin; [by apply elem_of_nil in Hin|].
  simpl. rewrite weight_of_app. apply elem_of_cons in Hin as [-> | Hin].
  - pose proof (weight_of_nonneg u (concat wss) (proj2 (Forall_concat _ _) Hwss)). lia.
  - specialize (IH Hin). pose proof (weight_of_nonneg u x Hx). lia.
Qed.

(** Shares that overflow the pool give the last miner the largest weight and some
    other miner a positive one. *)
Lemma overfull_claims ms pool :
  f64_leb (miners_total_score ms) f64_zero = false ->
  reasonable ms -> NoDup ms.*1 -> 0 <= pool <= u16_max ->
  pool < early_shares pool (miners_total_score ms) ms ->
  exists u v, u <> v /\ u16_max <= weight_of u (distribute_category_weight ms pool) /\
    1 <= weight_of v (distribute_category_weight ms pool).
Proof.
  intros Hs Hr Hnd Hpool Hgt.
  assert (Hd : ms <> [] -> distribute_category_weight ms pool =
    distribute_by_score pool (miners_total_score ms) ms 0).
  { destruct ms; [done|]. intros _. unfold distribute_category_weight. cbv zeta. by rewrite Hs. }
  revert Hd Hgt. generalize (miners_total_score ms). intros total Hd Hgt. clear Hs.
  destruct ms as [|[u s] ms' _] using rev_ind; [unfold early_shares in Hgt; simpl in Hgt; lia|].
  rewrite Hd by (by destruct ms').
  pose proof (early_shares_bounds pool total (ms' ++ [(u, s)])) as Hb. unfold reasonable in Hr.
  destruct (distribute_by_score_last pool total ms' u s 0) as (ws & E & Hsum & Hin);
    [lia|unfold u16_max in *; lia|].
  rewrite Z.add_0_l in E. cbv zeta in E.
  assert (Hwrap : Z.min (wrap 64 (pool - early_shares pool total (ms' ++ [(u, s)]))) u16_max
    = u16_max).
  { unfold wrap. rewrite <- (Z_mod_plus_full _ 1), Z.mod_small; unfold u16_max in *; lia. }
  rewrite Hwrap in E. change (0 <? u16_max) with true in E. cbn iota in E.
  pose proof (distribute_by_score_wf pool total (ms' ++ [(u, s)]) 0) as Hwf.
  rewrite E in Hwf |- *. destruct ws as [|w ws];
    [unfold sum_weights in Hsum; simpl in Hsum; lia|].
  rewrite fmap_app in Hnd. apply NoDup_app in Hnd as (_ & Hdis & _).
  exists u, (nw_uid w). split_and!.
  - intros ->. apply (Hdis (nw_uid w)); [apply Hin; left|left].
  - apply (weight_of_elem {| nw_uid := u; nw_weight := u16_max |} _ Hwf).
    apply elem_of_app. right. left.
  - assert (w ∈ (w :: ws) ++ [{| nw_uid := u; nw_weight := u16_max |}]) as Hw by left.
    pose proof (weight_of_elem w _ Hwf Hw). pose proof (proj1 (Forall_forall _ _) Hwf w Hw) as [? ?]. lia.
Qed.

Section Accepted.
Context `{HashOrder}.

(** The claims of a served category are part of the claims of the distribution. *)
Lemma category_weight_le n e m k ms u :
  filter_miners_by_score e m !! k = Some ms ->
  weight_of u (category_claims (pools_of e) (k, ms)) <= weight_of u (claims n e m).
Proof.
  intros Hk. unfold claims. rewrite weight_of_app.
  assert (Hwf : Forall (Forall weight_wf)
    (category_claims (pools_of e) <$> iter n "filtered_miners" (filter_miners_by_score e m))).
  { apply Forall_fmap, Forall_true. intros [k' ms']. unfold compose, category_claims. simpl.
    case_match; [apply distribute_category_wf|constructor]. }
  pose proof (claims_wf n e m) as Hc. apply Forall_app in Hc as [_ Hb].
  pose proof (weight_of_nonneg u _ Hb).
  pose proof (weight_of_concat_le u (category_claims (pools_of e) (k, ms)) _ Hwf) as Hle.
  assert (category_claims (pools_of e) (k, ms) ∈
    category_claims (pools_of e) <$> iter n "filtered_miners" (filter_miners_by_score e m))
    by (apply list_elem_of_fmap_2, elem_of_iter; done).
  specialize (Hle ltac:(done)). lia.
Qed.

(** In an accepted distribution the shares before the last fit into the pool. *)
Lemma accepted_shares_fit n e m d k ms pool :
  calculate_weight_distribution n e m = Ok d ->
  filter_miners_by_score e m !! k = Some ms ->
  served_pool (pools_of e) k ms = Some pool ->
  f64_leb (miners_total_score ms) f64_zero = false ->
  reasonable ms -> NoDup ms.*1 -> 0 <= pool <= u16_max ->
  early_shares pool (miners_total_score ms) ms <= pool.
Proof.
  intros Hd Hk Hp Hs Hr Hnd Hpool.
  destruct (Z.le_gt_cases (early_shares pool (miners_total_score ms) ms) pool) as [? | Hgt];
    [done|exfalso].
  destruct (overfull_claims ms pool) as (u & v & Huv & Hu & Hv); [done..|].
  apply accepted_inv in Hd as [Hw Hle]. rewrite Hw in Hle.
  pose proof (claims_wf n e m) as Hc. destruct (merge_all_wf _ Hc) as [_ Hmwf].
  pose proof (weight_of_two_le u v _ Huv Hmwf) as H2.
  rewrite !weight_of_merge_all in H2 by done.
  pose proof (category_weight_le n e m k _ u Hk) as Hu'.
  pose proof (category_weight_le n e m k _ v Hk) as Hv'.
  unfold category_claims in Hu', Hv'. simpl in Hu', Hv'. rewrite Hp in Hu', Hv'.
  unfold u16_max in *. lia.
Qed.
End Accepted.

(** C33: the weight vector refines the claims.  An accepted distribution has each UID
    once, with exactly the weight its categories and the burn claim for it, cut at the
    largest weight; the total is the total of the claims cut the same way.  A refusal
    happens only because the total exceeds the maximum, never because of a repeated
    UID. *)
Theorem weight_distribution_refines_claims `{HashOrder} n e m :
  match calculate_weight_distribution n e m with
  | Ok d =>
      NoDup (uids (weights d)) /\
      (forall u, weight_of u (weights d) = Z.min (weight_of u (claims n e m)) u16_max) /\
      sum_weights (weights d) = Z.min (sum_weights (claims n e m)) u16_max
  | Err err =>
      exists total, err = TotalExceedsMaximum total u16_max /\
        u16_max < total <= sum_weights (claims n e m)
  end.
Proof.
  destruct (calculate_weight_distribution_unfold n e m) as (d & -> & Hw).
  pose proof (claims_wf n e m) as Hwf. rewrite validate_merged by done. rewrite <- Hw.
  destruct (u16_max <? _) eqn:E; b2p; rewrite Hw in *.
  - eexists. split; [done|]. destruct (sum_merge_all _ Hwf); lia.
  - split_and!; [by apply merge_all_wf| |by apply merged_sum_when_accepted].
    intros u. by apply weight_of_merge_all.
Qed.

(** C34: a served category spends its pool.  In an accepted distribution, a category
    with distinct miners, a 16-bit pool and a positive total score hands out its whole
    pool to the unit: the subtraction for the last miner never wraps.  With a total
    score of zero every miner gets the same share and less than one unit per miner is
    left over.  Every miner's final weight covers its share. *)
Theorem served_category_spends_pool `{HashOrder} n e m d k ms pool :
  calculate_weight_distribution n e m = Ok d ->
  filter_miners_by_score e m !! k = Some ms ->
  served_pool (pools_of e) k ms = Some pool ->
  reasonable ms -> NoDup ms.*1 -> pool <= u16_max ->
  sum_weights (distribute_category_weight ms pool) =
    (if f64_leb (miners_total_score ms) f64_zero
     then Z.of_nat (length ms) * (pool / Z.of_nat (length ms)) else pool) /\
  forall u, weight_of u (distribute_category_weight ms pool) <= weight_of u (weights d).
Proof.
  intros Hd Hk Hp Hr Hnd Hpool.
  destruct (served_pool_inv e k ms pool Hp) as [Hpos Hms].
  assert (Hsum : sum_weights (distribute_category_weight ms pool) =
    if f64_leb (miners_total_score ms) f64_zero
    then Z.of_nat (length ms) * (pool / Z.of_nat (length ms)) else pool).
  { destruct ms as [|m0 ms']; [done|]. unfold distribute_category_weight. cbv zeta.
    destruct (f64_leb _ _) eqn:Es; [by apply distribute_equally_sum|].
    apply by_score_spends_pool; [done..|]. by eapply accepted_shares_fit. }
  split; [done|]. intros u. apply accepted_inv in Hd as [-> Hle].
  rewrite weight_of_merge_all by apply claims_wf.
  pose proof (category_weight_le n e m k ms u Hk) as Hu. unfold category_claims in Hu.
  simpl in Hu. rewrite Hp in Hu. apply Z.min_glb; [done|].
  pose proof (weight_of_le_sum u _ (distribute_category_wf ms pool)).
  rewrite Hsum in *. pose proof (Z.mul_div_le pool (Z.of_nat (length ms))).
  destruct (f64_leb _ _), ms; simpl in *; try done; lia.
Qed.

(** The order in which hash maps are iterated does not matter.  Two runs on the
    same input, with any two orders, both fail with the same total or both succeed with
    the same entries, in some order, and the same number of miners served. *)
Theorem weight_distribution_order_independent (o o' : HashOrder) n n' e m :
  match @calculate_weight_distribution o n e m, @calculate_weight_distribution o' n' e m with
  | Ok d, Ok d' => weights d ≡ₚ weights d' /\ miners_served d = miners_served d'
  | Err err, Err err' => err = err'
  | _, _ => False
  end.
Proof.
  destruct (@calculate_weight_distribution_unfold o n e m) as (d & E & Hw).
  destruct (@calculate_weight_distribution_unfold o' n' e m) as (d' & E' & Hw').
  pose proof (@calculate_weight_distribution_served o n e m d) as Hs.
  pose proof (@calculate_weight_distribution_served o' n' e m d') as Hs'.
  pose proof (merge_claims_Permutation o o' n n' e m) as HP.
  assert (Hsum : sum_weights (merge_all (@claims o n e m)) =
    sum_weights (merge_all (@claims o' n' e m))) by (by rewrite HP).
  rewrite validate_merged in E, E' by apply claims_wf. rewrite Hsum in E.
  destruct (u16_max <? _); rewrite E, E'; [done|].
  rewrite (Hs E), (Hs' E'), Hw, Hw'. split; [done|]. by rewrite HP.
Qed.

(** ** A concrete run *)

Definition engine : WeightAllocationEngine :=
  WeightAllocationEngine_new EmissionConfig_for_testing f64_zero.

Definition h100_miners : Miners := [(1, f64_lit 1 2); (2, f64_lit 1 4); (3, f64_lit 1 3)].

Definition some_miners : gmap string Miners :=
  <["H100" := h100_miners]> (<["A100" := [(1, f64_of_Z 1)]]> ∅).

Lemma served_category_spends_pool_witness :
  match @calculate_weight_distribution storage_order 0 engine some_miners with
  | Ok d =>
      sum_weights (distribute_category_weight h100_miners 7077) = 7077 /\
      weight_of 1 (distribute_category_weight h100_miners 7077) <= weight_of 1 (weights d)
  | Err _ => False
  end.
Proof.
  destruct (calculate_weight_distribution _ _ _) as [d | err] eqn:E;
    [|vm_compute in E; discriminate E].
  destruct (@served_category_spends_pool storage_order 0 engine some_miners d "H100" h100_miners
    7077) as [Hs Hw].
  - exact E.
  - vm_compute. reflexivity.
  - vm_compute. reflexivity.
  - vm_compute. discriminate.
  - apply (bool_decide_unpack _). vm_compute. exact I.
  - vm_compute. discriminate.
  - split; [exact Hs|apply Hw].
Defined.

(** ** A configuration that is valid and cannot be used

    [validate] tolerates totals up to 100.01 percent, the allocation none: with miners
    in both categories the pools add up to more than the largest total. *)

Definition tolerated_config : EmissionConfig :=
  with_allocations EmissionConfig_default
    (<["H100" := GpuAllocation_new (f64_lit 500045 10000)]>
      (<["A100" := GpuAllocation_new (f64_lit 500045 10000)]> ∅)).

Lemma tolerated_config_is_refused :
  @EmissionConfig_validate storage_order 0 tolerated_config = Ok () /\
  @calculate_weight_distribution storage_order 0
    (WeightAllocationEngine_new tolerated_config f64_zero) some_miners
  = Err (TotalExceedsMaximum 65540 65535).
Proof. split; vm_compute; reflexivity. Qed.

(** A weight that is not a number passes every comparison of [validate]. *)
Lemma nan_weight_is_accepted :
  @EmissionConfig_validate storage_order 0
    (with_allocations EmissionConfig_default
       {["H100" := GpuAllocation_new SpecFloat.S754_nan]}) = Ok ().
Proof. vm_compute. reflexivity. Qed.
