(* ===== verification/ValidatorWorld.v ===== *)
(** * Validator: database, chain and effects

    The SQLite tables the validator's scoring and weight setting work on
    (persistence/simple_persistence.rs, run_migrations), the chain as an environment,
    and the effect monad of the code that uses them.  A program reads an environment,
    indexed by the number of interactions so far: the clock, which statements fail, how
    file writes end, what the chain answers.  It transforms a world: the tables, the
    key-value storage, the block of the last weight setting and the weight vectors the
    chain accepted.  Errors are values; a panic ends the task and no handler sees it.

    Timestamps are written by [to_rfc3339] and read back unchanged, so they are instants
    (nanoseconds in Z); the columns with default [CURRENT_TIMESTAMP], which no modelled
    query reads, are left out.  SQLite's [AVG] is a parameter. *)

From stdpp Require Import base gmap strings.
From stdpp Require Import base gmap strings list.
From Stdlib Require Import ZArith.
From S2P Require Import Prelude.
From S2P Require Import Text.
From S2P Require Import Float64.
From S2P Require Import Decimal.
From S2P Require Import Collections.
From S2P Require Import WeightAllocation.
Local Open Scope Z_scope.

(** ** Key-value storage: storage.rs of the common crate

    [MemoryStorage] keeps text values in memory and, when it was opened on a file,
    rewrites that file after every change.  The file is truncated before it is written,
    so a write can fail before or after the old contents are gone.  The JSON text of a
    map reads back as that map.  [get_f64] and [set_f64], which nothing modelled uses,
    are left out. *)

(** The file behind a storage: absent, a JSON map, or the rest of a torn write. *)
Inductive StorageFile :=
  | NoFile
  | JsonFile (contents : gmap string string)
  | TornFile.

Record MemoryStorage := {
  data : gmap string string;
  file : option StorageFile   (* [None]: no [file_path] *)
}.

(** How a write to the file ends. *)
Inductive SaveOutcome :=
  | SaveOk
  | SaveRefused               (* the directory or the file cannot be opened *)
  | SaveTorn.                 (* truncated, then an error while writing *)

Definition StorageResult (A : Type) : Type := result string A * MemoryStorage.

Definition MemoryStorage_new : MemoryStorage := {| data := ∅; file := None |}.

(** Contents that do not parse are ignored, an unreadable file too. *)
Definition load_from_file (s : MemoryStorage) : MemoryStorage :=
  match file s with
  | Some (JsonFile m) => {| data := m; file := file s |}
  | _ => s
  end.

Definition MemoryStorage_with_file (f : StorageFile) : MemoryStorage :=
  load_from_file {| data := ∅; file := Some f |}.

Definition save_to_file (o : SaveOutcome) (s : MemoryStorage) : StorageResult () :=
  match file s with
  | None => (Ok (), s)
  | Some _ =>
      match o with
      | SaveOk => (Ok (), {| data := data s; file := Some (JsonFile (data s)) |})
      | SaveRefused => (Err "save_to_file", s)
      | SaveTorn => (Err "save_to_file", {| data := data s; file := Some TornFile |})
      end
  end.

(** The map in memory changes first, whatever becomes of the file. *)
Definition set_string (o : SaveOutcome) (k v : string) (s : MemoryStorage) : StorageResult () :=
  save_to_file o {| data := <[k := v]> (data s); file := file s |}.

Definition get_string (k : string) (s : MemoryStorage) : option string := data s !! k.

Definition get_i64 (k : string) (s : MemoryStorage) : option Z := data s !! k ≫= parse_i64.

Definition set_i64 (o : SaveOutcome) (k : string) (v : Z) (s : MemoryStorage) : StorageResult () :=
  set_string o k (show_int v) s.

Definition storage_delete (o : SaveOutcome) (k : string) (s : MemoryStorage) : StorageResult bool :=
  match data s !! k with
  | None => (Ok false, s)
  | Some _ =>
      let '(r, s') := save_to_file o {| data := delete k (data s); file := file s |} in
      (match r with Ok _ => Ok true | Err e => Err e end, s')
  end.

Definition storage_exists (k : string) (s : MemoryStorage) : bool :=
  bool_decide (is_Some (data s !! k)).

(** [current + 1] wraps at 64 bits in a release build. *)
Definition storage_increment (o : SaveOutcome) (k : string) (s : MemoryStorage) : StorageResult Z :=
  let current := default 0 (get_i64 k s) in
  let new_value := wrap_signed 64 (current + 1) in
  let '(r, s') := save_to_file o {| data := <[k := show_int new_value]> (data s); file := file s |} in
  (match r with Ok _ => Ok new_value | Err e => Err e end, s').

(** ** Facts *)

Lemma set_i64_data o k v s : data (set_i64 o k v s).2 = <[k := show_int v]> (data s).
Proof. unfold set_i64, set_string, save_to_file. simpl. by repeat case_match. Qed.

Lemma set_string_data o k v s : data (set_string o k v s).2 = <[k := v]> (data s).
Proof. unfold set_string, save_to_file. simpl. by repeat case_match. Qed.

(** A stored number reads back, also when the file could not be written. *)
Lemma get_set_i64 o k v s :
  - 2 ^ 63 <= v < 2 ^ 63 -> get_i64 k (set_i64 o k v s).2 = Some v.
Proof.
  intros Hv. unfold get_i64. rewrite set_i64_data, lookup_insert_eq. simpl. by apply parse_show_i64.
Qed.

Lemma get_set_i64_ne o k k' v s : k <> k' -> get_i64 k' (set_i64 o k v s).2 = get_i64 k' s.
Proof. intros Hk. unfold get_i64. by rewrite set_i64_data, lookup_insert_ne. Qed.

Lemma get_set_string_ne o k k' v s : k <> k' -> get_i64 k' (set_string o k v s).2 = get_i64 k' s.
Proof. intros Hk. unfold get_i64. by rewrite set_string_data, lookup_insert_ne. Qed.

(** After a successful write, reopening the file gives the same map. *)
Lemma reopen_after_save k v s s' :
  is_Some (file s) -> set_string SaveOk k v s = (Ok (), s') ->
  exists f, file s' = Some f /\ data (MemoryStorage_with_file f) = data s'.
Proof.
  intros [f Hf]. unfold set_string, save_to_file. simpl. rewrite Hf. intros [= <-]. simpl. eauto.
Qed.

(** ** The world of the validator *)

(** ** Tables *)

(** gpu_uuid_assignments, keyed by [gpu_uuid]. *)
Record assignment_row := {
  ga_gpu_index : Z;
  ga_executor_id : string;
  ga_miner_id : string;
  ga_gpu_name : option string;
  ga_gpu_memory_gb : option f64
}.

(** miner_executors, keyed by [id]. *)
Record executor_row := {
  me_miner_id : string;
  me_executor_id : string;
  me_status : string;
  me_last_health_check : option Z
}.

(** verification_logs, keyed by [id]. *)
Record log_row := {
  vl_executor_id : string;
  vl_verification_type : string;
  vl_timestamp : Z;
  vl_score : f64;
  vl_success : Z;
  vl_details : json
}.

(** miner_gpu_profiles, keyed by [miner_uid]; the JSON column holds the map. *)
Record profile_row := {
  mp_gpu_counts : gmap string Z;
  mp_total_score : f64;
  mp_verification_count : Z;
  mp_last_updated : Z;
  mp_last_successful_validation : option Z
}.

Record CategoryDistribution := {
  cd_category : string;
  cd_miner_count : Z;
  cd_total_weight : Z;
  cd_average_score : f64
}.

(** emission_metrics, keyed by [id]. *)
Record emission_row := {
  em_timestamp : Z;
  em_burn_amount : Z;
  em_burn_percentage : f64;
  em_category_distributions : gmap string CategoryDistribution;
  em_total_miners : Z;
  em_weight_set_block : Z
}.

(** weight_allocation_history. *)
Record allocation_row := {
  wa_miner_uid : Z;
  wa_gpu_category : string;
  wa_allocated_weight : Z;
  wa_miner_score : f64;
  wa_category_total_score : f64;
  wa_weight_set_block : Z;
  wa_timestamp : Z;
  wa_emission_metrics_id : option Z
}.

Record Database := {
  assignments : gmap string assignment_row;
  executors : gmap string executor_row;
  logs : gmap string log_row;
  profiles : gmap Z profile_row;
  emission_metrics : gmap Z emission_row;
  next_emission_id : Z;                    (* AUTOINCREMENT *)
  allocation_history : list allocation_row
}.

(** ** The chain *)

Record AxonInfo := { axon_ip : Z; axon_port : Z }.

(** What the code reads of a metagraph: the number of hotkeys and the axons by UID. *)
Record Metagraph := { hotkeys : list string; axons : list AxonInfo }.

(** A call of [submit_extrinsic] and its answer.  An error may come after the extrinsic was
    broadcast, so a refused call may still reach the chain. *)
Record Submission := {
  sub_weights : list NormalizedWeight;
  sub_version_key : Z;
  sub_accepted : bool
}.

(** ** Effects *)

Inductive VError :=
  | SqlError
  | StorageError (message : string)
  | ChainError (operation : string)
  | SubmissionRejected
  | EmptyWeightVector
  | DuplicateUidInWeights (uid : Z)
  | TotalWeightExceedsMaximum (total : Z)
  | AllocationFailed (e : AllocationError)
  | AttemptsExhausted (operation : string)
  | InvalidTimestamp (timestamp : Z)
  | InvalidExecutorId (text : string)
  | Panic (message : string).

Record Env := {
  clock : nat -> Z;
  sql_fails : nat -> bool;
  save_outcome : nat -> SaveOutcome;
  chain_block : nat -> option Z;
  chain_metagraph : nat -> option Metagraph;
  chain_accepts : nat -> bool;
  sql_avg : list f64 -> f64
}.

Record World := {
  db : Database;
  storage : MemoryStorage;
  last_weight_set_block : Z;
  submissions : list Submission;           (* calls of submit_extrinsic, oldest first *)
  steps : nat
}.

Definition VM (A : Type) : Type := Env -> World -> result VError A * World.

#[export] Instance VM_ret : MRet VM := fun A a _ w => (Ok a, w).
#[export] Instance VM_bind : MBind VM := fun A B k m env w =>
  match m env w with
  | (Ok a, w') => k a env w'
  | (Err e, w') => (Err e, w')
  end.

Definition vfail {A} (e : VError) : VM A := fun _ w => (Err e, w).

(** A result that is inspected with [match], [unwrap_or] or [if let]: errors become
    values, a panic still unwinds. *)
Definition vtry {A} (m : VM A) : VM (result VError A) := fun env w =>
  match m env w with
  | (Err (Panic s), w') => (Err (Panic s), w')
  | (r, w') => (Ok r, w')
  end.

Definition with_steps (w : World) (n : nat) : World := {|
  db := db w; storage := storage w; last_weight_set_block := last_weight_set_block w;
  submissions := submissions w; steps := n |}.
Definition with_db (w : World) (d : Database) : World := {|
  db := d; storage := storage w; last_weight_set_block := last_weight_set_block w;
  submissions := submissions w; steps := steps w |}.
Definition with_storage (w : World) (s : MemoryStorage) : World := {|
  db := db w; storage := s; last_weight_set_block := last_weight_set_block w;
  submissions := submissions w; steps := steps w |}.
Definition with_last_block (w : World) (b : Z) : World := {|
  db := db w; storage := storage w; last_weight_set_block := b;
  submissions := submissions w; steps := steps w |}.
Definition with_submission (w : World) (s : Submission) : World := {|
  db := db w; storage := storage w; last_weight_set_block := last_weight_set_block w;
  submissions := submissions w ++ [s]; steps := steps w |}.

(** The index of the next interaction with the environment. *)
Definition next_step : VM nat := fun _ w => (Ok (steps w), with_steps w (S (steps w))).
Definition ask {A} (f : Env -> A) : VM A := fun env w => (Ok (f env), w).
Definition gets {A} (f : World -> A) : VM A := fun _ w => (Ok (f w), w).

Definition transform {A} (f : World -> result VError A * World) : VM A := fun _ w => f w.

Definition now : VM Z := n ← next_step; ask (fun env => clock env n).

(** One statement: it fails to run, or computes its result and the new tables; [None]
    is a violated constraint. *)
Definition statement {A} (f : Database -> option (A * Database)) : VM A :=
  n ← next_step;
  fails ← ask (fun env => sql_fails env n);
  if fails : bool then vfail SqlError
  else transform (fun w =>
    match f (db w) with
    | Some (a, d) => (Ok a, with_db w d)
    | None => (Err SqlError, w)
    end).

Definition query {A} (f : Database -> A) : VM A := statement (fun d => Some (f d, d)).

(** [begin] ... [commit]: an error rolls the tables back. *)
Definition vtransaction {A} (m : VM A) : VM A := fun env w =>
  match m env w with
  | (Ok a, w') => (Ok a, w')
  | (Err e, w') => (Err e, with_db w' (db w))
  end.

(** A change of the key-value storage. *)
Definition storing {A} (f : SaveOutcome -> MemoryStorage -> StorageResult A) : VM A :=
  n ← next_step;
  o ← ask (fun env => save_outcome env n);
  transform (fun w =>
    let '(r, s) := f o (storage w) in
    (match r with Ok a => Ok a | Err e => Err (StorageError e) end, with_storage w s)).

(** A loop over a list. *)
Fixpoint vfold {A B} (f : B -> A -> VM B) (acc : B) (l : list A) : VM B :=
  match l with
  | [] => mret acc
  | x :: rest => acc' ← f acc x; vfold f acc' rest
  end.

(** [for attempt in 1..=max]: the first success, or the error after the last attempt;
    the delays between attempts are not observable. *)
Fixpoint vretry {A} (max : nat) (operation : string) (m : VM A) : VM A :=
  match max with
  | O => vfail (AttemptsExhausted operation)
  | S k =>
      r ← vtry m;
      match r with
      | Ok a => mret a
      | Err _ => vretry k operation m
      end
  end.
