(* ===== verification/ProfileRepo.v ===== *)
(** * GPU assignments and profiles

    The queries of persistence/simple_persistence.rs on GPU assignments and the
    repository of persistence/gpu_profile_repository.rs.  A column read with
    [row.get::<T>] panics when it is NULL.  Rows of a query without [ORDER BY] come in
    any order.  Queries that only list emission metrics or profiles by model are left
    out. *)

From stdpp Require Import base gmap strings list.
From Stdlib Require Import Ascii ZArith.
From S2P Require Import Prelude.
From S2P Require Import Text.
From S2P Require Import Float64.
From S2P Require Import Collections.
From S2P Require Import Categories.
From S2P Require Import WeightAllocation.
From S2P Require Import ValidatorWorld.
Local Open Scope Z_scope.

Definition miner_id_of (uid : Z) : string := "miner_" +:+ show_int uid.

(** [status IN ('online', 'verified')] *)
Definition is_online (e : executor_row) : bool :=
  String.eqb (me_status e) "online" || String.eqb (me_status e) "verified".

(** The executor of an assignment is registered for the same miner and online. *)
Definition assignment_online (d : Database) (a : assignment_row) : bool :=
  existsb (fun e => String.eqb (me_executor_id e) (ga_executor_id a)
                    && String.eqb (me_miner_id e) (ga_miner_id a) && is_online e)
    (snd <$> map_to_list (executors d)).

Definition assignments_where (p : assignment_row -> bool) (d : Database) : list assignment_row :=
  List.filter p (snd <$> map_to_list (assignments d)).

Definition exists_b (p : assignment_row -> bool) (d : Database) : bool :=
  existsb p (snd <$> map_to_list (assignments d)).

Definition assignments_of (miner_id executor_id : string) : Database -> list assignment_row :=
  assignments_where (fun a => String.eqb (ga_miner_id a) miner_id
                              && String.eqb (ga_executor_id a) executor_id).

(** A NULL in a column decoded without [Option]. *)
Definition column {A} (name : string) (v : option A) : VM A :=
  match v with Some a => mret a | None => vfail (Panic name) end.

Section Repository.
Context `{HashOrder}.

(** Rows in the order the database returns them. *)
Definition rows {A} (name : string) (f : Database -> list A) : VM (list A) :=
  n ← next_step;
  query (fun d => shuffle n name (f d)).

(** ** SimplePersistence *)

Definition get_executor_gpu_count_from_assignments (miner_id executor_id : string) : VM Z :=
  query (fun d => wrap 32 (Z.of_nat (length (assignments_of miner_id executor_id d)))).

(** [fetch_one] fails when there is no row. *)
Definition get_executor_first_gpu_memory_gb (miner_id executor_id : string) : VM f64 :=
  l ← rows "first_gpu_memory" (fun d =>
    List.filter (fun a => ga_gpu_index a =? 0) (assignments_of miner_id executor_id d));
  match l with
  | [] => vfail SqlError
  | a :: _ => mret (default f64_zero (ga_gpu_memory_gb a))
  end.

(** [fetch_optional] with [LIMIT 1]; a NULL name is decoded into the scalar [String]
    and is an error. *)
Definition get_executor_gpu_name_from_assignments (miner_id executor_id : string)
    : VM (option string) :=
  l ← rows "gpu_name" (assignments_of miner_id executor_id);
  match l with
  | [] => mret None
  | a :: _ => match ga_gpu_name a with Some name => mret (Some name) | None => vfail SqlError end
  end.

(** [MAX] ignores NULLs. *)
Definition max_memory (l : list assignment_row) : option f64 :=
  fold_left (fun acc a =>
    match acc, ga_gpu_memory_gb a with
    | Some x, Some y => Some (if f64_ltb x y then y else x)
    | None, m => m
    | acc, None => acc
    end) l None.

(** [GROUP BY executor_id, gpu_name] over the miner's online assignments: executor,
    number of GPUs, name, largest memory. *)
Definition grouped_assignments (miner_id : string) (d : Database)
    : list (string * Z * option string * option f64) :=
  let l := assignments_where (fun a => String.eqb (ga_miner_id a) miner_id
                                       && assignment_online d a) d in
  let keys := remove_dups ((fun a => (ga_executor_id a, ga_gpu_name a)) <$> l) in
  (fun key =>
     let group := filter (fun a => (ga_executor_id a, ga_gpu_name a) = key) l in
     (key.1, wrap 32 (Z.of_nat (length group)), key.2, max_memory group)) <$> keys.

Definition decode_assignment (r : string * Z * option string * option f64)
    : VM (string * Z * string * f64) :=
  let '(executor_id, count, name, memory) := r in
  name ← column "gpu_name" name;
  memory ← column "gpu_memory_gb" memory;
  mret (executor_id, count, name, memory).

Definition get_miner_gpu_uuid_assignments (miner_id : string)
    : VM (list (string * Z * string * f64)) :=
  l ← rows "miner_gpu_uuid_assignments" (grouped_assignments miner_id);
  vfold (fun acc r => a ← decode_assignment r; mret (acc ++ [a])) [] l.

Definition get_miner_total_gpu_count_from_assignments (miner_id : string) : VM Z :=
  query (fun d => wrap 32 (Z.of_nat (length (
    assignments_where (fun a => String.eqb (ga_miner_id a) miner_id && assignment_online d a) d)))).

Definition create_verification_log (id : string) (log : log_row) : VM () :=
  statement (fun d =>
    match logs d !! id with
    | Some _ => None
    | None => Some ((), {|
        assignments := assignments d; executors := executors d;
        logs := <[id := log]> (logs d); profiles := profiles d;
        emission_metrics := emission_metrics d; next_emission_id := next_emission_id d;
        allocation_history := allocation_history d |})
    end).

(** ** GpuProfileRepository *)

(** [GROUP BY gpu_name] over all assignments of the miner, online or not. *)
Definition counts_by_name (miner_id : string) (d : Database) : list (option string * Z) :=
  let l := assignments_where (fun a => String.eqb (ga_miner_id a) miner_id) d in
  (fun name => (name, Z.of_nat (length (filter (fun a => ga_gpu_name a = name) l))))
    <$> remove_dups (ga_gpu_name <$> l).

Definition get_gpu_counts_from_assignments (uid : Z) : VM (gmap string Z) :=
  l ← rows "gpu_counts" (counts_by_name (miner_id_of uid));
  vfold (fun acc r =>
    name ← column "gpu_name" (fst r);
    mret (entry_add (normalized_model name) (wrap 32 (snd r)) acc)) ∅ l.

(** One row of [get_miner_gpu_assignments]; the counts of an executor with several
    models are added and the model of the larger row is kept. *)
Definition assign_row (acc : gmap string (Z * string * f64)) (r : string * Z * string * f64)
    : gmap string (Z * string * f64) :=
  let '(executor_id, count, name, memory) := r in
  match acc !! executor_id with
  | Some (existing_count, existing_name, existing_memory) =>
      let total := wrap 32 (existing_count + count) in
      <[executor_id := if existing_count <? count then (total, name, memory)
                       else (total, existing_name, existing_memory)]> acc
  | None => <[executor_id := (count, name, memory)]> acc
  end.

Definition get_miner_gpu_assignments (uid : Z) : VM (gmap string (Z * string * f64)) :=
  l ← get_miner_gpu_uuid_assignments (miner_id_of uid);
  mret (fold_left assign_row l ∅).

Definition with_profiles (d : Database) (p : gmap Z profile_row) : Database := {|
  assignments := assignments d; executors := executors d; logs := logs d; profiles := p;
  emission_metrics := emission_metrics d; next_emission_id := next_emission_id d;
  allocation_history := allocation_history d |}.

(** [ON CONFLICT(miner_uid) DO UPDATE] with the [CHECK]s of the table; a score that is
    not a number is bound as NULL and violates [NOT NULL]. *)
Definition upsert_profile_row (uid : Z) (row : profile_row) (d : Database)
    : option (() * Database) :=
  if f64_leb f64_zero (mp_total_score row) && f64_leb (mp_total_score row) (f64_of_Z 1)
     && (0 <=? mp_verification_count row)
  then
    let kept := match mp_last_successful_validation row with
                | Some t => Some t
                | None => profiles d !! uid ≫= mp_last_successful_validation
                end in
    Some ((), with_profiles d (<[uid := {|
      mp_gpu_counts := mp_gpu_counts row;
      mp_total_score := mp_total_score row;
      mp_verification_count := mp_verification_count row;
      mp_last_updated := mp_last_updated row;
      mp_last_successful_validation := kept |}]> (profiles d)))
  else None.

Definition upsert_gpu_profile (p : MinerGpuProfile) : VM () :=
  actual ← get_gpu_counts_from_assignments (miner_uid p);
  statement (upsert_profile_row (miner_uid p) {|
    mp_gpu_counts := if is_empty actual then gpu_counts p else actual;
    mp_total_score := total_score p;
    mp_verification_count := verification_count p;
    mp_last_updated := last_updated p;
    mp_last_successful_validation := last_successful_validation p |}).

Definition get_gpu_profile (uid : Z) : VM (option MinerGpuProfile) :=
  row ← query (fun d => profiles d !! uid);
  match row with
  | None => mret None
  | Some r =>
      counts ← get_gpu_counts_from_assignments uid;
      if is_empty counts then mret None
      else mret (Some {|
        miner_uid := uid;
        gpu_counts := counts;
        total_score := mp_total_score r;
        verification_count := wrap 32 (mp_verification_count r);
        last_updated := mp_last_updated r;
        last_successful_validation := mp_last_successful_validation r |})
  end.

(** ** All profiles *)

(** [miner_id LIKE 'miner_%']: case-insensitive, and '_' stands for any character. *)
Definition like_miner (miner_id : string) : bool :=
  String.eqb (to_lowercase (String.substring 0 5 miner_id)) "miner"
  && (6 <=? String.length miner_id)%nat.

(** [CAST(... AS INTEGER)]: the longest integer prefix, 0 without one, saturating at 64
    bits. *)
Fixpoint digits_prefix (s : string) (acc : Z) : Z :=
  match s with
  | EmptyString => acc
  | String c s' => match digit_value c with Some d => digits_prefix s' (10 * acc + d) | None => acc end
  end.

Definition cast_integer (s : string) : Z :=
  let v := match trim_start s with
           | String "-" t => - digits_prefix t 0
           | String "+" t => digits_prefix t 0
           | t => digits_prefix t 0
           end in
  Z.max (- 2 ^ 63) (Z.min (2 ^ 63 - 1) v).

(** [DISTINCT] miners with an online assignment, [ORDER BY miner_id]. *)
Definition miners_with_gpus (d : Database) : list string :=
  sort_by String.leb (remove_dups (ga_miner_id <$>
    assignments_where (fun a => assignment_online d a && like_miner (ga_miner_id a)) d)).

(** The successful verifications of the miner's executors: one row per log and matching
    registration. *)
Definition successful_logs (miner_id : string) (d : Database) : list log_row :=
  concat ((fun l =>
    (fun _ => l) <$> List.filter
      (fun e => String.eqb (me_executor_id e) (vl_executor_id l)
                && String.eqb (me_miner_id e) miner_id)
      (snd <$> map_to_list (executors d)))
    <$> List.filter (fun l => vl_success l =? 1) (snd <$> map_to_list (logs d))).

Definition day : Z := 86400000000000.
Definition hour : Z := 3600000000000.

(** [timestamp > datetime('now', '-3 hours')]: the column holds RFC 3339 text, with a
    'T' between date and time, [datetime] puts a blank there.  As text the two compare
    by their dates, and on the same date the column is always the larger. *)
Definition after_datetime (t cutoff : Z) : bool := cutoff / day <=? t / day.

Definition max_timestamp (l : list log_row) : option Z :=
  fold_left (fun acc r =>
    match acc with
    | Some t => Some (Z.max t (vl_timestamp r))
    | None => Some (vl_timestamp r)
    end) l None.

(** The profile of one miner of the list. *)
Definition build_profile (miner_id : string) : VM (option MinerGpuProfile) :=
  let uid_val := cast_integer (String.substring 6 (String.length miner_id) miner_id) in
  raw ← get_miner_gpu_uuid_assignments miner_id;
  if bool_decide (raw = []) then mret None
  else
    let counts := fold_left (fun acc r => entry_add (r.1.2) (r.1.1.2) acc) raw ∅ in
    n ← next_step;
    t ← ask (fun env => clock env n);
    avg ← ask sql_avg;
    score ← query (fun d =>
      let recent := List.filter (fun l => after_datetime (vl_timestamp l) (t - 3 * hour))
                      (successful_logs miner_id d) in
      (if bool_decide (recent = []) then f64_zero
       else avg (shuffle n "avg_score" (vl_score <$> recent)), Z.of_nat (length recent)));
    latest ← query (fun d => max_timestamp (successful_logs miner_id d));
    stored ← query (fun d => mp_last_updated <$> profiles d !! uid_val);
    updated ← match stored with Some u => mret u | None => now end;
    mret (Some {|
      miner_uid := wrap 16 uid_val;
      gpu_counts := counts;
      total_score := score.1;
      verification_count := wrap 32 score.2;
      last_updated := updated;
      last_successful_validation := latest |}).

Definition get_all_gpu_profiles : VM (list MinerGpuProfile) :=
  miners ← query miners_with_gpus;
  vfold (fun acc miner_id =>
    p ← build_profile miner_id;
    mret (match p with Some p => acc ++ [p] | None => acc end)) [] miners.

(** ** Clean-up and bookkeeping *)

Definition cleanup_old_profiles (days_old : Z) : VM Z :=
  t ← now;
  statement (fun d =>
    let old := filter (fun kv => mp_last_updated kv.2 < t - days_old * day) (profiles d) in
    Some (Z.of_nat (size old), with_profiles d (profiles d ∖ old))).

Definition is_stale (threshold : Z) (e : executor_row) : bool :=
  is_online e && match me_last_health_check e with None => true | Some t => t <? threshold end.

Definition drop_assignments (executor_id miner_id : string) (d : Database) : Database := {|
  assignments := filter (fun kv => ~ (ga_executor_id kv.2 = executor_id /\ ga_miner_id kv.2 = miner_id))
                   (assignments d);
  executors := executors d; logs := logs d; profiles := profiles d;
  emission_metrics := emission_metrics d; next_emission_id := next_emission_id d;
  allocation_history := allocation_history d |}.

Definition mark_offline (id : string) (d : Database) : Database := {|
  assignments := assignments d;
  executors := alter (fun e => {|
      me_miner_id := me_miner_id e; me_executor_id := me_executor_id e;
      me_status := "offline"; me_last_health_check := me_last_health_check e |}) id (executors d);
  logs := logs d; profiles := profiles d;
  emission_metrics := emission_metrics d; next_emission_id := next_emission_id d;
  allocation_history := allocation_history d |}.

(** Profiles of miners without any assignment. *)
Definition drop_orphans (d : Database) : Database :=
  with_profiles d (filter (fun kv =>
    exists_b (fun a => String.eqb (ga_miner_id a) (miner_id_of kv.1)) d = true) (profiles d)).

Definition cleanup_stale_executors : VM nat :=
  t ← now;
  vtransaction (
    stale ← rows "stale_executors" (fun d =>
      List.filter (fun kv => is_stale (t - 30 * 60000000000) kv.2) (map_to_list (executors d)));
    vfold (fun _ kv =>
      statement (fun d => Some ((), drop_assignments (me_executor_id kv.2) (me_miner_id kv.2) d));;
      statement (fun d => Some ((), mark_offline kv.1 d))) () stale;;
    statement (fun d => Some ((), drop_orphans d));;
    mret (length stale)).

(** The [CHECK]s on percentages and counts; the row gets the next identifier. *)
Definition store_emission_row (row : emission_row) (d : Database) : option (Z * Database) :=
  if f64_leb f64_zero (em_burn_percentage row) && f64_leb (em_burn_percentage row) (f64_of_Z 100)
     && (0 <=? em_total_miners row)
  then Some (next_emission_id d, {|
    assignments := assignments d; executors := executors d; logs := logs d;
    profiles := profiles d;
    emission_metrics := <[next_emission_id d := row]> (emission_metrics d);
    next_emission_id := next_emission_id d + 1;
    allocation_history := allocation_history d |})
  else None.

Definition repo_store_emission_metrics (row : emission_row) : VM Z :=
  statement (store_emission_row row).

(** The [CHECK]s on weight and scores and the foreign key to the metrics. *)
Definition store_allocation_row (row : allocation_row) (d : Database) : option (() * Database) :=
  if (0 <=? wa_allocated_weight row) && f64_leb f64_zero (wa_miner_score row)
     && f64_leb f64_zero (wa_category_total_score row)
     && match wa_emission_metrics_id row with
        | Some id => bool_decide (is_Some (emission_metrics d !! id))
        | None => true
        end
  then Some ((), {|
    assignments := assignments d; executors := executors d; logs := logs d;
    profiles := profiles d; emission_metrics := emission_metrics d;
    next_emission_id := next_emission_id d;
    allocation_history := allocation_history d ++ [row] |})
  else None.

Definition store_weight_allocation (emission_metrics_id uid : Z) (gpu_category : string)
    (allocated_weight : Z) (miner_score category_total_score : f64) (weight_set_block : Z) : VM () :=
  t ← now;
  statement (store_allocation_row {|
    wa_miner_uid := uid;
    wa_gpu_category := gpu_category;
    wa_allocated_weight := wrap_signed 64 allocated_weight;
    wa_miner_score := miner_score;
    wa_category_total_score := category_total_score;
    wa_weight_set_block := wrap_signed 64 weight_set_block;
    wa_timestamp := t;
    wa_emission_metrics_id := Some emission_metrics_id |}).
End Repository.
