(* ===== verification/Scoring.v ===== *)
(** * GPU scoring: gpu/gpu_scoring.rs of the validator

    Scores of validations, and the miners of each rewarded GPU category with their
    scores.  The Prometheus and business metrics of the engine are left out. *)

From stdpp Require Import base gmap strings list.
From Stdlib Require Import ZArith.
From S2P Require Import Prelude.
From S2P Require Import Float64.
From S2P Require Import Collections.
From S2P Require Import Emission.
From S2P Require Import Categories.
From S2P Require Import WeightAllocation.
From S2P Require Import ValidatorWorld.
From S2P Require Import ProfileRepo.
Local Open Scope Z_scope.

Record GpuScoringEngine := { scoring_emission_config : EmissionConfig }.

(** The share of passing validations.  The number of GPUs the function also adds up is
    only logged. *)
Definition calculate_verification_score (vs : list ExecutorValidationResult) : f64 :=
  match vs with
  | [] => f64_zero
  | _ =>
      let valid_count := Z.of_nat (length (List.filter validation_ok vs)) in
      let total_count := Z.of_nat (length vs) in
      f64_div (f64_of_Z valid_count) (f64_of_Z total_count)
  end.

Definition is_gpu_model_rewardable (e : GpuScoringEngine) (gpu_model : string) : bool :=
  has_gpu_model (scoring_emission_config e) (normalized_model gpu_model).

(** The requirements of an allocation: enough GPUs, enough memory. *)
Definition meets_requirements (a : GpuAllocation) (gpu_count : Z) (memory : f64) : bool :=
  (min_gpu_count a <=? gpu_count)
  && match min_gpu_vram a with
     | Some min_vram => (min_vram =? 1) || (min_vram =? 0) || f64_leb (f64_of_Z min_vram) memory
     | None => true
     end.

(** The filter of one executor's assignment: its category and number of GPUs. *)
Definition rewardable_gpu (e : GpuScoringEngine) (r : string * (Z * string * f64))
    : option (GpuCategory * Z) :=
  let '(_, (count, name, memory)) := r in
  if 0 <? count then
    let category := GpuCategory_from_str name in
    if is_gpu_model_rewardable e name then
      match get_gpu_allocation (scoring_emission_config e) (GpuCategory_to_string category) with
      | Some allocation =>
          if meets_requirements allocation count memory then Some (category, count) else None
      | None => None
      end
    else None
  else None.

Definition count_rewardable (acc : gmap string Z) (r : GpuCategory * Z) : gmap string Z :=
  entry_add (GpuCategory_to_string r.1) r.2 acc.

(** Append the miner to a category. *)
Definition add_to_category (p : MinerGpuProfile) (acc : gmap string Miners)
    (r : string * Z) : gmap string Miners :=
  let '(category, count) := r in
  <[category := default [] (acc !! category) ++
      [(miner_uid p, f64_mul (total_score p) (f64_of_Z count))]]> acc.

(** [sort_by(|a, b| b.1.partial_cmp(&a.1))] *)
Definition sort_miners (ms : Miners) : Miners := sort_by (fun a b => negb (f64_ltb a.2 b.2)) ms.

(** The filters on a profile before its GPUs are looked at: fresh, validated since the
    epoch, with an active axon. *)
Definition validated_since (epoch : option Z) (p : MinerGpuProfile) : bool :=
  match epoch with
  | None => true
  | Some e =>
      match last_successful_validation p with
      | Some t => e <=? t
      | None => false
      end
  end.

Definition has_active_axon (g : Metagraph) (uid : Z) : bool :=
  if (Z.of_nat (length (hotkeys g)) <=? uid) then false
  else match axons g !! Z.to_nat uid with
       | None => false
       | Some axon => negb ((axon_port axon =? 0) || (axon_ip axon =? 0))
       end.

Definition profile_considered (epoch : option Z) (cutoff : Z) (g : Metagraph)
    (p : MinerGpuProfile) : bool :=
  negb (last_updated p <? cutoff) && validated_since epoch p && has_active_axon g (miner_uid p).

Section Scoring.
Context `{HashOrder}.

Definition update_miner_profile_from_validation (uid : Z) (vs : list ExecutorValidationResult)
    : VM MinerGpuProfile :=
  let new_score := calculate_verification_score vs in
  let has_successful_validation := existsb validation_ok vs in
  t ← now;
  let profile := MinerGpuProfile_new t uid vs new_score in
  profile ← (if has_successful_validation : bool then
               t' ← now;
               mret {| miner_uid := miner_uid profile; gpu_counts := gpu_counts profile;
                       total_score := total_score profile;
                       verification_count := verification_count profile;
                       last_updated := last_updated profile;
                       last_successful_validation := Some t' |}
             else mret profile);
  upsert_gpu_profile profile;;
  mret profile.

(** The GPUs of one miner that earn rewards, by category. *)
Definition rewardable_counts (e : GpuScoringEngine) (uid : Z) : VM (gmap string Z) :=
  assigned ← get_miner_gpu_assignments uid;
  n ← next_step;
  mret (fold_left count_rewardable (omap (rewardable_gpu e) (iter n "assignments" assigned)) ∅).

Definition score_profile (e : GpuScoringEngine) (epoch : option Z) (cutoff : Z) (g : Metagraph)
    (acc : gmap string Miners) (p : MinerGpuProfile) : VM (gmap string Miners) :=
  if profile_considered epoch cutoff g p then
    counts ← rewardable_counts e (miner_uid p);
    n ← next_step;
    mret (fold_left (add_to_category p) (iter n "rewardable_gpu_counts" counts) acc)
  else mret acc.

Definition get_miners_by_gpu_category_since_epoch (e : GpuScoringEngine)
    (epoch : option Z) (cutoff_hours : Z) (g : Metagraph) : VM (gmap string Miners) :=
  all_profiles ← get_all_gpu_profiles;
  t ← now;
  let cutoff := t - cutoff_hours * hour in
  miners_by_category ← vfold (score_profile e epoch cutoff g) ∅ all_profiles;
  mret (sort_miners <$> miners_by_category).

(** ** Category statistics *)

Record CategoryStats := {
  cs_miner_count : Z;
  cs_average_score : f64;
  cs_total_score : f64;
  cs_min_score : f64;
  cs_max_score : f64
}.

Definition empty_stats : CategoryStats := {|
  cs_miner_count := 0; cs_average_score := f64_zero; cs_total_score := f64_zero;
  cs_min_score := f64_MAX; cs_max_score := f64_MIN |}.

Definition add_stats (score : f64) (s : CategoryStats) : CategoryStats := {|
  cs_miner_count := wrap 32 (cs_miner_count s + 1);
  cs_average_score := cs_average_score s;
  cs_total_score := f64_add (cs_total_score s) score;
  cs_min_score := f64_min (cs_min_score s) score;
  cs_max_score := f64_max (cs_max_score s) score |}.

Definition finish_stats (s : CategoryStats) : CategoryStats := {|
  cs_miner_count := cs_miner_count s;
  cs_average_score :=
    if 0 <? cs_miner_count s then f64_div (cs_total_score s) (f64_of_Z (cs_miner_count s))
    else cs_average_score s;
  cs_total_score := cs_total_score s;
  cs_min_score := if f64_eqb (cs_min_score s) f64_MAX then f64_zero else cs_min_score s;
  cs_max_score := if f64_eqb (cs_max_score s) f64_MIN then f64_zero else cs_max_score s |}.

(** [filter_map(...).collect()]: a later entry of the same category replaces an earlier
    one. *)
Definition rewardable_models (e : GpuScoringEngine) (n : nat) (p : MinerGpuProfile) : gmap string Z :=
  fold_left (fun acc r =>
    let model := normalized_model r.1 in
    if (0 <? r.2) && is_gpu_model_rewardable e r.1 then
      match get_gpu_allocation (scoring_emission_config e) model with
      | Some a => if min_gpu_count a <=? r.2 then <[model := r.2]> acc else acc
      | None => acc
      end
    else acc) (iter n "gpu_counts" (gpu_counts p)) ∅.

Definition profile_stats (e : GpuScoringEngine) (stats : gmap string CategoryStats)
    (p : MinerGpuProfile) : VM (gmap string CategoryStats) :=
  n ← next_step;
  let counts := rewardable_models e n p in
  let total := wrap 32 (table_sum (fun _ c => c) counts) in
  mret (fold_left (fun acc r =>
    let score := if 0 <? total
                 then f64_mul (total_score p) (f64_div (f64_of_Z r.2) (f64_of_Z total))
                 else f64_zero in
    <[r.1 := add_stats score (default empty_stats (acc !! r.1))]> acc)
    (iter n "rewardable_gpu_counts" counts) stats).

Definition get_category_statistics (e : GpuScoringEngine) : VM (gmap string CategoryStats) :=
  all_profiles ← get_all_gpu_profiles;
  stats ← vfold (profile_stats e) ∅ all_profiles;
  mret (finish_stats <$> stats).
End Scoring.
