(* ===== verification/WeightSetter.v ===== *)
(** * The weight setter: bittensor_core/weight_setter.rs of the validator

    Every interval of blocks the validator turns its scores into a weight vector and
    submits it to the chain, with retries.  Log lines, Prometheus gauges and delays are
    left out; the JSON texts kept for auditing are parameters ([serde_json]). *)

From stdpp Require Import base gmap strings list.
From Stdlib Require Import Ascii ZArith.
From S2P Require Import Prelude.
From S2P Require Import Text.
From S2P Require Import Float64.
From S2P Require Import Decimal.
From S2P Require Import Collections.
From S2P Require Import Emission.
From S2P Require Import Categories.
From S2P Require Import WeightAllocation.
From S2P Require Import ValidatorWorld.
From S2P Require Import ProfileRepo.
From S2P Require Import Scoring.
Local Open Scope Z_scope.

Definition GPU_CATEGORY_CUTOFF_HOURS : Z := 3.
Definition MAX_RETRIES : nat := 3.

Record WeightSetter := {
  netuid : Z;
  blocks_per_weight_set : Z;
  setter_emission_config : EmissionConfig;
  gpu_scoring_engine : GpuScoringEngine;
  weight_allocation_engine : WeightAllocationEngine
}.

Definition WeightSetter_new (netuid blocks : Z) (min_score_threshold : f64)
    (scoring : GpuScoringEngine) (c : EmissionConfig) : WeightSetter := {|
  netuid := netuid;
  blocks_per_weight_set := blocks;
  setter_emission_config := c;
  gpu_scoring_engine := scoring;
  weight_allocation_engine := WeightAllocationEngine_new c min_score_threshold
|}.

(** [format!("{name}:{netuid}")] *)
Definition storage_key (s : WeightSetter) (name : string) : string :=
  name +:+ ":" +:+ show_int (netuid s).

(** ** Reading the chain *)

Definition get_current_block : VM Z :=
  vretry MAX_RETRIES "get current block"
    (n ← next_step;
     r ← ask (fun env => chain_block env n);
     match r with Some b => mret b | None => vfail (ChainError "get_current_block") end).

Definition get_metagraph : VM Metagraph :=
  vretry MAX_RETRIES "fetch metagraph"
    (n ← next_step;
     r ← ask (fun env => chain_metagraph env n);
     match r with Some g => mret g | None => vfail (ChainError "get_metagraph") end).

Definition unwrap_or {A} (d : A) (r : result VError A) : A :=
  match r with Ok a => a | Err _ => d end.

(** ** Stored progress *)

Definition read_i64 (key : string) : VM (option Z) := gets (fun w => get_i64 key (storage w)).

Definition get_last_weight_set_block (s : WeightSetter) : VM Z :=
  let key := storage_key s "last_weight_set_block" in
  stored ← read_i64 key;
  match stored with
  | Some b => mret (wrap 64 b)
  | None =>
      current ← get_current_block;
      let safe := Z.max 0 (current - blocks_per_weight_set s / 2) in
      storing (fun o => set_i64 o key (wrap_signed 64 safe));;
      mret safe
  end.

(** The seconds [chrono] can represent. *)
Definition timestamp_valid (t : Z) : bool := (-8334601228800 <=? t) && (t <=? 8210266876799).

Definition nanos (seconds : Z) : Z := seconds * 1000000000.

Definition get_last_weight_set_timestamp (s : WeightSetter) : VM (option Z) :=
  stored ← read_i64 (storage_key s "last_weight_set_timestamp");
  match stored with
  | None => mret None
  | Some t => if timestamp_valid t then mret (Some (nanos t)) else vfail (InvalidTimestamp t)
  end.

Definition store_last_weight_set_block (s : WeightSetter) (block : Z) : VM () :=
  t ← now;
  storing (fun o => set_i64 o (storage_key s "last_weight_set_block") (wrap_signed 64 block));;
  vtry (storing (fun o =>
    set_i64 o (storage_key s "last_weight_set_timestamp") (t / 1000000000)));;
  mret ().

Definition version_key_of (s : WeightSetter) (st : MemoryStorage) : Z :=
  wrap 64 (default (wrap_signed 64 (weight_version_key (setter_emission_config s)))
             (get_i64 (storage_key s "weight_version_key") st)).

Definition get_version_key (s : WeightSetter) : VM Z :=
  current ← gets (fun w => version_key_of s (storage w));
  let new_version := wrap 64 (current + 1) in
  storing (fun o => set_i64 o (storage_key s "weight_version_key") (wrap_signed 64 new_version));;
  mret new_version.

(** ** Submission *)

Definition validate_weights_before_submission (ws : list NormalizedWeight) : result VError () :=
  match ws with
  | [] => Err EmptyWeightVector
  | _ =>
      match find_duplicate ws ∅ with
      | Some uid => Err (DuplicateUidInWeights uid)
      | None =>
          if u16_max <? sum_weights ws then Err (TotalWeightExceedsMaximum (sum_weights ws))
          else Ok ()
      end
  end.

Definition analyze_submission_error (message : string) : string :=
  let e := to_lowercase message in
  if contains "duplicate" e then "DuplicateUids"
  else if contains "timeout" e then "Timeout"
  else if contains "fee" e then "InsufficientFees"
  else if contains "nonce" e then "InvalidNonce"
  else if contains "weight" e then "WeightValidation"
  else if contains "network" e then "NetworkError"
  else "Unknown".

Definition submit_weights_to_chain (ws : list NormalizedWeight) (version_key : Z) : VM () :=
  match validate_weights_before_submission ws with
  | Err e => vfail e
  | Ok _ =>
      vtry get_current_block;;
      n ← next_step;
      accepted ← ask (fun env => chain_accepts env n);
      transform (fun w =>
        (if accepted : bool then Ok () else Err SubmissionRejected,
         with_submission w {| sub_weights := ws; sub_version_key := version_key;
                              sub_accepted := accepted |}))
  end.

Definition submit_weights_to_chain_with_retry (ws : list NormalizedWeight) (version_key : Z) : VM () :=
  vretry MAX_RETRIES "submit weights" (submit_weights_to_chain ws version_key).

(** A copy of the vector; the [assert!] panics on an empty one. *)
Definition build_normalized_weights (d : WeightDistribution) : VM (list NormalizedWeight) :=
  match weights d with
  | [] => vfail (Panic "Weight allocation engine produced no weights")
  | ws => mret ws
  end.

(** ** Bookkeeping after a submission *)

Definition category_distribution (k : string) (a : CategoryAllocation) : CategoryDistribution := {|
  cd_category := k;
  cd_miner_count := miner_count a;
  cd_total_weight := weight_pool a;
  cd_average_score := f64_div (ca_total_score a) (f64_of_Z (miner_count a)) |}.

Definition store_emission_metrics (s : WeightSetter) (d : WeightDistribution) (block : Z) : VM Z :=
  t ← now;
  repo_store_emission_metrics {|
    em_timestamp := t;
    em_burn_amount := match burn_allocation d with Some b => burn_weight b | None => 0 end;
    em_burn_percentage := burn_percentage (setter_emission_config s);
    em_category_distributions := map_imap (fun k a => Some (category_distribution k a))
                                   (category_allocations d);
    em_total_miners := miners_served d;
    em_weight_set_block := wrap_signed 64 block |}.

Section Setter.
Context `{HashOrder, UuidText}.
Context (distribution_json : WeightDistribution -> string).
Context (stats_json : gmap string CategoryStats -> string).

Definition store_allocation_of (d : WeightDistribution) (metrics_id block : Z)
    (w : NormalizedWeight) : VM () :=
  profile ← vtry (get_gpu_profile (nw_uid w));
  match profile with
  | Ok (Some p) =>
      n ← next_step;
      let category := match gpu_models_by_count n p with (model, _) :: _ => model | [] => "UNKNOWN" end in
      match category_allocations d !! category with
      | Some a =>
          store_weight_allocation metrics_id (nw_uid w) category (nw_weight w)
            (total_score p) (ca_total_score a) block
      | None => mret ()
      end
  | _ => mret ()
  end.

Definition store_weight_allocations (d : WeightDistribution) (metrics_id block : Z) : VM () :=
  match burn_allocation d with
  | Some b =>
      store_weight_allocation metrics_id (burn_to b) "BURN" (burn_weight b) f64_zero f64_zero block
  | None => mret ()
  end;;
  vfold (fun _ w => store_allocation_of d metrics_id block w) () (weights d).

Definition store_weight_submission_metadata (s : WeightSetter) (d : WeightDistribution) : VM () :=
  storing (fun o => set_string o (storage_key s "submitted_weight_distribution") (distribution_json d));;
  t ← now;
  storing (fun o => set_i64 o (storage_key s "last_weight_submission") (t / 1000000000));;
  stats ← get_category_statistics (gpu_scoring_engine s);
  storing (fun o => set_string o (storage_key s "category_stats") (stats_json stats)).

(** ** One attempt, and the loop *)

Definition attempt_weight_setting (s : WeightSetter) : VM () :=
  metagraph ← get_metagraph;
  epoch ← get_last_weight_set_timestamp s;
  miners ← get_miners_by_gpu_category_since_epoch (gpu_scoring_engine s) epoch
             GPU_CATEGORY_CUTOFF_HOURS metagraph;
  n ← next_step;
  match calculate_weight_distribution n (weight_allocation_engine s) miners with
  | Err e => vfail (AllocationFailed e)
  | Ok d =>
      ws ← build_normalized_weights d;
      version_key ← get_version_key s;
      match find_duplicate ws ∅ with
      | Some uid => vfail (DuplicateUidInWeights uid)
      | None =>
          submit_weights_to_chain_with_retry ws version_key;;
          block ← vtry get_current_block;
          metrics_id ← store_emission_metrics s d (unwrap_or 0 block);
          store_weight_allocations d metrics_id (unwrap_or 0 block);;
          store_weight_submission_metadata s d
      end
  end.

Definition set_weights_for_miners (s : WeightSetter) : VM () :=
  vretry MAX_RETRIES "set weights" (attempt_weight_setting s).

(** The body of the loop of [start], run at every tick of its timer. *)
Definition weight_setter_tick (s : WeightSetter) : VM () :=
  current ← vtry get_current_block;
  match current with
  | Err _ => mret ()
  | Ok current =>
      last ← gets last_weight_set_block;
      if wrap 64 (last + blocks_per_weight_set s) <=? current then
        r ← vtry (set_weights_for_miners s);
        match r with
        | Ok _ =>
            vtry (store_last_weight_set_block s current);;
            transform (fun w => (Ok (), with_last_block w current))
        | Err _ => mret ()
        end
      else mret ()
  end.

Definition start_init (s : WeightSetter) : VM () :=
  last ← get_last_weight_set_block s;
  transform (fun w => (Ok (), with_last_block w last)).

(** [start], stopped after some ticks. *)
Fixpoint run_ticks (s : WeightSetter) (k : nat) : VM () :=
  match k with
  | O => mret ()
  | S k => weight_setter_tick s;; run_ticks s k
  end.

Definition start (s : WeightSetter) (k : nat) : VM () := start_init s;; run_ticks s k.

(** ** Scores from verification logs *)

(** The setter's own validation record. *)
Record SetterValidation := {
  sv_executor_id : uuid;
  sv_is_valid : bool;
  sv_hardware_score : f64;
  sv_gpu_count : Z;
  sv_gpu_memory_gb : f64;
  sv_network_bandwidth_mbps : f64;
  sv_attestation_valid : bool;
  sv_validation_timestamp : Z;
  sv_gpu_model : string
}.

Definition to_categorization (v : SetterValidation) : ExecutorValidationResult := {|
  executor_id := uuid_to_string (sv_executor_id v);
  is_valid := sv_is_valid v;
  gpu_model := sv_gpu_model v;
  gpu_count := sv_gpu_count v;
  gpu_memory_gb := sv_gpu_memory_gb v;
  attestation_valid := sv_attestation_valid v;
  validation_timestamp := sv_validation_timestamp v |}.

Definition update_miner_gpu_profile (uid : Z) (vs : list SetterValidation) : VM () :=
  update_miner_profile_from_validation uid (to_categorization <$> vs);;
  mret ().

Definition calculate_hardware_score (specs : json) : f64 := f64_of_Z 1.

(** [specs["executor_result"][k]]: indexing a missing key gives [null]. *)
Definition executor_result_field (specs : json) (k : string) : json :=
  default JNull (json_get k (default JNull (json_get "executor_result" specs))).

Definition extract_validation_result (miner_id : string) (executor : uuid) (log : log_row)
    : VM SetterValidation :=
  let id := uuid_to_string executor in
  let specs := match vl_details log with JNull => None | v => Some v end in
  let named := specs ≫= fun v => json_as_str (executor_result_field v "gpu_name") in
  let known := match named with Some name => negb (String.eqb name "UNKNOWN") | None => false end in
  model ← (if known : bool then mret named
           else
             r ← vtry (get_executor_gpu_name_from_assignments miner_id id);
             mret (match r with Ok (Some name) => Some name | _ => named end));
  count ← vtry (get_executor_gpu_count_from_assignments miner_id id);
  memory ← vtry (get_executor_first_gpu_memory_gb miner_id id);
  mret {|
    sv_executor_id := executor;
    sv_is_valid := negb (vl_success log =? 0);
    sv_hardware_score := match specs with Some v => calculate_hardware_score v | None => f64_zero end;
    sv_gpu_count := unwrap_or 0 count;
    sv_gpu_memory_gb := unwrap_or f64_zero memory;
    sv_network_bandwidth_mbps :=
      match specs with
      | Some v => default f64_zero (json_as_f64 (executor_result_field v "memory_bandwidth_gbps"))
      | None => f64_zero
      end;
    sv_attestation_valid :=
      (String.eqb (vl_verification_type log) "attestation"
       || String.eqb (vl_verification_type log) "ssh_automation")
      && negb (vl_success log =? 0);
    sv_validation_timestamp := vl_timestamp log;
    sv_gpu_model := default "UNKNOWN" model |}.

(** Composite identifiers [miner{uid}__{uuid}] lose their prefix. *)
Definition clean_executor_id (text : string) : string :=
  if String.prefix "miner" text && contains "__" text then
    match split_once "__" text with Some (_, rest) => rest | None => text end
  else text.

(** The join of logs and online registrations of a miner with assigned GPUs, newest
    first. *)
Definition recent_logs (miner_id : string) (cutoff : Z) (d : Database) : list log_row :=
  concat ((fun l =>
    (fun _ => l) <$> List.filter
      (fun e => String.eqb (me_executor_id e) (vl_executor_id l)
                && String.eqb (me_miner_id e) miner_id && is_online e
                && exists_b (fun a => String.eqb (ga_executor_id a) (vl_executor_id l)
                                      && String.eqb (ga_miner_id a) miner_id) d)
      (snd <$> map_to_list (executors d)))
    <$> List.filter (fun l => cutoff <=? vl_timestamp l) (snd <$> map_to_list (logs d))).

Definition get_recent_miner_validations (uid hours : Z) : VM (list SetterValidation) :=
  t ← now;
  let miner_id := miner_id_of uid in
  ls ← rows "recent_logs" (recent_logs miner_id (t - hours * hour));
  vfold (fun acc l =>
    match uuid_parse_str (clean_executor_id (vl_executor_id l)) with
    | None => vfail (InvalidExecutorId (vl_executor_id l))
    | Some executor =>
        r ← vtry (extract_validation_result miner_id executor l);
        mret (match r with Ok v => acc ++ [v] | Err _ => acc end)
    end) [] (sort_by (fun a b => vl_timestamp b <=? vl_timestamp a) ls).

(** [DISTINCT] miners with a registered executor that was verified recently. *)
Definition recently_verified_miners (cutoff : Z) (d : Database) : list string :=
  remove_dups (me_miner_id <$> List.filter
    (fun e => existsb (fun l => String.eqb (vl_executor_id l) (me_executor_id e)
                                && (cutoff <=? vl_timestamp l)) (snd <$> map_to_list (logs d)))
    (snd <$> map_to_list (executors d))).

Definition update_all_miner_scores : VM () :=
  t ← now;
  miners ← rows "recent_miners" (recently_verified_miners (t - GPU_CATEGORY_CUTOFF_HOURS * hour));
  vfold (fun _ miner_id =>
    match strip_prefix "miner_" miner_id ≫= parse_u16 with
    | None => mret ()
    | Some uid =>
        vs ← vtry (get_recent_miner_validations uid GPU_CATEGORY_CUTOFF_HOURS);
        match vs with
        | Ok (v :: rest) => vtry (update_miner_gpu_profile uid (v :: rest));; mret ()
        | _ => mret ()
        end
    end) () miners.
End Setter.
