(* ===== verification/SetterClaims.v ===== *)
(** * The weight setter: what it keeps, and its properties *)

From stdpp Require Import base gmap strings list.
From Stdlib Require Import Ascii ZArith.
From S2P Require Import Prelude.
From S2P Require Import Text.
From S2P Require Import Float64.
From S2P Require Import Decimal.
From S2P Require Import Collections.
From S2P Require Import Emission.
From S2P Require Import Categories.
From S2P Require Import WeightAllocation.
From S2P Require Import AllocationFacts.
From S2P Require Import ValidatorWorld.
From S2P Require Import ProfileRepo.
From S2P Require Import Scoring.
From S2P Require Import WeightSetter.
Local Open Scope Z_scope.

(** ** Programs that keep a relation between the worlds before and after *)

Definition vkeeps (R : World -> World -> Prop) {A} (m : VM A) : Prop :=
  forall env w, R w (m env w).2.

Section Keeps.
Context (R : World -> World -> Prop) `{!PreOrder R}.

Lemma vkeeps_ret {A} (a : A) : vkeeps R (mret a).
Proof. intros env w. simpl. reflexivity. Qed.

Lemma vkeeps_fail {A} e : vkeeps R (vfail e : VM A).
Proof. intros env w. simpl. reflexivity. Qed.

Lemma vkeeps_bind {A B} (m : VM A) (k : A -> VM B) :
  vkeeps R m -> (forall a, vkeeps R (k a)) -> vkeeps R (m ≫= k).
Proof.
  intros Hm Hk env w. specialize (Hm env w). unfold mbind, VM_bind.
  destruct (m env w) as [[a | e] w']; simpl in *; [|done].
  etrans; [done|apply Hk].
Qed.

Lemma vkeeps_try {A} (m : VM A) : vkeeps R m -> vkeeps R (vtry m).
Proof.
  intros Hm env w. specialize (Hm env w). unfold vtry.
  destruct (m env w) as [[a | e] w']; simpl in *; [done|]. by destruct e.
Qed.

Lemma vkeeps_fold {A B} (f : B -> A -> VM B) acc l :
  (forall b x, vkeeps R (f b x)) -> vkeeps R (vfold f acc l).
Proof.
  intros Hf. revert acc. induction l as [|x l IH]; intros acc; simpl;
    [apply vkeeps_ret|]. apply vkeeps_bind; [apply Hf|apply IH].
Qed.

Lemma vkeeps_retry {A} k op (m : VM A) : vkeeps R m -> vkeeps R (vretry k op m).
Proof.
  intros Hm. induction k as [|k IH]; simpl; [apply vkeeps_fail|].
  apply vkeeps_bind; [by apply vkeeps_try|]. intros [a | e]; [apply vkeeps_ret|done].
Qed.
End Keeps.

(** ** Programs that leave the submissions alone *)

Section Quiet.
Context (s : WeightSetter).

Definition version (w : World) : Z := version_key_of s (storage w).

Definition quiet (w w' : World) : Prop :=
  submissions w' = submissions w /\ version w' = version w /\
  last_weight_set_block w' = last_weight_set_block w.

#[export] Instance quiet_preorder : PreOrder quiet.
Proof.
  split; [done|]. intros w1 w2 w3 (? & ? & ?) (? & ? & ?). unfold quiet. intuition congruence.
Qed.

Lemma quiet_next_step : vkeeps quiet next_step.
Proof. done. Qed.

Lemma quiet_ask {A} (f : Env -> A) : vkeeps quiet (ask f).
Proof. done. Qed.

Lemma quiet_gets {A} (f : World -> A) : vkeeps quiet (gets f).
Proof. done. Qed.

Lemma quiet_statement {A} (f : Database -> option (A * Database)) : vkeeps quiet (statement f).
Proof.
  apply vkeeps_bind; [apply _|apply quiet_next_step|]. intros n.
  apply vkeeps_bind; [apply _|apply quiet_ask|]. intros [].
  - apply vkeeps_fail, _.
  - intros env w. unfold transform. by destruct (f (db w)) as [[a d]|].
Qed.

(** Storing under any name but that of the version key. *)
Lemma version_key_name name :
  String.prefix "w" name = false -> name <> "" ->
  storage_key s name <> storage_key s "weight_version_key".
Proof.
  intros Hp Hn E. destruct name as [|c name]; [done|].
  unfold storage_key in E. simpl in E. injection E as -> _. cbn in Hp. by destruct name.
Qed.

Lemma version_set_string o k v st :
  k <> storage_key s "weight_version_key" ->
  version_key_of s (set_string o k v st).2 = version_key_of s st.
Proof. intros Hk. unfold version_key_of. by rewrite get_set_string_ne. Qed.

Lemma quiet_storing_string name v :
  String.prefix "w" name = false -> name <> "" ->
  vkeeps quiet (storing (fun o => set_string o (storage_key s name) v)).
Proof.
  intros Hp Hn. apply vkeeps_bind; [apply _|apply quiet_next_step|]. intros n.
  apply vkeeps_bind; [apply _|apply quiet_ask|]. intros o env w. unfold transform.
  pose proof (version_set_string o _ v (storage w) (version_key_name name Hp Hn)) as Hv.
  destruct (set_string o _ v (storage w)) as [r st]. done.
Qed.

Lemma quiet_storing_i64 name v :
  String.prefix "w" name = false -> name <> "" ->
  vkeeps quiet (storing (fun o => set_i64 o (storage_key s name) v)).
Proof. apply quiet_storing_string. Qed.
End Quiet.

(** Walk through a program, closing the leaves with the hints. *)
Create HintDb quiet.
#[export] Hint Resolve quiet_next_step quiet_ask quiet_gets quiet_statement : quiet.
#[export] Hint Extern 1 (vkeeps _ (storing _)) =>
  first [apply quiet_storing_string | apply quiet_storing_i64]; [reflexivity|discriminate] : quiet.

Ltac quiet_step :=
  match goal with
  | |- vkeeps _ (mret _) => apply vkeeps_ret, _
  | |- vkeeps _ (vfail _) => apply vkeeps_fail, _
  | |- vkeeps _ (_ ≫= _) => apply vkeeps_bind; [apply _| |intros]
  | |- vkeeps _ (vtry _) => apply vkeeps_try
  | |- vkeeps _ (vfold _ _ _) => apply vkeeps_fold; [apply _|intros]
  | |- vkeeps _ (vretry _ _ _) => apply vkeeps_retry; [apply _|]
  | |- vkeeps _ (match ?x with _ => _ end) => destruct x
  | |- vkeeps _ _ => solve [auto with quiet]
  end.
Ltac quiet_tac := repeat quiet_step.

Section QuietPrograms.
Context (s : WeightSetter) `{HashOrder}.
Notation Q := (vkeeps (quiet s)).

Lemma quiet_now : Q now.
Proof. unfold now. quiet_tac. Qed.
#[local] Hint Resolve quiet_now : quiet.

Lemma quiet_rows {A} name (f : Database -> list A) : Q (rows name f).
Proof. unfold rows, query. quiet_tac. Qed.
#[local] Hint Resolve quiet_rows : quiet.

Lemma quiet_query {A} (f : Database -> A) : Q (query f).
Proof. unfold query. quiet_tac. Qed.
#[local] Hint Resolve quiet_query : quiet.

Lemma quiet_column {A} name (v : option A) : Q (column name v).
Proof. unfold column. quiet_tac. Qed.
#[local] Hint Resolve quiet_column : quiet.

Lemma quiet_decode r : Q (decode_assignment r).
Proof. unfold decode_assignment. quiet_tac. Qed.
#[local] Hint Resolve quiet_decode : quiet.

Lemma quiet_get_miner_gpu_uuid_assignments id : Q (get_miner_gpu_uuid_assignments id).
Proof. unfold get_miner_gpu_uuid_assignments. quiet_tac. Qed.
#[local] Hint Resolve quiet_get_miner_gpu_uuid_assignments : quiet.

Lemma quiet_get_miner_gpu_assignments uid : Q (get_miner_gpu_assignments uid).
Proof. unfold get_miner_gpu_assignments. quiet_tac. Qed.
#[local] Hint Resolve quiet_get_miner_gpu_assignments : quiet.

Lemma quiet_build_profile id : Q (build_profile id).
Proof. unfold build_profile. quiet_tac. Qed.
#[local] Hint Resolve quiet_build_profile : quiet.

Lemma quiet_get_all_gpu_profiles : Q get_all_gpu_profiles.
Proof. unfold get_all_gpu_profiles. quiet_tac. Qed.
#[local] Hint Resolve quiet_get_all_gpu_profiles : quiet.

Lemma quiet_get_miners e epoch h g : Q (get_miners_by_gpu_category_since_epoch e epoch h g).
Proof.
  unfold get_miners_by_gpu_category_since_epoch, score_profile, rewardable_counts. quiet_tac.
Qed.
#[local] Hint Resolve quiet_get_miners : quiet.

Lemma quiet_get_category_statistics e : Q (get_category_statistics e).
Proof. unfold get_category_statistics, profile_stats. quiet_tac. Qed.
#[local] Hint Resolve quiet_get_category_statistics : quiet.

Lemma quiet_get_current_block : Q get_current_block.
Proof. unfold get_current_block. quiet_tac. Qed.
#[local] Hint Resolve quiet_get_current_block : quiet.

Lemma quiet_get_metagraph : Q get_metagraph.
Proof. unfold get_metagraph. quiet_tac. Qed.
#[local] Hint Resolve quiet_get_metagraph : quiet.

Lemma quiet_get_last_weight_set_timestamp : Q (get_last_weight_set_timestamp s).
Proof. unfold get_last_weight_set_timestamp, read_i64. quiet_tac. Qed.

Lemma quiet_store_weight_allocation id uid c a x y b : Q (store_weight_allocation id uid c a x y b).
Proof. unfold store_weight_allocation. quiet_tac. Qed.
#[local] Hint Resolve quiet_store_weight_allocation : quiet.

Lemma quiet_get_gpu_profile uid : Q (get_gpu_profile uid).
Proof. unfold get_gpu_profile, get_gpu_counts_from_assignments. quiet_tac. Qed.
#[local] Hint Resolve quiet_get_gpu_profile : quiet.

Lemma quiet_store_emission_metrics d b : Q (store_emission_metrics s d b).
Proof. unfold store_emission_metrics, repo_store_emission_metrics. quiet_tac. Qed.

Lemma quiet_store_weight_allocations d id b : Q (store_weight_allocations d id b).
Proof. unfold store_weight_allocations, store_allocation_of. quiet_tac. Qed.

Lemma quiet_store_weight_submission_metadata dj sj d :
  Q (store_weight_submission_metadata dj sj s d).
Proof. unfold store_weight_submission_metadata. quiet_tac. Qed.

Lemma quiet_store_last_weight_set_block b : Q (store_last_weight_set_block s b).
Proof. unfold store_last_weight_set_block. quiet_tac. Qed.
End QuietPrograms.

(** ** How an attempt advances the submissions *)

(** [l] increases strictly, above [lo] and up to [hi]. *)
Fixpoint increasing (lo : Z) (l : list Z) (hi : Z) : Prop :=
  match l with
  | [] => lo <= hi
  | x :: l' => lo < x /\ increasing x l' hi
  end.

Lemma increasing_app lo l mid l' hi :
  increasing lo l mid -> increasing mid l' hi -> increasing lo (l ++ l') hi.
Proof.
  revert lo. induction l as [|x l IH]; intros lo; simpl.
  - intros Hle. destruct l' as [|y l']; simpl; [lia|]. intros [? ?]. split; [lia|done].
  - intros [? ?] ?. split; [done|]. by apply IH.
Qed.

Definition valid_weights (ws : list NormalizedWeight) : Prop :=
  ws <> [] /\ NoDup (uids ws) /\ Forall weight_wf ws /\ sum_weights ws <= u16_max.

(** The calls made for one vector under one version key: [b_errors] calls that ended with
    an error, and a last one. *)
Record Batch := { b_weights : list NormalizedWeight; b_key : Z; b_errors : nat; b_last : bool }.

Definition calls_of (ws : list NormalizedWeight) (key : Z) (answers : list bool) : list Submission :=
  (fun a => {| sub_weights := ws; sub_version_key := key; sub_accepted := a |}) <$> answers.

Definition batch_calls (b : Batch) : list Submission :=
  calls_of (b_weights b) (b_key b) (replicate (b_errors b) false ++ [b_last b]).

Definition valid_batch (b : Batch) : Prop := valid_weights (b_weights b) /\ (S (b_errors b) <= MAX_RETRIES)%nat.

Lemma batch_calls_length bs :
  Forall valid_batch bs -> (length (bs ≫= batch_calls) <= 3 * length bs)%nat.
Proof.
  induction 1 as [|b bs [_ Hb] _ IH]; [done|]. rewrite bind_cons, length_app. cbn [length].
  unfold MAX_RETRIES in Hb. unfold batch_calls at 1, calls_of. rewrite length_fmap, length_app, length_replicate.
  cbn [length]. lia.
Qed.

Section Advances.
Context (s : WeightSetter).

(** At most [k] valid vectors are handed to the chain, each up to three times and under a
    new and larger version key, as long as the keys do not reach 64 bits. *)
Definition advances (k : Z) (w w' : World) : Prop :=
  version s w + k < 2 ^ 64 ->
  exists batches, submissions w' = submissions w ++ (batches ≫= batch_calls) /\
    Z.of_nat (length batches) <= k /\ Forall valid_batch batches /\
    increasing (version s w) (b_key <$> batches) (version s w') /\
    version s w' <= version s w + k.

Lemma version_range w : 0 <= version s w < 2 ^ 64.
Proof. by apply wrap_range. Qed.

Lemma quiet_advances k w w' : 0 <= k -> quiet s w w' -> advances k w w'.
Proof.
  intros Hk (Hs & Hv & _) _. exists []. rewrite Hs, Hv, app_nil_r. simpl.
  split_and!; [done|lia|done|lia|lia].
Qed.

Lemma advances_quiet_l k w w1 w' : quiet s w w1 -> advances k w1 w' -> advances k w w'.
Proof. intros (Hs & Hv & _). unfold advances. by rewrite Hs, Hv. Qed.

Lemma advances_trans k k' w w1 w' :
  0 <= k -> 0 <= k' -> advances k w w1 -> advances k' w1 w' -> advances (k + k') w w'.
Proof.
  intros Hk Hk' H1 H2 Hlt. destruct (H1 ltac:(lia)) as (n1 & E1 & L1 & V1 & I1 & B1).
  destruct (H2 ltac:(lia)) as (n2 & E2 & L2 & V2 & I2 & B2).
  exists (n1 ++ n2). rewrite E2, E1, bind_app, app_assoc, length_app, fmap_app.
  split_and!; [done|lia|by apply Forall_app|by eapply increasing_app|lia].
Qed.

Lemma advances_weaken k k' w w' :
  k <= k' -> advances k w w' -> advances k' w w'.
Proof.
  intros Hk H Hlt. destruct (H ltac:(lia)) as (n & ? & ? & ? & ? & ?).
  exists n. split_and!; try done; lia.
Qed.

Lemma vkeeps_quiet_advances k {A} (m : VM A) :
  0 <= k -> vkeeps (quiet s) m -> vkeeps (advances k) m.
Proof. intros Hk Hm env w. by apply quiet_advances. Qed.

Lemma vkeeps_bind_quiet k {A B} (m : VM A) (f : A -> VM B) :
  0 <= k -> vkeeps (quiet s) m -> (forall a, vkeeps (advances k) (f a)) ->
  vkeeps (advances k) (m ≫= f).
Proof.
  intros Hk Hm Hf env w. specialize (Hm env w). unfold mbind, VM_bind.
  destruct (m env w) as [[a | e] w']; simpl in *; [|by apply quiet_advances].
  eapply advances_quiet_l; [done|apply Hf].
Qed.

(** Up to [n] attempts add up. *)
Lemma vkeeps_retry_advances n op {A} (m : VM A) :
  vkeeps (advances 1) m -> vkeeps (advances (Z.of_nat n)) (vretry n op m).
Proof.
  intros Hm. induction n as [|n IH]; intros env w; cbn [vretry].
  - by apply quiet_advances.
  - unfold mbind, VM_bind. pose proof (vkeeps_try _ m Hm env w) as Ht.
    destruct (vtry m env w) as [[[a | e] | e] w']; cbn in *.
    + eapply advances_weaken; [|done]. lia.
    + replace (Z.of_nat (S n)) with (1 + Z.of_nat n) by lia.
      eapply advances_trans; [lia|lia|done|apply IH].
    + eapply advances_weaken; [|done]. lia.
Qed.

(** ** The version key *)

Lemma wrap_wrap_signed v : wrap 64 (wrap_signed 64 v) = wrap 64 v.
Proof.
  unfold wrap, wrap_signed. case_match; [by rewrite Z.mod_mod|].
  change (2 ^ 64) with 18446744073709551616.
  rewrite Zminus_mod, Z_mod_same_full, Z.sub_0_r, !Z.mod_mod by done. done.
Qed.

Lemma wrap_signed_range v : - 2 ^ 63 <= wrap_signed 64 v < 2 ^ 63.
Proof.
  unfold wrap_signed. pose proof (Z.mod_pos_bound v (2 ^ 64) ltac:(lia)).
  change (64 - 1) with 63. destruct (_ <? _) eqn:E; b2p; lia.
Qed.

Lemma get_version_key_spec env w r w' :
  get_version_key s env w = (r, w') ->
  submissions w' = submissions w /\ version s w' = wrap 64 (version s w + 1) /\
  last_weight_set_block w' = last_weight_set_block w /\
  (forall v, r = Ok v -> v = version s w').
Proof.
  unfold get_version_key, storing, mbind, VM_bind, gets, next_step, ask, transform. simpl.
  set (v := wrap 64 (version_key_of s (storage w) + 1)).
  set (st := set_i64 _ _ _ _). intros E.
  assert (Hv : version_key_of s st.2 = v).
  { unfold version_key_of. subst st. rewrite get_set_i64 by apply wrap_signed_range. simpl.
    rewrite wrap_wrap_signed. apply Z.mod_mod. done. }
  destruct st as [[[] | e] st']; simpl in *; injection E as <- <-; simpl; unfold version; simpl;
    split_and!; try done; congruence.
Qed.

(** ** Submissions *)

Lemma find_duplicate_NoDup ws seen :
  find_duplicate ws seen = None -> NoDup (uids ws) /\ forall u, u ∈ uids ws -> u ∉ seen.
Proof.
  revert seen. induction ws as [|w ws IH]; intros seen; simpl.
  - intros _. split; [constructor|]. intros u Hu. by apply elem_of_nil in Hu.
  - unfold set_insert. case_bool_decide as Hw; [|done]. intros [Hnd Hs]%IH.
    split; [constructor; [|done]|].
    + intros Hu%Hs. set_solver.
    + intros u [-> | Hu]%elem_of_cons; [done|]. apply Hs in Hu. set_solver.
Qed.

Lemma validate_weights_ok ws :
  Forall weight_wf ws -> validate_weights_before_submission ws = Ok () ->
  valid_weights ws.
Proof.
  intros Hwf. unfold validate_weights_before_submission. destruct ws as [|w ws]; [done|].
  destruct (find_duplicate (w :: ws) ∅) eqn:Ed; [done|].
  destruct (u16_max <? _) eqn:Es; [done|]. intros _. b2p.
  apply find_duplicate_NoDup in Ed as [Hnd _]. done.
Qed.

Lemma submit_once_spec ws v env w r w' :
  Forall weight_wf ws -> submit_weights_to_chain ws v env w = (r, w') ->
  version s w' = version s w /\ last_weight_set_block w' = last_weight_set_block w /\
  ((exists e, r = Err e /\ submissions w' = submissions w) \/
   (exists a : bool, r = (if a then Ok () else Err SubmissionRejected) /\ valid_weights ws /\
      submissions w' = submissions w ++ calls_of ws v [a])).
Proof.
  intros Hwf. unfold submit_weights_to_chain.
  destruct (validate_weights_before_submission ws) as [[] | e] eqn:Ev;
    [|intros [= <- <-]; split_and!; eauto].
  unfold mbind, VM_bind.
  pose proof (vkeeps_try (quiet s) _ (quiet_get_current_block s) env w) as (Hs & Hv & Hl).
  destruct (vtry get_current_block env w) as [[rb | e] w2]; simpl in *;
    [|intros [= <- <-]; split_and!; eauto].
  unfold transform. intros [= <- <-]. simpl. unfold version in *. simpl. rewrite Hs, Hv, Hl.
  split_and!; [done..|right]. eexists. split_and!; [done|by apply validate_weights_ok|done].
Qed.

(** A submission with retries: no call, or calls for a valid vector of which all but the
    last end with an error. *)
Lemma submit_spec ws v n env w r w' :
  Forall weight_wf ws ->
  vretry n "submit weights" (submit_weights_to_chain ws v) env w = (r, w') ->
  version s w' = version s w /\ last_weight_set_block w' = last_weight_set_block w /\
  (submissions w' = submissions w \/
   exists errors answer, (S errors <= n)%nat /\ valid_weights ws /\
     submissions w' = submissions w ++ calls_of ws v (replicate errors false ++ [answer])).
Proof.
  intros Hwf. revert w. induction n as [|n IH]; intros w; [by intros [= <- <-]; auto|].
  cbn [vretry]. unfold mbind, VM_bind, vtry.
  destruct (submit_weights_to_chain ws v env w) as [r1 w1] eqn:E1.
  destruct (submit_once_spec _ _ _ _ _ _ Hwf E1)
    as (Hv & Hl & [(e & -> & Hs) | (a & -> & Hok & Hs)]); rewrite <- Hv, <- Hl.
  - rewrite <- Hs.
    destruct e; try (intros (-> & -> & [-> | (m & b & Hm & ? & ->)])%IH; (split_and!; [done|done|]);
      [by left|right; exists m, b; split_and!; [lia|done|done]]).
    intros [= <- <-]. auto.
  - destruct a; [intros [= <- <-]|].
    { split_and!; [done..|right]. exists 0%nat, true. split_and!; [lia|done|done]. }
    intros (-> & -> & [-> | (m & b & Hm & _ & ->)])%IH; (split_and!; [done|done|right]).
    + exists 0%nat, false. split_and!; [lia|done|done].
    + exists (S m), b. rewrite Hs, <- app_assoc. split_and!; [lia|done|done].
Qed.
End Advances.

(** ** The attempt, the tick and the loop *)

Section Loop.
Context (s : WeightSetter) `{HashOrder}.
Context (dj : WeightDistribution -> string) (sj : gmap string CategoryStats -> string).

(** What follows the choice of the vector. *)
Definition submit_and_record (d : WeightDistribution) (ws : list NormalizedWeight) : VM () :=
  version_key ← get_version_key s;
  match find_duplicate ws ∅ with
  | Some uid => vfail (DuplicateUidInWeights uid)
  | None =>
      submit_weights_to_chain_with_retry ws version_key;;
      block ← vtry get_current_block;
      metrics_id ← store_emission_metrics s d (unwrap_or 0 block);
      store_weight_allocations d metrics_id (unwrap_or 0 block);;
      store_weight_submission_metadata dj sj s d
  end.

Lemma quiet_record d :
  vkeeps (quiet s) (block ← vtry get_current_block;
    metrics_id ← store_emission_metrics s d (unwrap_or 0 block);
    store_weight_allocations d metrics_id (unwrap_or 0 block);;
    store_weight_submission_metadata dj sj s d).
Proof.
  apply vkeeps_bind; [apply _|apply vkeeps_try, quiet_get_current_block|intros b].
  apply vkeeps_bind; [apply _|apply quiet_store_emission_metrics|intros id].
  apply vkeeps_bind; [apply _|apply quiet_store_weight_allocations|intros _].
  apply quiet_store_weight_submission_metadata.
Qed.

Lemma submit_and_record_advances d ws :
  Forall weight_wf ws -> vkeeps (advances s 1) (submit_and_record d ws).
Proof.
  intros Hwf env w. unfold submit_and_record, mbind at 1, VM_bind at 1.
  destruct (get_version_key s env w) as [r w1] eqn:E1.
  destruct (get_version_key_spec s _ _ _ _ E1) as (Hs1 & Hv1 & _ & Hr).
  pose proof (version_range s w) as Hrange.
  assert (Hstop : advances s 1 w w1).
  { intros Hlt. rewrite wrap_small in Hv1 by lia. exists []. rewrite app_nil_r. simpl.
    split_and!; [done|lia|done|lia|lia]. }
  destruct r as [v | e]; simpl; [|done]. destruct (find_duplicate ws ∅); simpl; [done|].
  unfold mbind at 1, VM_bind at 1.
  destruct (submit_weights_to_chain_with_retry ws v env w1) as [r2 w2] eqn:E2.
  destruct (submit_spec s _ _ _ _ _ _ _ Hwf E2) as (Hv2 & _ & Hs2).
  rewrite Hs1 in Hs2. specialize (Hr v eq_refl).
  assert (Hfin : forall w3, quiet s w2 w3 -> advances s 1 w w3).
  { intros w3 (Hs3 & Hv3 & _) Hlt. rewrite wrap_small in Hv1 by lia. rewrite Hs3, Hv3, Hv2.
    destruct Hs2 as [-> | (m & b & Hm & Hok & ->)].
    - exists []. rewrite app_nil_r. simpl. split_and!; try done; lia.
    - exists [{| b_weights := ws; b_key := v; b_errors := m; b_last := b |}]. cbn.
      rewrite app_nil_r. split_and!; try done; try lia. by apply Forall_singleton. }
  destruct r2 as [[] | e]; simpl; apply Hfin; [apply quiet_record|done].
Qed.

Lemma attempt_advances : vkeeps (advances s 1) (attempt_weight_setting dj sj s).
Proof.
  unfold attempt_weight_setting.
  apply vkeeps_bind_quiet; [done|apply quiet_get_metagraph|intros g].
  apply vkeeps_bind_quiet; [done|apply quiet_get_last_weight_set_timestamp|intros epoch].
  apply vkeeps_bind_quiet; [done|apply quiet_get_miners|intros miners].
  apply vkeeps_bind_quiet; [done|apply quiet_next_step|intros n].
  destruct (calculate_weight_distribution _ _ _) as [d | e] eqn:Ed;
    [|by apply vkeeps_quiet_advances, vkeeps_fail, _].
  apply accepted_wf in Ed. unfold build_normalized_weights.
  destruct (weights d) as [|x ws] eqn:Ew; [by apply vkeeps_quiet_advances, vkeeps_fail, _|].
  intros env w. apply (submit_and_record_advances d (x :: ws) Ed env w).
Qed.

Lemma set_weights_advances : vkeeps (advances s 3) (set_weights_for_miners dj sj s).
Proof. apply (vkeeps_retry_advances s MAX_RETRIES), attempt_advances. Qed.

Lemma tick_advances : vkeeps (advances s 3) (weight_setter_tick dj sj s).
Proof.
  unfold weight_setter_tick.
  apply vkeeps_bind_quiet; [done|apply vkeeps_try, quiet_get_current_block|intros [b | e]];
    [|by apply vkeeps_quiet_advances, vkeeps_ret, _].
  apply vkeeps_bind_quiet; [done|apply quiet_gets|intros last].
  destruct (_ <=? _); [|by apply vkeeps_quiet_advances, vkeeps_ret, _].
  intros env w. unfold mbind, VM_bind.
  pose proof (vkeeps_try _ _ set_weights_advances env w) as Ha.
  destruct (vtry (set_weights_for_miners dj sj s) env w) as [[[[] | e] | e] w1]; simpl in *;
    [|done..].
  pose proof (vkeeps_try _ _ (quiet_store_last_weight_set_block s b) env w1) as (Hs & Hv & _).
  destruct (vtry (store_last_weight_set_block s b) env w1) as [[r | e] w2]; simpl in *;
    unfold advances, version in *; simpl; by rewrite Hs, Hv.
Qed.

Lemma run_ticks_advances k : vkeeps (advances s (3 * Z.of_nat k)) (run_ticks dj sj s k).
Proof.
  induction k as [|k IH]; intros env w; [by apply quiet_advances|].
  cbn [run_ticks]. unfold mbind, VM_bind. pose proof (tick_advances env w) as Ht.
  destruct (weight_setter_tick dj sj s env w) as [[[] | e] w1]; simpl in *.
  - replace (3 * Z.of_nat (S k)) with (3 + 3 * Z.of_nat k) by lia.
    eapply advances_trans; [lia|lia|done|apply IH].
  - eapply advances_weaken; [|done]. lia.
Qed.
End Loop.

(** ** Properties *)

(** The value of a successful retry comes from one of its attempts. *)
Lemma vretry_Ok {A} n op (m : VM A) env w a w' :
  vretry n op m env w = (Ok a, w') -> exists w1 w2, m env w1 = (Ok a, w2).
Proof.
  revert w. induction n as [|n IH]; intros w; [done|].
  cbn [vretry]. unfold mbind, VM_bind, vtry.
  destruct (m env w) as [[b | e] w1] eqn:E.
  - intros [= -> ->]. eauto.
  - destruct e; try apply IH. done.
Qed.

Lemma get_current_block_Ok env w b w' :
  get_current_block env w = (Ok b, w') -> exists n, chain_block env n = Some b.
Proof.
  intros (w1 & w2 & E)%vretry_Ok. revert E. unfold mbind, VM_bind, next_step, ask. simpl.
  destruct (chain_block env (steps w1)) eqn:Eb; intros [= <- <-]; eauto.
Qed.

(** The chain has not reached the next block at which weights are due. *)
Definition not_due (s : WeightSetter) (env : Env) (w : World) : Prop :=
  forall n b, chain_block env n = Some b ->
    b < wrap 64 (last_weight_set_block w + blocks_per_weight_set s).

Lemma tick_not_due `{HashOrder} dj sj s env w :
  not_due s env w -> quiet s w (weight_setter_tick dj sj s env w).2.
Proof.
  intros Hdue. unfold weight_setter_tick, mbind, VM_bind, gets, vtry.
  pose proof (quiet_get_current_block s env w) as Hq.
  destruct (get_current_block env w) as [[b | e] w1] eqn:E; simpl in *.
  - destruct (get_current_block_Ok _ _ _ _ E) as [n Hn]. specialize (Hdue n b Hn).
    destruct Hq as (Hs & Hv & Hl). rewrite Hl. rewrite (proj2 (Z.leb_gt _ _)) by lia. done.
  - by destruct e.
Qed.

Lemma run_not_due `{HashOrder} dj sj s k env w :
  not_due s env w -> quiet s w (run_ticks dj sj s k env w).2.
Proof.
  revert w. induction k as [|k IH]; intros w Hdue; [done|].
  cbn [run_ticks]. unfold mbind, VM_bind. pose proof (tick_not_due dj sj s env w Hdue) as Hq.
  destruct (weight_setter_tick dj sj s env w) as [[[] | e] w1]; simpl in *; [|done].
  etrans; [done|]. apply IH. destruct Hq as (_ & _ & Hl). unfold not_due. by rewrite Hl.
Qed.

(** C36: whatever the database, the files and the chain do, the calls of [submit_extrinsic]
    that [k] ticks of the weight setter make come in at most [3 k] batches, one vector and
    one version key each.  A batch has at most three calls, and another call follows only
    one that ended with an error, so at most one call of a batch is accepted; an error may
    come after the extrinsic was broadcast, and then the chain sees the same vector under
    the same key again.  Each vector is non-empty, has every UID once, only positive
    weights and a total of at most 65535; the keys of the batches increase strictly, above
    every key used before.  That makes at most [9 k] calls.  While no block is due nothing
    is submitted and no key is used. *)
Theorem weight_setter_submissions `{HashOrder} dj sj s k env w :
  version s w + 3 * Z.of_nat k < 2 ^ 64 ->
  let w' := (run_ticks dj sj s k env w).2 in
  (exists batches, submissions w' = submissions w ++ (batches ≫= batch_calls) /\
    Z.of_nat (length batches) <= 3 * Z.of_nat k /\ Forall valid_batch batches /\
    increasing (version s w) (b_key <$> batches) (version s w')) /\
  (length (submissions w') <= length (submissions w) + 9 * k)%nat /\
  (not_due s env w -> submissions w' = submissions w /\ version s w' = version s w).
Proof.
  intros Hlt. split; [|split].
  - destruct (run_ticks_advances s dj sj k env w Hlt) as (batches & ? & ? & ? & ? & _). eauto.
  - destruct (run_ticks_advances s dj sj k env w Hlt) as (batches & -> & Hn & Hv & _).
    apply batch_calls_length in Hv. rewrite length_app. lia.
  - intros Hdue. destruct (run_not_due dj sj s k env w Hdue) as (? & ? & _). done.
Qed.

(** ** A concrete validator *)
Module Run.

#[local] Existing Instance storage_order.

Definition config : EmissionConfig := EmissionConfig_for_testing.
Definition setter : WeightSetter :=
  WeightSetter_new 39 360 f64_zero {| scoring_emission_config := config |} config.

Definition noon : Z := 12 * hour.

Definition database : Database := {|
  assignments := {["GPU-1" := {| ga_gpu_index := 0; ga_executor_id := "exec"; ga_miner_id := "miner_7";
                                 ga_gpu_name := Some "NVIDIA H100 80GB HBM3";
                                 ga_gpu_memory_gb := Some (f64_of_Z 80) |}]};
  executors := {["e" := {| me_miner_id := "miner_7"; me_executor_id := "exec"; me_status := "online";
                           me_last_health_check := Some noon |}]};
  logs := {["l" := {| vl_executor_id := "exec"; vl_verification_type := "attestation";
                      vl_timestamp := noon; vl_score := f64_of_Z 1; vl_success := 1;
                      vl_details := JNull |}]};
  profiles := ∅;
  emission_metrics := ∅;
  next_emission_id := 1;
  allocation_history := []
|}.

Definition world : World := {|
  db := database; storage := MemoryStorage_with_file NoFile; last_weight_set_block := 1000;
  submissions := []; steps := 0 |}.

Definition graph : Metagraph := {|
  hotkeys := replicate 10 "5F"; axons := replicate 10 {| axon_ip := 1; axon_port := 8091 |} |}.

(** A chain at a given block; [fails] picks failing statements, [refuses] the calls of
    [submit_extrinsic] that end with an error. *)
Definition env (block : Z) (fails refuses : nat -> bool) : Env := {|
  clock := fun _ => noon;
  sql_fails := fails;
  save_outcome := fun _ => SaveOk;
  chain_block := fun _ => Some block;
  chain_metagraph := fun _ => Some graph;
  chain_accepts := fun n => negb (refuses n);
  sql_avg := fun l => f64_div (f64_sum l) (f64_of_Z (Z.of_nat (length l))) |}.

Definition text {A} (_ : A) : string := "{}".

Definition never (_ : nat) : bool := false.

Definition after (block : Z) (fails refuses : nat -> bool) (k : nat) : World :=
  (run_ticks text text setter k (env block fails refuses) world).2.

(** Without errors, one call; with a chain that always answers with an error, three batches
    of three calls; before the block is due, none. *)
Lemma weight_setter_submissions_witness :
  length (submissions (after 1360 never never 1)) = 1%nat /\
  sub_version_key <$> submissions (after 1360 never (fun _ => true) 1) = [1; 1; 1; 2; 2; 2; 3; 3; 3] /\
  (exists batches, submissions (after 1360 never (fun _ => true) 1) = batches ≫= batch_calls /\
     Forall valid_batch batches) /\
  submissions (after 1359 never never 2) = [].
Proof.
  split; [vm_compute; reflexivity|]. split; [vm_compute; reflexivity|]. split.
  - destruct (@weight_setter_submissions storage_order text text setter 1 (env 1360 never (fun _ => true))
      world ltac:(vm_compute; reflexivity)) as [(batches & E & _ & Hv & _) _].
    exists batches. split; [exact E|exact Hv].
  - destruct (@weight_setter_submissions storage_order text text setter 2 (env 1359 never never)
      world ltac:(vm_compute; reflexivity)) as (_ & _ & H).
    apply H. intros n b [= <-]. vm_compute. reflexivity.
Defined.

(** When the bookkeeping after an accepted submission fails, the attempt counts as
    failed and the vector is submitted again under the next key: here the statement that
    stores the emission metrics fails once. *)
Lemma failed_bookkeeping_resubmits :
  (fun c => (sub_version_key c, sub_accepted c)) <$> submissions (after 1360 (Nat.eqb 21) never 1)
    = [(1, true); (2, true)].
Proof. vm_compute. reflexivity. Qed.
End Run.
