(* ===== verification/ScoringClaims.v ===== *)
(** * GPU counting and scoring: on which rows a listed miner rests, and the properties *)

From stdpp Require Import base gmap strings list sorting.
From Stdlib Require Import ZArith.
From S2P Require Import Prelude.
From S2P Require Import Float64.
From S2P Require Import Collections.
From S2P Require Import Emission.
From S2P Require Import Categories.
From S2P Require Import WeightAllocation.
From S2P Require Import AllocationFacts.
From S2P Require Import ValidatorWorld.
From S2P Require Import ProfileRepo.
From S2P Require Import Scoring.
From S2P Require Import SetterClaims.
Local Open Scope Z_scope.

(** ** Programs that only read the database *)

Definition same_db (w w' : World) : Prop := db w' = db w.

#[export] Instance same_db_preorder : PreOrder same_db.
Proof. split; [done|]. unfold same_db. intros w1 w2 w3 -> ->. done. Qed.

Notation reads := (vkeeps same_db).

Lemma reads_next_step : reads next_step.
Proof. done. Qed.

Lemma reads_ask {A} (f : Env -> A) : reads (ask f).
Proof. done. Qed.

Lemma reads_query {A} (f : Database -> A) : reads (query f).
Proof.
  intros env w. unfold query, statement, mbind, VM_bind, next_step, ask, transform, same_db. simpl.
  by destruct (sql_fails env (steps w)).
Qed.

#[export] Hint Resolve reads_next_step reads_ask reads_query : quiet.

Lemma reads_Ok {A} (m : VM A) env w a w' : reads m -> m env w = (Ok a, w') -> db w' = db w.
Proof. intros Hm E. specialize (Hm env w). rewrite E in Hm. exact Hm. Qed.

Section Reads.
Context `{HashOrder}.

Lemma reads_get_miner_gpu_uuid_assignments id : reads (get_miner_gpu_uuid_assignments id).
Proof. unfold get_miner_gpu_uuid_assignments, rows, decode_assignment, column. quiet_tac. Qed.
#[local] Hint Resolve reads_get_miner_gpu_uuid_assignments : quiet.

Lemma reads_get_all_gpu_profiles : reads get_all_gpu_profiles.
Proof. unfold get_all_gpu_profiles, build_profile, now. quiet_tac. Qed.

Lemma reads_rewardable_counts e uid : reads (rewardable_counts e uid).
Proof. unfold rewardable_counts, get_miner_gpu_assignments. quiet_tac. Qed.
#[local] Hint Resolve reads_rewardable_counts : quiet.

Lemma reads_score_profile e epoch cutoff g acc p : reads (score_profile e epoch cutoff g acc p).
Proof. unfold score_profile. quiet_tac. Qed.
End Reads.

(** ** Runs that return *)

Lemma vbind_Ok {A B} (m : VM A) (k : A -> VM B) env w b w' :
  (m ≫= k) env w = (Ok b, w') -> exists a w1, m env w = (Ok a, w1) /\ k a env w1 = (Ok b, w').
Proof.
  unfold mbind, VM_bind. destruct (m env w) as [[a | e] w1]; [eauto|done].
Qed.

Lemma vfold_Ok {A B} (P : World -> B -> Prop) (f : B -> A -> VM B) l acc env w b w' :
  (forall acc x w a w', x ∈ l -> P w acc -> f acc x env w = (Ok a, w') -> P w' a) ->
  P w acc -> vfold f acc l env w = (Ok b, w') -> P w' b.
Proof.
  revert acc w. induction l as [|x l IH]; intros acc w Hf Hacc; simpl.
  - intros [= <- <-]. done.
  - intros (a & w1 & E & Hl)%vbind_Ok. eapply IH; [|eapply Hf; [left|done|done]|done].
    intros acc' y w2 a' w3 Hy. apply Hf. by right.
Qed.

Lemma query_Ok {A} (f : Database -> A) env w a w' :
  query f env w = (Ok a, w') -> a = f (db w) /\ db w' = db w.
Proof.
  unfold query, statement, mbind, VM_bind, next_step, ask, transform. simpl.
  destruct (sql_fails env (steps w)); [done|]. by intros [= <- <-].
Qed.

Lemma fold_left_invariant {A B} (P : B -> Prop) (f : B -> A -> B) l acc :
  (forall acc x, x ∈ l -> P acc -> P (f acc x)) -> P acc -> P (fold_left f l acc).
Proof.
  revert acc. induction l as [|x l IH]; intros acc Hf Hacc; simpl; [done|].
  apply IH; [|by apply Hf; [left|]]. intros acc' y Hy. apply Hf. by right.
Qed.

(** ** The evidence for a category *)

(** The miner has a GPU of the category on an executor that is online. *)
Definition online_gpu (d : Database) (miner_id category : string) : Prop :=
  exists a name, a ∈ snd <$> map_to_list (assignments d) /\ ga_miner_id a = miner_id /\
    assignment_online d a = true /\ ga_gpu_name a = Some name /\ normalized_model name = category.

Lemma grouped_assignments_online d miner_id ex n name mem :
  (ex, n, Some name, mem) ∈ grouped_assignments miner_id d ->
  online_gpu d miner_id (normalized_model name).
Proof.
  intros ([ex' name'] & [= <- _ <- _] & Hk)%list_elem_of_fmap.
  apply elem_of_remove_dups, list_elem_of_fmap in Hk as (a & [= _ En] & Ha).
  apply list_elem_of_In, List.filter_In in Ha as [Hin%list_elem_of_In Ha]. apply andb_true_iff in Ha as [Ha1 Ha2].
  apply String.eqb_eq in Ha1. exists a, name. done.
Qed.

Lemma decode_assignment_Ok r env w a w' :
  decode_assignment r env w = (Ok a, w') ->
  w' = w /\ r = (a.1.1.1, a.1.1.2, Some a.1.2, Some a.2).
Proof.
  destruct r as [[[ex n] [name|]] [mem|]]; unfold decode_assignment, column, mbind, VM_bind;
    simpl; intros E; [injection E as <- <-; done|discriminate..].
Qed.

Section Assignments.
Context `{HashOrder}.

Lemma rows_Ok {A} name (f : Database -> list A) env w l w' :
  rows name f env w = (Ok l, w') -> l ≡ₚ f (db w) /\ db w' = db w.
Proof.
  unfold rows. intros (n & w1 & E & Hq)%vbind_Ok. injection E as <- <-.
  apply query_Ok in Hq as [-> ->]. split; [apply shuffle_Permutation|done].
Qed.

Lemma get_miner_gpu_uuid_assignments_online miner_id env w l w' :
  get_miner_gpu_uuid_assignments miner_id env w = (Ok l, w') ->
  forall r, r ∈ l -> online_gpu (db w) miner_id (normalized_model r.1.2).
Proof.
  intros (raw & w1 & [Hraw _]%rows_Ok & Hf)%vbind_Ok.
  revert Hf. apply (vfold_Ok (fun _ acc => forall r : string * Z * string * f64,
    r ∈ acc -> online_gpu (db w) miner_id (normalized_model r.1.2)));
    [|by intros r ?%elem_of_nil].
  intros acc r w2 a w3 Hr Hacc (row & w4 & [-> Er]%decode_assignment_Ok & E)%vbind_Ok.
  injection E as <- <-. intros r' [Hr' | ->%list_elem_of_singleton]%elem_of_app; [by apply Hacc|].
  rewrite Hraw, Er in Hr. by eapply grouped_assignments_online.
Qed.

Lemma get_miner_gpu_assignments_online uid env w m w' :
  get_miner_gpu_assignments uid env w = (Ok m, w') ->
  forall ex n name mem, m !! ex = Some (n, name, mem) ->
    online_gpu (db w) (miner_id_of uid) (normalized_model name).
Proof.
  intros (l & w1 & Hl & E)%vbind_Ok. injection E as <- <-.
  apply (fold_left_invariant (fun acc : gmap string (Z * string * f64) =>
    forall ex n name mem, acc !! ex = Some (n, name, mem) -> online_gpu _ _ (normalized_model name))).
  - intros acc [[[ex n] name] mem] Hr Hacc ex' n' name' mem' E.
    pose proof (get_miner_gpu_uuid_assignments_online _ _ _ _ _ Hl _ Hr) as Ho. simpl in Ho.
    unfold assign_row in E. destruct (decide (ex = ex')) as [<- | Hne];
      repeat case_match; simplify_map_eq; eauto.
  - intros ex n name mem. by rewrite lookup_empty.
Qed.
End Assignments.

(** ** Who is scored *)

(** The names under which GPUs are counted. *)
Definition category_names : list string := ["A100"; "H100"; "B200"; "OTHER"].

Lemma category_name c : GpuCategory_to_string c ∈ category_names.
Proof. apply (bool_decide_unpack _). by destruct c. Qed.

Section Scored.
Context `{HashOrder} (e : GpuScoringEngine) (epoch : option Z) (cutoff : Z) (g : Metagraph).
Context (d : Database) (ps : list MinerGpuProfile).

(** A category is rewarded, and the miner has a GPU for it. *)
Definition category_ok (uid : Z) (k : string) : Prop :=
  has_gpu_model (scoring_emission_config e) k = true /\ k ∈ category_names /\
  online_gpu d (miner_id_of uid) k.

(** An entry of the result: the miner passed the filters on its profile, and its score
    is the profile's times a number of GPUs. *)
Definition entry_ok (k : string) (m : Z * f64) : Prop :=
  category_ok m.1 k /\
  exists p count, p ∈ ps /\ profile_considered epoch cutoff g p = true /\ m.1 = miner_uid p /\
    m.2 = f64_mul (total_score p) (f64_of_Z count).

Definition scored_ok (acc : gmap string Miners) : Prop :=
  forall k ms, acc !! k = Some ms -> forall m, m ∈ ms -> entry_ok k m.

Lemma rewardable_gpu_configured r c n :
  rewardable_gpu e r = Some (c, n) ->
  has_gpu_model (scoring_emission_config e) (GpuCategory_to_string c) = true /\
  GpuCategory_to_string c = normalized_model r.2.1.2.
Proof.
  destruct r as [? [[count name] memory]]. simpl. unfold is_gpu_model_rewardable, normalized_model.
  repeat case_match; intros; simplify_eq; done.
Qed.

Lemma rewardable_counts_ok uid env w counts w' :
  db w = d -> rewardable_counts e uid env w = (Ok counts, w') ->
  forall k n, counts !! k = Some n -> category_ok uid k.
Proof.
  intros Hd (assigned & w1 & Ha & E)%vbind_Ok. revert E. unfold mbind, VM_bind, next_step. simpl.
  intros [= <- <-].
  apply (fold_left_invariant (fun acc : gmap string Z =>
    forall k n, acc !! k = Some n -> category_ok uid k)).
  - intros acc [c n] ([ex [[n1 name] mem]] & Hin & Hr)%list_elem_of_omap Hacc k n'.
    unfold count_rewardable. simpl. rewrite entry_add_lookup.
    case_decide; [subst; intros _|apply Hacc].
    apply rewardable_gpu_configured in Hr as [Hr Ec]. apply elem_of_iter in Hin.
    split_and!; [done|apply category_name|]. rewrite Ec, <- Hd.
    by eapply get_miner_gpu_assignments_online.
  - intros k n. by rewrite lookup_empty.
Qed.

Lemma add_to_category_ok p l acc :
  p ∈ ps -> profile_considered epoch cutoff g p = true ->
  (forall k n, (k, n) ∈ l -> category_ok (miner_uid p) k) ->
  scored_ok acc -> scored_ok (fold_left (add_to_category p) l acc).
Proof.
  intros Hin Hp Hl Hacc. apply (fold_left_invariant scored_ok); [|done].
  intros acc' [k n] Hkn Hok k' ms. simpl.
  destruct (decide (k = k')) as [<- | Hne]; [|rewrite lookup_insert_ne by done; apply Hok].
  rewrite lookup_insert_eq. intros [= <-] m [Hm | Hm]%elem_of_app.
  - destruct (acc' !! k) as [ms|] eqn:E; simpl in Hm; [by eapply Hok|by apply elem_of_nil in Hm].
  - apply list_elem_of_singleton in Hm as ->. split; [by eapply Hl|]. by exists p, n.
Qed.

Lemma score_profile_ok acc p env w acc' w' :
  p ∈ ps -> db w = d -> scored_ok acc ->
  score_profile e epoch cutoff g acc p env w = (Ok acc', w') -> db w' = d /\ scored_ok acc'.
Proof.
  intros Hin Hd Hacc E. split; [by rewrite (reads_Ok _ _ _ _ _ (reads_score_profile _ _ _ _ _ _) E)|].
  revert E. unfold score_profile. destruct (profile_considered _ _ _ _) eqn:Hp;
    [|by intros [= <- <-]].
  intros (counts & w1 & Hc & E)%vbind_Ok. revert E. unfold mbind, VM_bind, next_step. simpl.
  intros [= <- <-]. apply add_to_category_ok; [done..| |done].
  intros k n Hk%elem_of_iter. by eapply rewardable_counts_ok.
Qed.

Lemma sort_miners_scored m : scored_ok m -> scored_ok (sort_miners <$> m).
Proof.
  intros Hm k ms. rewrite lookup_fmap. destruct (m !! k) as [ms'|] eqn:E; [|done].
  intros [= <-] x Hx. apply elem_of_sort_by in Hx. by eapply Hm.
Qed.
End Scored.

(** What the scoring hands to the allocation. *)
Lemma get_miners_scored `{HashOrder} e epoch h g env w m w' :
  get_miners_by_gpu_category_since_epoch e epoch h g env w = (Ok m, w') ->
  exists ps w1, get_all_gpu_profiles env w = (Ok ps, w1) /\
    scored_ok e epoch (clock env (steps w1) - h * hour) g (db w) ps m.
Proof.
  intros (ps & w1 & Eps & E)%vbind_Ok. apply vbind_Ok in E as (t & w2 & Et & E).
  apply vbind_Ok in E as (acc & w3 & Ef & E). injection E as <- <-.
  exists ps, w1. split; [done|]. apply sort_miners_scored.
  pose proof (reads_Ok _ _ _ _ _ reads_get_all_gpu_profiles Eps) as Hd.
  revert Et. unfold now, mbind, VM_bind, next_step, ask. simpl. intros [= <- <-].
  eapply (vfold_Ok (fun w' a => db w' = db w /\ scored_ok e epoch _ g (db w) ps a)) in Ef;
    [apply Ef| |split; [done|intros k ms; by rewrite lookup_empty]].
  intros acc' p w4 a w5 Hp [Hd4 Ha]. by apply score_profile_ok.
Qed.

(** ** Properties *)

(** ** Counting GPUs *)

(** The GPU distribution of a miner equals its reference.  A category is present
    exactly when some counted validation is of that category, with the sum of their GPUs
    (at 32 bits); counted is the first passing validation of each executor, so no
    executor counts twice, every executor with a passing validation counts, and failed
    validations or attestations never count. *)
Theorem gpu_distribution_counts_each_executor_once vs :
  (forall k, calculate_gpu_distribution vs !! k =
    match filter (in_category k) (counted vs) with
    | [] => None
    | _ => Some (wrap 32 (gpus_in k (counted vs)))
    end) /\
  NoDup (executor_id <$> counted vs) /\
  (forall v, v ∈ counted vs -> v ∈ vs /\ validation_ok v = true) /\
  (forall v, v ∈ vs -> validation_ok v = true ->
    exists v', v' ∈ counted vs /\ executor_id v' = executor_id v).
Proof.
  split_and!.
  - intros k. unfold calculate_gpu_distribution. rewrite count_gpus_lookup. fold (counted vs).
    unfold gpus_in. destruct (filter (in_category k) (counted vs)); [done|].
    by rewrite lookup_empty.
  - apply first_per_executor_NoDup.
  - intros v [Hv _]%elem_of_first_per_executor. by apply list_elem_of_filter in Hv as [? ?].
  - intros v Hv Hok. apply first_per_executor_covers; [|set_solver].
    by apply list_elem_of_filter.
Qed.

(** ** Who is scored *)

(** A configured model under any other name, such as H200, never gets a miner: its pool
    is always burnt. *)
Lemma other_models_never_scored `{HashOrder} e epoch h g env w m w' k x ms :
  get_miners_by_gpu_category_since_epoch e epoch h g env w = (Ok m, w') ->
  m !! k = Some (x :: ms) -> k ∈ category_names.
Proof. intros (ps & w1 & _ & Hm)%get_miners_scored Hk. eapply (Hm k _ Hk x). left. Qed.

(** The window of three hours for the average score reaches back to midnight: a
    verification of 26 hours ago can still count. *)
Lemma score_window_reaches_midnight d : after_datetime (d * day) (d * day + 26 * hour - 3 * hour) = true.
Proof.
  unfold after_datetime. replace (d * day + 26 * hour - 3 * hour) with (23 * hour + d * day) by lia.
  rewrite Z.div_mul, Z.div_add by done. rewrite (Z.div_small (23 * hour)) by done. apply Z.leb_refl.
Qed.

(** C38: weight goes only to eligible miners.  When the scoring returned the miners of
    an epoch and the allocation accepted them, every entry of the weight vector is the
    burn UID or a miner with an active axon in the metagraph, with a profile among those
    the repository returned that is fresh and, if an epoch is given, validated
    successfully since then, and with a GPU on an online executor of a category that
    both engines reward and in which the scoring listed the miner. *)
Theorem weights_go_to_eligible_miners `{HashOrder} e a epoch h g env w m w' n d :
  get_miners_by_gpu_category_since_epoch e epoch h g env w = (Ok m, w') ->
  calculate_weight_distribution n a m = Ok d ->
  exists ps w1, get_all_gpu_profiles env w = (Ok ps, w1) /\
  forall x, x ∈ weights d ->
    nw_uid x = burn_uid (emission_config a) \/
    exists p k ms, p ∈ ps /\ miner_uid p = nw_uid x /\
      has_active_axon g (nw_uid x) = true /\ validated_since epoch p = true /\
      clock env (steps w1) - h * hour <= last_updated p /\
      m !! k = Some ms /\ nw_uid x ∈ ms.*1 /\
      online_gpu (db w) (miner_id_of (nw_uid x)) k /\
      has_gpu_model (scoring_emission_config e) k = true /\
      has_gpu_model (emission_config a) k = true.
Proof.
  intros (ps & w1 & Eps & Hm)%get_miners_scored [Hw _]%accepted_inv.
  exists ps, w1. split; [done|]. intros x Hx.
  assert (nw_uid x ∈ uids (claims n a m)) as Hu.
  { apply uids_merge_all. rewrite <- Hw. by apply list_elem_of_fmap_2. }
  apply claims_uids in Hu as [? | (k & ms & Hk & Hu & Ha)]; [by left|right].
  pose proof Hu as Hin. apply list_elem_of_fmap in Hu as (y & Ey & Hy).
  destruct (Hm k ms Hk y Hy) as [(He & _ & Ho) (p & count & Hp & Hc & E1 & _)].
  exists p, k, ms. unfold profile_considered in Hc. b2p.
  split_and!; try done; congruence || lia || by rewrite Ey.
Qed.

(** The run of the scenario: the scored miners and their weights. *)
Definition scored_run : result VError (gmap string Miners) * World :=
  @get_miners_by_gpu_category_since_epoch storage_order (WeightSetter.gpu_scoring_engine Run.setter)
    None 3 Run.graph (Run.env 1360 Run.never Run.never) Run.world.

Definition scored_distribution (m : gmap string Miners) : result AllocationError WeightDistribution :=
  @calculate_weight_distribution storage_order 0
    (WeightSetter.weight_allocation_engine Run.setter) m.

Definition scored_uids : option (list Z) :=
  m ← ok_value scored_run.1; d ← ok_value (scored_distribution m); Some (uids (weights d)).

Lemma weights_go_to_eligible_miners_witness :
  scored_uids = Some [7; 999] /\
  match scored_run.1 with
  | Ok m =>
      match scored_distribution m with
      | Ok d => forall x, x ∈ weights d ->
          nw_uid x = 999 \/ exists k, online_gpu (db Run.world) (miner_id_of (nw_uid x)) k
      | Err _ => True
      end
  | Err _ => True
  end.
Proof.
  split; [vm_compute; reflexivity|].
  destruct scored_run as [[m | err] w'] eqn:Em; [|exact I]. cbn [fst].
  destruct (scored_distribution m) as [d | err] eqn:Ed; [|exact I].
  destruct (@weights_go_to_eligible_miners storage_order _ _ _ _ _ _ _ _ _ _ _ Em Ed)
    as (ps & w1 & _ & Hx).
  intros x Hin. destruct (Hx x Hin) as [Hb | (p & k & ms & _ & _ & _ & _ & _ & _ & _ & Ho & _)];
    [left; exact Hb|right; exists k; exact Ho].
Defined.
