(* ===== verification/AccessControl.v ===== *)
(** * Access control of the executor

    validation_session/hotkey_verifier.rs and validation_session/access_control.rs.
    P256 signatures are a parameter, [p256_verify key message signature], and so are the
    textual forms of IP addresses.  The session file is rewritten after each change; a
    failed write is only logged. *)

From stdpp Require Import base gmap strings list.
From Stdlib Require Import ZArith.
From S2P Require Import Prelude.
From S2P Require Import Text.
From S2P Require Import Float64.
From S2P Require Import Collections.
Local Open Scope Z_scope.

(** ** Validation sessions of the executor: types and rate limits

    validation_session/types.rs and validation_session/rate_limiter.rs.  Instants
    ([SystemTime]) are nanoseconds in Z; an operation that reads the clock takes the
    reading as an argument.  The debug line of a refused request, which refills the
    bucket once more when debug logging is on, is left out. *)

Definition seconds (n : Z) : Z := n * 1000000000.

(** ** Roles *)

Inductive ValidatorRole := Basic | Standard | Admin | Owner.

#[export] Instance ValidatorRole_eq_dec : EqDecision ValidatorRole.
Proof. solve_decision. Defined.

Definition ValidatorRole_permissions (r : ValidatorRole) : list string :=
  match r with
  | Basic => ["ssh_access"; "system_info"]
  | Standard => ["ssh_access"; "system_info"; "container_list"]
  | Admin => ["ssh_access"; "system_info"; "container_list"; "container_exec"]
  | Owner => ["all"]
  end.

Definition ValidatorRole_has_permission (r : ValidatorRole) (permission : string) : bool :=
  match r with
  | Owner => true
  | _ => existsb (String.eqb permission) (ValidatorRole_permissions r)
  end.

(** ** Identities and access records *)

Record ValidatorId := { hotkey : string; label : option string }.

Definition ValidatorId_new (h : string) : ValidatorId := {| hotkey := h; label := None |}.

Definition ValidatorId_with_label (h l : string) : ValidatorId := {| hotkey := h; label := Some l |}.

Definition ValidatorId_to_string (v : ValidatorId) : string :=
  match label v with
  | Some l => hotkey v +:+ "(" +:+ l +:+ ")"
  | None => hotkey v
  end.

(** The fields of an SSH key that are set here; the algorithm is always Ed25519. *)
Record SshKeyInfo := {
  key_id : string;
  public_key : string;
  private_key_path : string;
  username : string;
  fingerprint : string;
  key_created_at : Z;
  key_expires_at : Z;
  key_size : Z
}.

Record ValidatorAccess := {
  validator_id : ValidatorId;
  ssh_key : SshKeyInfo;
  granted_at : Z;
  expires_at : Z;
  metadata : gmap string string;
  role : ValidatorRole;
  hotkey_verified : bool
}.

Definition ValidatorAccess_new (now : Z) (v : ValidatorId) (pk : string) : ValidatorAccess :=
  let far_future := now + seconds (365 * 24 * 3600) in
  {| validator_id := v;
     ssh_key := {|
       key_id := "validator_" +:+ hotkey v;
       public_key := pk;
       private_key_path := "";
       username := "validator_" +:+ hotkey v;
       fingerprint := "";
       key_created_at := now;
       key_expires_at := far_future;
       key_size := 256 |};
     granted_at := now;
     expires_at := far_future;
     metadata := ∅;
     role := Basic;
     hotkey_verified := false |}.

Definition ValidatorAccess_new_with_role (now : Z) (v : ValidatorId) (pk : string)
    (r : ValidatorRole) (verified : bool) : ValidatorAccess :=
  let a := ValidatorAccess_new now v pk in
  {| validator_id := validator_id a; ssh_key := ssh_key a; granted_at := granted_at a;
     expires_at := expires_at a; metadata := metadata a; role := r; hotkey_verified := verified |}.

Definition ValidatorAccess_is_expired (a : ValidatorAccess) (now : Z) : bool := expires_at a <=? now.

Definition time_until_expiry (a : ValidatorAccess) (now : Z) : option Z :=
  if now <=? expires_at a then Some (expires_at a - now) else None.

Definition has_ssh_access (a : ValidatorAccess) : bool := true.

(** ** Configuration *)

Record RateLimitConfig := {
  ssh_requests_per_minute : Z;
  api_requests_per_minute : Z;
  burst_allowance : Z;
  rate_limit_window_seconds : Z
}.

Definition RateLimitConfig_default : RateLimitConfig := {|
  ssh_requests_per_minute := 10;
  api_requests_per_minute := 100;
  burst_allowance := 20;
  rate_limit_window_seconds := 60 |}.

Record HotkeyVerificationConfig := {
  enabled : bool;
  challenge_timeout_seconds : Z;
  max_signature_attempts : Z;
  cleanup_interval_seconds : Z
}.

Definition HotkeyVerificationConfig_default : HotkeyVerificationConfig := {|
  enabled := true;
  challenge_timeout_seconds := 300;
  max_signature_attempts := 3;
  cleanup_interval_seconds := 600 |}.

Record AccessControlConfig := {
  ip_whitelist : list string;
  required_permissions : gmap string (list string);
  hotkey_verification : HotkeyVerificationConfig;
  rate_limits : RateLimitConfig;
  role_assignments : gmap string ValidatorRole
}.

Definition AccessControlConfig_default : AccessControlConfig := {|
  ip_whitelist := [];
  required_permissions := ∅;
  hotkey_verification := HotkeyVerificationConfig_default;
  rate_limits := RateLimitConfig_default;
  role_assignments := ∅ |}.

Record SessionStats := {
  total_sessions : nat;
  active_sessions : nat;
  expired_sessions : nat;
  ssh_sessions : nat
}.

(** ** Token buckets *)

Record TokenBucket := {
  tokens : f64;
  last_refill : Z;
  capacity : f64;
  refill_rate : f64
}.

Definition TokenBucket_new (now : Z) (cap rate : f64) : TokenBucket :=
  {| tokens := cap; last_refill := now; capacity := cap; refill_rate := rate |}.

(** [duration_since(..).unwrap_or_default().as_secs_f64()]: zero when the clock went
    back. *)
Definition elapsed_secs (now last : Z) : f64 :=
  let d := Z.max 0 (now - last) in
  f64_add (f64_of_Z (d / 1000000000))
          (f64_div (f64_of_Z (d mod 1000000000)) (f64_of_Z 1000000000)).

Definition refill (now : Z) (b : TokenBucket) : TokenBucket := {|
  tokens := f64_min (f64_add (tokens b) (f64_mul (elapsed_secs now (last_refill b)) (refill_rate b)))
                    (capacity b);
  last_refill := now;
  capacity := capacity b;
  refill_rate := refill_rate b |}.

Definition try_consume (now : Z) (n : f64) (b : TokenBucket) : bool * TokenBucket :=
  let b := refill now b in
  if f64_leb n (tokens b)
  then (true, {| tokens := f64_sub (tokens b) n; last_refill := last_refill b;
                 capacity := capacity b; refill_rate := refill_rate b |})
  else (false, b).

Definition current_tokens (now : Z) (b : TokenBucket) : f64 * TokenBucket :=
  let b := refill now b in (tokens b, b).

(** ** The rate limiter *)

Inductive RequestType := Ssh | Api.

#[export] Instance RequestType_eq_dec : EqDecision RequestType.
Proof. solve_decision. Defined.

Record ValidatorRateLimiter := {
  limiter_config : RateLimitConfig;
  ssh_buckets : gmap string TokenBucket;
  api_buckets : gmap string TokenBucket
}.

Definition ValidatorRateLimiter_new (c : RateLimitConfig) : ValidatorRateLimiter :=
  {| limiter_config := c; ssh_buckets := ∅; api_buckets := ∅ |}.

Definition requests_per_minute (c : RateLimitConfig) (t : RequestType) : Z :=
  match t with Ssh => ssh_requests_per_minute c | Api => api_requests_per_minute c end.

Definition fresh_bucket (c : RateLimitConfig) (t : RequestType) (now : Z) : TokenBucket :=
  TokenBucket_new now
    (f64_of_Z (wrap 32 (requests_per_minute c t + burst_allowance c)))
    (f64_div (f64_of_Z (requests_per_minute c t)) (f64_of_Z 60)).

Definition buckets_of (l : ValidatorRateLimiter) (t : RequestType) : gmap string TokenBucket :=
  match t with Ssh => ssh_buckets l | Api => api_buckets l end.

Definition with_buckets (l : ValidatorRateLimiter) (t : RequestType) (m : gmap string TokenBucket)
    : ValidatorRateLimiter :=
  match t with
  | Ssh => {| limiter_config := limiter_config l; ssh_buckets := m; api_buckets := api_buckets l |}
  | Api => {| limiter_config := limiter_config l; ssh_buckets := ssh_buckets l; api_buckets := m |}
  end.

Definition check_request_internal (now : Z) (h : string) (t : RequestType) (n : f64)
    (l : ValidatorRateLimiter) : bool * ValidatorRateLimiter :=
  let bucket := default (fresh_bucket (limiter_config l) t now) (buckets_of l t !! h) in
  let '(allowed, bucket') := try_consume now n bucket in
  (allowed, with_buckets l t (<[h := bucket']> (buckets_of l t))).

Definition check_ssh_request (now : Z) (v : ValidatorId) (l : ValidatorRateLimiter) :=
  check_request_internal now (hotkey v) Ssh (f64_of_Z 1) l.

Definition check_api_request (now : Z) (v : ValidatorId) (l : ValidatorRateLimiter) :=
  check_request_internal now (hotkey v) Api (f64_of_Z 1) l.

Definition check_burst_request (now : Z) (v : ValidatorId) (t : RequestType) (count : Z)
    (l : ValidatorRateLimiter) :=
  check_request_internal now (hotkey v) t (f64_of_Z count) l.

Record RateLimitStatus := {
  ssh_tokens_remaining : Z;
  api_tokens_remaining : Z;
  ssh_limit : Z;
  api_limit : Z;
  window_seconds : Z
}.

Definition u32_max : Z := 4294967295.

(** The tokens of one kind; an unknown validator shows the rate without the burst. *)
Definition status_tokens (now : Z) (h : string) (t : RequestType) (l : ValidatorRateLimiter)
    : f64 * ValidatorRateLimiter :=
  match buckets_of l t !! h with
  | Some b =>
      let '(n, b') := current_tokens now b in (n, with_buckets l t (<[h := b']> (buckets_of l t)))
  | None => (f64_of_Z (requests_per_minute (limiter_config l) t), l)
  end.

Definition get_status (now now' : Z) (v : ValidatorId) (l : ValidatorRateLimiter)
    : RateLimitStatus * ValidatorRateLimiter :=
  let '(ssh, l) := status_tokens now (hotkey v) Ssh l in
  let '(api, l) := status_tokens now' (hotkey v) Api l in
  ({| ssh_tokens_remaining := f64_to_uint u32_max ssh;
      api_tokens_remaining := f64_to_uint u32_max api;
      ssh_limit := ssh_requests_per_minute (limiter_config l);
      api_limit := api_requests_per_minute (limiter_config l);
      window_seconds := rate_limit_window_seconds (limiter_config l) |}, l).

Definition fill_bucket (b : TokenBucket) : TokenBucket :=
  {| tokens := capacity b; last_refill := last_refill b; capacity := capacity b;
     refill_rate := refill_rate b |}.

Definition reset_limits (v : ValidatorId) (l : ValidatorRateLimiter) : ValidatorRateLimiter := {|
  limiter_config := limiter_config l;
  ssh_buckets := alter fill_bucket (hotkey v) (ssh_buckets l);
  api_buckets := alter fill_bucket (hotkey v) (api_buckets l) |}.

(** Buckets idle for an hour are dropped; the result counts them. *)
Definition cleanup_old_entries (now : Z) (l : ValidatorRateLimiter) : Z * ValidatorRateLimiter :=
  let cutoff := now - seconds 3600 in
  let stale (m : gmap string TokenBucket) := filter (fun kv => last_refill kv.2 < cutoff) m in
  (wrap 32 (Z.of_nat (size (stale (ssh_buckets l)) + size (stale (api_buckets l)))), {|
    limiter_config := limiter_config l;
    ssh_buckets := ssh_buckets l ∖ stale (ssh_buckets l);
    api_buckets := api_buckets l ∖ stale (api_buckets l) |}).

Record RateLimitStats := {
  active_ssh_limiters : nat;
  active_api_limiters : nat;
  stats_config : RateLimitConfig
}.

Definition rate_limiter_stats (l : ValidatorRateLimiter) : RateLimitStats := {|
  active_ssh_limiters := size (ssh_buckets l);
  active_api_limiters := size (api_buckets l);
  stats_config := limiter_config l |}.

(** ** The access control *)

Definition bytes : Type := list Z.

(** ** Hotkey challenges *)

Record SignatureChallenge := {
  challenge_id : string;
  challenge_data : bytes;
  created_at : Z;
  challenge_expires_at : Z;
  validator_hotkey : string
}.

(** [random] are the 32 random bytes of the challenge. *)
Definition SignatureChallenge_new (now : Z) (random : bytes) (h : string) (timeout : Z)
    : SignatureChallenge := {|
  challenge_id := "challenge_" +:+ h +:+ "_" +:+ show_int (Z.max 0 now / 1000000);
  challenge_data := random;
  created_at := now;
  challenge_expires_at := now + timeout;
  validator_hotkey := h |}.

Definition SignatureChallenge_is_expired (now : Z) (c : SignatureChallenge) : bool :=
  challenge_expires_at c <=? now.

Definition time_remaining (now : Z) (c : SignatureChallenge) : option Z :=
  if now <=? challenge_expires_at c then Some (challenge_expires_at c - now) else None.

Record VerificationAttempt := { attempts : Z; last_attempt : Z }.

Record HotkeySignatureVerifier := {
  verifier_config : HotkeyVerificationConfig;
  active_challenges : gmap string SignatureChallenge;
  verification_attempts : gmap string VerificationAttempt
}.

Inductive VerifierError :=
  | VerificationDisabled
  | AttemptsExceeded (hotkey : string).

Definition HotkeySignatureVerifier_new (c : HotkeyVerificationConfig) : HotkeySignatureVerifier :=
  {| verifier_config := c; active_challenges := ∅; verification_attempts := ∅ |}.

Definition has_exceeded_attempts (h : string) (s : HotkeySignatureVerifier) : bool :=
  match verification_attempts s !! h with
  | Some a => max_signature_attempts (verifier_config s) <=? attempts a
  | None => false
  end.

Definition generate_challenge (now : Z) (random : bytes) (h : string) (s : HotkeySignatureVerifier)
    : result VerifierError SignatureChallenge * HotkeySignatureVerifier :=
  if negb (enabled (verifier_config s)) then (Err VerificationDisabled, s)
  else if has_exceeded_attempts h s then (Err (AttemptsExceeded h), s)
  else
    let c := SignatureChallenge_new now random h
               (seconds (challenge_timeout_seconds (verifier_config s))) in
    (Ok c, {| verifier_config := verifier_config s;
              active_challenges := <[challenge_id c := c]> (active_challenges s);
              verification_attempts := verification_attempts s |}).

Definition remove_challenge (id : string) (s : HotkeySignatureVerifier) : HotkeySignatureVerifier :=
  {| verifier_config := verifier_config s;
     active_challenges := delete id (active_challenges s);
     verification_attempts := verification_attempts s |}.

(** [attempts += 1] at 32 bits. *)
Definition track_verification_attempt (now : Z) (h : string) (s : HotkeySignatureVerifier)
    : HotkeySignatureVerifier :=
  {| verifier_config := verifier_config s;
     active_challenges := active_challenges s;
     verification_attempts :=
       <[h := {| attempts := match verification_attempts s !! h with
                             | Some a => wrap 32 (attempts a + 1)
                             | None => 1
                             end;
                 last_attempt := now |}]> (verification_attempts s) |}.

Definition reset_verification_attempts (h : string) (s : HotkeySignatureVerifier)
    : HotkeySignatureVerifier :=
  {| verifier_config := verifier_config s;
     active_challenges := active_challenges s;
     verification_attempts := delete h (verification_attempts s) |}.

Section Verify.
(** Whether a signature of the message verifies under the key; false also when the key
    does not parse. *)
Context (p256_verify : bytes -> bytes -> bytes -> bool).

Definition verify_signature (now now' : Z) (id : string) (signature pk : bytes)
    (s : HotkeySignatureVerifier) : bool * HotkeySignatureVerifier :=
  if negb (enabled (verifier_config s)) then (true, s)
  else
    match active_challenges s !! id with
    | None => (false, s)
    | Some c =>
        if SignatureChallenge_is_expired now c then (false, remove_challenge id s)
        else
          let s := track_verification_attempt now' (validator_hotkey c) s in
          if p256_verify pk (challenge_data c) signature
          then (true, reset_verification_attempts (validator_hotkey c) (remove_challenge id s))
          else (false, s)
    end.
End Verify.

(** Expired challenges and attempts older than an hour. *)
Definition cleanup_expired (now : Z) (s : HotkeySignatureVerifier) : Z * HotkeySignatureVerifier :=
  let expired := filter (fun kv => SignatureChallenge_is_expired now kv.2 = true)
                   (active_challenges s) in
  (wrap 32 (Z.of_nat (size expired)), {|
    verifier_config := verifier_config s;
    active_challenges := active_challenges s ∖ expired;
    verification_attempts :=
      filter (fun kv => now - seconds 3600 < last_attempt kv.2) (verification_attempts s) |}).

Definition verifier_stats (s : HotkeySignatureVerifier) : nat * nat :=
  (size (active_challenges s), size (verification_attempts s)).

(** ** Sessions *)

(** [IpAddr] with its parser and printer. *)
Class IpText := {
  IpAddr : Type;
  ip_eqb : IpAddr -> IpAddr -> bool;
  ip_parse : string -> option IpAddr;
  ip_to_string : IpAddr -> string
}.

Record ValidatorAccessControl := {
  config : AccessControlConfig;
  sessions : gmap string ValidatorAccess;
  session_file : option (gmap string ValidatorAccess);
  hotkey_verifier : HotkeySignatureVerifier;
  rate_limiter : ValidatorRateLimiter
}.

Definition with_sessions (s : ValidatorAccessControl) (m : gmap string ValidatorAccess)
    : ValidatorAccessControl :=
  {| config := config s; sessions := m; session_file := session_file s;
     hotkey_verifier := hotkey_verifier s; rate_limiter := rate_limiter s |}.

Definition with_verifier (s : ValidatorAccessControl) (v : HotkeySignatureVerifier)
    : ValidatorAccessControl :=
  {| config := config s; sessions := sessions s; session_file := session_file s;
     hotkey_verifier := v; rate_limiter := rate_limiter s |}.

Definition with_limiter (s : ValidatorAccessControl) (l : ValidatorRateLimiter)
    : ValidatorAccessControl :=
  {| config := config s; sessions := sessions s; session_file := session_file s;
     hotkey_verifier := hotkey_verifier s; rate_limiter := l |}.

(** The sessions of an earlier run that have not expired; an unreadable file is
    [None]. *)
Definition load_from_storage_sync (now : Z) (f : option (gmap string ValidatorAccess))
    : gmap string ValidatorAccess :=
  match f with
  | Some m => filter (fun kv => ValidatorAccess_is_expired kv.2 now = false) m
  | None => ∅
  end.

Definition ValidatorAccessControl_new (now : Z) (c : AccessControlConfig)
    (f : option (gmap string ValidatorAccess)) : ValidatorAccessControl := {|
  config := c;
  sessions := load_from_storage_sync now f;
  session_file := f;
  hotkey_verifier := HotkeySignatureVerifier_new (hotkey_verification c);
  rate_limiter := ValidatorRateLimiter_new (rate_limits c) |}.

(** [saved] tells whether the write succeeds. *)
Definition save_to_storage (saved : bool) (s : ValidatorAccessControl) : ValidatorAccessControl :=
  {| config := config s; sessions := sessions s;
     session_file := if saved then Some (sessions s) else session_file s;
     hotkey_verifier := hotkey_verifier s; rate_limiter := rate_limiter s |}.

Definition grant_access (saved : bool) (a : ValidatorAccess) (s : ValidatorAccessControl)
    : ValidatorAccessControl :=
  save_to_storage saved (with_sessions s (<[hotkey (validator_id a) := a]> (sessions s))).

Definition grant_access_with_verification (saved : bool) (now : Z) (v : ValidatorId) (pk : string)
    (r : ValidatorRole) (verified : bool) (s : ValidatorAccessControl) : ValidatorAccessControl :=
  let a := ValidatorAccess_new_with_role now v pk r verified in
  save_to_storage saved (with_sessions s (<[hotkey v := a]> (sessions s))).

Definition revoke_access (saved : bool) (v : ValidatorId) (s : ValidatorAccessControl)
    : ValidatorAccessControl :=
  match sessions s !! hotkey v with
  | Some _ => save_to_storage saved (with_sessions s (delete (hotkey v) (sessions s)))
  | None => s
  end.

Definition has_access (now : Z) (v : ValidatorId) (s : ValidatorAccessControl) : bool :=
  match sessions s !! hotkey v with
  | Some a => negb (ValidatorAccess_is_expired a now)
  | None => false
  end.

Definition get_access (v : ValidatorId) (s : ValidatorAccessControl) : option ValidatorAccess :=
  sessions s !! hotkey v.

Definition list_active_access `{HashOrder} (n : nat) (now : Z) (s : ValidatorAccessControl)
    : list ValidatorAccess :=
  filter (fun a => ValidatorAccess_is_expired a now = false) (values n "sessions" (sessions s)).

(** No whitelist allows everybody; a request without an address fails a whitelist. *)
Definition is_ip_allowed `{IpText} (client : option IpAddr) (s : ValidatorAccessControl) : bool :=
  match ip_whitelist (config s) with
  | [] => true
  | l =>
      match client with
      | Some ip =>
          existsb (fun allowed =>
            match ip_parse allowed with
            | Some a => ip_eqb ip a
            | None => String.eqb (ip_to_string ip) allowed
            end) l
      | None => false
      end
  end.

(** [now] is read for the bucket, [now'] for the expiry. *)
Definition authenticate_request `{IpText} (now now' : Z) (v : ValidatorId) (client : option IpAddr)
    (t : RequestType) (s : ValidatorAccessControl) : bool * ValidatorAccessControl :=
  let '(allowed, l) := match t with
                       | Ssh => check_ssh_request now v (rate_limiter s)
                       | Api => check_api_request now v (rate_limiter s)
                       end in
  let s := with_limiter s l in
  (allowed && is_ip_allowed client s && has_access now' v s, s).

Definition get_required_role_for_operation (op : string) : ValidatorRole :=
  if String.eqb op "ssh_access" || String.eqb op "system_info" then Basic
  else if String.eqb op "container_list" then Standard
  else if String.eqb op "container_exec" then Admin
  else if String.eqb op "config_change" || String.eqb op "service_control" then Owner
  else Basic.

(** The permission check of [authorize_operation]: the named operations look at the
    role of the session, others prefer a role assigned in the configuration. *)
Definition operation_permitted (s : ValidatorAccessControl) (v : ValidatorId) (a : ValidatorAccess)
    (op : string) : bool :=
  if String.eqb op "ssh_access" || String.eqb op "system_info"
     || String.eqb op "container_list" || String.eqb op "container_exec"
  then ValidatorRole_has_permission (role a) op
  else if String.eqb op "config_change" || String.eqb op "service_control"
  then bool_decide (role a = Owner)
  else match role_assignments (config s) !! hotkey v with
       | Some r => ValidatorRole_has_permission r op
       | None => ValidatorRole_has_permission (role a) op
       end.

Definition requires_hotkey_verification (op : string) : bool :=
  String.eqb op "container_exec" || String.eqb op "config_change" || String.eqb op "service_control".

Definition authorize_operation (v : ValidatorId) (op : string) (s : ValidatorAccessControl) : bool :=
  match get_access v s with
  | None => false
  | Some a =>
      let permitted := operation_permitted s v a op in
      if permitted && enabled (hotkey_verification (config s))
         && requires_hotkey_verification op && negb (hotkey_verified a)
      then false
      else permitted
  end.

Definition check_role_permission (v : ValidatorId) (permission : string)
    (s : ValidatorAccessControl) : bool :=
  match get_access v s with
  | Some a => ValidatorRole_has_permission (role a) permission
  | None => false
  end.

(** Revoke every expired session; [saved] tells for each write whether it succeeds. *)
Definition cleanup_expired_sessions `{HashOrder} (n : nat) (saved : bool) (now : Z)
    (s : ValidatorAccessControl) : Z * ValidatorAccessControl :=
  let expired := (fun kv => validator_id kv.2) <$>
    filter (fun kv => ValidatorAccess_is_expired kv.2 now = true) (iter n "sessions" (sessions s)) in
  (wrap 32 (Z.of_nat (length expired)), fold_left (fun s v => revoke_access saved v s) expired s).

Definition generate_hotkey_challenge (now : Z) (random : bytes) (v : ValidatorId)
    (s : ValidatorAccessControl) : result VerifierError SignatureChallenge * ValidatorAccessControl :=
  let '(r, h) := generate_challenge now random (hotkey v) (hotkey_verifier s) in
  (r, with_verifier s h).

Definition verify_hotkey_signature (p256_verify : bytes -> bytes -> bytes -> bool) (now now' : Z)
    (id : string) (signature pk : bytes) (s : ValidatorAccessControl) : bool * ValidatorAccessControl :=
  let '(r, h) := verify_signature p256_verify now now' id signature pk (hotkey_verifier s) in
  (r, with_verifier s h).

Definition get_rate_limit_status (now now' : Z) (v : ValidatorId) (s : ValidatorAccessControl)
    : RateLimitStatus * ValidatorAccessControl :=
  let '(r, l) := get_status now now' v (rate_limiter s) in (r, with_limiter s l).

Definition reset_rate_limits (v : ValidatorId) (s : ValidatorAccessControl) : ValidatorAccessControl :=
  with_limiter s (reset_limits v (rate_limiter s)).

(** Each of the three clean-ups reads the clock. *)
Definition cleanup_expired_data `{HashOrder} (n : nat) (saved : bool) (now now' now'' : Z)
    (s : ValidatorAccessControl) : (Z * Z) * ValidatorAccessControl :=
  let '(c1, s) := cleanup_expired_sessions n saved now s in
  let '(c2, h) := cleanup_expired now' (hotkey_verifier s) in
  let s := with_verifier s h in
  let '(_, l) := cleanup_old_entries now'' (rate_limiter s) in
  ((c1, c2), with_limiter s l).

Definition get_session_stats (now : Z) (s : ValidatorAccessControl) : SessionStats :=
  let active := filter (fun kv => ValidatorAccess_is_expired kv.2 now = false) (sessions s) in
  {| total_sessions := size (sessions s);
     active_sessions := size active;
     expired_sessions := size (sessions s) - size active;
     ssh_sessions := size (filter (fun kv => has_ssh_access kv.2 = true) active) |}.
