(* ===== verification/SessionClaims.v ===== *)
(** * Properties of the executor's access control *)

From stdpp Require Import base gmap strings list.
From Stdlib Require Import ZArith.
From S2P Require Import Prelude.
From S2P Require Import Float64.
From S2P Require Import Collections.
From S2P Require Import AccessControl.
Local Open Scope Z_scope.

(** ** Sequences of requests

    Each request is handled at an instant; clock readings within one request are
    equal. *)
Inductive Request `{IpText} :=
  | GrantAccess (saved : bool) (a : ValidatorAccess)
  | GrantVerified (saved : bool) (v : ValidatorId) (pk : string) (r : ValidatorRole) (verified : bool)
  | RevokeAccess (saved : bool) (v : ValidatorId)
  | Authenticate (v : ValidatorId) (client : option IpAddr) (t : RequestType)
  | GenerateChallenge (random : bytes) (v : ValidatorId)
  | VerifySignature (id : string) (signature pk : bytes)
  | RateLimitStatusOf (v : ValidatorId)
  | ResetRateLimits (v : ValidatorId)
  | CleanupSessions (n : nat) (saved : bool)
  | CleanupData (n : nat) (saved : bool).

Section Requests.
Context `{HashOrder, IpText} (p256_verify : bytes -> bytes -> bytes -> bool).

Definition handle (now : Z) (r : Request) (s : ValidatorAccessControl) : ValidatorAccessControl :=
  match r with
  | GrantAccess saved a => grant_access saved a s
  | GrantVerified saved v pk r verified => grant_access_with_verification saved now v pk r verified s
  | RevokeAccess saved v => revoke_access saved v s
  | Authenticate v client t => (authenticate_request now now v client t s).2
  | GenerateChallenge random v => (generate_hotkey_challenge now random v s).2
  | VerifySignature id sig pk => (verify_hotkey_signature p256_verify now now id sig pk s).2
  | RateLimitStatusOf v => (get_rate_limit_status now now v s).2
  | ResetRateLimits v => reset_rate_limits v s
  | CleanupSessions n saved => (cleanup_expired_sessions n saved now s).2
  | CleanupData n saved => (cleanup_expired_data n saved now now now s).2
  end.

Definition handle_all (trace : list (Z * Request)) (s : ValidatorAccessControl)
    : ValidatorAccessControl :=
  fold_left (fun s e => handle e.1 e.2 s) trace s.

(** The abstract specification: the last grant or revocation decides. *)
Definition grant_effect (e : Z * Request) (m : string -> option ValidatorAccess)
    : string -> option ValidatorAccess :=
  match e.2 with
  | GrantAccess _ a => fun h => if decide (h = hotkey (validator_id a)) then Some a else m h
  | GrantVerified _ v pk r verified =>
      fun h => if decide (h = hotkey v)
               then Some (ValidatorAccess_new_with_role e.1 v pk r verified) else m h
  | RevokeAccess _ v => fun h => if decide (h = hotkey v) then None else m h
  | _ => m
  end.

Definition last_grant (trace : list (Z * Request)) : string -> option ValidatorAccess :=
  fold_left (fun m e => grant_effect e m) trace (fun _ => None).

(** The clock does not go back, from [t] to [t']. *)
Fixpoint times_ordered (t : Z) (trace : list (Z * Request)) (t' : Z) : Prop :=
  match trace with
  | [] => t <= t'
  | e :: rest => t <= e.1 /\ times_ordered e.1 rest t'
  end.

(** The sessions agree with the specification up to sessions that expired by [t]. *)
Definition agrees (t : Z) (m : string -> option ValidatorAccess) (s : ValidatorAccessControl) : Prop :=
  forall h,
    (forall a, m h = Some a -> hotkey (validator_id a) = h) /\
    (sessions s !! h = m h \/
     (sessions s !! h = None /\ exists a, m h = Some a /\ expires_at a <= t)).

Lemma revoke_sessions saved v s :
  sessions (revoke_access saved v s) = delete (hotkey v) (sessions s).
Proof.
  unfold revoke_access. destruct (sessions s !! hotkey v) eqn:E; [done|].
  by rewrite delete_id.
Qed.

Lemma revoke_all_sessions saved vs s h :
  sessions (fold_left (fun s v => revoke_access saved v s) vs s) !! h =
    if decide (h ∈ hotkey <$> vs) then None else sessions s !! h.
Proof.
  revert s. induction vs as [|v vs IH]; intros s; simpl; [done|].
  rewrite IH, revoke_sessions. destruct (decide (h = hotkey v)) as [-> | Hne].
  - rewrite lookup_delete_eq. repeat case_decide; try done; set_solver.
  - rewrite lookup_delete_ne by done. repeat case_decide; try done; set_solver.
Qed.

Lemma cleanup_sessions_lookup n saved now s h :
  (forall k a, sessions s !! k = Some a -> hotkey (validator_id a) = k) ->
  sessions (cleanup_expired_sessions n saved now s).2 !! h =
    match sessions s !! h with
    | Some a => if ValidatorAccess_is_expired a now then None else Some a
    | None => None
    end.
Proof.
  intros Hkey. unfold cleanup_expired_sessions. cbn [snd]. rewrite revoke_all_sessions.
  destruct (sessions s !! h) as [a|] eqn:E.
  - destruct (ValidatorAccess_is_expired a now) eqn:Ex; case_decide as Hin; try done; exfalso.
    + apply Hin. rewrite <- list_fmap_compose. apply list_elem_of_fmap. exists (h, a).
      split; [symmetry; by apply Hkey|]. apply list_elem_of_filter. split; [done|].
      by apply elem_of_iter.
    + rewrite <- list_fmap_compose in Hin. apply list_elem_of_fmap in Hin as ([k b] & -> & Hin).
      apply list_elem_of_filter in Hin as [Hb Hk%elem_of_iter]. simpl in *.
      rewrite (Hkey _ _ Hk), Hk in E. congruence.
  - by case_decide.
Qed.

Lemma agrees_keys t m s k a :
  agrees t m s -> sessions s !! k = Some a -> hotkey (validator_id a) = k.
Proof.
  intros Ha E. destruct (Ha k) as [Hk [Hs | [Hs _]]]; [|congruence]. apply Hk. congruence.
Qed.

(** Operations that leave the sessions alone. *)
Lemma agrees_same t t' m s s' :
  t <= t' -> sessions s' = sessions s -> agrees t m s -> agrees t' m s'.
Proof.
  intros Ht Hs Ha h. destruct (Ha h) as [Hk Hd]. split; [done|]. rewrite Hs.
  destruct Hd as [? | (? & a & ? & ?)]; [by left|right]. split; [done|]. exists a. split; [done|lia].
Qed.

Lemma agrees_cleanup t now n saved m s :
  t <= now -> agrees t m s -> agrees now m (cleanup_expired_sessions n saved now s).2.
Proof.
  intros Ht Ha h. destruct (Ha h) as [Hk Hd]. split; [done|].
  rewrite cleanup_sessions_lookup by (intros; by eapply agrees_keys).
  destruct Hd as [Hs | (Hs & a & Hm & He)]; rewrite Hs.
  - destruct (m h) as [a|] eqn:Em; [|by left].
    destruct (ValidatorAccess_is_expired a now) eqn:Ex; [right|by left].
    split; [done|]. exists a. split; [done|]. unfold ValidatorAccess_is_expired in Ex. by b2p.
  - right. split; [done|]. exists a. split; [done|lia].
Qed.

Lemma agrees_set t now (m : string -> option ValidatorAccess) s s' h0 (x : option ValidatorAccess) :
  t <= now -> agrees t m s -> (forall a, x = Some a -> hotkey (validator_id a) = h0) ->
  (forall h, sessions s' !! h = if decide (h = h0) then x else sessions s !! h) ->
  agrees now (fun h => if decide (h = h0) then x else m h) s'.
Proof.
  intros Ht Ha Hx Hs h. rewrite Hs. destruct (Ha h) as [Hk Hd]. case_decide; [subst; auto|].
  split; [done|]. destruct Hd as [? | (? & a & ? & ?)]; [by left|right].
  split; [done|]. exists a. split; [done|lia].
Qed.

Lemma handle_agrees t now r m s :
  t <= now -> agrees t m s -> agrees now (grant_effect (now, r) m) (handle now r s).
Proof.
  intros Ht Ha. destruct r; simpl.
  - eapply (agrees_set t); [done..|naive_solver|]. intros h. simpl.
    case_decide; [subst; by rewrite lookup_insert_eq|by rewrite lookup_insert_ne].
  - eapply (agrees_set t); [done..|naive_solver|]. intros h. simpl.
    case_decide; [subst; by rewrite lookup_insert_eq|by rewrite lookup_insert_ne].
  - eapply (agrees_set t); [done..|]. intros h. rewrite revoke_sessions.
    case_decide; [subst; by rewrite lookup_delete_eq|by rewrite lookup_delete_ne].
  - eapply agrees_same; [done| |done]. unfold authenticate_request. by repeat case_match.
  - eapply agrees_same; [done| |done]. unfold generate_hotkey_challenge.
    by case_match.
  - eapply agrees_same; [done| |done]. unfold verify_hotkey_signature.
    by case_match.
  - eapply agrees_same; [done| |done]. unfold get_rate_limit_status. by case_match.
  - by eapply agrees_same.
  - by eapply agrees_cleanup.
  - eapply (agrees_same now); [done| |by apply (agrees_cleanup t now n saved)]. done.
Qed.

Lemma handle_all_agrees t trace t' m s :
  times_ordered t trace t' -> agrees t m s ->
  agrees t' (fold_left (fun m e => grant_effect e m) trace m) (handle_all trace s).
Proof.
  revert t m s. induction trace as [|[now r] trace IH]; intros t m s; simpl.
  - intros Ht. by apply agrees_same.
  - intros [Ht Hrest] Ha. eapply IH; [exact Hrest|]. by eapply handle_agrees.
Qed.

Lemma new_agrees t c : agrees t (fun _ => None) (ValidatorAccessControl_new t c None).
Proof. intros h. split; [done|]. left. apply lookup_empty. Qed.
End Requests.

(** ** Authorization *)

Definition role_rank (r : ValidatorRole) : Z :=
  match r with Basic => 0 | Standard => 1 | Admin => 2 | Owner => 3 end.

Definition named_operations : list string :=
  ["ssh_access"; "system_info"; "container_list"; "container_exec"; "config_change"; "service_control"].

Lemma permitted_rank s v a op :
  op ∈ named_operations ->
  operation_permitted s v a op =
    (role_rank (get_required_role_for_operation op) <=? role_rank (role a)).
Proof.
  intros Hop. unfold named_operations in Hop. rewrite !elem_of_cons, elem_of_nil in Hop.
  unfold operation_permitted.
  destruct Hop as [-> | [-> | [-> | [-> | [-> | [-> | []]]]]]]; by destruct (role a).
Qed.

Lemma authorize_inv v op s :
  authorize_operation v op s = true ->
  exists a, sessions s !! hotkey v = Some a /\
    (op ∈ named_operations ->
      role_rank (get_required_role_for_operation op) <= role_rank (role a)) /\
    (enabled (hotkey_verification (config s)) = true -> requires_hotkey_verification op = true ->
      hotkey_verified a = true).
Proof.
  unfold authorize_operation, get_access. destruct (sessions s !! hotkey v) as [a|]; [|done].
  intros Hauth. exists a. split; [done|].
  destruct (operation_permitted s v a op) eqn:Hp; [|by case_match].
  split.
  - intros Hop. rewrite permitted_rank in Hp by done. by b2p.
  - intros He Hr. rewrite He, Hr in Hauth. by destruct (hotkey_verified a).
Qed.

Lemma authenticate_inv `{IpText} now now' v client t s :
  (authenticate_request now now' v client t s).1 = true ->
  is_ip_allowed client s = true /\ has_access now' v s = true.
Proof.
  unfold authenticate_request. destruct (match t with Ssh => _ | Api => _ end) as [allowed l].
  simpl. rewrite !andb_true_iff. intros [[_ Hip] Ha]. done.
Qed.

(** C39: access follows the last grant.  After any sequence of requests with a clock
    that does not go back, a validator has access exactly when the last grant or
    revocation for its hotkey was a grant that has not expired: clean-ups, challenges,
    rate limits and failed writes of the session file make no difference.  A request is
    authenticated only then and from an allowed address.  An operation is authorized only
    when the last grant was not revoked, with at least the role the operation requires and,
    for sensitive operations under hotkey verification, with a verified hotkey; whether
    that grant has expired is not asked ([expired_session_is_authorized]). *)
Theorem access_follows_last_grant `{HashOrder, IpText} p256_verify t0 c trace now v :
  times_ordered t0 trace now ->
  let s := handle_all p256_verify trace (ValidatorAccessControl_new t0 c None) in
  has_access now v s =
    match last_grant trace (hotkey v) with
    | Some a => now <? expires_at a
    | None => false
    end /\
  (forall t client k, (authenticate_request t now v client k s).1 = true ->
    is_ip_allowed client s = true /\
    exists a, last_grant trace (hotkey v) = Some a /\ now < expires_at a) /\
  (forall op, authorize_operation v op s = true ->
    exists a, last_grant trace (hotkey v) = Some a /\
      (op ∈ named_operations ->
        role_rank (get_required_role_for_operation op) <= role_rank (role a)) /\
      (enabled (hotkey_verification (config s)) = true -> requires_hotkey_verification op = true ->
        hotkey_verified a = true)).
Proof.
  intros Ht s.
  pose proof (handle_all_agrees p256_verify _ _ _ _ _ Ht (new_agrees t0 c)) as Ha.
  fold s in Ha. fold (last_grant trace) in Ha. destruct (Ha (hotkey v)) as [_ Hs].
  assert (Hacc : has_access now v s =
    match last_grant trace (hotkey v) with Some a => now <? expires_at a | None => false end).
  { unfold has_access, ValidatorAccess_is_expired.
    destruct Hs as [-> | (-> & a & -> & He)]; [case_match; [by rewrite Z.leb_antisym, negb_involutive|done]|].
    symmetry. apply Z.ltb_ge. done. }
  split_and!; [done| |].
  - intros t client k [Hip Hh]%authenticate_inv. split; [done|]. rewrite Hacc in Hh.
    case_match; [|done]. eexists. split; [done|]. by b2p.
  - intros op (a & Es & Hr & Hv)%authorize_inv. exists a. split_and!; [|done..].
    destruct Hs as [<- | [Hn _]]; [done|congruence].
Qed.

(** ** Challenges *)

Lemma verify_true_iff p256_verify now now' id sig pk s :
  enabled (verifier_config s) = true ->
  (verify_signature p256_verify now now' id sig pk s).1 = true <->
  exists c, active_challenges s !! id = Some c /\ now < challenge_expires_at c /\
    p256_verify pk (challenge_data c) sig = true.
Proof.
  intros He. unfold verify_signature. rewrite He. simpl.
  unfold SignatureChallenge_is_expired.
  destruct (active_challenges s !! id) as [c|]; simpl; [|naive_solver].
  destruct (challenge_expires_at c <=? now) eqn:Ex; b2p; simpl.
  - split; [done|]. intros (c' & [= <-] & ? & _). lia.
  - destruct (p256_verify pk (challenge_data c) sig) eqn:Ev; simpl.
    + split; [|done]. intros _. eauto.
    + split; [done|]. intros (c' & [= <-] & _ & ?). congruence.
Qed.

(** A hotkey challenge is answered at most once.  With verification enabled, an
    answer is accepted exactly when the challenge is outstanding, not expired, and the
    signature of its data verifies under the submitted key.  An accepted answer removes
    the challenge, so that no further answer to it is accepted, clears the count of
    attempts of the hotkey and touches nothing else; a wrong answer to a live challenge
    adds one attempt for its hotkey; at the limit no new challenge is issued. *)
Theorem challenge_answered_once p256_verify now now' id sig pk s :
  enabled (verifier_config s) = true ->
  let '(accepted, s') := verify_signature p256_verify now now' id sig pk s in
  (accepted = true <->
    exists c, active_challenges s !! id = Some c /\ now < challenge_expires_at c /\
      p256_verify pk (challenge_data c) sig = true) /\
  (accepted = true ->
    active_challenges s' = delete id (active_challenges s) /\
    (forall t t' sig' pk', (verify_signature p256_verify t t' id sig' pk' s').1 = false) /\
    exists c, active_challenges s !! id = Some c /\
      verification_attempts s' = delete (validator_hotkey c) (verification_attempts s)) /\
  (forall c, accepted = false -> active_challenges s !! id = Some c -> now < challenge_expires_at c ->
    attempts <$> verification_attempts s' !! validator_hotkey c =
      Some (match verification_attempts s !! validator_hotkey c with
            | Some a => wrap 32 (attempts a + 1)
            | None => 1
            end)) /\
  (forall t random h a, verification_attempts s' !! h = Some a ->
    max_signature_attempts (verifier_config s) <= attempts a ->
    (generate_challenge t random h s').1 = Err (AttemptsExceeded h)).
Proof.
  intros He. pose proof (verify_true_iff p256_verify now now' id sig pk s He) as Hiff.
  destruct (verify_signature p256_verify now now' id sig pk s) as [accepted s'] eqn:E.
  cbn [fst] in Hiff. revert E. unfold verify_signature. rewrite He. cbn [negb].
  intros E. split; [exact Hiff|].
  assert (Hc : verifier_config s' = verifier_config s).
  { revert E. repeat case_match; by intros [= <- <-]. }
  split_and!.
  - intros ->. destruct Hiff as [(c & Hin & Hlt & Hv) _]; [done|].
    rewrite Hin in E. unfold SignatureChallenge_is_expired in E.
    rewrite (proj2 (Z.leb_gt _ _) Hlt), Hv in E. injection E as <-. simpl. split_and!; [done| |].
    + intros t t' sig' pk'. unfold verify_signature. simpl. by rewrite He, lookup_delete_eq.
    + exists c. split; [done|]. by rewrite delete_insert_eq.
  - intros c -> Hin Hlt. rewrite Hin in E. unfold SignatureChallenge_is_expired in E.
    rewrite (proj2 (Z.leb_gt _ _) Hlt) in E.
    destruct (p256_verify pk (challenge_data c) sig); [done|]. injection E as <-. simpl.
    by rewrite lookup_insert_eq.
  - intros t random h a Hh Hmax. unfold generate_challenge, has_exceeded_attempts.
    rewrite Hc, He, Hh. simpl. by rewrite (proj2 (Z.leb_le _ _) Hmax).
Qed.

(** ** Concrete sessions *)
Module Sessions.

(** Addresses as their text; anything with a slash does not parse. *)
Definition text_ip : IpText := {|
  IpAddr := string;
  ip_eqb := String.eqb;
  ip_parse s := if contains "/" s then None else Some s;
  ip_to_string s := s |}.

#[local] Existing Instance text_ip.
#[local] Existing Instance storage_order.

(** Signatures of a toy scheme: the message followed by the key. *)
Definition toy_verify (pk message signature : bytes) : bool := bool_decide (signature = message ++ pk).

Definition alice : ValidatorId := ValidatorId_new "alice".
Definition year : Z := seconds (365 * 24 * 3600).

Definition trace : list (Z * Request) :=
  [(0, GrantVerified true alice "ssh-ed25519" Admin true);
   (5, Authenticate alice (Some "10.0.0.1") Api);
   (9, CleanupData 0 true)].

Lemma access_follows_last_grant_witness :
  has_access 10 alice (handle_all toy_verify trace
    (ValidatorAccessControl_new 0 AccessControlConfig_default None)) = true /\
  has_access year alice (handle_all toy_verify trace
    (ValidatorAccessControl_new 0 AccessControlConfig_default None)) = false.
Proof.
  split.
  - destruct (access_follows_last_grant toy_verify 0 AccessControlConfig_default trace 10 alice)
      as [E _]; [simpl; lia|]. rewrite E. vm_compute. reflexivity.
  - destruct (access_follows_last_grant toy_verify 0 AccessControlConfig_default trace year alice)
      as [E _]; [simpl; unfold year, seconds; lia|]. rewrite E. vm_compute. reflexivity.
Defined.

Definition challenged : HotkeySignatureVerifier :=
  (generate_challenge 0 [1; 2; 3] "alice"
     (HotkeySignatureVerifier_new HotkeyVerificationConfig_default)).2.

Lemma challenge_answered_once_witness :
  let '(accepted, s') :=
    verify_signature toy_verify 5 5 "challenge_alice_0" [1; 2; 3; 77] [77] challenged in
  accepted = true /\ active_challenges s' = ∅.
Proof.
  pose proof (challenge_answered_once toy_verify 5 5 "challenge_alice_0" [1; 2; 3; 77] [77]
    challenged eq_refl) as H.
  destruct (verify_signature _ _ _ _ _ _ _) as [accepted s'] eqn:E.
  assert (accepted = true) as -> by (vm_compute in E; injection E as <- <-; reflexivity).
  destruct H as (_ & H & _). split; [reflexivity|]. destruct (H eq_refl) as [-> _].
  vm_compute. reflexivity.
Defined.

(** An expired session is refused as a request and still authorized for operations. *)
Lemma expired_session_is_authorized :
  let s := handle_all toy_verify trace
             (ValidatorAccessControl_new 0 AccessControlConfig_default None) in
  has_access year alice s = false /\ authorize_operation alice "container_exec" s = true.
Proof. vm_compute. split; reflexivity. Qed.
End Sessions.

(** The key an answer is checked with comes with the answer: whoever can sign at all can
    answer the challenge of any hotkey. *)
Lemma any_key_answers_challenge p256_verify now random h sig pk s c s' :
  generate_challenge now random h s = (Ok c, s') ->
  0 < challenge_timeout_seconds (verifier_config s) ->
  p256_verify pk random sig = true ->
  (verify_signature p256_verify now now (challenge_id c) sig pk s').1 = true.
Proof.
  unfold generate_challenge. destruct (enabled (verifier_config s)) eqn:He; simpl; [|done].
  destruct (has_exceeded_attempts h s); [done|]. intros [= <- <-] Ht Hv.
  apply verify_true_iff; [done|]. eexists. simpl. rewrite lookup_insert_eq.
  split_and!; [done| |done]. simpl. unfold seconds. lia.
Qed.

(** The limit on attempts does not apply to answers: the outcome of an answer does not
    depend on the attempts recorded. *)
Lemma answers_ignore_attempts p256_verify now now' id sig pk s s' :
  verifier_config s' = verifier_config s -> active_challenges s' = active_challenges s ->
  (verify_signature p256_verify now now' id sig pk s').1 =
  (verify_signature p256_verify now now' id sig pk s).1.
Proof. intros Hc Ha. unfold verify_signature. rewrite Hc, Ha. by repeat case_match. Qed.
