(* ===== verification/ExecutorAccess.v ===== *)
(** * Provisioning access: the miner's call and the executor's handler

    basilica-executor: validation_session/service.rs and the handler
    [provision_validator_access] of grpc_server/mod.rs, behind the authentication of
    MinerAuth.v and on top of the access control of AccessControl.v; basilica-miner:
    executors/grpc_client.rs, which signs a request and sends it with retries.  What the
    operating system and the network answer is given by the environment; log lines are
    left out.  The hash behind a user name is a parameter, as the standard library leaves
    its algorithm open. *)

From stdpp Require Import base gmap strings list.
From Stdlib Require Import Ascii ZArith HexString.
From S2P Require Import Prelude.
From S2P Require Import Text.
From S2P Require Import Signatures.
From S2P Require Import Decimal.
From S2P Require Import MinerAuth.
From S2P Require Import Collections.
From S2P Require Import AccessControl.
Local Open Scope Z_scope.

(** ** The validation session service *)

(** The answers of the operating system to one request. *)
Record OsAnswers := {
  user_created : result string unit;
  group_added : result string unit;
  key_added : result string bool;
  key_removed : result string unit;
  has_key : string -> bool;             (* by user name *)
  file_saved : bool
}.

(** [format!("{hash:x}")] *)
Definition lower_hex (n : N) : string :=
  match n with N0 => "0" | Npos p => HexString.Raw.of_pos p "" end.

Section Access.
Context (default_hash : string -> N).

Definition validator_username (hotkey : string) : string :=
  let hash_hex := lower_hex (default_hash hotkey) in
  "val_" +:+ take_str (Nat.min (String.length hash_hex) 24) hash_hex.

Definition grant_ssh_access (os : OsAnswers) (now : Z) (v : ValidatorId) (pk : string)
    (s : ValidatorAccessControl) : result string unit * ValidatorAccessControl :=
  match user_created os with
  | Err e => (Err e, s)
  | Ok _ =>
      match group_added os with
      | Err e => (Err ("Failed to add user to docker group: " +:+ e), s)
      | Ok _ =>
          match key_added os with
          | Err e => (Err e, s)
          | Ok _ => (Ok tt, grant_access (file_saved os) (ValidatorAccess_new now v pk) s)
          end
      end
  end.

Definition revoke_ssh_access (os : OsAnswers) (v : ValidatorId) (s : ValidatorAccessControl)
    : result string unit * ValidatorAccessControl :=
  match key_removed os with
  | Err e => (Err e, s)
  | Ok _ => (Ok tt, revoke_access (file_saved os) v s)
  end.

Definition service_has_ssh_access (os : OsAnswers) (now : Z) (v : ValidatorId)
    (s : ValidatorAccessControl) : bool :=
  has_access now v s && has_key os (validator_username (hotkey v)).

(** Access without a key is taken away; the order is that of the session map. *)
Definition cleanup_access `{HashOrder} (os : OsAnswers) (n : nat) (now : Z)
    (s : ValidatorAccessControl) : Z * ValidatorAccessControl :=
  fold_left (fun acc a =>
    if has_key os (validator_username (hotkey (validator_id a))) then acc
    else (acc.1 + 1, revoke_access (file_saved os) (validator_id a) acc.2))
    (list_active_access n now s) (0, s).

(** ** The executor's handler *)

Record Executor := {
  miner_auth_service : MinerAuthService;
  validation_service : option ValidatorAccessControl
}.

Inductive Status :=
  | Unauthenticated (why : RequestVerdict)
  | InvalidArgument (message : string)
  | Unavailable (message : string)
  | Internal (message : string)
  | Crashed.                        (* a panic of the handler *)

Record ProvisionAccessResponse := {
  success : bool;
  connection_endpoint : string;
  credentials : string;
  response_expires_at : option Z;
  response_error : option string    (* the message *)
}.

(** [serde_json] prints an object with its keys in order. *)
Definition ssh_credentials (username : string) : string :=
  "{" +:+ String "034" ("ssh_host" +:+ String "034" (":" +:+ String "034" ("executor.local" +:+
  String "034" ("," +:+ String "034" ("ssh_port" +:+ String "034" (":22," +:+ String "034"
  ("ssh_username" +:+ String "034" (":" +:+ String "034" (username +:+ String "034" "}"))))))))).

Context `{Crypto} `{UuidText}.

(** The times the handler reads, the order of the request's map, and the system. *)
Record HandlerEnv := { verified_at : Z; map_order : nat; granted_time : Z; answered_at : Z; os : OsAnswers }.

Definition provision_handler `{!ProstMessage ProvisionAccessRequest} (env : HandlerEnv)
    (req : ProvisionAccessRequest) (x : Executor) : result Status ProvisionAccessResponse * Executor :=
  let '(v, auth') := verify_miner_request (verified_at env) (map_order env) req (miner_auth_service x) in
  let x1 := {| miner_auth_service := auth'; validation_service := validation_service x |} in
  match v with
  | Verified Panicked => (Err Crashed, x1)
  | Verified Accepted =>
      if (String.length (pa_validator_hotkey req) =? 0)%nat then
        (Err (InvalidArgument "Validator hotkey required"), x1)
      else
        match validation_service x1 with
        | None => (Err (Unavailable "Validation service not enabled"), x1)
        | Some service =>
            if (String.length (pa_ssh_public_key req) <? 10)%nat then
              (Err (InvalidArgument "SSH public key required"), x1)
            else
              let '(r, service') :=
                grant_ssh_access (os env) (granted_time env)
                  (ValidatorId_new (pa_validator_hotkey req)) (pa_ssh_public_key req) service in
              let x2 := {| miner_auth_service := auth'; validation_service := Some service' |} in
              match r with
              | Err _ => (Err (Internal "Failed to provision access"), x2)
              | Ok _ =>
                  (Ok {| success := true; connection_endpoint := "executor.local";
                         credentials := ssh_credentials (validator_username (pa_validator_hotkey req));
                         response_expires_at := Some (answered_at env + seconds 3600);
                         response_error := None |}, x2)
              end
        end
  | _ => (Err (Unauthenticated v), x1)
  end.

(** ** The miner's client *)

Record ExecutorGrpcConfig := { timeout : Z; max_retries : Z; use_tls : bool }.

Definition ExecutorGrpcConfig_default : ExecutorGrpcConfig :=
  {| timeout := seconds 30; max_retries := 3; use_tls := false |}.

Record ExecutorGrpcClient := {
  client_config : ExecutorGrpcConfig;
  auth_service : option ExecutorAuthService
}.

Definition ExecutorGrpcClient_new (c : ExecutorGrpcConfig) : ExecutorGrpcClient :=
  {| client_config := c; auth_service := None |}.
Definition ExecutorGrpcClient_new_with_auth (c : ExecutorGrpcConfig) (a : ExecutorAuthService)
    : ExecutorGrpcClient :=
  {| client_config := c; auth_service := Some a |}.

Definition build_grpc_endpoint (executor_endpoint : string) (k : ExecutorGrpcClient) : string :=
  let scheme := if use_tls (client_config k) then "https" else "http" in
  if String.prefix "http://" executor_endpoint || String.prefix "https://" executor_endpoint
  then executor_endpoint else scheme +:+ "://" +:+ executor_endpoint.

(** The calls are numbered; [backoff] doubles up to ten seconds.  [None] is a loop cut
    short by its fuel. *)
Fixpoint retry_calls {W T : Type} (fuel : nat) (k : ExecutorGrpcClient) (attempt backoff : Z)
    (call : nat -> W -> result string T * W) (n : nat) (w : W)
    : option (result string T * list Z * W) :=
  match fuel with
  | O => None
  | S fuel =>
      match call n w with
      | (Ok v, w) => Some (Ok v, [], w)
      | (Err e, w) =>
          let attempt := attempt + 1 in
          if max_retries (client_config k) <=? attempt then
            Some (Err ("Failed after " +:+ show_int (max_retries (client_config k))
                       +:+ " attempts with exponential backoff: " +:+ e), [], w)
          else
            '(r, sleeps, w) ←
              retry_calls fuel k attempt (Z.min (backoff * 2) (seconds 10)) call (S n) w;
            Some (r, backoff :: sleeps, w)
      end
  end.

Definition retry_fuel (k : ExecutorGrpcClient) : nat := S (Z.to_nat (max_retries (client_config k))).

Definition retry_grpc_call {W T : Type} (k : ExecutorGrpcClient)
    (call : nat -> W -> result string T * W) (w : W) : option (result string T * list Z * W) :=
  retry_calls (retry_fuel k) k 0 (500 * millisecond) call 0 w.

(** What happens to one call on the way: the request is lost, the answer is lost, or
    the answer arrives. *)
Inductive Delivery :=
  | RequestLost (e : string)
  | AnswerLost (e : string) (env : HandlerEnv)
  | Delivered (env : HandlerEnv).

Definition status_text (s : Status) : string :=
  match s with
  | Unauthenticated _ => "Unauthenticated"
  | InvalidArgument m | Unavailable m | Internal m => m
  | Crashed => "Cancelled"
  end.

Definition send `{!ProstMessage ProvisionAccessRequest} (req : ProvisionAccessRequest)
    (d : Delivery) (x : Executor) : result string ProvisionAccessResponse * Executor :=
  match d with
  | RequestLost e => (Err ("Provision access failed: " +:+ e), x)
  | AnswerLost e env => (Err ("Provision access failed: " +:+ e), (provision_handler env req x).2)
  | Delivered env =>
      let '(r, x') := provision_handler env req x in
      (match r with
       | Ok a => Ok a
       | Err s => Err ("Provision access failed: " +:+ status_text s)
       end, x')
  end.

Record ClientEnv := {
  connected : result string unit;
  signed_at : Z;
  nonce_draw : uuid;
  id_draw : uuid;
  own_order : nat;
  deliveries : nat -> Delivery
}.

Definition provision_request_of (validator_hotkey ssh_public_key : string) (duration_seconds : Z)
    (metadata : option string) : ProvisionAccessRequest := {|
  pa_validator_hotkey := validator_hotkey; pa_ssh_public_key := ssh_public_key;
  pa_access_token := ""; pa_duration_seconds := duration_seconds; pa_access_type := "ssh";
  pa_config := match metadata with Some m => {["metadata" := m]} | None => ∅ end;
  pa_auth := None |}.

(** The request as it is sent. *)
Definition authenticated_request `{!ProstMessage ProvisionAccessRequest} (k : ExecutorGrpcClient)
    (env : ClientEnv) (req : ProvisionAccessRequest) : result string ProvisionAccessRequest :=
  match auth_service k with
  | None => Ok req
  | Some a =>
      match create_auth (signed_at env) (nonce_draw env) (id_draw env)
              (encode_to_vec (own_order env) req) a with
      | Ok auth => Ok (with_auth req auth)
      | Err e => Err ("Failed to create authentication: " +:+ e)
      end
  end.

Definition provision_validator_access `{!ProstMessage ProvisionAccessRequest}
    (k : ExecutorGrpcClient) (env : ClientEnv) (validator_hotkey ssh_public_key : string)
    (duration_seconds : Z) (metadata : option string) (x : Executor)
    : option (result string ProvisionAccessResponse * list Z * Executor) :=
  match connected env with
  | Err e => Some (Err ("Failed to connect to executor: " +:+ e), [], x)
  | Ok _ =>
      match authenticated_request k env
              (provision_request_of validator_hotkey ssh_public_key duration_seconds metadata) with
      | Err e => Some (Err e, [], x)
      | Ok req =>
          '(r, sleeps, x) ← retry_grpc_call k (fun n x => send req (deliveries env n) x) x;
          match r with
          | Err e => Some (Err e, sleeps, x)
          | Ok response =>
              if negb (success response) then
                Some (Err ("Access provisioning failed: "
                           +:+ default "Unknown error" (response_error response)), sleeps, x)
              else Some (Ok response, sleeps, x)
          end
      end
  end.
End Access.
