(* ===== verification/ProvisionClaims.v ===== *)
(** * Provisioning, end to end

    The miner's call reaches the executor's access control; a call whose first delivery
    fails after the authentication is not helped by its retries. *)

From stdpp Require Import base gmap strings list.
From Stdlib Require Import ZArith.
From S2P Require Import Prelude.
From S2P Require Import Bytes.
From S2P Require Import Text.
From S2P Require Import Signatures.
From S2P Require Import Decimal.
From S2P Require Import MinerAuth.
From S2P Require Import AuthClaims.
From S2P Require Import AccessControl.
From S2P Require Import ExecutorAccess.
Local Open Scope Z_scope.

(** ** The retry loop *)

Section Loop.
Context {W T : Type} (k : ExecutorGrpcClient).
Implicit Types call : nat -> W -> result string T * W.

(** The loop ends after at most [max 1 max_retries] calls. *)
Lemma retry_calls_total call fuel : forall attempt backoff n w,
  (Z.to_nat (max_retries (client_config k) - attempt) < fuel)%nat ->
  exists r sleeps w', retry_calls fuel k attempt backoff call n w = Some (r, sleeps, w') /\
    (length sleeps <= Z.to_nat (max_retries (client_config k) - attempt - 1))%nat.
Proof.
  induction fuel as [|fuel IH]; intros attempt backoff n w Hf; [lia|]. cbn [retry_calls].
  destruct (call n w) as [[v | e] w1]; [by eexists _, _, _; split; [done | simpl; lia]|].
  destruct (max_retries (client_config k) <=? attempt + 1) eqn:E; b2p.
  { by eexists _, _, _; split; [done | simpl; lia]. }
  destruct (IH (attempt + 1) (Z.min (backoff * 2) (seconds 10)) (S n) w1) as (r & sl & w' & -> & Hl); [lia|].
  simpl. eexists _, _, _. split; [done|]. simpl. lia.
Qed.

Lemma retry_grpc_call_total call w :
  exists r sleeps w', retry_grpc_call k call w = Some (r, sleeps, w') /\
    (length sleeps <= Z.to_nat (max_retries (client_config k) - 1))%nat.
Proof.
  unfold retry_grpc_call, retry_fuel.
  destruct (retry_calls_total call (S (Z.to_nat (max_retries (client_config k)))) 0 (500 * millisecond) 0 w)
    as (r & sl & w' & E & Hl); [lia|]. exists r, sl, w'. split; [done|lia].
Qed.

(** Calls that all fail use up every attempt. *)
Lemma retry_calls_fail call (P : nat -> W -> Prop) :
  (forall n w, P n w -> exists e w', call n w = (Err e, w') /\ P (S n) w') ->
  forall fuel attempt backoff n w,
  (Z.to_nat (max_retries (client_config k) - attempt) < fuel)%nat -> P n w ->
  exists e sleeps m w', retry_calls fuel k attempt backoff call n w = Some (Err e, sleeps, w') /\
    length sleeps = Z.to_nat (max_retries (client_config k) - attempt - 1) /\ (n < m)%nat /\ P m w'.
Proof.
  intros Hcall. induction fuel as [|fuel IH]; intros attempt backoff n w Hf Hw; [lia|].
  cbn [retry_calls]. destruct (Hcall n w Hw) as (e & w1 & -> & Hw1).
  destruct (max_retries (client_config k) <=? attempt + 1) eqn:E; b2p.
  { eexists _, _, (S n), _. split_and!; [done | simpl; lia | lia | done]. }
  destruct (IH (attempt + 1) (Z.min (backoff * 2) (seconds 10)) (S n) w1)
    as (e' & sl & m & w' & -> & Hl & Hnm & Hm); [lia | done |].
  simpl. eexists _, _, m, _. split_and!; [done | simpl; lia | lia | done].
Qed.

Lemma retry_first_ok call w v w' :
  call 0%nat w = (Ok v, w') -> retry_grpc_call k call w = Some (Ok v, [], w').
Proof. intros E. unfold retry_grpc_call, retry_fuel. cbn [retry_calls]. by rewrite E. Qed.
End Loop.

(** ** Later deliveries of the same request *)

Definition delivery_env (d : Delivery) : option HandlerEnv :=
  match d with RequestLost _ => None | AnswerLost _ env | Delivered env => Some env end.

Section Replay.
Context (default_hash : string -> N) `{Crypto} `{UuidText} `{!ProstMessage ProvisionAccessRequest}.
Implicit Types (x : Executor) (req : ProvisionAccessRequest).

(** The executor after a delivery is that after the handler. *)
Lemma send_executor req d x :
  (send default_hash req d x).2
  = match delivery_env d with Some env => (provision_handler default_hash env req x).2 | None => x end.
Proof. destruct d as [e | e env | env]; [done | done |]. simpl. by destruct (provision_handler _ env req x). Qed.

(** A handler whose verification fails answers an error and leaves the access control. *)
Lemma handler_refuses env req x :
  (verify_miner_request (verified_at env) (map_order env) req (miner_auth_service x)).1 <> Verified Accepted ->
  is_Ok (provision_handler default_hash env req x).1 = false /\
  (provision_handler default_hash env req x).2
  = {| miner_auth_service :=
         (verify_miner_request (verified_at env) (map_order env) req (miner_auth_service x)).2;
       validation_service := validation_service x |}.
Proof.
  unfold provision_handler.
  by destruct (verify_miner_request _ _ _ _) as [[|[]] s]; simpl.
Qed.

(** The authentication state after the handler is that after the verification. *)
Lemma handler_auth env req x :
  miner_auth_service (provision_handler default_hash env req x).2
  = (verify_miner_request (verified_at env) (map_order env) req (miner_auth_service x)).2.
Proof.
  unfold provision_handler. destruct (verify_miner_request _ _ _ _) as [[|[]] s]; simpl; try done.
  destruct (_ =? 0)%nat; [done|]. destruct (validation_service x); [|done].
  destruct (_ <? 10)%nat; [done|]. by destruct (grant_ssh_access _ _ _ _ _) as [[] ?].
Qed.

(** The delivered verifications never go back in time. *)
Definition forward (ds : nat -> Delivery) : Prop :=
  forall n m env env', (n <= m)%nat -> delivery_env (ds n) = Some env -> delivery_env (ds m) = Some env' ->
  verified_at env <= verified_at env'.

(** The nonce [u], used at [t0], is in the store, or the request is too old for all
    deliveries to come. *)
Definition spent (ds : nat -> Delivery) (u : uuid) (t0 : Z) (vs : option ValidatorAccessControl)
    (max_age : Z) (n : nat) x : Prop :=
  max_request_age (auth_config (miner_auth_service x)) = max_age /\ validation_service x = vs /\
  (used_nonces (miner_auth_service x) !! u = Some t0 \/
   forall m env, (n <= m)%nat -> delivery_env (ds m) = Some env -> t0 + max_age + hours 1 <= verified_at env).

(** Until it is too old, a spent request is refused. *)
Lemma spent_refused ds u t0 vs max_age ts n x req a env :
  forward ds -> spent ds u t0 vs max_age n x -> delivery_env (ds n) = Some env ->
  get_auth req = Some a -> nonce_uuid a = Some u ->
  from_timestamp_millis (wrap_signed 64 (timestamp_ms a)) = Some ts -> ts <= t0 + minutes 1 ->
  (verify_miner_request (verified_at env) (map_order env) req (miner_auth_service x)).1 <> Verified Accepted.
Proof.
  intros Hf (Hage & _ & Hn) He Ha Hu Et Hts. unfold verify_miner_request. rewrite Ha.
  set (data := encode_to_vec _ _). intros Hacc.
  assert (Hv : (verify_auth (verified_at env) a data (miner_auth_service x)).1 = Accepted).
  { destruct (verify_auth _ _ _ _) as [v s]. simpl in *. congruence. }
  destruct Hn as [Hn | Hn]; [by eapply verify_auth_used|].
  apply verify_auth_accepted in Hv as (_ & ts' & ? & Et' & Ef & _).
  assert (ts' = ts) as -> by congruence. rewrite Hage in Ef. apply request_age_fresh in Ef.
  specialize (Hn n env (le_n _) He). unfold hours, minutes in *. lia.
Qed.

Lemma spent_kept ds u t0 vs max_age n x req a env :
  forward ds -> spent ds u t0 vs max_age n x -> delivery_env (ds n) = Some env -> get_auth req = Some a ->
  spent ds u t0 vs max_age (S n)
    {| miner_auth_service :=
         (verify_miner_request (verified_at env) (map_order env) req (miner_auth_service x)).2;
       validation_service := validation_service x |}.
Proof.
  intros Hf (Hage & Hvs & Hn) He Ha.
  set (data := encode_to_vec (map_order env) (without_auth req)).
  assert (Es : (verify_miner_request (verified_at env) (map_order env) req (miner_auth_service x)).2
               = (verify_auth (verified_at env) a data (miner_auth_service x)).2).
  { unfold verify_miner_request. rewrite Ha. fold data. by destruct (verify_auth _ _ _ _). }
  rewrite Es. split_and!; simpl; [by rewrite verify_auth_config | done |].
  destruct Hn as [Hn | Hn]; [|right; intros; apply Hn with m; [lia | done]].
  destruct (decide (verified_at env < t0 + max_age + hours 1)) as [Hlt | Hge].
  - left. pose proof (auth_step_keeps (miner_auth_service x) (Verify (verified_at env) a data) u t0 Hn) as Hk.
    simpl in Hk. destruct (verify_auth _ _ _ _). apply Hk. by rewrite Hage.
  - right. intros m env' Hm He'. pose proof (Hf n m env env' ltac:(lia) He He'). lia.
Qed.

(** Every later delivery fails and leaves the access control alone. *)
Lemma spent_send ds u t0 vs max_age ts req a :
  forward ds -> get_auth req = Some a -> nonce_uuid a = Some u ->
  from_timestamp_millis (wrap_signed 64 (timestamp_ms a)) = Some ts -> ts <= t0 + minutes 1 ->
  forall n x, spent ds u t0 vs max_age n x ->
  exists e x', send default_hash req (ds n) x = (Err e, x') /\ spent ds u t0 vs max_age (S n) x'.
Proof.
  intros Hf Ha Hu Et Hts n x Hs.
  destruct (delivery_env (ds n)) as [env|] eqn:He.
  - pose proof (spent_refused _ _ _ _ _ _ _ _ _ _ _ Hf Hs He Ha Hu Et Hts) as Hr.
    apply handler_refuses in Hr as [Herr Hx]. pose proof (spent_kept _ _ _ _ _ _ _ _ _ _ Hf Hs He Ha) as Hk.
    rewrite <- Hx in Hk. destruct (ds n) as [e | e env' | env']; simplify_eq/=; [by eexists _, _|].
    destruct (provision_handler _ env req x) as [[v | st] x']; [done|]. by eexists _, _.
  - destruct (ds n) as [e | e env' | env']; simplify_eq/=. eexists _, _. split; [done|].
    destruct Hs as (Hage & Hvs & Hn). split_and!; [done..|].
    destruct Hn as [Hn | Hn]; [by left | right]. intros m env Hm. apply Hn. lia.
Qed.

(** A delivery that passes the verification spends the nonce. *)
Lemma accepted_spends ds req a x env :
  delivery_env (ds 0%nat) = Some env -> get_auth req = Some a ->
  (verify_miner_request (verified_at env) (map_order env) req (miner_auth_service x)).1
    = Verified Accepted ->
  exists u ts, nonce_uuid a = Some u /\
    from_timestamp_millis (wrap_signed 64 (timestamp_ms a)) = Some ts /\
    ts <= verified_at env + minutes 1 /\
    spent ds u (verified_at env) (validation_service (send default_hash req (ds 0%nat) x).2)
      (max_request_age (auth_config (miner_auth_service x))) 1 (send default_hash req (ds 0%nat) x).2.
Proof.
  intros He Ha Hacc. pose proof (send_executor req (ds 0%nat) x) as Ex. rewrite He in Ex.
  pose proof (handler_auth env req x) as Hauth. rewrite <- Ex in Hauth. clear Ex.
  unfold verify_miner_request in Hacc, Hauth. rewrite Ha in Hacc, Hauth.
  set (data := encode_to_vec _ _) in Hacc, Hauth.
  assert (Hv : (verify_auth (verified_at env) a data (miner_auth_service x)).1 = Accepted)
    by (destruct (verify_auth _ _ _ _); simpl in *; congruence).
  assert (Hs : miner_auth_service (send default_hash req (ds 0%nat) x).2
               = (verify_auth (verified_at env) a data (miner_auth_service x)).2)
    by (rewrite Hauth; by destruct (verify_auth _ _ _ _)).
  destruct (verify_auth_stores _ _ _ _ Hv) as (u & Eu & Hu).
  apply verify_auth_accepted in Hv as (_ & ts & _ & Et & Ef & _).
  apply request_age_fresh in Ef as [_ Hts]. exists u, ts. split_and!; [done | done | lia |].
  split_and!; [by rewrite Hs, verify_auth_config | done | left; by rewrite Hs].
Qed.
End Replay.

(** ** Claims *)

(** C19: Retrying does not help a provisioning that fails after its authentication.  When
    the first attempt reaches the executor and passes the verification, but its answer is
    lost or is an error, every further attempt sends the same nonce: the call makes all its
    attempts, ends in an error, and the executor's access control is as the first attempt
    left it. *)
Theorem failed_delivery_is_final (default_hash : string -> N) `{Crypto} `{UuidText}
    `{!ProstMessage ProvisionAccessRequest} k env vh pk dur md x req a env0 :
  connected env = Ok tt ->
  authenticated_request k env (provision_request_of vh pk dur md) = Ok req -> get_auth req = Some a ->
  forward (deliveries env) -> delivery_env (deliveries env 0) = Some env0 ->
  (verify_miner_request (verified_at env0) (map_order env0) req (miner_auth_service x)).1
    = Verified Accepted ->
  is_Ok (send default_hash req (deliveries env 0) x).1 = false ->
  exists e sleeps x',
    provision_validator_access default_hash k env vh pk dur md x = Some (Err e, sleeps, x') /\
    length sleeps = Z.to_nat (max_retries (client_config k) - 1) /\
    validation_service x' = validation_service (send default_hash req (deliveries env 0) x).2.
Proof.
  intros Hcon Hreq Ha Hf He Hacc Herr.
  set (ds := deliveries env) in *. set (x1 := (send default_hash req (ds 0%nat) x).2) in *.
  destruct (accepted_spends default_hash ds req a x env0 He Ha Hacc) as (u & ts & Eu & Et & Hts & Hs1).
  fold x1 in Hs1.
  set (P n w := match n with
                | O => w = x
                | S _ => spent ds u (verified_at env0) (validation_service x1)
                           (max_request_age (auth_config (miner_auth_service x))) n w
                end).
  assert (Hstep : forall n w, P n w -> exists e w', send default_hash req (ds n) w = (Err e, w') /\ P (S n) w').
  { intros [|n] w Hw; [|by apply (spent_send _ _ _ _ _ _ ts req a)].
    cbn in Hw. subst w. cbn [P]. unfold x1 in *.
    destruct (send default_hash req (ds 0%nat) x) as [[v|e] x'] eqn:Es; [done|]. by exists e, x'. }
  destruct (retry_calls_fail k (fun n y => send default_hash req (ds n) y) P Hstep (retry_fuel k) 0
    (500 * millisecond) 0 x) as (e & sl & m & w' & Er & Hl & Hm & HP); [unfold retry_fuel; lia | done |].
  exists e, sl, w'. unfold provision_validator_access. rewrite Hcon, Hreq.
  unfold retry_grpc_call. fold ds. rewrite Er. split_and!; [done | by rewrite Hl; f_equal; lia |].
  destruct m as [|m]; [lia|]. apply HP.
Qed.

(** The handler after a passed verification, with a system that does what it is asked. *)
Lemma handler_grants (default_hash : string -> N) `{Crypto} `{UuidText}
    `{!ProstMessage ProvisionAccessRequest} env req x s vs b :
  verify_miner_request (verified_at env) (map_order env) req (miner_auth_service x)
    = (Verified Accepted, s) ->
  validation_service x = Some vs -> pa_validator_hotkey req <> "" ->
  (10 <= String.length (pa_ssh_public_key req))%nat ->
  user_created (os env) = Ok tt -> group_added (os env) = Ok tt -> key_added (os env) = Ok b ->
  provision_handler default_hash env req x
  = (Ok {| success := true; connection_endpoint := "executor.local";
           credentials := ssh_credentials (validator_username default_hash (pa_validator_hotkey req));
           response_expires_at := Some (answered_at env + seconds 3600); response_error := None |},
     {| miner_auth_service := s;
        validation_service := Some (grant_access (file_saved (os env))
          (ValidatorAccess_new (granted_time env) (ValidatorId_new (pa_validator_hotkey req))
             (pa_ssh_public_key req)) vs) |}).
Proof.
  intros Hv Hvs Hh Hk Hu Hg Ha. unfold provision_handler. rewrite Hv. simpl. rewrite Hvs.
  destruct (pa_validator_hotkey req) as [|c h] eqn:Eh; [done|]. simpl.
  destruct (_ <? 10)%nat eqn:E; [apply Nat.ltb_lt in E; lia|].
  unfold grant_ssh_access. by rewrite Hu, Hg, Ha.
Qed.

(** Provisioning reaches the access control.  A client that signs with the key of the
    miner managing the executor, whose first attempt is delivered within the maximal age,
    gets a success answer after one call; the executor then knows the validator with the
    key of the request, for a year from the grant whatever duration the request names,
    although the answer speaks of an hour; the access of other validators is unchanged. *)
Theorem provision_grants_access (default_hash : string -> N) `{Crypto} `{UuidText} `{!UuidTextLaws}
    `{!UuidAscii} `{!ProstMessage ProvisionAccessRequest} `{!ProstMessageLaws ProvisionAccessRequest}
    signer `{!SignerLaws signer} c env vh pk dur md x vs env0 b :
  connected env = Ok tt -> deliveries env 0 = Delivered env0 ->
  vh <> "" -> (10 <= String.length pk)%nat -> validation_service x = Some vs ->
  datetime_ok (signed_at env) = true -> signed_at env - minutes 1 <= verified_at env0 ->
  verified_at env0
    <= signed_at env + max_request_age (auth_config (miner_auth_service x)) - millisecond ->
  managing_miner_hotkey (auth_config (miner_auth_service x)) = account_text signer ->
  used_nonces (miner_auth_service x) !! nonce_draw env = None ->
  is_Some (nonce_cutoff (max_request_age (auth_config (miner_auth_service x))) (verified_at env0)) ->
  user_created (os env0) = Ok tt -> group_added (os env0) = Ok tt -> key_added (os env0) = Ok b ->
  exists response x' vs' access,
    provision_validator_access default_hash
      (ExecutorGrpcClient_new_with_auth c (ExecutorAuthService_new signer)) env vh pk dur md x
      = Some (Ok response, [], x') /\
    success response = true /\ response_expires_at response = Some (answered_at env0 + seconds 3600) /\
    validation_service x' = Some vs' /\
    get_access (ValidatorId_new vh) vs' = Some access /\ public_key (ssh_key access) = pk /\
    (forall t, has_access t (ValidatorId_new vh) vs' = true
               <-> t < granted_time env0 + seconds (365 * 24 * 3600)) /\
    (forall v, hotkey v <> vh -> get_access v vs' = get_access v vs).
Proof.
  intros Hcon Hd Hh Hk Hvs Hnow Hlo Hhi Hman Hu Hcut Hos1 Hos2 Hos3.
  set (r := provision_request_of vh pk dur md).
  assert (Hr : get_auth r = None) by done.
  assert (Hmaps : Forall (fun m => (size m <= 1)%nat) (map_fields r)).
  { apply Forall_singleton. simpl. destruct md; [by rewrite map_size_singleton | rewrite map_size_empty; lia]. }
  destruct (signed_request_ok signer r (miner_auth_service x) (signed_at env) (verified_at env0)
    (nonce_draw env) (id_draw env) (own_order env) (map_order env0) Hr Hmaps Hnow Hlo Hhi Hman Hu Hcut)
    as (a & Ea & _ & _ & Hv).
  pose proof (handler_grants default_hash env0 (with_auth r a) x _ vs b Hv Hvs Hh Hk Hos1 Hos2 Hos3) as Hgrant.
  unfold provision_validator_access, authenticated_request. rewrite Hcon. cbn [auth_service ExecutorGrpcClient_new_with_auth].
  fold r. rewrite Ea.
  erewrite (retry_first_ok _ (fun n y => send default_hash (with_auth r a) (deliveries env n) y))
    by (rewrite Hd; unfold send; rewrite Hgrant; reflexivity).
  cbn [mbind option_bind negb success].
  eexists _, _, _, _. split_and!; [done | done | done | done | | | |]; simpl.
  - apply lookup_insert_eq.
  - done.
  - intros t. unfold has_access, ValidatorAccess_is_expired. simpl. rewrite lookup_insert_eq. simpl.
    rewrite negb_true_iff, Z.leb_gt. done.
  - intros v Hne. unfold get_access. simpl. by apply lookup_insert_ne.
Qed.

(** ** A concrete call *)

Module ProvisionScenario.
Export AuthClaims.Scenario.

Definition some_hash (s : string) : N := 255.
Definition willing : OsAnswers := {|
  user_created := Ok tt; group_added := Ok tt; key_added := Ok true; key_removed := Ok tt;
  has_key _ := true; file_saved := true |}.

Definition handler_env (n : nat) : HandlerEnv := {|
  verified_at := day_one + seconds (Z.of_nat n); map_order := n; granted_time := day_one;
  answered_at := day_one; os := willing |}.

Definition node : Executor := {|
  miner_auth_service := executor;
  validation_service := Some (ValidatorAccessControl_new day_one AccessControlConfig_default None) |}.

Definition client : ExecutorGrpcClient :=
  ExecutorGrpcClient_new_with_auth ExecutorGrpcConfig_default (ExecutorAuthService_new signer).

Definition client_env (ds : nat -> Delivery) : ClientEnv := {|
  connected := Ok tt; signed_at := day_one; nonce_draw := 7%N; id_draw := 8%N; own_order := 0;
  deliveries := ds |}.

(** The answer to the first call is lost. *)
Definition lossy (n : nat) : Delivery :=
  match n with O => AnswerLost "timeout" (handler_env 0) | S _ => Delivered (handler_env n) end.

Lemma lossy_env n : delivery_env (lossy n) = Some (handler_env n).
Proof. by destruct n. Qed.

Lemma lossy_forward : forward lossy.
Proof.
  intros n m env env' Hnm. rewrite !lossy_env. intros [= <-] [= <-]. simpl. unfold seconds. lia.
Qed.

Definition signed : ProvisionAccessRequest :=
  default request (ok_value (authenticated_request client (client_env lossy)
    (provision_request_of "5Validator" "ssh-ed25519 AAAA" 3600 None))).
End ProvisionScenario.
Import ProvisionScenario.

Lemma failed_delivery_witness :
  exists e sleeps x',
    provision_validator_access some_hash client (client_env lossy) "5Validator" "ssh-ed25519 AAAA" 3600 None node
      = Some (Err e, sleeps, x') /\
    length sleeps = Z.to_nat (max_retries (client_config client) - 1) /\
    validation_service x' = validation_service (send some_hash signed (lossy 0) node).2.
Proof.
  assert (Hreq : authenticated_request client (client_env lossy)
            (provision_request_of "5Validator" "ssh-ed25519 AAAA" 3600 None) = Ok signed)
    by (vm_compute; reflexivity).
  assert (Ha : exists a, get_auth signed = Some a) by (eexists; vm_compute; reflexivity).
  assert (Hacc : (verify_miner_request (verified_at (handler_env 0)) (map_order (handler_env 0)) signed
            (miner_auth_service node)).1 = Verified Accepted) by (vm_compute; reflexivity).
  assert (Herr : is_Ok (send some_hash signed (lossy 0) node).1 = false) by (vm_compute; reflexivity).
  destruct Ha as [a Ha].
  exact (failed_delivery_is_final some_hash client (client_env lossy) "5Validator" "ssh-ed25519 AAAA"
    3600 None node signed a (handler_env 0) eq_refl Hreq Ha lossy_forward (lossy_env 0) Hacc Herr).
Defined.

Lemma provision_grants_witness :
  exists response x' vs' access,
    provision_validator_access some_hash client (client_env (fun n => Delivered (handler_env n)))
      "5Validator" "ssh-ed25519 AAAA" 60 (Some "{}") node = Some (Ok response, [], x') /\
    success response = true /\ response_expires_at response = Some (day_one + seconds 3600) /\
    validation_service x' = Some vs' /\
    get_access (ValidatorId_new "5Validator") vs' = Some access /\
    public_key (ssh_key access) = "ssh-ed25519 AAAA" /\
    (forall t, has_access t (ValidatorId_new "5Validator") vs' = true
               <-> t < day_one + seconds (365 * 24 * 3600)) /\
    (forall v, hotkey v <> "5Validator" -> get_access v vs'
       = get_access v (ValidatorAccessControl_new day_one AccessControlConfig_default None)).
Proof.
  assert (Hlen : (10 <= String.length "ssh-ed25519 AAAA")%nat) by (vm_compute; lia).
  assert (Hlo : day_one - minutes 1 <= day_one + seconds 0) by (vm_compute; discriminate).
  assert (Hhi : day_one + seconds 0
                <= day_one + max_request_age (auth_config (miner_auth_service node)) - millisecond)
    by (vm_compute; discriminate).
  assert (Hcut : is_Some (nonce_cutoff (max_request_age (auth_config (miner_auth_service node)))
                            (day_one + seconds 0))) by (eexists; vm_compute; reflexivity).
  exact (provision_grants_access some_hash signer ExecutorGrpcConfig_default
    (client_env (fun n => Delivered (handler_env n))) "5Validator" "ssh-ed25519 AAAA" 60 (Some "{}") node
    _ (handler_env 0) true eq_refl eq_refl ltac:(discriminate) Hlen eq_refl eq_refl Hlo Hhi eq_refl eq_refl
    Hcut eq_refl eq_refl eq_refl).
Defined.
