(* ===== verification/Assignments.v ===== *)
(** * Executor assignments of the miner

    basilica-miner: persistence/assignment_db.rs (three SQLite tables), services/
    assignment_manager.rs (suggestions for assignments by stake) and services/
    stake_monitor.rs (stakes from the metagraph).  A statement may be lost: it then returns
    an error and has no effect.  SQLite's [SUM] over reals is a parameter; the order of rows
    that an [ORDER BY] leaves open is that of [HashOrder].  Texts of reasons are kept as
    their values. *)

From stdpp Require Import base gmap strings list.
From Stdlib Require Import Ascii ZArith SpecFloat.
From S2P Require Import Prelude.
From S2P Require Import Bytes.
From S2P Require Import Float64.
From S2P Require Import Collections.
Local Open Scope Z_scope.

(** ** Tables *)

Record ExecutorAssignment := {
  ea_id : Z;
  ea_executor_id : string;
  ea_validator_hotkey : string;
  ea_assigned_at : Z;
  ea_assigned_by : string;
  ea_notes : option string
}.

Record ValidatorStake := {
  st_validator_hotkey : string;
  st_stake_amount : f64;
  st_percentage_of_total : f64;
  st_last_updated : Z
}.

Record AssignmentHistory := {
  ah_id : Z;
  ah_executor_id : string;
  ah_validator_hotkey : option string;
  ah_action : string;
  ah_performed_at : Z;
  ah_performed_by : string
}.

Record CoverageStats := {
  total_executors : nat;
  assigned_executors : nat;
  covered_stake_percentage : f64;
  covered_validators : nat;
  total_validators : nat
}.

(** The last identifiers given out (AUTOINCREMENT), and the statements executed so far. *)
Record AssignmentTables := {
  executor_assignments : list ExecutorAssignment;   (* oldest first *)
  validator_stakes : gmap string ValidatorStake;
  assignment_history : list AssignmentHistory;      (* oldest first *)
  last_assignment_id : Z;
  last_history_id : Z;
  statements : nat
}.

Definition empty_tables : AssignmentTables := {|
  executor_assignments := []; validator_stakes := ∅; assignment_history := [];
  last_assignment_id := 0; last_history_id := 0; statements := 0 |}.

Section Database.
Context (lost : nat -> bool) `{HashOrder} (sql_sum : list f64 -> f64).
Implicit Types d : AssignmentTables.

Definition tick d : AssignmentTables := {|
  executor_assignments := executor_assignments d; validator_stakes := validator_stakes d;
  assignment_history := assignment_history d; last_assignment_id := last_assignment_id d;
  last_history_id := last_history_id d; statements := S (statements d) |}.

(** One statement: an error without effect, or the rows and the new tables. *)
Definition statement {A} (f : AssignmentTables -> result string (A * AssignmentTables)) d
    : result string A * AssignmentTables :=
  if lost (statements d) then (Err "database error", tick d)
  else match f d with Ok (a, d') => (Ok a, tick d') | Err e => (Err e, tick d) end.

Definition select {A} (f : AssignmentTables -> A) : AssignmentTables -> result string A * AssignmentTables :=
  statement (fun d => Ok (f d, d)).

Definition row_of (executor_id : string) d : option ExecutorAssignment :=
  List.find (fun a => String.eqb (ea_executor_id a) executor_id) (executor_assignments d).

Definition get_assignment_by_executor (executor_id : string)
    : AssignmentTables -> result string (option ExecutorAssignment) * AssignmentTables :=
  select (row_of executor_id).

(** [executor_id] is UNIQUE. *)
Definition insert_assignment (now : Z) (executor_id validator_hotkey assigned_by : string)
    (notes : option string) d : result string (Z * AssignmentTables) :=
  match row_of executor_id d with
  | Some _ => Err "UNIQUE constraint failed: executor_assignments.executor_id"
  | None =>
      let id := last_assignment_id d + 1 in
      Ok (id, {|
        executor_assignments := executor_assignments d ++
          [{| ea_id := id; ea_executor_id := executor_id; ea_validator_hotkey := validator_hotkey;
              ea_assigned_at := now; ea_assigned_by := assigned_by; ea_notes := notes |}];
        validator_stakes := validator_stakes d; assignment_history := assignment_history d;
        last_assignment_id := id; last_history_id := last_history_id d; statements := statements d |})
  end.

Definition log_assignment_action (now : Z) (executor_id : string) (validator_hotkey : option string)
    (action performed_by : string) : AssignmentTables -> result string unit * AssignmentTables :=
  statement (fun d =>
    let id := last_history_id d + 1 in
    Ok (tt, {|
      executor_assignments := executor_assignments d; validator_stakes := validator_stakes d;
      assignment_history := assignment_history d ++
        [{| ah_id := id; ah_executor_id := executor_id; ah_validator_hotkey := validator_hotkey;
            ah_action := action; ah_performed_at := now; ah_performed_by := performed_by |}];
      last_assignment_id := last_assignment_id d; last_history_id := id; statements := statements d |})).

(** [now] is the time of the assignment and [now'] that of the history entry. *)
Definition create_assignment (now now' : Z) (executor_id validator_hotkey assigned_by : string)
    (notes : option string) d : result string ExecutorAssignment * AssignmentTables :=
  match get_assignment_by_executor executor_id d with
  | (Err e, d) => (Err e, d)
  | (Ok (Some existing), d) =>
      (Err ("Executor " +:+ executor_id +:+ " is already assigned to validator "
            +:+ ea_validator_hotkey existing), d)
  | (Ok None, d) =>
      match statement (insert_assignment now executor_id validator_hotkey assigned_by notes) d with
      | (Err e, d) => (Err e, d)
      | (Ok id, d) =>
          match log_assignment_action now' executor_id (Some validator_hotkey) "assign" assigned_by d with
          | (Err e, d) => (Err e, d)
          | (Ok _, d) =>
              (Ok {| ea_id := id; ea_executor_id := executor_id; ea_validator_hotkey := validator_hotkey;
                     ea_assigned_at := now; ea_assigned_by := assigned_by; ea_notes := notes |}, d)
          end
      end
  end.

Definition delete_rows (executor_id : string) d : result string (nat * AssignmentTables) :=
  let kept := List.filter (fun a => negb (String.eqb (ea_executor_id a) executor_id)) (executor_assignments d) in
  Ok ((length (executor_assignments d) - length kept)%nat, {|
    executor_assignments := kept; validator_stakes := validator_stakes d;
    assignment_history := assignment_history d; last_assignment_id := last_assignment_id d;
    last_history_id := last_history_id d; statements := statements d |}).

Definition delete_assignment (now : Z) (executor_id unassigned_by : string) d
    : result string unit * AssignmentTables :=
  match statement (delete_rows executor_id) d with
  | (Err e, d) => (Err e, d)
  | (Ok O, d) => (Err ("No assignment found for executor " +:+ executor_id), d)
  | (Ok (S _), d) => log_assignment_action now executor_id None "unassign" unassigned_by d
  end.

Definition latest_assigned_first (n : nat) (l : list ExecutorAssignment) : list ExecutorAssignment :=
  sort_by (fun a b => ea_assigned_at b <=? ea_assigned_at a) (shuffle n "executor_assignments" l).

Definition get_assignments_for_validator (n : nat) (validator_hotkey : string)
    : AssignmentTables -> result string (list ExecutorAssignment) * AssignmentTables :=
  select (fun d => latest_assigned_first n
    (List.filter (fun a => String.eqb (ea_validator_hotkey a) validator_hotkey) (executor_assignments d))).

Definition get_all_assignments (n : nat)
    : AssignmentTables -> result string (list ExecutorAssignment) * AssignmentTables :=
  select (fun d => latest_assigned_first n (executor_assignments d)).

(** INSERT OR REPLACE. *)
Definition update_validator_stake (now : Z) (hotkey : string) (amount percentage : f64)
    : AssignmentTables -> result string unit * AssignmentTables :=
  statement (fun d => Ok (tt, {|
    executor_assignments := executor_assignments d;
    validator_stakes := <[hotkey := {| st_validator_hotkey := hotkey; st_stake_amount := amount;
      st_percentage_of_total := percentage; st_last_updated := now |}]> (validator_stakes d);
    assignment_history := assignment_history d; last_assignment_id := last_assignment_id d;
    last_history_id := last_history_id d; statements := statements d |})).

Fixpoint update_validator_stakes_batch (now : Z) (stakes : list (string * f64 * f64)) d
    : result string unit * AssignmentTables :=
  match stakes with
  | [] => (Ok tt, d)
  | (hotkey, amount, percentage) :: rest =>
      match update_validator_stake now hotkey amount percentage d with
      | (Err e, d) => (Err e, d)
      | (Ok _, d) => update_validator_stakes_batch now rest d
      end
  end.

Definition richest_first (n : nat) (l : list ValidatorStake) : list ValidatorStake :=
  sort_by (fun a b => f64_leb (st_stake_amount b) (st_stake_amount a)) (shuffle n "validator_stakes" l).

Definition stake_rows d : list ValidatorStake := (map_to_list (validator_stakes d)).*2.

Definition get_all_validator_stakes (n : nat)
    : AssignmentTables -> result string (list ValidatorStake) * AssignmentTables :=
  select (fun d => richest_first n (stake_rows d)).

Definition get_validator_stakes_above (n : nat) (min_stake : f64)
    : AssignmentTables -> result string (list ValidatorStake) * AssignmentTables :=
  select (fun d => richest_first n
    (List.filter (fun v => f64_leb min_stake (st_stake_amount v)) (stake_rows d))).

Definition covered (d : AssignmentTables) (v : ValidatorStake) : bool :=
  existsb (fun a => String.eqb (ea_validator_hotkey a) (st_validator_hotkey v)) (executor_assignments d).

(** COALESCE(SUM(...), 0) *)
Definition covered_sum d : f64 :=
  match List.filter (covered d) (stake_rows d) with
  | [] => f64_zero
  | l => sql_sum (st_percentage_of_total <$> l)
  end.

Definition get_coverage_stats (executors : nat) d : result string CoverageStats * AssignmentTables :=
  match select (fun d => length (executor_assignments d)) d with
  | (Err e, d) => (Err e, d)
  | (Ok assigned, d) =>
  match select (fun d => size (validator_stakes d)) d with
  | (Err e, d) => (Err e, d)
  | (Ok validators, d) =>
  match select covered_sum d with
  | (Err e, d) => (Err e, d)
  | (Ok percentage, d) =>
  match select (fun d => length (remove_dups (ea_validator_hotkey <$> executor_assignments d))) d with
  | (Err e, d) => (Err e, d)
  | (Ok covered, d) =>
      (Ok {| total_executors := executors; assigned_executors := assigned;
             covered_stake_percentage := percentage; covered_validators := covered;
             total_validators := validators |}, d)
  end end end end.

Definition latest_first (n : nat) (l : list AssignmentHistory) : list AssignmentHistory :=
  sort_by (fun a b => ah_performed_at b <=? ah_performed_at a) (shuffle n "assignment_history" l).

Definition get_assignment_history (n : nat) (executor_id : string)
    : AssignmentTables -> result string (list AssignmentHistory) * AssignmentTables :=
  select (fun d => latest_first n
    (List.filter (fun h => String.eqb (ah_executor_id h) executor_id) (assignment_history d))).

(** A negative LIMIT is none. *)
Definition get_recent_assignment_history (n : nat) (limit : Z)
    : AssignmentTables -> result string (list AssignmentHistory) * AssignmentTables :=
  select (fun d => let l := latest_first n (assignment_history d) in
                   if limit <? 0 then l else take (Z.to_nat limit) l).
End Database.

(** ** Suggestions *)

Inductive AssignmentPriority := Critical | High | Medium | Low.

Definition priority_rank (p : AssignmentPriority) : nat :=
  match p with Critical => 0 | High => 1 | Medium => 2 | Low => 3 end.

Inductive Reason :=
  | ForCoverage (percent : Z) (stake : f64)
  | Proportional (stake : f64) (current : nat) (target : f64).

Record SuggestedAssignment := {
  sa_executor_id : string;
  sa_validator_hotkey : string;
  sa_reason : Reason;
  sa_priority : AssignmentPriority
}.

Record AssignmentSuggester := { min_coverage : f64; min_stake_for_assignment : f64 }.

Definition AssignmentSuggester_new (min_coverage : f64) : AssignmentSuggester :=
  {| min_coverage := min_coverage; min_stake_for_assignment := f64_of_Z 1 |}.

Definition f64_is_nan (x : f64) : bool := match x with S754_nan => true | _ => false end.

(** [sort_by] with [partial_cmp().unwrap()], descending: two or more values with a NaN
    among them panic. *)
Definition sort_desc {A} (key : A -> f64) (l : list A) : option (list A) :=
  if (1 <? length l)%nat && existsb (fun a => f64_is_nan (key a)) l then None
  else Some (sort_by (fun a b => f64_leb (key b) (key a)) l).

Definition calculate_coverage (assigned : gset string) (validators : list ValidatorStake) : f64 :=
  f64_div (f64_sum (st_percentage_of_total <$>
    List.filter (fun v => bool_decide (st_validator_hotkey v ∈ assigned)) validators)) (f64_of_Z 100).

(** [&s[..8]] panics on a shorter text and inside a character. *)
Definition slice8_ok (s : string) : bool :=
  match drop 8 (into_bytes s) with
  | [] => (String.length s =? 8)%nat
  | b :: _ => negb (continues b)
  end.

Section Suggest.
Context (debug : bool) (g : AssignmentSuggester).   (* whether debug lines are written *)

(** Executors are taken from the end. *)
Fixpoint suggest_for_coverage (available : list string) (validators : list ValidatorStake)
    (assigned : gset string) (coverage : f64) : option (list SuggestedAssignment * list string) :=
  match validators with
  | [] => Some ([], available)
  | v :: rest =>
      if f64_leb (min_coverage g) coverage then Some ([], available)
      else if bool_decide (st_validator_hotkey v ∈ assigned) then
        suggest_for_coverage available rest assigned coverage
      else if f64_ltb (st_percentage_of_total v) (min_stake_for_assignment g) then
        suggest_for_coverage available rest assigned coverage
      else
        match last available with
        | None => Some ([], available)
        | Some executor_id =>
            if debug && negb (slice8_ok executor_id && slice8_ok (st_validator_hotkey v)) then None
            else
              '(l, available') ←
                suggest_for_coverage (take (length available - 1) available) rest
                  ({[st_validator_hotkey v]} ∪ assigned)
                  (f64_add coverage (f64_div (st_percentage_of_total v) (f64_of_Z 100)));
              Some ({| sa_executor_id := executor_id; sa_validator_hotkey := st_validator_hotkey v;
                       sa_reason := ForCoverage
                         (f64_to_uint 4294967295 (f64_mul (min_coverage g) (f64_of_Z 100)))
                         (st_percentage_of_total v);
                       sa_priority := Critical |} :: l, available')
        end
  end.

(** Hotkey, stake, current number of executors and deficit. *)
Definition Target : Type := (string * f64 * nat * f64)%type.

Definition validator_target (current : list ExecutorAssignment) (total : nat) (v : ValidatorStake)
    : option Target :=
  if f64_ltb (st_percentage_of_total v) (min_stake_for_assignment g) then None
  else
    let target := f64_mul (f64_div (st_percentage_of_total v) (f64_of_Z 100)) (f64_of_Z (Z.of_nat total)) in
    let count := length (List.filter (fun a => String.eqb (ea_validator_hotkey a) (st_validator_hotkey v)) current) in
    let deficit := f64_sub target (f64_of_Z (Z.of_nat count)) in
    if f64_ltb (f64_lit 1 2) deficit
    then Some (st_validator_hotkey v, st_percentage_of_total v, count, deficit) else None.

Definition validator_targets (validators : list ValidatorStake) (current : list ExecutorAssignment)
    (total : nat) : list Target := omap (validator_target current total) validators.

Definition deficit_priority (deficit : f64) : AssignmentPriority :=
  if f64_ltb (f64_of_Z 2) deficit then High
  else if f64_ltb (f64_of_Z 1) deficit then Medium else Low.

(** The [i]-th executor goes to target [i mod length]: a remainder by zero panics. *)
Fixpoint assign_round_robin (targets : list Target) (i : nat) (available : list string)
    : option (list SuggestedAssignment) :=
  match available with
  | [] => Some []
  | executor_id :: rest =>
      if (length targets =? 0)%nat then None
      else
        l ← assign_round_robin targets (S i) rest;
        match targets !! (i mod length targets)%nat with
        | Some (hotkey, stake, current, deficit) =>
            Some ({| sa_executor_id := executor_id; sa_validator_hotkey := hotkey;
                     sa_reason := Proportional stake current
                       (f64_add (f64_of_Z (Z.of_nat current)) deficit);
                     sa_priority := deficit_priority deficit |} :: l)
        | None => Some l
        end
  end.

Definition suggest_proportional_assignments (available : list string) (validators : list ValidatorStake)
    (current : list ExecutorAssignment) (total : nat) : option (list SuggestedAssignment) :=
  targets ← sort_desc snd (validator_targets validators current total);
  assign_round_robin targets 0 available.

Definition unassigned (executors : list string) (current : list ExecutorAssignment) : list string :=
  List.filter (fun e => negb (existsb (fun a => String.eqb (ea_executor_id a) e) current)) executors.

Definition by_priority (l : list SuggestedAssignment) : list SuggestedAssignment :=
  sort_by (fun a b => (priority_rank (sa_priority a) <=? priority_rank (sa_priority b))%nat) l.

(** Phase one, when the coverage is below its minimum: the critical suggestions, and the
    executors left over. *)
Definition coverage_phase (free : list string) (stakes sorted : list ValidatorStake)
    (current : list ExecutorAssignment) : option (list SuggestedAssignment * list string) :=
  let assigned_validators : gset string := list_to_set (ea_validator_hotkey <$> current) in
  let coverage := calculate_coverage assigned_validators stakes in
  if f64_ltb coverage (min_coverage g)
  then suggest_for_coverage free sorted assigned_validators coverage
  else Some ([], free).

(** [None] is a panic. *)
Definition suggest_assignments (executors : list string) (stakes : list ValidatorStake)
    (current : list ExecutorAssignment) : option (result string (list SuggestedAssignment)) :=
  match executors, stakes with
  | [], _ => Some (Err "No executors available for assignment")
  | _, [] => Some (Err "No validator stake information available")
  | _, _ =>
      let free := unassigned executors current in
      if (length free =? 0)%nat then Some (Ok [])
      else
        sorted ← sort_desc st_percentage_of_total stakes;
        '(critical, remaining) ← coverage_phase free stakes sorted current;
        proportional ←
          (if (length remaining =? 0)%nat then Some []
           else suggest_proportional_assignments remaining sorted current (length executors));
        Some (Ok (by_priority (critical ++ proportional)))
  end.
End Suggest.

(** ** The assignment manager *)

Record AssignmentManager := { manager_executors : list string }.

Definition AssignmentManager_new : AssignmentManager := {| manager_executors := [] |}.
Definition with_executors (l : list string) (m : AssignmentManager) : AssignmentManager :=
  {| manager_executors := l |}.

Definition manager_coverage_stats (lost : nat -> bool) (sql_sum : list f64 -> f64)
    (m : AssignmentManager) : AssignmentTables -> result string CoverageStats * AssignmentTables :=
  get_coverage_stats lost sql_sum (length (manager_executors m)).

(** ** The stake monitor *)

Record NeuronStake := { ns_hotkey : string; ns_stake : Z }.   (* stake: u64, in nano TAO *)

Definition stake_tao (v : NeuronStake) : f64 := f64_div (f64_of_Z (ns_stake v)) (f64_of_Z 1000000000).

(** One update: the validators the discovery finds, or its error. *)
Definition update_validator_stakes (lost : nat -> bool) (now : Z) (min_stake_threshold : f64)
    (found : result string (list NeuronStake)) (d : AssignmentTables)
    : result string nat * AssignmentTables :=
  match found with
  | Err e => (Err e, d)
  | Ok validators =>
      let total := f64_sum (stake_tao <$> validators) in
      if f64_eqb total f64_zero then (Ok 0%nat, d)
      else
        let kept := List.filter (fun v => negb (f64_ltb (stake_tao v) min_stake_threshold)) validators in
        let rows := (fun v => (ns_hotkey v, stake_tao v,
                               f64_mul (f64_div (stake_tao v) total) (f64_of_Z 100))) <$> kept in
        let rows := sort_by (fun a b => f64_leb b.1.2 a.1.2) rows in
        match update_validator_stakes_batch lost now rows d with
        | (Ok _, d) => (Ok (length rows), d)
        | (Err e, d) => (Err e, d)
        end
  end.
