(* ===== verification/AssignmentClaims.v ===== *)
(** * What the assignments guarantee

    Suggestions give every free executor to one sufficiently staked validator or panic for
    one reason; the assignment table is the replay of its history. *)

From stdpp Require Import base gmap strings list.
From Stdlib Require Import ZArith Sorting.Sorted.
From S2P Require Import Prelude.
From S2P Require Import Float64.
From S2P Require Import Collections.
From S2P Require Import Assignments.
Local Open Scope Z_scope.

(** ** Suggestions *)

Section Suggestions.
Context (debug : bool) (g : AssignmentSuggester).

(** The suggestion names a validator of [l] that has the minimal stake. *)
Definition eligible (l : list ValidatorStake) (s : SuggestedAssignment) : Prop :=
  exists v, v ∈ l /\ st_validator_hotkey v = sa_validator_hotkey s /\
    f64_ltb (st_percentage_of_total v) (min_stake_for_assignment g) = false.

(** Identifiers the debug line can shorten. *)
Definition printable (executors : list string) (l : list ValidatorStake) : Prop :=
  debug = true ->
  Forall (fun e => slice8_ok e = true) executors /\ Forall (fun v => slice8_ok (st_validator_hotkey v) = true) l.

Lemma eligible_mono l l' s : l ⊆ l' -> eligible l s -> eligible l' s.
Proof. intros Hl (v & Hv & ?). exists v. split; [by apply Hl | done]. Qed.

Lemma sort_desc_some {A} (key : A -> f64) l :
  Forall (fun a => f64_is_nan (key a) = false) l -> exists l', sort_desc key l = Some l' /\ l' ≡ₚ l.
Proof.
  intros Hl. unfold sort_desc.
  assert (existsb (fun a => f64_is_nan (key a)) l = false) as ->.
  { apply not_true_iff_false. intros Hx. apply existsb_exists in Hx as (a & Ha & Hn).
    rewrite Forall_forall in Hl. apply list_elem_of_In in Ha. by rewrite Hl in Hn. }
  rewrite andb_false_r. eexists. split; [done|]. apply sort_by_Permutation.
Qed.

Lemma take_last (available : list string) e :
  last available = Some e -> available = take (length available - 1) available ++ [e].
Proof.
  intros He. apply last_Some in He as [l ->]. rewrite length_app. simpl.
  replace (length l + 1 - 1)%nat with (length l) by lia. by rewrite take_app_length.
Qed.

Lemma suggest_for_coverage_spec validators : forall available assigned coverage,
  printable available validators ->
  exists l rest, suggest_for_coverage debug g available validators assigned coverage = Some (l, rest) /\
    (sa_executor_id <$> l) ++ rest ≡ₚ available /\ Forall (eligible validators) l.
Proof.
  induction validators as [|v validators IH]; intros available assigned coverage Hp;
    cbn [suggest_for_coverage]; [by exists [], available|].
  assert (Hsub : validators ⊆ v :: validators) by set_solver.
  assert (Htail : printable available validators).
  { intros Hd. destruct (Hp Hd) as [? Hv]. split; [done|]. by apply Forall_cons in Hv as [_ Hv]. }
  assert (Hmono : forall l, Forall (eligible validators) l -> Forall (eligible (v :: validators)) l).
  { intros l Hl. eapply Forall_impl; [done|]. intros s. by apply eligible_mono. }
  destruct (f64_leb _ _); [by exists [], available|].
  destruct (bool_decide _); [destruct (IH available assigned coverage Htail) as (l & rest & ? & ? & ?); eauto 6|].
  destruct (f64_ltb _ _) eqn:Estake;
    [destruct (IH available assigned coverage Htail) as (l & rest & ? & ? & ?); eauto 6|].
  destruct (last available) as [e|] eqn:He; [|by exists [], available].
  pose proof (take_last _ _ He) as Htake.
  destruct (debug && _) eqn:Ed.
  { apply andb_true_iff in Ed as [Hd Hneg]. destruct (Hp Hd) as [Hes Hvs]. rewrite Htake in Hes.
    apply Forall_app in Hes as [_ Hes]. apply Forall_cons in Hes as [Hes _]. apply Forall_cons in Hvs as [Hvs _].
    cbn beta in Hes, Hvs. by rewrite Hes, Hvs in Hneg. }
  destruct (IH (take (length available - 1) available) ({[st_validator_hotkey v]} ∪ assigned)
    (f64_add coverage (f64_div (st_percentage_of_total v) (f64_of_Z 100)))) as (l & rest & -> & Hperm & Hel).
  { intros Hd. destruct (Htail Hd) as [Hes ?]. split; [by apply Forall_take | done]. }
  simpl. eexists _, _. split_and!; [done | |].
  - cbn [fmap list_fmap app]. cbn [sa_executor_id]. rewrite Hperm. transitivity (take (length available - 1) available ++ [e]);
      [apply Permutation_cons_append | by rewrite <- Htake].
  - constructor; [|by apply Hmono]. exists v. split_and!; [by left | done..].
Qed.

Lemma target_eligible validators current total t :
  t ∈ validator_targets g validators current total ->
  exists v, v ∈ validators /\ st_validator_hotkey v = t.1.1.1 /\
    f64_ltb (st_percentage_of_total v) (min_stake_for_assignment g) = false.
Proof.
  intros Ht. apply list_elem_of_omap in Ht as (v & Hv & Et). unfold validator_target in Et.
  destruct (f64_ltb _ (min_stake_for_assignment g)) eqn:E; [done|].
  destruct (f64_ltb (f64_lit 1 2) _); [|done]. simplify_eq. by exists v.
Qed.

Lemma f64_ltb_not_nan x y : f64_ltb x y = true -> f64_is_nan y = false.
Proof. by destruct y, x. Qed.

(** Deficits of targets are numbers. *)
Lemma targets_no_nan validators current total :
  Forall (fun t : Target => f64_is_nan t.2 = false) (validator_targets g validators current total).
Proof.
  apply Forall_forall. intros t Ht. apply list_elem_of_omap in Ht as (v & Hv & Et).
  unfold validator_target in Et. destruct (f64_ltb _ (min_stake_for_assignment g)); [done|].
  destruct (f64_ltb (f64_lit 1 2) _) eqn:E; [|done]. injection Et as <-. simpl.
  by eapply f64_ltb_not_nan.
Qed.

Lemma assign_round_robin_spec (targets : list Target) : forall available i, targets <> [] ->
  exists l, assign_round_robin targets i available = Some l /\ sa_executor_id <$> l = available /\
    Forall (fun s => exists t, t ∈ targets /\ t.1.1.1 = sa_validator_hotkey s) l.
Proof.
  induction available as [|e available IH]; intros i Hne; cbn [assign_round_robin]; [by exists []|].
  destruct (IH (S i) Hne) as (l & -> & Hids & Hl). cbn [mbind option_bind].
  destruct (length targets =? 0)%nat eqn:E0; [apply Nat.eqb_eq in E0; by destruct targets|].
  apply Nat.eqb_neq in E0.
  pose proof (Nat.mod_upper_bound i (length targets) E0) as Hlt.
  destruct (targets !! (i mod length targets)%nat) as [[[[h st] c] df]|] eqn:Ht;
    [|by apply lookup_ge_None in Ht; apply Nat.le_ngt in Ht].
  eexists. split_and!; [done | by rewrite fmap_cons, Hids|]. constructor; [|done].
  apply list_elem_of_lookup_2 in Ht. by eexists.
Qed.

Lemma assign_round_robin_panics i available : available <> [] -> assign_round_robin [] i available = None.
Proof. by destruct available. Qed.

Lemma proportional_spec available validators current total :
  available <> [] ->
  (suggest_proportional_assignments g available validators current total = None
     <-> validator_targets g validators current total = []) /\
  (forall l, suggest_proportional_assignments g available validators current total = Some l ->
     sa_executor_id <$> l = available /\ Forall (eligible validators) l).
Proof.
  intros Hne. unfold suggest_proportional_assignments.
  destruct (sort_desc_some snd _ (targets_no_nan validators current total)) as (ts & -> & Hts). simpl.
  destruct (validator_targets g validators current total) as [|t0 rest] eqn:Et.
  { apply Permutation_nil_r in Hts as ->. by rewrite assign_round_robin_panics. }
  assert (Hts0 : ts <> []) by (intros ->; by apply Permutation_nil_l in Hts).
  destruct (assign_round_robin_spec ts available 0 Hts0) as (l & -> & Hids & Hl).
  split; [done|]. intros l' [= <-]. split; [done|]. eapply Forall_impl; [done|].
  intros s (t & Ht & Hs). rewrite Hts, <- Et in Ht.
  apply target_eligible in Ht as (v & Hv & Hh & Hst). exists v. split_and!; [done | congruence | done].
Qed.

Lemma coverage_phase_spec free stakes sorted current :
  printable free sorted ->
  exists l rest, coverage_phase debug g free stakes sorted current = Some (l, rest) /\
    (sa_executor_id <$> l) ++ rest ≡ₚ free /\ Forall (eligible sorted) l.
Proof.
  intros Hp. unfold coverage_phase. destruct (f64_ltb _ _); [by apply suggest_for_coverage_spec|].
  by exists [], free.
Qed.

Lemma printable_sub e e' l l' : e ⊆ e' -> l ⊆ l' -> printable e' l' -> printable e l.
Proof.
  intros He Hl Hp Hd. destruct (Hp Hd) as [He' Hl']. rewrite !Forall_forall in *. split; naive_solver.
Qed.

Lemma Sorted_mono {A} (R R' : A -> A -> Prop) l :
  (forall a b, R a b -> R' a b) -> Sorted R l -> Sorted R' l.
Proof. intros HR. induction 1 as [|a l Hs IH Hd]; constructor; [done|]. destruct Hd; constructor; auto. Qed.

Lemma by_priority_Permutation l : by_priority l ≡ₚ l.
Proof. apply sort_by_Permutation. Qed.

Lemma by_priority_sorted l :
  Sorted (fun a b => (priority_rank (sa_priority a) <= priority_rank (sa_priority b))%nat) (by_priority l).
Proof.
  eapply Sorted_mono; [|apply sort_by_Sorted].
  - intros a b. apply Nat.leb_le.
  - intros a b E. apply Nat.leb_gt in E. apply Nat.leb_le. lia.
Qed.

Lemma unassigned_sub executors current : unassigned executors current ⊆ executors.
Proof.
  intros e He. apply list_elem_of_In, filter_In in He as [He _]. by apply list_elem_of_In.
Qed.
End Suggestions.

(** C26: Suggestions are complete and sound, or the code panics for one reason.  With
    numbers for stakes (and identifiers a debug line can shorten, if debug lines are on) and
    at least one executor and validator: the suggestions give every unassigned executor
    exactly once, each to a listed validator with the minimal stake, most urgent first; and
    the code panics exactly when executors are left after the coverage phase and no validator
    lacks more than half an executor. *)
Theorem suggestions_complete_or_panic debug g executors stakes current sorted :
  sort_desc st_percentage_of_total stakes = Some sorted ->
  printable debug executors stakes -> executors <> [] -> stakes <> [] ->
  (forall l, suggest_assignments debug g executors stakes current = Some (Ok l) ->
     (sa_executor_id <$> l) ≡ₚ unassigned executors current /\ Forall (eligible g stakes) l /\
     Sorted (fun a b => (priority_rank (sa_priority a) <= priority_rank (sa_priority b))%nat) l) /\
  (forall e, suggest_assignments debug g executors stakes current <> Some (Err e)) /\
  (suggest_assignments debug g executors stakes current = None <->
     exists critical remaining,
       coverage_phase debug g (unassigned executors current) stakes sorted current
         = Some (critical, remaining) /\
       remaining <> [] /\ validator_targets g sorted current (length executors) = []).
Proof.
  intros Hsort Hp He Hs. unfold suggest_assignments.
  destruct executors as [|e0 es] eqn:Ees; [done|]. destruct stakes as [|v0 vs] eqn:Evs; [done|].
  rewrite <- Ees, <- Evs in *. set (free := unassigned executors current).
  assert (Hperm : sorted ≡ₚ stakes).
  { unfold sort_desc in Hsort. case_match; [done|]. injection Hsort as <-. apply sort_by_Permutation. }
  assert (Hsub : sorted ⊆ stakes) by (intros v; by rewrite Hperm).
  destruct (coverage_phase_spec debug g free stakes sorted current) as (l & rest & Hc & Hids & Hel).
  { eapply printable_sub; [apply unassigned_sub | done | done]. }
  assert (Hmono : forall k, Forall (eligible g sorted) k -> Forall (eligible g stakes) k).
  { intros k Hk. eapply Forall_impl; [done|]. intros s. by apply eligible_mono. }
  rewrite Hsort. cbn [mbind option_bind]. rewrite Hc. cbn [mbind option_bind].
  destruct (length free =? 0)%nat eqn:Ef.
  { apply Nat.eqb_eq, length_zero_iff_nil in Ef. rewrite Ef in *.
    apply Permutation_nil_r, app_eq_nil in Hids as [_ ->].
    split_and!; [by intros k [= <-] | done |]. split; [done | by intros (? & ? & [= <- <-] & ? & _)]. }
  destruct rest as [|x rest]; cbn [length Nat.eqb].
  { cbn [mbind option_bind]. rewrite app_nil_r in Hids. rewrite app_nil_r. split_and!.
    - intros k [= <-]. split_and!; [by rewrite by_priority_Permutation | | ].
      + apply Hmono. by rewrite by_priority_Permutation.
      + apply by_priority_sorted.
    - done.
    - split; [done | by intros (? & ? & [= <- <-] & ? & _)]. }
  destruct (proportional_spec g (x :: rest) sorted current (length executors) ltac:(done)) as [Hnone Hsome].
  destruct (suggest_proportional_assignments _ _ _ _ _) as [k|] eqn:Ek; cbn [mbind option_bind].
  - destruct (Hsome k eq_refl) as [Hk Hkel]. split_and!.
    + intros k' [= <-]. split_and!; [ | | apply by_priority_sorted].
      * by rewrite by_priority_Permutation, fmap_app, Hk.
      * apply Hmono. rewrite by_priority_Permutation. by apply Forall_app.
    + done.
    + split; [done|]. intros (? & ? & [= <- <-] & _ & Hn). by apply Hnone in Hn.
  - split_and!; [done..|]. split; [|done]. intros _. exists l, (x :: rest). split_and!; [done..|].
    by apply Hnone.
Qed.

(** ** The table and its history *)

Section History.
Context (lost : nat -> bool).
Implicit Types d : AssignmentTables.

(** What the history says: the last entry of an executor counts. *)
Definition replay (h : list AssignmentHistory) : gmap string string :=
  fold_left (fun m e =>
    match ah_validator_hotkey e with
    | Some v => <[ah_executor_id e := v]> m
    | None => delete (ah_executor_id e) m
    end) h ∅.

Inductive AssignmentRequest :=
  | Assign (now now' : Z) (executor_id validator_hotkey by_whom : string) (notes : option string)
  | Unassign (now : Z) (executor_id by_whom : string)
  | SetStakes (now : Z) (stakes : list (string * f64 * f64)).

Definition assignment_step d (r : AssignmentRequest) : AssignmentTables :=
  match r with
  | Assign now now' e v b notes => (create_assignment lost now now' e v b notes d).2
  | Unassign now e b => (delete_assignment lost now e b d).2
  | SetStakes now l => (update_validator_stakes_batch lost now l d).2
  end.

Definition unique_executors d : Prop := NoDup (ea_executor_id <$> executor_assignments d).

Definition agrees d : Prop :=
  forall e, ea_validator_hotkey <$> row_of e d = replay (assignment_history d) !! e.

Lemma row_of_None e d : row_of e d = None <-> e ∉ (ea_executor_id <$> executor_assignments d).
Proof.
  unfold row_of. induction (executor_assignments d) as [|a l IH]; [by split; [intros _ H; apply elem_of_nil in H|]|].
  cbn [List.find fmap list_fmap]. rewrite not_elem_of_cons.
  destruct (String.eqb_spec (ea_executor_id a) e) as [E | E]; [by split; [|intros [? _]]|].
  rewrite IH. naive_solver.
Qed.

(** A statement changes nothing or has its effect. *)
Lemma statement_inv {A} (f : AssignmentTables -> result string (A * AssignmentTables)) d r d' :
  statement lost f d = (r, d') ->
  (exists e, r = Err e /\ d' = tick d) \/ (exists a d1, f d = Ok (a, d1) /\ r = Ok a /\ d' = tick d1).
Proof.
  unfold statement. destruct (lost (statements d)); [intros [= <- <-]; eauto|].
  destruct (f d) as [[a d1]|e]; intros [= <- <-]; eauto 6.
Qed.

Lemma find_app_new {A} (p : A -> bool) l x :
  List.find p l = None -> List.find p (l ++ [x]) = if p x then Some x else None.
Proof. induction l as [|y l IH]; simpl; [done|]. by destruct (p y). Qed.

Lemma find_app_old {A} (p : A -> bool) l x y : List.find p l = Some y -> List.find p (l ++ [x]) = Some y.
Proof. induction l as [|z l IH]; simpl; [done|]. by destruct (p z). Qed.

Lemma row_of_insert now e v b notes d id d' e' :
  insert_assignment now e v b notes d = Ok (id, d') ->
  ea_validator_hotkey <$> row_of e' d' = if String.eqb e e' then Some v else ea_validator_hotkey <$> row_of e' d.
Proof.
  unfold insert_assignment. destruct (row_of e d) eqn:Ee; [done|]. intros [= <- <-].
  unfold row_of in *. cbn [executor_assignments].
  destruct (String.eqb_spec e e') as [<- | Hne].
  - rewrite find_app_new by done. simpl. by rewrite String.eqb_refl.
  - destruct (List.find (fun a => String.eqb (ea_executor_id a) e') (executor_assignments d)) as [a|] eqn:Ef.
    + by rewrite (find_app_old _ _ _ _ Ef).
    + rewrite find_app_new by done. simpl. by destruct (String.eqb_spec e e').
Qed.

Lemma row_of_delete e d n d' e' :
  delete_rows e d = Ok (n, d') -> row_of e' d' = if String.eqb e e' then None else row_of e' d.
Proof.
  unfold delete_rows. intros [= _ <-]. unfold row_of. cbn [executor_assignments].
  induction (executor_assignments d) as [|a l IH]; [by destruct (String.eqb e e')|]. cbn [List.filter List.find].
  destruct (String.eqb_spec (ea_executor_id a) e) as [Ea | Ea]; cbn [negb List.find].
  - rewrite IH. destruct (String.eqb_spec e e') as [<- | Hne]; [done|].
    destruct (String.eqb_spec (ea_executor_id a) e') as [Eb | Eb]; congruence.
  - rewrite IH. destruct (String.eqb_spec (ea_executor_id a) e') as [Eb | Eb]; [|done].
    destruct (String.eqb_spec e e'); congruence.
Qed.

(** Rows are deleted only when there are any. *)
Lemma delete_rows_none e d d' : delete_rows e d = Ok (0%nat, d') -> row_of e d = None.
Proof.
  unfold delete_rows. set (kept := List.filter _ _). intros [= Hn _].
  unfold row_of. destruct (List.find _ _) as [a|] eqn:Ef; [|done]. exfalso.
  assert (Hlen : forall l : list ExecutorAssignment,
    (length (List.filter (fun a => negb (String.eqb (ea_executor_id a) e)) l) <= length l)%nat).
  { induction l as [|x l IH]; simpl; [lia|]. destruct (negb _); simpl; lia. }
  revert Ef Hn. unfold kept. induction (executor_assignments d) as [|x l IH]; simpl; [done|].
  destruct (String.eqb (ea_executor_id x) e); simpl; [|intros; apply IH; [done | lia]].
  intros _. specialize (Hlen l). lia.
Qed.

Lemma replay_snoc h e :
  replay (h ++ [e]) = match ah_validator_hotkey e with
                      | Some v => <[ah_executor_id e := v]> (replay h)
                      | None => delete (ah_executor_id e) (replay h)
                      end.
Proof. unfold replay. by rewrite fold_left_app. Qed.

Lemma log_history now e v action b d r d' :
  log_assignment_action lost now e v action b d = (r, d') ->
  executor_assignments d' = executor_assignments d /\
  (r = Ok tt -> replay (assignment_history d')
    = match v with Some h => <[e := h]> (replay (assignment_history d))
                 | None => delete e (replay (assignment_history d)) end).
Proof.
  intros Hs. apply statement_inv in Hs as [(er & -> & ->) | ([] & d1 & [= <-] & -> & ->)]; [done|].
  split; [done|]. intros _. cbn [assignment_history tick]. by rewrite replay_snoc.
Qed.

(** *** Executors stay unique whatever is lost *)

Lemma insert_unique now e v b notes d id d' :
  insert_assignment now e v b notes d = Ok (id, d') -> unique_executors d -> unique_executors d'.
Proof.
  unfold insert_assignment, unique_executors. destruct (row_of e d) eqn:Ee; [done|]. intros [= <- <-] Hu.
  cbn [executor_assignments]. rewrite fmap_app. apply NoDup_app. split_and!; [done | | apply NoDup_singleton].
  intros x Hx Hin. apply list_elem_of_singleton in Hin. simpl in Hin. subst x. by apply row_of_None in Ee.
Qed.

Lemma delete_unique e d n d' : delete_rows e d = Ok (n, d') -> unique_executors d -> unique_executors d'.
Proof.
  unfold delete_rows, unique_executors. intros [= _ <-]. cbn [executor_assignments].
  induction (executor_assignments d) as [|a l IH]; [done|]. cbn [List.filter fmap list_fmap].
  intros Hu. apply NoDup_cons in Hu as [Ha Hu]. destruct (negb _); [|by apply IH]. cbn [fmap list_fmap].
  apply NoDup_cons. split; [|by apply IH]. intros Hin. apply Ha.
  apply list_elem_of_fmap in Hin as (x & Hx & Hin). apply list_elem_of_In, filter_In in Hin as [Hin _].
  apply list_elem_of_fmap. exists x. split; [done|]. by apply list_elem_of_In.
Qed.

Lemma batch_rows now l : forall d,
  executor_assignments (update_validator_stakes_batch lost now l d).2 = executor_assignments d /\
  assignment_history (update_validator_stakes_batch lost now l d).2 = assignment_history d.
Proof.
  induction l as [|[[h a] p] l IH]; intros d; [done|]. cbn [update_validator_stakes_batch].
  destruct (update_validator_stake lost now h a p d) as [r d1] eqn:E. unfold update_validator_stake in E.
  apply statement_inv in E as [(er & -> & ->) | ([] & d2 & [= <-] & -> & ->)]; [done|].
  match goal with |- executor_assignments (update_validator_stakes_batch _ _ _ ?x).2 = _ /\ _ =>
    by destruct (IH x) as [-> ->] end.
Qed.

Lemma step_unique d r : unique_executors d -> unique_executors (assignment_step d r).
Proof.
  intros Hu. destruct r as [now now' e v b notes | now e b | now l]; cbn [assignment_step].
  - unfold create_assignment, get_assignment_by_executor, select.
    destruct (statement lost _ d) as [r0 d0] eqn:E0.
    apply statement_inv in E0 as [(er & -> & ->) | (o & d1 & [= <- <-] & -> & ->)]; [done|].
    destruct (row_of e d) as [a|]; [done|].
    destruct (statement lost _ (tick d)) as [r1 d1] eqn:E1.
    apply statement_inv in E1 as [(er & -> & ->) | (id & d2 & E2 & -> & ->)]; [done|].
    apply insert_unique in E2; [|done].
    destruct (log_assignment_action _ _ _ _ _ _ _) as [[u|er] d3] eqn:E3;
      apply log_history in E3 as [E3 _]; cbn [snd]; unfold unique_executors in *; by rewrite E3.
  - unfold delete_assignment. destruct (statement lost _ d) as [r1 d1] eqn:E1.
    apply statement_inv in E1 as [(er & -> & ->) | (n & d2 & E2 & -> & ->)]; [done|].
    apply delete_unique in E2; [|done]. destruct n as [|n]; [done|].
    destruct (log_assignment_action _ _ _ _ _ _ _) as [u d3] eqn:E3. apply log_history in E3 as [E3 _].
    cbn [snd]. unfold unique_executors in *. by rewrite E3.
  - destruct (batch_rows now l d) as [E _]. unfold unique_executors. by rewrite E.
Qed.

(** *** Without losses the history tells the table *)

Lemma statement_done {A} (f : AssignmentTables -> result string (A * AssignmentTables)) d :
  (forall n, lost n = false) ->
  statement lost f d = match f d with Ok (a, d') => (Ok a, tick d') | Err e => (Err e, tick d) end.
Proof. intros Hl. unfold statement. by rewrite Hl. Qed.

Lemma step_agrees d r : (forall n, lost n = false) -> agrees d -> agrees (assignment_step d r).
Proof.
  intros Hlost Ha. destruct r as [now now' e v b notes | now e b | now l]; cbn [assignment_step].
  - unfold create_assignment, get_assignment_by_executor, select. rewrite statement_done by done.
    destruct (row_of e d) as [a|] eqn:Ee; [exact Ha|]. rewrite statement_done by done.
    destruct (insert_assignment now e v b notes (tick d)) as [[id d1]|er] eqn:E1; [|exact Ha].
    destruct (log_assignment_action _ _ _ _ _ _ _) as [u d2] eqn:E2.
    assert (u = Ok tt) as -> by (unfold log_assignment_action in E2; rewrite statement_done in E2 by done; by simplify_eq).
    apply log_history in E2 as [Er Eh]. specialize (Eh eq_refl). intros e'. cbn [snd]. rewrite Eh.
    unfold row_of. rewrite Er. change (ea_validator_hotkey <$> row_of e' d1 = <[e := v]> (replay (assignment_history d1)) !! e').
    rewrite (row_of_insert _ _ _ _ _ _ _ _ e' E1).
    replace (assignment_history d1) with (assignment_history d)
      by (unfold insert_assignment in E1; destruct (row_of e (tick d)); by simplify_eq).
    destruct (String.eqb_spec e e') as [<- | Hne]; [by rewrite lookup_insert_eq|].
    rewrite lookup_insert_ne by done. apply Ha.
  - unfold delete_assignment. rewrite statement_done by done.
    destruct (delete_rows e d) as [[n d1]|er] eqn:E1; [|exact Ha].
    assert (Eh1 : assignment_history d1 = assignment_history d) by (by unfold delete_rows in E1; simplify_eq).
    destruct n as [|n]; cbn [snd].
    { intros e'. cbn [assignment_history tick]. rewrite Eh1, <- Ha. change (row_of e' (tick d1)) with (row_of e' d1).
      rewrite (row_of_delete _ _ _ _ e' E1). destruct (String.eqb_spec e e') as [<- | _]; [|done].
      by rewrite (delete_rows_none _ _ _ E1). }
    destruct (log_assignment_action _ _ _ _ _ _ _) as [u d2] eqn:E2.
    assert (u = Ok tt) as -> by (unfold log_assignment_action in E2; rewrite statement_done in E2 by done; by simplify_eq).
    apply log_history in E2 as [Er Eh]. specialize (Eh eq_refl). intros e'. cbn [snd]. rewrite Eh.
    unfold row_of. rewrite Er. change (ea_validator_hotkey <$> row_of e' d1 = delete e (replay (assignment_history d1)) !! e').
    rewrite (row_of_delete _ _ _ _ e' E1), Eh1.
    destruct (String.eqb_spec e e') as [<- | Hne]; [by rewrite lookup_delete_eq|].
    rewrite lookup_delete_ne by done. apply Ha.
  - destruct (batch_rows now l d) as [E Eh]. intros e. unfold row_of. rewrite E, Eh. apply Ha.
Qed.
End History.

(** C9: An executor is assigned to at most one validator, after any sequence of requests and
    whatever statements are lost; and when none is lost the assignments are exactly what
    replaying the history says. *)
Theorem assignments_replay_history lost requests :
  let d := fold_left (assignment_step lost) requests empty_tables in
  NoDup (ea_executor_id <$> executor_assignments d) /\
  ((forall n, lost n = false) ->
   forall e, ea_validator_hotkey <$> row_of e d = replay (assignment_history d) !! e).
Proof.
  cbn zeta. rewrite <- (rev_involutive requests). induction (rev requests) as [|r l IH].
  { split; [apply NoDup_nil_2|]. intros _ e. done. }
  cbn [rev]. rewrite fold_left_app. cbn [fold_left]. destruct IH as [Hu Ha]. split.
  - by apply step_unique.
  - intros Hl. apply (step_agrees lost); [done | exact (Ha Hl)].
Qed.

(** ** Concrete runs *)

Module AssignmentScenario.

Definition stake (h : string) (percent : Z) : ValidatorStake := {|
  st_validator_hotkey := h; st_stake_amount := f64_of_Z percent;
  st_percentage_of_total := f64_of_Z percent; st_last_updated := 0 |}.

Definition suggester : AssignmentSuggester := AssignmentSuggester_new (f64_lit 1 5).

(** Five validators with a fifth of the stake each and two executors: one executor is
    enough for a coverage of 20%, and nobody lacks more than half an executor. *)
Example few_executors_panic :
  suggest_assignments false suggester ["executor-1"; "executor-2"]
    [stake "v1" 20; stake "v2" 20; stake "v3" 20; stake "v4" 20; stake "v5" 20] [] = None.
Proof. vm_compute. reflexivity. Qed.

Definition two_stakes : list ValidatorStake := [stake "v1" 30; stake "v2" 70].
Definition three_executors : list string := ["executor-1"; "executor-2"; "executor-3"].

(** A lost history entry leaves an assignment that the history does not know. *)
Example lost_history_entry :
  let d := assignment_step (fun n => (n =? 2)%nat) empty_tables (Assign 0 0 "e" "v" "admin" None) in
  ea_validator_hotkey <$> row_of "e" d = Some "v" /\ replay (assignment_history d) !! "e" = None.
Proof. vm_compute. split; reflexivity. Qed.

(** Stakes of validators that are gone stay: the percentages add up to 200. *)
Example stale_stakes :
  let update l d := (update_validator_stakes (fun _ => false) 0 f64_zero (Ok l) d).2 in
  let d := update [{| ns_hotkey := "b"; ns_stake := 5 |}] (update [{| ns_hotkey := "a"; ns_stake := 7 |}] empty_tables) in
  f64_sum (st_percentage_of_total <$> stake_rows d) = f64_of_Z 200.
Proof. vm_compute. reflexivity. Qed.
End AssignmentScenario.
Import AssignmentScenario.

Lemma suggestions_witness :
  exists l, suggest_assignments false suggester three_executors two_stakes [] = Some (Ok l) /\
    (sa_executor_id <$> l) ≡ₚ unassigned three_executors [].
Proof.
  assert (Hsort : sort_desc st_percentage_of_total two_stakes = Some [stake "v2" 70; stake "v1" 30])
    by (vm_compute; reflexivity).
  assert (Hp : printable false three_executors two_stakes) by (intros Hd; discriminate Hd).
  assert (Hs : exists l, suggest_assignments false suggester three_executors two_stakes [] = Some (Ok l))
    by (eexists; vm_compute; reflexivity).
  destruct Hs as [l Hl]. exists l. split; [exact Hl|].
  exact (proj1 (proj1 (suggestions_complete_or_panic false suggester three_executors two_stakes [] _ Hsort Hp
    ltac:(discriminate) ltac:(discriminate)) l Hl)).
Defined.
