(* ===== verification/VRentalTypes.v ===== *)
(** * Validator rentals: data and effects

    basilica-validator: rental/types.rs, the part of api/types.rs the rentals carry, the
    [rentals] table of persistence/simple_persistence.rs, and the effects of the rental code.

    A program is a tree of effects: a remote command, a message to the miner, a statement on
    the database, a question to the operating system, each followed by what the program does
    with the answer.  The tree lets programs run alone or interleaved at their effects, which
    are where the asynchronous code yields.  Statements act on the table or fail without
    effect; every other answer comes from an environment.  What the rentals only read from
    other tables (executor details, miners) is also answered by the environment. *)

From stdpp Require Import base gmap strings list.
From Stdlib Require Import Ascii ZArith.
From S2P Require Import Prelude.
From S2P Require Import Bytes.
From S2P Require Import Float64.
From S2P Require Import Collections.
Local Open Scope Z_scope.

(** ** rental/types.rs *)

Record PortMapping := {
  container_port : Z;
  host_port : Z;
  protocol : string
}.

Record ResourceRequirements := {
  cpu_cores : f64;
  memory_mb : Z;
  storage_mb : Z;
  gpu_count : Z;
  gpu_types : list string
}.

Record VolumeMount := {
  host_path : string;
  container_path : string;
  read_only : bool
}.

Record NetworkConfig := {
  net_mode : string;
  net_dns : list string;
  extra_hosts : gmap string string
}.

Record ContainerSpec := {
  image : string;
  environment : gmap string string;
  ports : list PortMapping;
  resources : ResourceRequirements;
  entrypoint : list string;
  command : list string;
  volumes : list VolumeMount;
  labels : gmap string string;
  capabilities : list string;
  network : NetworkConfig
}.

Record RentalRequest := {
  rq_validator_hotkey : string;
  rq_miner_id : string;
  rq_executor_id : string;
  rq_container_spec : ContainerSpec;
  rq_ssh_public_key : string;
  rq_metadata : gmap string string
}.

Record ContainerInfo := {
  ci_container_id : string;
  ci_container_name : string;
  ci_mapped_ports : list PortMapping;
  ci_status : string;
  ci_labels : gmap string string
}.

Record RentalResponse := {
  rp_rental_id : string;
  rp_ssh_credentials : option string;
  rp_container_info : ContainerInfo
}.

Inductive RentalState := Provisioning | Active | Stopping | Stopped | Failed.

#[export] Instance VRentalState_eq_dec : EqDecision RentalState.
Proof. solve_decision. Defined.

Record GpuSpec := { gpu_name : string; gpu_memory_gb : Z; compute_capability : string }.
Record CpuSpec := { cores : Z; cpu_model : string; cpu_memory_gb : Z }.

Record NetworkSpeedInfo := {
  download_mbps : option f64;
  upload_mbps : option f64;
  test_timestamp : option Z
}.

Record ExecutorDetails := {
  ed_id : string;
  gpu_specs : list GpuSpec;
  cpu_specs : CpuSpec;
  location : option string;
  network_speed : option NetworkSpeedInfo
}.

Record RentalInfo := {
  rental_id : string;
  validator_hotkey : string;
  executor_id : string;
  container_id : string;
  ssh_session_id : string;
  ssh_credentials : string;
  state : RentalState;
  created_at : Z;
  container_spec : ContainerSpec;
  miner_id : string;
  executor_details : ExecutorDetails
}.

Record ContainerStatus := {
  cs_container_id : string;
  cs_state : string;
  exit_code : option Z;
  health : string;
  started_at : option Z;
  finished_at : option Z
}.

Record GpuUsage := {
  gpu_index : Z;
  utilization_percent : f64;
  gu_memory_mb : Z;
  temperature_celsius : f64
}.

Record ResourceUsage := {
  cpu_percent : f64;
  ru_memory_mb : Z;
  disk_read_bytes : Z;
  disk_write_bytes : Z;
  network_rx_bytes : Z;
  network_tx_bytes : Z;
  gpu_usage : list GpuUsage
}.

Record RentalStatus := {
  rs_rental_id : string;
  rs_state : RentalState;
  container_status : ContainerStatus;
  rs_created_at : Z;
  resource_usage : ResourceUsage
}.

Record LogEntry := {
  le_timestamp : Z;
  le_stream : string;
  le_message : string;
  le_container_id : string
}.

(** ** Messages to the miner *)

Record InitiateSshSessionRequest := {
  iq_validator_hotkey : string;
  iq_executor_id : string;
  iq_purpose : string;
  iq_validator_public_key : string;
  iq_session_duration_secs : Z;
  iq_session_metadata : json;
  iq_rental_mode : bool;
  iq_rental_id : string
}.

Record InitiateSshSessionResponse := { session_id : string; access_credentials : string }.

Record CloseSshSessionRequest := {
  cq_session_id : string;
  cq_validator_hotkey : string;
  cq_reason : string
}.

Record CloseSshSessionResponse := { close_success : bool; close_message : string }.

(** What the rentals read of a row of [miners]. *)
Record MinerData := { miner_hotkey : string; miner_endpoint : string }.

(** ** The [rentals] table, keyed by [id] *)

(** The specification is kept as the text serde_json makes of it; timestamps are written by
    [to_rfc3339] and read back unchanged, so they are instants. *)
Record RentalRow := {
  row_validator_hotkey : string;
  row_executor_id : string;
  row_container_id : string;
  row_ssh_session_id : string;
  row_ssh_credentials : string;
  row_state : string;
  row_created_at : Z;
  row_container_spec : string;
  row_miner_id : string
}.

Record RentalFilter := {
  by_rental_id : option string;
  by_validator_hotkey : option string;
  exclude_states : option (list RentalState);
  order_by_created_desc : bool
}.

(** ** Effects *)

(** How a process ended. *)
Record Output := { success : bool; stdout : list Z; stderr : list Z }.

Inductive effect : Type -> Type :=
  | NewUuid : effect string
  | UtcNow : effect Z
  | Ssh (argv : list string) : effect (option Output)           (* None: not started *)
  | SpawnSsh (argv : list string) : effect bool
  | Canonicalize (path : string) : effect (option string)
  | TimerFired : effect bool
  | OpenSession (r : InitiateSshSessionRequest) : effect (result string InitiateSshSessionResponse)
  | CloseSession (r : CloseSshSessionRequest) : effect (result string CloseSshSessionResponse)
  | ConnectMiner (endpoint hotkey : string) : effect (result string unit)
  | SelectRentals (f : RentalFilter) : effect (result string (list (string * RentalRow)))
  | UpsertRental (id : string) (r : RentalRow) : effect (result string unit)
  | RemoveRental (id : string) : effect (result string unit)
  | SelectExecutorDetails (executor miner : string) : effect (result string (option ExecutorDetails))
  | SelectMiner (id : string) : effect (result string (option MinerData))
  | SelectMinerId (executor : string) : effect (result string string)
  | SetRentalGauge (executor : string) (uid : Z) (gpu_type : string) (rented : bool) : effect unit
  | CountRental (uid : Z) (gpu_type : string) : effect unit.

Inductive prog (A : Type) : Type :=
  | Ret (a : A)
  | Do {X : Type} (e : effect X) (k : X -> prog A).
Arguments Ret {A} a.
Arguments Do {A X} e k.

Fixpoint bind {A B} (p : prog A) (f : A -> prog B) : prog B :=
  match p with Ret a => f a | Do e k => Do e (fun x => bind (k x) f) end.

Definition act {X} (e : effect X) : prog X := Do e Ret.

(** [?] on a result that is already there, and on the answer of a program. *)
Definition bindr {A B E} (p : prog (result E A)) (f : A -> prog (result E B)) : prog (result E B) :=
  bind p (fun r => match r with Ok a => f a | Err e => Ret (Err e) end).

Declare Scope prog_scope.
Delimit Scope prog_scope with prog.
Notation "'let*' x ':=' p 'in' q" := (bind p (fun x => q))
  (at level 200, x name, p at level 100, q at level 200) : prog_scope.
Notation "'let?' x ':=' p 'in' q" := (bindr p (fun x => q))
  (at level 200, x name, p at level 100, q at level 200) : prog_scope.

(** [.context(message)] on an error. *)
Definition context {A} (message : string) (r : result string A) : result string A :=
  match r with Ok a => Ok a | Err _ => Err message end.

(** [.map_err(f)]. *)
Definition map_err {A E F} (f : E -> F) (r : result E A) : result F A :=
  match r with Ok a => Ok a | Err e => Err (f e) end.

(** [tokio::time::timeout]: the timer may fire while any answer is awaited, and the rest of
    the program is dropped. *)
Fixpoint timeout {A} (p : prog A) : prog (option A) :=
  match p with
  | Ret a => Ret (Some a)
  | Do e k => Do e (fun x => Do TimerFired (fun fired => if fired then Ret None else timeout (k x)))
  end.

(** ** Libraries *)

(** Code outside the repository: serde_json on the values that are stored and received,
    chrono's timestamp parser, the image references of oci_client, and the tables of
    alphanumeric and alphabetic characters beyond ASCII. *)
Class Libraries := {
  spec_to_json : ContainerSpec -> result string string;
  spec_of_json : string -> option ContainerSpec;
  strings_to_json : list string -> option string;
  json_of_text : string -> option json;
  parse_from_rfc3339 : string -> option Z;
  parse_reference : string -> bool;
  unicode_alphanumeric : string -> bool;
  unicode_alphabetic : string -> bool
}.

(** ** Interpretation *)

(** The table, the gauges of rented executors, and a trace of what was asked from the
    outside, latest first. *)
Inductive event : Type :=
  | Event {X : Type} (e : effect X) (x : X).

Record RentalWorld := {
  table : gmap string RentalRow;
  gauges : gmap (string * Z * string) bool;
  trace : list event
}.

Record RentalEnv := {
  statement_fails : nat -> bool;
  answer : forall {X}, nat -> effect X -> X
}.

Definition set_table (w : RentalWorld) t : RentalWorld :=
  {| table := t; gauges := gauges w; trace := trace w |}.
Definition record_event (w : RentalWorld) v : RentalWorld :=
  {| table := table w; gauges := gauges w; trace := v :: trace w |}.

Definition state_text (s : RentalState) : string :=
  match s with
  | Provisioning => "provisioning" | Active => "active" | Stopping => "stopping"
  | Stopped => "stopped" | Failed => "failed"
  end.

(** The WHERE clause. *)
Definition matches_filter (f : RentalFilter) (id : string) (r : RentalRow) : bool :=
  (match by_rental_id f with Some i => String.eqb id i | None => true end) &&
  (match by_validator_hotkey f with Some h => String.eqb (row_validator_hotkey r) h | None => true end) &&
  (match exclude_states f with
   | Some l => negb (existsb (fun s => String.eqb (row_state r) (state_text s)) l)
   | None => true
   end).

(** [ON CONFLICT(id) DO UPDATE]: the columns that are not listed keep their values. *)
Definition upsert (id : string) (r : RentalRow) (t : gmap string RentalRow) : gmap string RentalRow :=
  match t !! id with
  | None => <[id := r]> t
  | Some old => <[id := {|
      row_validator_hotkey := row_validator_hotkey old; row_executor_id := row_executor_id old;
      row_container_id := row_container_id r; row_ssh_session_id := row_ssh_session_id r;
      row_ssh_credentials := row_ssh_credentials r; row_state := row_state r;
      row_created_at := row_created_at old; row_container_spec := row_container_spec old;
      row_miner_id := row_miner_id r |}]> t
  end.

Section Interpretation.
Context `{HashOrder} (env : RentalEnv).

Definition select_rows (n : nat) (f : RentalFilter) (t : gmap string RentalRow)
    : list (string * RentalRow) :=
  let rows := List.filter (fun '(id, r) => matches_filter f id r) (iter n "SELECT * FROM rentals" t) in
  if order_by_created_desc f then
    sort_by (fun a b => row_created_at b.2 <=? row_created_at a.2) rows
  else rows.

Definition statement {X} (w : RentalWorld) (r : X) (t : gmap string RentalRow)
    : result string X * RentalWorld :=
  if statement_fails env (length (trace w)) then (Err "database error", w) else (Ok r, set_table w t).

(** One effect: its answer and the world after it. *)
Definition perform (w : RentalWorld) {X} (e : effect X) : X * RentalWorld :=
  let '(x, w') :=
    match e in effect Y return Y * RentalWorld with
    | SelectRentals f => statement w (select_rows (length (trace w)) f (table w)) (table w)
    | UpsertRental id r => statement w tt (upsert id r (table w))
    | RemoveRental id => statement w tt (delete id (table w))
    | SetRentalGauge ex uid g b =>
        (tt, {| table := table w; gauges := <[(ex, uid, g) := b]> (gauges w); trace := trace w |})
    | e => (answer env (length (trace w)) e, w)
    end in
  (x, record_event w' (Event e x)).

(** A program alone, without interruption. *)
Fixpoint run {A} (p : prog A) (w : RentalWorld) : A * RentalWorld :=
  match p with
  | Ret a => (a, w)
  | Do e k => let '(x, w') := perform w e in run (k x) w'
  end.
End Interpretation.

(** ** Programs and their runs *)

Section Laws.
Context `{HashOrder} (env : RentalEnv).

Lemma run_bind {A B} (p : prog A) (f : A -> prog B) w :
  run env (bind p f) w = let '(a, w') := run env p w in run env (f a) w'.
Proof.
  revert w. induction p as [a|X e k IH]; intros w; [done|]. cbn [bind run].
  destruct (perform env w e). apply IH.
Qed.

Lemma run_bindr {A B E} (p : prog (result E A)) (f : A -> prog (result E B)) w :
  run env (bindr p f) w =
    match run env p w with (Ok a, w') => run env (f a) w' | (Err e, w') => (Err e, w') end.
Proof. unfold bindr. rewrite run_bind. by destruct (run env p w) as [[a|e] w']. Qed.

(** Only two effects change the table. *)
Lemma table_perform {X} (e : effect X) w x w' :
  perform env w e = (x, w') ->
  match e with UpsertRental _ _ | RemoveRental _ => True | _ => table w' = table w end.
Proof.
  unfold perform, statement. intros E. destruct e; try done; try (by injection E as <- <-).
  destruct (statement_fails env _); by injection E as <- <-.
Qed.
End Laws.
