(* ===== verification/ContainerClient.v ===== *)
(** * The container client

    basilica-validator: rental/container_client.rs, docker commands that are run on the
    executor through the [ssh] program.  Paths are their texts; texts are compared and
    trimmed as ASCII, characters beyond ASCII are classified by the library's tables. *)

From stdpp Require Import base gmap strings list.
From Stdlib Require Import Ascii ZArith.
From Stdlib.Floats Require Import SpecFloat.
From S2P Require Import Prelude.
From S2P Require Import Bytes.
From S2P Require Import Text.
From S2P Require Import Float64.
From S2P Require Import TextOps.
From S2P Require Import Collections.
From S2P Require Import VRentalTypes.
Local Open Scope Z_scope.
Local Open Scope prog_scope.

Record ContainerClient := {
  ssh_connection : string;
  ssh_private_key_path : option string;
  strict_host_key_checking : bool;
  known_hosts_file : option string;
  ssh_log_level : option string
}.

Definition ContainerClient_new (connection : string) (key_path : option string) : ContainerClient := {|
  ssh_connection := connection; ssh_private_key_path := key_path;
  strict_host_key_checking := false; known_hosts_file := None; ssh_log_level := Some "ERROR" |}.

Definition with_ssh_config (connection : string) (key_path : option string) (strict : bool)
    (known_hosts log_level : option string) : ContainerClient := {|
  ssh_connection := connection; ssh_private_key_path := key_path;
  strict_host_key_checking := strict; known_hosts_file := known_hosts; ssh_log_level := log_level |}.

Definition set_ssh_log_level (log_level : option string) (c : ContainerClient) : ContainerClient := {|
  ssh_connection := ssh_connection c; ssh_private_key_path := ssh_private_key_path c;
  strict_host_key_checking := strict_host_key_checking c; known_hosts_file := known_hosts_file c;
  ssh_log_level := log_level |}.

(** ** Running commands *)

Definition parse_ssh_connection (connection : string) : string * option Z :=
  match rsplit_once "@" connection with
  | Some (user, host_port) =>
      match rsplit_once ":" host_port with
      | Some (host, port_str) =>
          match parse_u16 port_str with
          | Some port_num => (user +:+ "@" +:+ host, Some port_num)
          | None => (connection, None)
          end
      | None => (connection, None)
      end
  | None => (connection, None)
  end.

Definition host_key_options (c : ContainerClient) : list string :=
  if strict_host_key_checking c then
    ["-o"; "StrictHostKeyChecking=yes"] ++
    match known_hosts_file c with
    | Some known_hosts => ["-o"; "UserKnownHostsFile=" +:+ known_hosts]
    | None => []
    end
  else ["-o"; "StrictHostKeyChecking=no"; "-o"; "UserKnownHostsFile=/dev/null"].

(** The options after those on host keys, up to the command. *)
Definition connection_options (c : ContainerClient) : list string :=
  ["-o"; "BatchMode=yes"] ++
  match ssh_log_level c with Some level => ["-o"; "LogLevel=" +:+ level] | None => [] end ++
  match ssh_private_key_path c with Some path => ["-i"; path] | None => [] end ++
  let '(connection_str, port) := parse_ssh_connection (ssh_connection c) in
  match port with Some p => ["-p"; show_int p] | None => [] end ++ [connection_str].

Definition ssh_argv (c : ContainerClient) (cmd : string) : list string :=
  host_key_options c ++ ["-o"; "ConnectTimeout=10"] ++ connection_options c ++ [cmd].

Definition execute_ssh_command (c : ContainerClient) (cmd : string) : prog (result string string) :=
  let* output := act (Ssh (ssh_argv c cmd)) in
  Ret match output with
      | None => Err "Failed to execute SSH command"
      | Some o =>
          if success o then Ok (from_utf8_lossy (stdout o))
          else Err ("SSH command failed: " +:+ from_utf8_lossy (stderr o))
      end.

(** [self.execute_ssh_command(cmd).await.context(message)?] *)
Definition ssh (c : ContainerClient) (cmd message : string) : prog (result string string) :=
  let* r := execute_ssh_command c cmd in Ret (context message r).

Section Client.
Context `{Libraries} `{HashOrder}.

(** ** Identifiers *)

Definition ascii_alphabetic (c : ascii) : bool :=
  let n := nat_of_ascii c in
  ((65 <=? n)%nat && (n <=? 90)%nat) || ((97 <=? n)%nat && (n <=? 122)%nat).

(** A character beyond ASCII has only bytes from 128 on. *)
Definition beyond_ascii (c : string) : bool := all_bytes (fun a => 128 <=? char_byte a) c.

(** [char::is_alphanumeric] and [char::is_alphabetic]. *)
Definition is_alphanumeric (c : string) : bool :=
  if beyond_ascii c then unicode_alphanumeric c
  else match c with String a EmptyString => ascii_alphabetic a || is_digit a | _ => false end.
Definition is_alphabetic (c : string) : bool :=
  if beyond_ascii c then unicode_alphabetic c
  else match c with String a EmptyString => ascii_alphabetic a | _ => false end.

Definition validate_container_id (id : string) : result string string :=
  match id with
  | EmptyString => Err "Container ID cannot be empty"
  | _ =>
      if negb (forallb is_alphanumeric (chars id)) then Err "Invalid container ID format"
      else if (64 <? String.length id)%nat then Err "Container ID too long"
      else Ok id
  end.

Definition sanitize_rental_id (rental_id : string) : string :=
  concat_str (take 32 (List.filter (fun c => is_alphanumeric c || String.eqb c "-") (chars rental_id))).

(** ** Deploying *)

Definition container_name_of (rental_id : string) : string :=
  "basilica-rental-" +:+ sanitize_rental_id rental_id.

Definition docker_cmd_parts (spec : ContainerSpec) (rental_id : string) : list string :=
  ["docker"; "run"; "-d"] ++
  match command spec with ["/bin/bash"] => ["-it"] | _ => [] end ++
  ["--name"; container_name_of rental_id;
   "--label"; "basilica.rental_id=" +:+ sanitize_rental_id rental_id].

Definition pairs_of (flag sep : string) (l : list (string * string)) : list string :=
  l ≫= (fun '(k, v) => [flag; k +:+ sep +:+ v]).

Definition port_strings (l : list PortMapping) : list string :=
  l ≫= (fun p =>
    ["-p"; show_int (host_port p) +:+ ":" +:+ show_int (container_port p) +:+
           (if String.eqb (to_lowercase (protocol p)) "udp" then "/udp" else "")]).

Definition resource_strings (r : ResourceRequirements) : list string :=
  (if f64_ltb f64_zero (cpu_cores r) then ["--cpus"; show_f64 (cpu_cores r)] else []) ++
  (if 0 <? memory_mb r then ["-m"; show_int (memory_mb r) +:+ "m"] else []) ++
  ["--gpus"; "all"; "--runtime"; "nvidia"].

Definition volume_strings (l : list VolumeMount) : list string :=
  l ≫= (fun v =>
    ["-v"; host_path v +:+ ":" +:+ container_path v +:+ (if read_only v then ":ro" else "")]).

Definition network_strings (n : NetworkConfig) : list string :=
  match net_mode n with EmptyString => [] | mode => ["--network"; mode] end.

(** All options between the fixed head of the command and the entry point; a map is visited
    in an order of its own. *)
Definition option_strings (spec : ContainerSpec) (rental_id : string) : list string :=
  pairs_of "--label" "=" (iter 0 ("labels of " +:+ rental_id) (labels spec)) ++
  pairs_of "-e" "=" (iter 0 ("environment of " +:+ rental_id) (environment spec)) ++
  port_strings (ports spec) ++
  resource_strings (resources spec) ++
  volume_strings (volumes spec) ++
  (capabilities spec ≫= (fun cap => ["--cap-add"; cap])) ++
  network_strings (network spec) ++
  (net_dns (network spec) ≫= (fun dns => ["--dns"; dns])) ++
  pairs_of "--add-host" ":" (iter 0 ("extra hosts of " +:+ rental_id) (extra_hosts (network spec))).

(** [for s in &strings { final_cmd.push(' '); final_cmd.push_str(s) }] *)
Definition push_all (l : list string) (cmd : string) : string :=
  fold_left (fun cmd s => cmd +:+ " " +:+ s) l cmd.

Definition entrypoint_string (spec : ContainerSpec) : string :=
  match entrypoint spec with
  | [] => ""
  | [e] => " --entrypoint " +:+ e
  | l => " --entrypoint " +:+ default (join " " l) (strings_to_json l)
  end.

Definition docker_run (spec : ContainerSpec) (rental_id : string) : string :=
  let final_cmd := push_all (option_strings spec rental_id)
                     (join " " (docker_cmd_parts spec rental_id)) in
  push_all (command spec) (final_cmd +:+ entrypoint_string spec +:+ " " +:+ image spec).

(** [value[key]]: [Null] where there is no such entry. *)
Definition json_index (k : string) (v : json) : json := default JNull (json_get k v).

Definition parse_u32 : string -> option Z := parse_int 0 (2 ^ 32 - 1).

Definition binding_port (container_port_proto : string) (binding : json) : list PortMapping :=
  match json_as_str (json_index "HostPort" binding) with
  | Some host =>
      let parts := split_char "/" container_port_proto in
      [{| container_port := default 0 (head parts ≫= parse_u32);
          host_port := default 0 (parse_u32 host);
          protocol := default "tcp" (parts !! 1%nat) |}]
  | None => []
  end.

Definition mapped_ports_of (container : json) : list PortMapping :=
  match json_index "Ports" (json_index "NetworkSettings" container) with
  | JObject fields =>
      fields ≫= (fun '(port_proto, bindings) =>
        match bindings with
        | JArray l => l ≫= binding_port port_proto
        | _ => []
        end)
  | _ => []
  end.

(** [serde_json::from_str::<Vec<Value>>]. *)
Definition inspect_data_of (text : string) : option (list json) :=
  match json_of_text text with Some (JArray l) => Some l | _ => None end.

Definition ContainerClient_deploy_container (c : ContainerClient) (spec : ContainerSpec) (rental_id : string)
    : prog (result string ContainerInfo) :=
  let? created := ssh c (docker_run spec rental_id) "Failed to create container" in
  let id := trim created in
  let? valid := Ret (validate_container_id id) in
  let? inspected := ssh c ("docker inspect " +:+ valid) "Failed to inspect container" in
  Ret match inspect_data_of inspected with
      | None => Err "Failed to parse container inspect data"
      | Some [] => Err "Container not found after creation"
      | Some (container :: _) =>
          Ok {| ci_container_id := id; ci_container_name := container_name_of rental_id;
                ci_mapped_ports := mapped_ports_of container; ci_status := "running";
                ci_labels := labels spec |}
      end.

(** ** Status *)

Definition json_as_i64 (v : json) : option Z :=
  match v with
  | JPosInt n => if n <? 2 ^ 63 then Some n else None
  | JNegInt n => Some n
  | _ => None
  end.

Definition status_of (id : string) (container : json) : ContainerStatus :=
  let st := json_index "State" container in
  {| cs_container_id := id;
     cs_state := default "unknown" (json_as_str (json_index "Status" st));
     exit_code := wrap_signed 32 <$> json_as_i64 (json_index "ExitCode" st);
     health := default "none" (json_as_str (json_index "Status" (json_index "Health" st)));
     started_at := json_as_str (json_index "StartedAt" st) ≫= parse_from_rfc3339;
     finished_at := json_as_str (json_index "FinishedAt" st) ≫= parse_from_rfc3339 |}.

Definition get_container_status (c : ContainerClient) (id : string)
    : prog (result string ContainerStatus) :=
  let? valid := Ret (validate_container_id id) in
  let? output := ssh c ("docker inspect " +:+ valid) "Failed to inspect container" in
  Ret match inspect_data_of output with
      | None => Err "invalid JSON"
      | Some [] => Err "Container not found"
      | Some (container :: _) => Ok (status_of id container)
      end.

(** [x as i64]. *)
Definition f64_to_i64 (x : f64) : Z :=
  match x with
  | S754_finite true m e => Z.max (- trunc_mag m e) (- 2 ^ 63)
  | S754_infinity true => - 2 ^ 63
  | _ => f64_to_uint (2 ^ 63 - 1) x
  end.

(** The characters before the first one that satisfies [f], and those from it on. *)
Fixpoint break_chars (f : string -> bool) (l : list string) : string * string :=
  match l with
  | [] => (EmptyString, EmptyString)
  | c :: l' =>
      if f c then (EmptyString, concat_str l)
      else let '(a, b) := break_chars f l' in (c +:+ a, b)
  end.

Definition size_multiplier (unit : string) : Z :=
  match to_uppercase unit with
  | "B" => 1
  | "KB" | "KIB" => 1024
  | "MB" | "MIB" => 1024 * 1024
  | "GB" | "GIB" => 1024 * 1024 * 1024
  | _ => 1
  end.

Definition parse_size_string (size_str : string) : Z :=
  let '(num_str, unit) := break_chars is_alphabetic (chars (trim size_str)) in
  f64_to_i64 (f64_mul (default f64_zero (parse_f64 num_str)) (f64_of_Z (size_multiplier unit))).

Definition parse_memory_usage (mem_usage : string) : Z :=
  match split_str " / " mem_usage with
  | [] => 0
  | used :: _ => parse_size_string (trim used)
  end.

Definition parse_network_io (net_io : string) : Z * Z :=
  match split_str " / " net_io with
  | [rx; tx] => (parse_size_string (trim rx), parse_size_string (trim tx))
  | _ => (0, 0)
  end.

Definition parse_block_io (block_io : string) : Z * Z := parse_network_io block_io.

Definition usage_of (stats : json) : ResourceUsage :=
  let field k d := default d (json_as_str (json_index k stats)) in
  let '(rx, tx) := parse_network_io (field "NetIO" "0B / 0B") in
  let '(rd, wr) := parse_block_io (field "BlockIO" "0B / 0B") in
  {| cpu_percent := default f64_zero
       (json_as_str (json_index "CPUPerc" stats) ≫= (fun s => parse_f64 (trim_end_char "%" s)));
     ru_memory_mb := parse_memory_usage (field "MemUsage" "0MiB / 0MiB");
     disk_read_bytes := rd; disk_write_bytes := wr; network_rx_bytes := rx; network_tx_bytes := tx;
     gpu_usage := [] |}.

Definition get_resource_usage (c : ContainerClient) (id : string) : prog (result string ResourceUsage) :=
  let? valid := Ret (validate_container_id id) in
  let? output := ssh c ("docker stats " +:+ valid +:+ " --no-stream --format json")
                   "Failed to get container stats" in
  Ret match json_of_text output with
      | Some stats => Ok (usage_of stats)
      | None => Err "invalid JSON"
      end.

(** ** Stopping, removing, logs *)

Definition ContainerClient_stop_container (c : ContainerClient) (id : string) (force : bool)
    : prog (result string unit) :=
  let? valid := Ret (validate_container_id id) in
  let? _ := ssh c ((if force then "docker kill " else "docker stop ") +:+ valid)
              "Failed to stop container" in
  Ret (Ok tt).

Definition remove_container (c : ContainerClient) (id : string) : prog (result string unit) :=
  let? valid := Ret (validate_container_id id) in
  let? _ := ssh c ("docker rm -f " +:+ valid) "Failed to remove container" in
  Ret (Ok tt).

Definition logs_command (id : string) (follow : bool) (tail_lines : option Z) : string :=
  join " " (["docker"; "logs"] ++ (if follow then ["-f"] else []) ++
            match tail_lines with Some n => ["--tail"; show_int n] | None => [] end ++
            ["--timestamps"; id]).

Definition ContainerClient_stream_logs (c : ContainerClient) (id : string) (follow : bool)
    (tail_lines : option Z) : prog (result string unit) :=
  let? valid := Ret (validate_container_id id) in
  let* started := act (SpawnSsh (host_key_options c ++ connection_options c ++
                                 [logs_command valid follow tail_lines])) in
  Ret (if started : bool then Ok tt else Err "Failed to start log streaming").
End Client.
