(* ===== verification/Deployment.v ===== *)
(** * Deployments

    basilica-validator: rental/deployment.rs, the policy a container specification has to
    meet, its hardening, and the steps of a deployment; validate_docker_image of
    basilica-common/src/utils/docker_validation.rs. *)

From stdpp Require Import base gmap strings list.
From Stdlib Require Import Ascii ZArith.
From S2P Require Import Prelude.
From S2P Require Import Text.
From S2P Require Import Float64.
From S2P Require Import TextOps.
From S2P Require Import Collections.
From S2P Require Import VRentalTypes.
From S2P Require Import ContainerClient.
Local Open Scope Z_scope.
Local Open Scope prog_scope.

(** ** Configuration *)

Record DefaultResourceLimits := {
  max_cpu_cores : f64;
  max_memory_mb : Z;
  max_storage_mb : Z;
  max_gpu_count : Z
}.

Record NetworkPolicies := {
  allowed_network_modes : list string;
  blocked_ports : list Z;
  require_network_isolation : bool
}.

Record DeploymentConfig := {
  allowed_registries : list string;
  blocked_images : list string;
  default_resource_limits : DefaultResourceLimits;
  network_policies : NetworkPolicies
}.

Definition DeploymentConfig_default : DeploymentConfig := {|
  allowed_registries := ["docker.io"; "gcr.io"; "ghcr.io"];
  blocked_images := ["alpine/socat"; "nicolaka/netshoot"];
  default_resource_limits :=
    {| max_cpu_cores := f64_zero; max_memory_mb := 0; max_storage_mb := 0; max_gpu_count := 0 |};
  network_policies :=
    {| allowed_network_modes := ["bridge"; "none"]; blocked_ports := [22; 111; 2049];
       require_network_isolation := false |} |}.

Section Deployment.
Context `{Libraries} `{HashOrder}.
Context (config : DeploymentConfig).

(** ** Validation *)

Definition parse_docker_image (img : string) : result string unit :=
  match img with
  | EmptyString => Err "Docker image reference cannot be empty"
  | _ =>
      if (500 <? String.length img)%nat then Err "Docker image reference is too long (max 500 characters)"
      else if parse_reference img then Ok tt
      else Err "Invalid Docker image reference"
  end.

Definition validate_docker_image (img : string) : result string unit := parse_docker_image img.

(** [c] somewhere in the text. *)
Definition contains_char (c : ascii) (s : string) : bool := contains (String c EmptyString) s.

Definition registry_of (img : string) : string :=
  if contains_char "/" img then
    let first_part := default "docker.io" (head (split_char "/" img)) in
    if contains_char "." first_part || contains_char ":" first_part || String.eqb first_part "localhost"
    then first_part else "docker.io"
  else "docker.io".

Definition mem_str (x : string) (l : list string) : bool := existsb (String.eqb x) l.

Definition validate_image (img : string) : result string unit :=
  match validate_docker_image img with
  | Err e => Err e
  | Ok _ =>
      if existsb (fun blocked => contains blocked img) (blocked_images config)
      then Err ("Image " +:+ img +:+ " is blocked")
      else
        match allowed_registries config with
        | [] => Ok tt
        | l =>
            if mem_str (registry_of img) l then Ok tt
            else Err ("Registry " +:+ registry_of img +:+ " is not allowed")
        end
  end.

(** A limit of zero is none, and a request of zero is not checked. *)
Definition exceeds (request limit : Z) : bool := (0 <? limit) && (0 <? request) && (limit <? request).
Definition exceeds_f64 (request limit : f64) : bool :=
  f64_ltb f64_zero limit && f64_ltb f64_zero request && f64_ltb limit request.

Definition validate_resources (spec : ContainerSpec) : result string unit :=
  let limits := default_resource_limits config in
  let r := resources spec in
  if exceeds_f64 (cpu_cores r) (max_cpu_cores limits)
    then Err ("CPU cores " +:+ show_f64 (cpu_cores r) +:+ " exceeds limit " +:+ show_f64 (max_cpu_cores limits))
  else if exceeds (memory_mb r) (max_memory_mb limits)
    then Err ("Memory " +:+ show_int (memory_mb r) +:+ " MB exceeds limit " +:+
      show_int (max_memory_mb limits) +:+ " MB")
  else if exceeds (storage_mb r) (max_storage_mb limits)
    then Err ("Storage " +:+ show_int (storage_mb r) +:+ " MB exceeds limit " +:+
      show_int (max_storage_mb limits) +:+ " MB")
  else if exceeds (gpu_count r) (max_gpu_count limits)
    then Err ("GPU count " +:+ show_int (gpu_count r) +:+ " exceeds limit " +:+ show_int (max_gpu_count limits))
  else Ok tt.

Definition validate_network_config (spec : ContainerSpec) : result string unit :=
  let policies := network_policies config in
  let mode := net_mode (network spec) in
  if negb (mem_str mode (allowed_network_modes policies))
  then Err ("Network mode " +:+ mode +:+ " is not allowed")
  else if String.eqb mode "host" && require_network_isolation policies
  then Err "Host network mode is not allowed"
  else Ok tt.

Definition sensitive_paths : list string :=
  ["/etc"; "/root"; "/home"; "/var/run/docker.sock"; "/proc"; "/sys"; "/dev"].

Definition starts_with (pat s : string) : bool := String.prefix pat s.

(** [std::fs::canonicalize] looks at the file system of the validator. *)
Definition validate_volume (v : VolumeMount) : prog (result string unit) :=
  let* canonical := act (Canonicalize (host_path v)) in
  let canonical_path := default (host_path v) canonical in
  Ret match List.find (fun s => starts_with s canonical_path) sensitive_paths with
      | Some s => Err ("Mounting " +:+ s +:+ " is not allowed")
      | None =>
          if negb (starts_with "/" (host_path v)) || negb (starts_with "/" (container_path v))
          then Err "Volume paths must be absolute" else Ok tt
      end.

Fixpoint validate_volumes (l : list VolumeMount) : prog (result string unit) :=
  match l with
  | [] => Ret (Ok tt)
  | v :: l' => let? _ := validate_volume v in validate_volumes l'
  end.

Definition validate_port (p : PortMapping) : result string unit :=
  if existsb (Z.eqb (host_port p)) (blocked_ports (network_policies config))
  then Err ("Port " +:+ show_int (host_port p) +:+ " is blocked")
  else if 65535 <? host_port p then Err ("Invalid host port " +:+ show_int (host_port p))
  else if (container_port p =? 0) || (65535 <? container_port p)
  then Err ("Invalid container port " +:+ show_int (container_port p))
  else if negb (String.eqb (protocol p) "tcp") && negb (String.eqb (protocol p) "udp")
  then Err ("Invalid protocol " +:+ protocol p)
  else Ok tt.

Fixpoint validate_ports (l : list PortMapping) : result string unit :=
  match l with
  | [] => Ok tt
  | p :: l' => match validate_port p with Ok _ => validate_ports l' | Err e => Err e end
  end.

Definition validate_container_spec (spec : ContainerSpec) : prog (result string unit) :=
  let? _ := Ret (validate_image (image spec)) in
  let? _ := Ret (validate_resources spec) in
  let? _ := Ret (validate_network_config spec) in
  let? _ := validate_volumes (volumes spec) in
  Ret (validate_ports (ports spec)).

(** ** Hardening *)

Definition dangerous_caps : list string :=
  ["CAP_SYS_ADMIN"; "CAP_SYS_MODULE"; "CAP_SYS_RAWIO"; "CAP_SYS_PTRACE"; "CAP_SYS_NICE";
   "CAP_SYS_RESOURCE"; "CAP_NET_ADMIN"; "CAP_NET_RAW"].

Definition apply_security_policies (spec : ContainerSpec) : ContainerSpec := {|
  image := image spec; environment := environment spec; ports := ports spec;
  resources := resources spec; entrypoint := entrypoint spec; command := command spec;
  volumes := volumes spec;
  labels := <["basilica.security.isolated" := "true"]>
              (<["io.kubernetes.cri-o.userns-mode" := "auto"]> (labels spec));
  capabilities := List.filter (fun cap => negb (mem_str cap dangerous_caps)) (capabilities spec);
  network := network spec |}.

(** ** SSH inside the container *)

Definition quote : string := String (ascii_of_nat 34) EmptyString.

(** [client.execute_ssh_command(cmd).await.unwrap_or(default).trim()] *)
Definition ssh_text (c : ContainerClient) (cmd fallback : string) : prog string :=
  let* r := execute_ssh_command c cmd in
  Ret (trim match r with Ok s => s | Err _ => fallback end).

(** A command whose failure is only logged. *)
Definition ssh_ignored (c : ContainerClient) (cmd : string) : prog unit :=
  let* _ := execute_ssh_command c cmd in Ret tt.

Definition install_command (pkg_manager id : string) : option string :=
  match pkg_manager with
  | "apt" => Some ("docker exec " +:+ id +:+ " bash -c 'apt-get update && DEBIAN_FRONTEND=noninteractive apt-get install -y openssh-server && mkdir -p /var/run/sshd'")
  | "yum" => Some ("docker exec " +:+ id +:+ " bash -c 'yum install -y openssh-server && ssh-keygen -A && mkdir -p /var/run/sshd'")
  | "apk" => Some ("docker exec " +:+ id +:+ " sh -c 'apk add --no-cache openssh-server && ssh-keygen -A && mkdir -p /var/run/sshd'")
  | _ => None
  end.

Definition install_ssh (c : ContainerClient) (id : string) : prog unit :=
  let* pkg_manager := ssh_text c ("docker exec " +:+ id +:+ " sh -c 'if command -v apt-get >/dev/null 2>&1; then echo apt; elif command -v yum >/dev/null 2>&1; then echo yum; elif command -v apk >/dev/null 2>&1; then echo apk; else echo unknown; fi'") "unknown" in
  match install_command pkg_manager id with
  | Some cmd => ssh_ignored c cmd
  | None => Ret tt
  end.

(** First with bash, then with sh; the error of the second is the result. *)
Definition with_shells (c : ContainerClient) (cmd : string -> string) : prog (result string unit) :=
  let* r := execute_ssh_command c (cmd "bash") in
  match r with
  | Ok _ => Ret (Ok tt)
  | Err _ => let? _ := execute_ssh_command c (cmd "sh") in Ret (Ok tt)
  end.

Definition mkdir_command (id shell : string) : string :=
  "docker exec " +:+ id +:+ " " +:+ shell +:+ " -c 'mkdir -p /root/.ssh && chmod 700 /root/.ssh'".

Definition add_key_command (id ssh_public_key shell : string) : string :=
  "docker exec " +:+ id +:+ " " +:+ shell +:+ " -c 'echo " +:+ quote +:+ ssh_public_key +:+ quote +:+
  " > /root/.ssh/authorized_keys && chmod 600 /root/.ssh/authorized_keys'".

Definition config_ssh_command (id : string) : string :=
  let line s := "echo " +:+ quote +:+ s +:+ quote +:+ " >> /etc/ssh/sshd_config" in
  "docker exec " +:+ id +:+ " bash -c '" +:+ line "PermitRootLogin prohibit-password" +:+ " && " +:+
  line "PubkeyAuthentication yes" +:+ " && " +:+ line "PasswordAuthentication no" +:+ "'".

(** The first way of starting the server that works. *)
Definition start_ssh (c : ContainerClient) (id : string) : prog unit :=
  let* a := execute_ssh_command c ("docker exec " +:+ id +:+ " systemctl start ssh 2>/dev/null || systemctl start sshd 2>/dev/null") in
  match a with
  | Ok _ => Ret tt
  | Err _ =>
      let* b := execute_ssh_command c ("docker exec " +:+ id +:+ " service ssh start 2>/dev/null || service sshd start 2>/dev/null") in
      match b with
      | Ok _ => Ret tt
      | Err _ => ssh_ignored c ("docker exec -d " +:+ id +:+ " /usr/sbin/sshd -D")
      end
  end.

Definition configure_container_ssh_access (c : ContainerClient) (id ssh_public_key : string)
    : prog (result string unit) :=
  let* running := ssh_text c ("docker inspect -f '{{.State.Running}}' " +:+ id) "" in
  if negb (String.eqb running "true") then Ret (Ok tt)
  else
    let* check := ssh_text c ("docker exec " +:+ id +:+ " which sshd 2>/dev/null || echo 'not_found'") "not_found" in
    let* _ := (if String.eqb check "not_found" || String.eqb check "" then install_ssh c id else Ret tt) in
    let? _ := with_shells c (mkdir_command id) in
    let? _ := with_shells c (add_key_command id ssh_public_key) in
    let* _ := ssh_ignored c (config_ssh_command id) in
    let* _ := start_ssh c id in
    Ret (Ok tt).

(** ** Deploying and stopping *)

Definition interactive (l : list string) : bool :=
  match l with [] => true | _ => existsb (fun e => contains "bash" e || contains "sh" e) l end.

Definition should_configure_ssh (spec : ContainerSpec) : bool :=
  (interactive (entrypoint spec) && interactive (command spec))
  || existsb (fun p => container_port p =? 22) (ports spec).

Definition deploy_container (c : ContainerClient) (spec : ContainerSpec) (id ssh_public_key : string)
    : prog (result string ContainerInfo) :=
  let* valid := validate_container_spec spec in
  let? _ := Ret (context "Container specification validation failed" valid) in
  let secured_spec := apply_security_policies spec in
  let* deployed := ContainerClient_deploy_container c secured_spec id in
  let? info := Ret (context "Failed to deploy container" deployed) in
  if should_configure_ssh secured_spec then
    let* _ := configure_container_ssh_access c (ci_container_id info) ssh_public_key in Ret (Ok info)
  else Ret (Ok info).

Definition force_stop (c : ContainerClient) (id : string) : prog (result string unit) :=
  let* stopped := ContainerClient_stop_container c id true in
  let? _ := Ret (context "Failed to force stop container" stopped) in
  let* removed := remove_container c id in
  Ret (context "Failed to remove container" removed).

Definition stop_container (c : ContainerClient) (id : string) (force : bool) : prog (result string unit) :=
  if force then force_stop c id
  else
    let* r := ContainerClient_stop_container c id false in
    match r with
    | Ok _ => Ret (Ok tt)
    | Err _ => force_stop c id
    end.
End Deployment.
