(* ===== verification/VRentals.v ===== *)
(** * Validator rentals: persistence, manager, health monitor, logs and routes

    basilica-validator: the rental part of persistence/simple_persistence.rs, rental/mod.rs
    (RentalManager), rental/monitoring.rs (DatabaseHealthMonitor, LogStreamer) and
    api/rental_routes.rs. *)

From stdpp Require Import base gmap strings list.
From Stdlib Require Import Ascii ZArith.
From S2P Require Import Prelude.
From S2P Require Import Text.
From S2P Require Import Float64.
From S2P Require Import TextOps.
From S2P Require Import Collections.
From S2P Require Import Categories.
From S2P Require Import VRentalTypes.
From S2P Require Import ContainerClient.
From S2P Require Import Deployment.
Local Open Scope Z_scope.
Local Open Scope prog_scope.

(** ** Small parsers *)

Definition parse_ssh_host (credentials : string) : result string string :=
  match split_once "@" credentials with
  | None => Err "Invalid SSH credentials format: missing '@' separator"
  | Some (_, host_port) =>
      match split_char ":" host_port with
      | [] | EmptyString :: _ => Err "Invalid SSH credentials format: empty host"
      | host :: _ => Ok host
      end
  end.

Definition extract_miner_uid (miner_id : string) : option Z := strip_prefix "miner_" miner_id ≫= parse_u16.

Definition get_gpu_type (d : ExecutorDetails) : string :=
  match gpu_specs d with
  | gpu :: _ => GpuCategory_to_string (GpuCategory_from_str (gpu_name gpu))
  | [] => "unknown"
  end.

Definition default_executor_details (id : string) : ExecutorDetails := {|
  ed_id := id; gpu_specs := []; cpu_specs := {| cores := 0; cpu_model := "Unknown"; cpu_memory_gb := 0 |};
  location := None; network_speed := None |}.

Section Rentals.
Context `{Libraries} `{HashOrder}.

(** ** Persistence *)

Definition parse_rental_state (text : string) : RentalState :=
  match text with
  | "provisioning" => Provisioning
  | "active" => Active
  | "stopping" => Stopping
  | "stopped" => Stopped
  | "failed" => Failed
  | _ => Failed
  end.

Definition parse_rental_row (id : string) (row : RentalRow) (details : ExecutorDetails)
    : result string RentalInfo :=
  match spec_of_json (row_container_spec row) with
  | None => Err "invalid container specification"
  | Some spec => Ok {|
      rental_id := id; validator_hotkey := row_validator_hotkey row; executor_id := row_executor_id row;
      container_id := row_container_id row; ssh_session_id := row_ssh_session_id row;
      ssh_credentials := row_ssh_credentials row; state := parse_rental_state (row_state row);
      created_at := row_created_at row; container_spec := spec; miner_id := row_miner_id row;
      executor_details := details |}
  end.

Fixpoint parse_rental_rows (rows : list (string * RentalRow)) : prog (result string (list RentalInfo)) :=
  match rows with
  | [] => Ret (Ok [])
  | (id, row) :: rest =>
      let* r := act (SelectExecutorDetails (row_executor_id row) (row_miner_id row)) in
      let details := match r with Ok (Some d) => d | _ => default_executor_details (row_executor_id row) end in
      let? rental := Ret (parse_rental_row id row details) in
      let? rentals := parse_rental_rows rest in
      Ret (Ok (rental :: rentals))
  end.

Definition query_rentals (f : RentalFilter) : prog (result string (list RentalInfo)) :=
  let? rows := act (SelectRentals f) in parse_rental_rows rows.

Definition save_rental (r : RentalInfo) : prog (result string unit) :=
  let? spec_text := Ret (spec_to_json (container_spec r)) in
  act (UpsertRental (rental_id r) {|
    row_validator_hotkey := validator_hotkey r; row_executor_id := executor_id r;
    row_container_id := container_id r; row_ssh_session_id := ssh_session_id r;
    row_ssh_credentials := ssh_credentials r; row_state := state_text (state r);
    row_created_at := created_at r; row_container_spec := spec_text; row_miner_id := miner_id r |}).

Definition load_rental (id : string) : prog (result string (option RentalInfo)) :=
  let? rentals := query_rentals {| by_rental_id := Some id; by_validator_hotkey := None;
                                   exclude_states := None; order_by_created_desc := false |} in
  Ret (Ok (last rentals)).

Definition list_validator_rentals (hotkey : string) : prog (result string (list RentalInfo)) :=
  query_rentals {| by_rental_id := None; by_validator_hotkey := Some hotkey;
                   exclude_states := None; order_by_created_desc := true |}.

Definition query_non_terminated_rentals : prog (result string (list RentalInfo)) :=
  query_rentals {| by_rental_id := None; by_validator_hotkey := None;
                   exclude_states := Some [Stopped; Failed]; order_by_created_desc := true |}.

Definition delete_rental (id : string) : prog (result string unit) := act (RemoveRental id).

(** ** The rental manager *)

(** [ssh_key_manager] with its persistent key: the public key and the path of the private
    one. *)
Record RentalManager := {
  ssh_key_manager : option (option (string * string));
  rental_session_duration : Z;
  deployment_config : DeploymentConfig
}.

Definition persistent_key (m : RentalManager) : option (string * string) := ssh_key_manager m ≫= id.

Definition create_container_client (m : RentalManager) (credentials : string) : ContainerClient :=
  ContainerClient_new credentials (snd <$> persistent_key m).

Definition with_state (s : RentalState) (r : RentalInfo) : RentalInfo := {|
  rental_id := rental_id r; validator_hotkey := validator_hotkey r; executor_id := executor_id r;
  container_id := container_id r; ssh_session_id := ssh_session_id r;
  ssh_credentials := ssh_credentials r; state := s; created_at := created_at r;
  container_spec := container_spec r; miner_id := miner_id r; executor_details := executor_details r |}.

(** [record_executor_rental_status], when the miner's UID can be read. *)
Definition record_rental_status (miner executor : string) (d : ExecutorDetails) (rented : bool)
    : prog unit :=
  match extract_miner_uid miner with
  | Some uid => act (SetRentalGauge executor uid (get_gpu_type d) rented)
  | None => Ret tt
  end.

Definition is_rented (s : RentalState) : bool :=
  match s with Active | Provisioning | Stopping => true | Stopped | Failed => false end.

Fixpoint record_rentals (rentals : list RentalInfo) : prog unit :=
  match rentals with
  | [] => Ret tt
  | r :: rest =>
      let* _ := record_rental_status (miner_id r) (executor_id r) (executor_details r) (is_rented (state r)) in
      record_rentals rest
  end.

Definition initialize_rental_metrics : prog (result string unit) :=
  let? rentals := query_non_terminated_rentals in
  let* _ := record_rentals rentals in Ret (Ok tt).

Definition initiate_rental_ssh_session (executor hotkey public_key rental : string) (duration : Z)
    : prog (result string InitiateSshSessionResponse) :=
  let* r := act (OpenSession {|
    iq_validator_hotkey := hotkey; iq_executor_id := executor; iq_purpose := "rental";
    iq_validator_public_key := public_key; iq_session_duration_secs := wrap_signed 64 duration;
    iq_session_metadata := JObject [("rental_id", JString rental); ("type", JString "container_deployment")];
    iq_rental_mode := true; iq_rental_id := rental |}) in
  Ret (map_err (fun e => "Failed to initiate SSH session: " +:+ e) r).

Definition close_session_request (id hotkey reason : string) : CloseSshSessionRequest :=
  {| cq_session_id := id; cq_validator_hotkey := hotkey; cq_reason := reason |}.

(** The end-user's credentials: root on the port that the container's port 22 is mapped to. *)
Definition user_credentials (access : string) (mapped : list PortMapping) : option string :=
  p ← List.find (fun p => container_port p =? 22) mapped;
  let host := match parse_ssh_host access with Ok h => h | Err _ => "localhost" end in
  Some ("root@" +:+ host +:+ ":" +:+ show_int (host_port p)).

Definition executor_details_for (executor miner : string) : prog (result string ExecutorDetails) :=
  let* r := act (SelectExecutorDetails executor miner) in
  Ret match r with
      | Ok (Some d) => Ok d
      | Ok None => Ok (default_executor_details executor)
      | Err e => Err ("Failed to fetch executor details: " +:+ e)
      end.

(** From the deployed container to the answer. *)
Definition register_rental (request : RentalRequest) (id : string) (s : InitiateSshSessionResponse)
    (info : ContainerInfo) : prog (result string RentalResponse) :=
  let? details := executor_details_for (rq_executor_id request) (rq_miner_id request) in
  let* now := act UtcNow in
  let rental := {|
    rental_id := id; validator_hotkey := rq_validator_hotkey request;
    executor_id := rq_executor_id request; container_id := ci_container_id info;
    ssh_session_id := session_id s; ssh_credentials := access_credentials s; state := Active;
    created_at := now; container_spec := rq_container_spec request; miner_id := rq_miner_id request;
    executor_details := details |} in
  let? _ := save_rental rental in
  let* _ := record_rental_status (miner_id rental) (rq_executor_id request) details true in
  let* _ := (match extract_miner_uid (miner_id rental) with
             | Some uid => act (CountRental uid (get_gpu_type details))
             | None => Ret tt
             end) in
  Ret (Ok {| rp_rental_id := id;
             rp_ssh_credentials := user_credentials (access_credentials s) (ci_mapped_ports info);
             rp_container_info := info |}).

Definition start_rental (m : RentalManager) (request : RentalRequest)
    : prog (result string RentalResponse) :=
  let* uuid := act NewUuid in
  let id := "rental-" +:+ uuid in
  match ssh_key_manager m with
  | None => Ret (Err "SSH key manager is required for rentals")
  | Some None => Ret (Err "No persistent validator SSH key available")
  | Some (Some (public_key, _)) =>
      let? s := initiate_rental_ssh_session (rq_executor_id request) (rq_validator_hotkey request)
                  public_key id (rental_session_duration m) in
      let client := create_container_client m (access_credentials s) in
      let* deployed := deploy_container (deployment_config m) client (rq_container_spec request) id
                         (rq_ssh_public_key request) in
      match deployed with
      | Ok info => register_rental request id s info
      | Err e =>
          let* _ := act (CloseSession (close_session_request (session_id s)
                           (rq_validator_hotkey request) "Deployment failed")) in
          Ret (Err e)
      end
  end.

Definition found {A} (r : option A) : result string A :=
  match r with Some a => Ok a | None => Err "Rental not found" end.

Definition get_rental_status (m : RentalManager) (id : string) : prog (result string RentalStatus) :=
  let? o := load_rental id in
  let? rental := Ret (found o) in
  let client := create_container_client m (ssh_credentials rental) in
  let? status := get_container_status client (container_id rental) in
  let? usage := get_resource_usage client (container_id rental) in
  Ret (Ok {| rs_rental_id := id; rs_state := state rental; container_status := status;
             rs_created_at := created_at rental; resource_usage := usage |}).

Definition close_ssh_session (rental : RentalInfo) : prog (result string unit) :=
  let? found_miner := act (SelectMiner (miner_id rental)) in
  match found_miner with
  | None => Ret (Err ("Miner " +:+ miner_id rental +:+ " not found in database"))
  | Some miner =>
      let* connected := act (ConnectMiner (miner_endpoint miner) (miner_hotkey miner)) in
      let? _ := Ret (map_err (fun e => "Failed to reconnect to miner: " +:+ e) connected) in
      let* r := act (CloseSession (close_session_request (ssh_session_id rental)
                       (validator_hotkey rental) "rental_stopped")) in
      Ret match r with
          | Err e => Err ("Failed to close SSH session: " +:+ e)
          | Ok a => if close_success a then Ok tt
                    else Err ("Failed to close SSH session: " +:+ close_message a)
          end
  end.

Definition stop_rental (m : RentalManager) (id : string) (force : bool) : prog (result string unit) :=
  let? o := load_rental id in
  let? rental := Ret (found o) in
  let client := create_container_client m (ssh_credentials rental) in
  let? _ := stop_container client (container_id rental) force in
  let* _ := close_ssh_session rental in
  let? _ := save_rental (with_state Stopped rental) in
  let* _ := record_rental_status (miner_id rental) (executor_id rental) (executor_details rental) false in
  Ret (Ok tt).

Definition stream_logs (m : RentalManager) (id : string) (follow : bool) (tail_lines : option Z)
    : prog (result string unit) :=
  let? o := load_rental id in
  let? rental := Ret (found o) in
  let* r := ContainerClient_stream_logs (create_container_client m (ssh_credentials rental))
              (container_id rental) follow tail_lines in
  Ret (context "Failed to start log streaming" r).

Definition list_rentals (hotkey : string) : prog (result string (list RentalInfo)) :=
  list_validator_rentals hotkey.

(** ** The health monitor *)

Definition perform_health_check (c : ContainerClient) (id : string) : prog (result string bool) :=
  let? status := get_container_status c id in
  Ret (Ok (if negb (String.eqb (cs_state status) "running") then false
           else if negb (String.eqb (health status) "none") then String.eqb (health status) "healthy"
           else true)).

(** The state after a failed or unhealthy check. *)
Definition unhealthy_state (s : RentalState) : option RentalState :=
  match s with
  | Provisioning => Some Failed
  | Active => Some Stopped
  | Stopping => Some Stopped
  | Stopped | Failed => None
  end.

(** [None] is the elapsed timeout. *)
Definition next_state (s : RentalState) (check : option (result string bool)) : option RentalState :=
  match check with
  | None => Some Failed
  | Some (Err _) => unhealthy_state s
  | Some (Ok healthy) => if healthy then None else unhealthy_state s
  end.

Definition check_rental_health (key : option (string * string)) (rental : RentalInfo)
    : prog (result string unit) :=
  match key with
  | None => Ret (Err "No persistent validator SSH key available")
  | Some (_, key_path) =>
      let client := ContainerClient_new (ssh_credentials rental) (Some key_path) in
      let* check := timeout (perform_health_check client (container_id rental)) in
      match next_state (state rental) check with
      | None => Ret (Ok tt)
      | Some s =>
          let* saved := save_rental (with_state s rental) in
          let? _ := Ret (context "Failed to update rental state" saved) in
          let* _ := (match s with
                     | Stopped | Failed =>
                         record_rental_status (miner_id rental) (executor_id rental)
                           (executor_details rental) false
                     | _ => Ret tt
                     end) in
          Ret (Ok tt)
      end
  end.

Fixpoint check_rentals (key : option (string * string)) (rentals : list RentalInfo) : prog unit :=
  match rentals with
  | [] => Ret tt
  | r :: rest => let* _ := check_rental_health key r in check_rentals key rest
  end.

Definition check_all_rentals (key : option (string * string)) : prog (result string unit) :=
  let* queried := query_non_terminated_rentals in
  let? rentals := Ret (context "Failed to query non-terminal rentals" queried) in
  let* _ := check_rentals key rentals in
  Ret (Ok tt).

(** The loop, for the ticks before its cancellation. *)
Fixpoint monitoring_loop (key : option (string * string)) (ticks : nat) : prog unit :=
  match ticks with
  | O => Ret tt
  | S n => let* _ := check_all_rentals key in monitoring_loop key n
  end.

(** ** Log lines *)

Definition max_line_length : nat := 4096.

(** [Err] is the panic of a slice that ends inside a character. *)
Definition truncate_message (max_length : nat) (message : string) : result string string :=
  if (max_length <? String.length message)%nat then
    if is_char_boundary max_length message
    then Ok (take_str max_length message +:+ "... (truncated)")
    else Err "byte index is not a char boundary"
  else Ok message.

Definition parse_log_line (now : Z) (line stream id : string) (max_length : nat) : result string LogEntry :=
  let '(timestamp, message) :=
    match split_once " " line with
    | Some (ts_str, rest) =>
        match parse_from_rfc3339 ts_str with
        | Some ts => (ts, trim_start (String " " rest))
        | None => (now, line)
        end
    | None => (now, line)
    end in
  match truncate_message max_length message with
  | Ok m => Ok {| le_timestamp := timestamp; le_stream := stream; le_message := m; le_container_id := id |}
  | Err e => Err e
  end.

(** One of the two reading tasks: the entries it sends while the receiver takes them
    ([accepted] of them), and whether it panics. *)
Fixpoint read_lines (lines : list (Z * string)) (stream id : string) (max_length accepted : nat)
    : list LogEntry * bool :=
  match lines with
  | [] => ([], false)
  | (now, line) :: rest =>
      match parse_log_line now line stream id max_length with
      | Err _ => ([], true)
      | Ok entry =>
          match accepted with
          | O => ([], false)
          | S n => let '(l, p) := read_lines rest stream id max_length n in (entry :: l, p)
          end
      end
  end.

(** ** Routes *)

Inductive StatusCode := BAD_REQUEST | NOT_FOUND | INTERNAL_SERVER_ERROR | BAD_GATEWAY.

Record ApiState := {
  rental_manager : option RentalManager;
  miner_client : bool;
  api_validator_hotkey : string
}.

Record StartRentalRequest := {
  sr_executor_id : string;
  sr_container_image : string;
  sr_ssh_public_key : string;
  sr_environment : gmap string string;
  sr_ports : list PortMapping;
  sr_resources : ResourceRequirements;
  sr_command : list string;
  sr_volumes : list VolumeMount;
  sr_no_ssh : bool
}.

Definition default_command : list string := ["/bin/bash"].

Definition is_valid_ssh_public_key (key : string) : bool :=
  match trim key with
  | EmptyString => false
  | _ => starts_with "ssh-" key && (2 <=? length (split_whitespace key))%nat
  end.

(** The mappings of the container's port 22 are dropped, and one to a free port is added
    unless SSH is switched off. *)
Definition route_ports (request : StartRentalRequest) : list PortMapping :=
  List.filter (fun p => negb (container_port p =? 22)) (sr_ports request) ++
  (if sr_no_ssh request then []
   else [{| container_port := 22; host_port := 0; protocol := "tcp" |}]).

Definition route_spec (request : StartRentalRequest) : ContainerSpec := {|
  image := sr_container_image request; environment := sr_environment request;
  ports := route_ports request; resources := sr_resources request; entrypoint := [];
  command := sr_command request;
  volumes := List.filter (fun v => negb (contains ".." (host_path v)) && negb (contains ".." (container_path v)))
               (sr_volumes request);
  labels := ∅; capabilities := [];
  network := {| net_mode := "bridge"; net_dns := []; extra_hosts := ∅ |} |}.

Definition status {A} (code : StatusCode) (p : prog (result string A)) : prog (result StatusCode A) :=
  let* r := p in Ret (map_err (fun _ => code) r).

Definition or_status {A} (code : StatusCode) (o : option A) : prog (result StatusCode A) :=
  Ret match o with Some a => Ok a | None => Err code end.

Definition route_start_rental (api : ApiState) (request : StartRentalRequest)
    : prog (result StatusCode RentalResponse) :=
  let? miner := status INTERNAL_SERVER_ERROR (act (SelectMinerId (sr_executor_id request))) in
  let? found_miner := status INTERNAL_SERVER_ERROR (act (SelectMiner miner)) in
  let? miner_data := or_status NOT_FOUND found_miner in
  if negb (is_valid_ssh_public_key (sr_ssh_public_key request)) then Ret (Err BAD_REQUEST)
  else if negb (is_Ok (validate_docker_image (sr_container_image request))) then Ret (Err BAD_REQUEST)
  else
    let? manager := or_status INTERNAL_SERVER_ERROR (rental_manager api) in
    let? _ := or_status INTERNAL_SERVER_ERROR (if miner_client api then Some tt else None) in
    let? _ := status BAD_GATEWAY
                (act (ConnectMiner (miner_endpoint miner_data) (miner_hotkey miner_data))) in
    status INTERNAL_SERVER_ERROR (start_rental manager {|
      rq_validator_hotkey := api_validator_hotkey api; rq_miner_id := miner;
      rq_executor_id := sr_executor_id request; rq_container_spec := route_spec request;
      rq_ssh_public_key := sr_ssh_public_key request; rq_metadata := ∅ |}).

Inductive ApiRentalStatus := ApiPending | ApiActive | ApiTerminated | ApiFailed.

Definition api_status (s : RentalState) : ApiRentalStatus :=
  match s with
  | Provisioning => ApiPending
  | Active => ApiActive
  | Stopping | Stopped => ApiTerminated
  | Failed => ApiFailed
  end.

Record RentalStatusResponse := {
  sp_rental_id : string;
  sp_status : ApiRentalStatus;
  sp_executor : ExecutorDetails;
  sp_created_at : Z;
  sp_updated_at : Z
}.

Definition route_get_rental_status (api : ApiState) (id : string)
    : prog (result StatusCode RentalStatusResponse) :=
  let? manager := or_status INTERNAL_SERVER_ERROR (rental_manager api) in
  let? o := status INTERNAL_SERVER_ERROR (load_rental id) in
  let? rental := or_status NOT_FOUND o in
  let? s := status NOT_FOUND (get_rental_status manager id) in
  Ret (Ok {| sp_rental_id := rs_rental_id s; sp_status := api_status (rs_state s);
             sp_executor := executor_details rental; sp_created_at := rs_created_at s;
             sp_updated_at := rs_created_at s |}).

Definition route_stop_rental (api : ApiState) (id : string) : prog (result StatusCode unit) :=
  let? manager := or_status INTERNAL_SERVER_ERROR (rental_manager api) in
  status INTERNAL_SERVER_ERROR (stop_rental manager id false).

Definition route_stream_rental_logs (api : ApiState) (id : string) (follow : option bool)
    (tail_lines : option Z) : prog (result StatusCode unit) :=
  let? manager := or_status INTERNAL_SERVER_ERROR (rental_manager api) in
  status NOT_FOUND (stream_logs manager id (default false follow) tail_lines).

Record RentalListItem := {
  li_rental_id : string;
  li_executor_id : string;
  li_container_id : string;
  li_state : RentalState;
  li_created_at : Z;
  li_miner_id : string;
  li_container_image : string;
  li_gpu_specs : option (list GpuSpec);
  li_cpu_specs : option CpuSpec;
  li_location : option string;
  li_network_speed : option NetworkSpeedInfo
}.

Definition list_item (r : RentalInfo) : RentalListItem := {|
  li_rental_id := rental_id r; li_executor_id := executor_id r; li_container_id := container_id r;
  li_state := state r; li_created_at := created_at r; li_miner_id := miner_id r;
  li_container_image := image (container_spec r);
  li_gpu_specs := match gpu_specs (executor_details r) with [] => None | l => Some l end;
  li_cpu_specs := Some (cpu_specs (executor_details r)); li_location := location (executor_details r);
  li_network_speed := network_speed (executor_details r) |}.

Definition route_list_rentals (api : ApiState) (by_state : option RentalState)
    : prog (result StatusCode (list RentalListItem * nat)) :=
  let? _ := or_status INTERNAL_SERVER_ERROR (rental_manager api) in
  let? rentals := status INTERNAL_SERVER_ERROR (list_rentals (api_validator_hotkey api)) in
  let filtered := match by_state with
                  | Some s => List.filter (fun r => bool_decide (state r = s)) rentals
                  | None => rentals
                  end in
  Ret (Ok (list_item <$> filtered, length filtered)).
End Rentals.
