(* ===== verification/VRentalFacts.v ===== *)
(** * Validator rentals: reasoning about programs

    Two ways to speak about a program whatever it is answered: [only] says which effects it
    may have, [kwp] follows what it has learnt and may still write.  The second is used for
    programs that run interleaved.  The last part says what a specification must meet,
    without the order of the checks, and that the validation decides it. *)

From stdpp Require Import base gmap strings list relations.
From Stdlib Require Import Ascii ZArith.
From stdpp Require Import base gmap strings list relations pretty.
From S2P Require Import Prelude.
From S2P Require Import Bytes.
From S2P Require Import Text.
From S2P Require Import Float64.
From S2P Require Import TextOps.
From S2P Require Import Collections.
From S2P Require Import VRentalTypes.
From S2P Require Import ContainerClient.
From S2P Require Import Deployment.
From S2P Require Import VRentals.
Local Open Scope Z_scope.

Create HintDb rentals.

(** ** The effects of a program *)

Definition pred := forall X : Type, effect X -> Prop.

Section Only.
Context (P : pred).

Fixpoint only {A} (p : prog A) : Prop :=
  match p with Ret _ => True | Do e k => P _ e /\ forall x, only (k x) end.

Lemma only_ret {A} (a : A) : only (Ret a).
Proof. done. Qed.

Lemma only_act {X} (e : effect X) : P _ e -> only (act e).
Proof. by split. Qed.

Lemma only_bind {A B} (p : prog A) (f : A -> prog B) :
  only p -> (forall a, only (f a)) -> only (bind p f).
Proof. intros Hp Hf. induction p as [a|X e k IH]; cbn in *; [auto|]. destruct Hp. split; auto. Qed.

Lemma only_bindr {A B E} (p : prog (result E A)) (f : A -> prog (result E B)) :
  only p -> (forall a, only (f a)) -> only (bindr p f).
Proof. intros Hp Hf. apply only_bind; [done|]. intros [a|e]; [apply Hf | done]. Qed.

Lemma only_timeout {A} (p : prog A) : P _ TimerFired -> only p -> only (timeout p).
Proof.
  intros Ht Hp. induction p as [a|X e k IH]; cbn in *; [done|]. destruct Hp as [He Hk].
  split; [done|]. intros x. split; [done|]. intros []; [done|]. auto.
Qed.

(** What a run adds to the trace. *)
Definition on_event (v : event) : Prop := match v with Event e _ => P _ e end.

Context `{HashOrder} (env : RentalEnv).

Lemma trace_perform w {X} (e : effect X) x w' :
  perform env w e = (x, w') -> trace w' = Event e x :: trace w.
Proof.
  unfold perform, statement. intros E. destruct e; try (injection E as <- <-; reflexivity);
    destruct (statement_fails env (length (trace w))); injection E as <- <-; reflexivity.
Qed.

Lemma only_run {A} (p : prog A) w a w' :
  only p -> run env p w = (a, w') -> exists l, trace w' = l ++ trace w /\ Forall on_event l.
Proof.
  revert w. induction p as [b|X e k IH]; intros w Hp E; cbn in *.
  - injection E as _ <-. by exists [].
  - destruct (perform env w e) as [x w1] eqn:Ex. destruct Hp as [He Hk].
    apply IH in E as (l & El & Hl); [|done]. apply trace_perform in Ex.
    exists (l ++ [Event e x]). rewrite El, Ex, <- app_assoc. split; [done|].
    apply Forall_snoc. split; [done|]. apply He.
Qed.
End Only.

(** The first effect of a program is in the trace of its run. *)
Lemma run_first `{HashOrder} env {A X} (e : effect X) (k : X -> prog A) w a w' :
  run env (Do e k) w = (a, w') -> exists l x, trace w' = l ++ Event e x :: trace w.
Proof.
  cbn [run]. destruct (perform env w e) as [x w1] eqn:Ex. intros E.
  assert (Hk : only (fun _ _ => True) (k x)) by (clear; induction (k x); by cbn).
  destruct (only_run _ env _ _ _ _ Hk E) as (l & Hl & _).
  exists l, x. rewrite Hl. by erewrite trace_perform.
Qed.

#[export] Hint Resolve only_ret only_act : rentals.

Lemma only_impl (P Q : pred) {A} (p : prog A) :
  (forall X (e : effect X), P X e -> Q X e) -> only P p -> only Q p.
Proof. intros Hi. induction p as [a|X e k IH]; cbn; [done|]. intros [He Hk]. split; auto. Qed.

(** Walks through a program: the goals that are left are about its parts. *)
Ltac walk :=
  repeat first
    [ exact I
    | progress intros
    | apply only_bindr | apply only_bind | apply only_ret | apply only_act
    | match goal with
      | |- only _ (match ?x with _ => _ end) => destruct x
      | |- only _ (if ?b then _ else _) => destruct b
      end ].

(** ** Remote commands *)

(** Effects that do not change the table. *)
Definition reading : pred := fun X e =>
  match e with UpsertRental _ _ | RemoveRental _ => False | _ => True end.

Lemma run_reading `{HashOrder} env {A} (p : prog A) w a w' :
  only reading p -> run env p w = (a, w') -> table w' = table w.
Proof.
  revert w. induction p as [b|X e k IH]; intros w Hp E; cbn in *; [by injection E as _ <-|].
  destruct (perform env w e) as [x w1] eqn:Ex. destruct Hp as [He Hk].
  apply IH in E; [|done]. rewrite E. apply table_perform in Ex. by destruct e.
Qed.

(** Effects that are commands on the executor, of the given form. *)
Definition ssh_only (C : string -> Prop) : pred := fun X e =>
  match e with
  | Ssh argv => exists c cmd, argv = ssh_argv c cmd /\ C cmd
  | _ => False
  end.

Lemma execute_only C c cmd : C cmd -> only (ssh_only C) (execute_ssh_command c cmd).
Proof. intros HC. unfold execute_ssh_command. walk; exists c, cmd. done. Qed.

Lemma ssh_only_ssh C c cmd m : C cmd -> only (ssh_only C) (ssh c cmd m).
Proof. intros HC. unfold ssh. walk; by apply execute_only. Qed.

(** ** Learning and writing *)

(** The columns an upsert writes to a row that exists, beside the state. *)
Definition columns : Type := string * string * string * string.
Definition columns_of (r : RentalRow) : columns :=
  (row_container_id r, row_ssh_session_id r, row_ssh_credentials r, row_miner_id r).

(** The same columns of a rental that was read. *)
Definition info_columns (r : RentalInfo) : columns :=
  (container_id r, ssh_session_id r, ssh_credentials r, miner_id r).

(** What a query returns is in the table. *)
Lemma elem_of_select_rows `{HashOrder} n f t id r :
  (id, r) ∈ select_rows n f t -> t !! id = Some r /\ matches_filter f id r = true.
Proof.
  unfold select_rows. intros Hin.
  assert (Hf : (id, r) ∈ List.filter (fun '(id, r) => matches_filter f id r) (iter n "SELECT * FROM rentals" t)).
  { destruct (order_by_created_desc f); [by apply elem_of_sort_by in Hin | done]. }
  apply list_elem_of_In, filter_In in Hf as [Hf Hm]. apply list_elem_of_In, elem_of_iter in Hf. done.
Qed.

Definition terminal_text (s : string) : Prop := s = "stopped" \/ s = "failed".

(** The identifiers a program owns: it made them up and has not stored them yet; and the
    columns it has read. *)
Record knowledge := { own : gset string; known : list (string * columns) }.

Definition demands (K : knowledge) {X} (e : effect X) : Prop :=
  match e with
  | UpsertRental id r =>
      (id ∈ own K /\ row_state r = "active") \/
      ((id, columns_of r) ∈ known K /\ terminal_text (row_state r))
  | RemoveRental _ => False
  | _ => True
  end.

Definition learns (K : knowledge) {X} (e : effect X) : X -> knowledge :=
  match e in effect Y return Y -> knowledge with
  | NewUuid => fun u => {| own := {[ "rental-" +:+ u ]} ∪ own K; known := known K |}
  | SelectRentals _ => fun r =>
      match r with
      | Ok rows => {| own := own K; known := (prod_map id columns_of <$> rows) ++ known K |}
      | Err _ => K
      end
  | UpsertRental id _ => fun _ => {| own := own K ∖ {[ id ]}; known := known K |}
  | _ => fun _ => K
  end.

Fixpoint kwp {A} (p : prog A) (Q : A -> knowledge -> Prop) (K : knowledge) : Prop :=
  match p with
  | Ret a => Q a K
  | Do e k => demands K e /\ forall x, kwp (k x) Q (learns K e x)
  end.

Lemma kwp_bind {A B} (p : prog A) (f : A -> prog B) Q K :
  kwp p (fun a => kwp (f a) Q) K -> kwp (bind p f) Q K.
Proof. revert K. induction p as [a|X e k IH]; intros K; cbn; [done|]. intros [He Hk]. split; auto. Qed.

Lemma kwp_impl {A} (p : prog A) (Q R : A -> knowledge -> Prop) K :
  (forall a K, Q a K -> R a K) -> kwp p Q K -> kwp p R K.
Proof.
  intros HQ. revert K. induction p as [a|X e k IH]; intros K; cbn; [auto|]. intros [He Hk]. split; auto.
Qed.

Lemma kwp_bindr {A B E} (p : prog (result E A)) (f : A -> prog (result E B)) Q K :
  kwp p (fun r K => match r with Ok a => kwp (f a) Q K | Err e => Q (Err e) K end) K ->
  kwp (bindr p f) Q K.
Proof. intros Hp. apply kwp_bind. eapply kwp_impl; [|exact Hp]. by intros [a|e] K'. Qed.

(** Effects that neither teach anything nor write. *)
Definition neutral : pred := fun X e =>
  match e with
  | NewUuid | SelectRentals _ | UpsertRental _ _ | RemoveRental _ => False
  | _ => True
  end.

Lemma kwp_neutral {A} (p : prog A) Q K : only neutral p -> (forall a, Q a K) -> kwp p Q K.
Proof.
  intros Hp HQ. induction p as [a|X e k IH]; cbn in *; [auto|]. destruct Hp as [He Hk].
  destruct e; cbn in *; try done; split; auto.
Qed.

Lemma neutral_reading {A} (p : prog A) : only neutral p -> only reading p.
Proof. apply only_impl. by intros X []. Qed.

(** ** The parts of the rental code that do not touch the table *)

Section Neutral.
Context `{Libraries} `{HashOrder}.

Lemma neutral_ssh C X (e : effect X) : ssh_only C X e -> neutral X e.
Proof. by destruct e. Qed.

Lemma execute_neutral c cmd : only neutral (execute_ssh_command c cmd).
Proof. eapply only_impl; [apply (neutral_ssh (fun _ => True))|]. by apply execute_only. Qed.

Lemma ssh_neutral c cmd m : only neutral (ssh c cmd m).
Proof. unfold ssh. walk; apply execute_neutral. Qed.

Lemma validate_volumes_neutral l : only neutral (validate_volumes l).
Proof. induction l as [|v l IH]; cbn [validate_volumes]; [done|]. unfold validate_volume. walk; done. Qed.

Lemma configure_neutral c id key : only neutral (configure_container_ssh_access c id key).
Proof.
  unfold configure_container_ssh_access, ssh_text, ssh_ignored, install_ssh, with_shells, start_ssh, ssh_ignored, ssh_text.
  walk; apply execute_neutral.
Qed.

Lemma deploy_neutral config c spec id key : only neutral (deploy_container config c spec id key).
Proof.
  unfold deploy_container, validate_container_spec, ContainerClient_deploy_container.
  walk; first [apply validate_volumes_neutral | apply ssh_neutral | apply configure_neutral].
Qed.

Lemma stop_container_neutral c id force : only neutral (stop_container c id force).
Proof.
  unfold stop_container, force_stop, ContainerClient_stop_container, remove_container.
  walk; apply ssh_neutral.
Qed.

Lemma status_neutral c id : only neutral (get_container_status c id).
Proof. unfold get_container_status. walk; apply ssh_neutral. Qed.

Lemma usage_neutral c id : only neutral (get_resource_usage c id).
Proof. unfold get_resource_usage. walk; apply ssh_neutral. Qed.

Lemma health_neutral c id : only neutral (timeout (perform_health_check c id)).
Proof. apply only_timeout; [done|]. unfold perform_health_check. walk; apply status_neutral. Qed.

Lemma record_neutral m ex d b : only neutral (record_rental_status m ex d b).
Proof. unfold record_rental_status. walk. Qed.

Lemma parse_rows_neutral rows : only neutral (parse_rental_rows rows).
Proof. induction rows as [|[id r] rows IH]; cbn [parse_rental_rows]; [done|]. walk; exact IH. Qed.
End Neutral.

#[export] Hint Resolve execute_neutral ssh_neutral deploy_neutral stop_container_neutral
  status_neutral usage_neutral health_neutral record_neutral parse_rows_neutral : rentals.

(** ** The deployment policy *)

(** ** The command that runs a container *)

Lemma join_snoc l x : l <> [] -> join " " (l ++ [x]) = join " " l +:+ " " +:+ x.
Proof.
  induction l as [|y l IH]; [done|]. intros _. destruct l as [|z l]; [done|].
  change (join " " ((y :: z :: l) ++ [x])) with (y +:+ " " +:+ join " " ((z :: l) ++ [x])).
  rewrite IH by done. change (join " " (y :: z :: l)) with (y +:+ " " +:+ join " " (z :: l)).
  by rewrite !str_app_assoc.
Qed.

Lemma push_all_join l k : l <> [] -> push_all k (join " " l) = join " " (l ++ k).
Proof.
  revert l. induction k as [|x k IH]; intros l Hl; [by rewrite app_nil_r|].
  change (push_all (x :: k) (join " " l)) with (push_all k (join " " l +:+ " " +:+ x)).
  rewrite <- join_snoc by done. rewrite IH by (by destruct l). by rewrite <- app_assoc.
Qed.

Section Words.
Context `{Libraries} `{HashOrder}.

Definition entrypoint_words (spec : ContainerSpec) : list string :=
  match entrypoint spec with
  | [] => []
  | [e] => ["--entrypoint"; e]
  | l => ["--entrypoint"; default (join " " l) (strings_to_json l)]
  end.

Definition docker_words (spec : ContainerSpec) (id : string) : list string :=
  docker_cmd_parts spec id ++ option_strings spec id ++ entrypoint_words spec ++ [image spec] ++ command spec.

Lemma docker_run_words spec id : docker_run spec id = join " " (docker_words spec id).
Proof.
  unfold docker_run, docker_words. rewrite push_all_join by done.
  set (l := docker_cmd_parts spec id ++ option_strings spec id).
  assert (Hl : l <> []) by done.
  assert (E : join " " l +:+ entrypoint_string spec +:+ " " +:+ image spec =
              join " " ((l ++ entrypoint_words spec) ++ [image spec])).
  { rewrite join_snoc by (by destruct l). unfold entrypoint_string, entrypoint_words.
    destruct (entrypoint spec) as [|e [|e' es]]; [by rewrite app_nil_r| |];
      (change (l ++ [?a; ?b]) with (l ++ [a] ++ [b]); rewrite app_assoc, join_snoc by (by destruct l);
       rewrite join_snoc by done; by rewrite !str_app_assoc). }
  rewrite E, push_all_join by (by destruct l). unfold l. f_equal. by rewrite <- !app_assoc.
Qed.
End Words.

Section Policy.
Context `{Libraries} `{HashOrder} (config : DeploymentConfig) (env : RentalEnv).

Record image_allowed (img : string) : Prop := {
  ia_reference : img <> "" /\ (String.length img <= 500)%nat /\ parse_reference img = true;
  ia_blocked : forall b, b ∈ blocked_images config -> contains b img = false;
  ia_registry : allowed_registries config = [] \/ registry_of img ∈ allowed_registries config
}.

Definition within (request limit : Z) : Prop := 0 < limit -> request <= limit.

Record resources_allowed (r : ResourceRequirements) : Prop := {
  ra_cpu : exceeds_f64 (cpu_cores r) (max_cpu_cores (default_resource_limits config)) = false;
  ra_memory : within (memory_mb r) (max_memory_mb (default_resource_limits config));
  ra_storage : within (storage_mb r) (max_storage_mb (default_resource_limits config));
  ra_gpus : within (gpu_count r) (max_gpu_count (default_resource_limits config))
}.

Definition network_allowed (mode : string) : Prop :=
  mode ∈ allowed_network_modes (network_policies config) /\
  ~ (mode = "host" /\ require_network_isolation (network_policies config) = true).

Definition volume_allowed (v : VolumeMount) (canonical : string) : Prop :=
  (forall s, s ∈ sensitive_paths -> starts_with s canonical = false) /\
  starts_with "/" (host_path v) = true /\ starts_with "/" (container_path v) = true.

Definition port_allowed (p : PortMapping) : Prop :=
  host_port p ∉ blocked_ports (network_policies config) /\ host_port p <= 65535 /\
  container_port p <> 0 /\ container_port p <= 65535 /\ (protocol p = "tcp" \/ protocol p = "udp").

(** [canonical] holds the canonical form of each host path. *)
Record compliant (canonical : list string) (spec : ContainerSpec) : Prop := {
  co_image : image_allowed (image spec);
  co_resources : resources_allowed (resources spec);
  co_network : network_allowed (net_mode (network spec));
  co_volumes : Forall2 volume_allowed (volumes spec) canonical;
  co_ports : Forall port_allowed (ports spec)
}.

(** What the file system answers when asked from effect [n] on. *)
Fixpoint canonical_paths (n : nat) (l : list VolumeMount) : list string :=
  match l with
  | [] => []
  | v :: l' => default (host_path v) (answer env n (Canonicalize (host_path v))) :: canonical_paths (S n) l'
  end.

(** ** Each check decides its part *)

Lemma mem_str_spec x l : mem_str x l = true <-> x ∈ l.
Proof.
  unfold mem_str. rewrite existsb_exists. split.
  - intros (y & Hy & E). apply String.eqb_eq in E as ->. by apply list_elem_of_In.
  - intros Hx. exists x. split; [by apply list_elem_of_In|apply String.eqb_refl].
Qed.

Lemma exceeds_within r l : exceeds r l = false <-> within r l.
Proof.
  unfold exceeds, within. rewrite !andb_false_iff, !Z.ltb_ge. lia.
Qed.

Lemma existsb_none {A} (f : A -> bool) l : existsb f l = false <-> forall x, x ∈ l -> f x = false.
Proof.
  split.
  - intros E x Hx. destruct (f x) eqn:Ef; [|done].
    assert (existsb f l = true) by (apply existsb_exists; exists x; by rewrite <- list_elem_of_In). congruence.
  - intros Hf. destruct (existsb f l) eqn:E; [|done]. apply existsb_exists in E as (x & Hx & Ex).
    apply list_elem_of_In in Hx. rewrite Hf in Ex; done.
Qed.

Lemma validate_docker_image_ok img u :
  validate_docker_image img = Ok u <->
  img <> "" /\ (String.length img <= 500)%nat /\ parse_reference img = true.
Proof.
  unfold validate_docker_image, parse_docker_image. destruct u. destruct img as [|c img]; [naive_solver|].
  destruct (500 <? String.length (String c img))%nat eqn:E.
  - apply Nat.ltb_lt in E. split; [done|]. intros (_ & ? & _). lia.
  - apply Nat.ltb_ge in E. destruct (parse_reference (String c img)); naive_solver.
Qed.

Lemma validate_image_ok img : validate_image config img = Ok tt <-> image_allowed img.
Proof.
  unfold validate_image. split.
  - destruct (validate_docker_image img) eqn:Ei; [|done]. apply validate_docker_image_ok in Ei.
    destruct (existsb _ _) eqn:Eb; [done|]. rewrite existsb_none in Eb. intros E. split; [done|done|].
    destruct (allowed_registries config) as [|r l]; [by left|right].
    destruct (mem_str _ _) eqn:Em; [|done]. by apply mem_str_spec.
  - intros [Hr Hb Hg]. rewrite (proj2 (validate_docker_image_ok img tt) Hr).
    rewrite (proj2 (existsb_none _ _) Hb).
    destruct (allowed_registries config) as [|r l]; [done|]. destruct Hg as [Hg|Hg]; [done|].
    by rewrite (proj2 (mem_str_spec _ _) Hg).
Qed.

Lemma validate_resources_ok spec : validate_resources config spec = Ok tt <-> resources_allowed (resources spec).
Proof.
  unfold validate_resources. split.
  - repeat case_match; try done. intros _. by split; rewrite <- ?exceeds_within.
  - intros [-> Hm Hs Hg]. apply exceeds_within in Hm, Hs, Hg. by rewrite Hm, Hs, Hg.
Qed.

Lemma validate_network_ok spec :
  validate_network_config config spec = Ok tt <-> network_allowed (net_mode (network spec)).
Proof.
  unfold validate_network_config, network_allowed. set (mode := net_mode _). rewrite <- mem_str_spec.
  destruct (mem_str mode _); cbn [negb]; [|naive_solver].
  destruct (String.eqb_spec mode "host"), (require_network_isolation _); cbn; naive_solver.
Qed.

Lemma validate_port_ok p : validate_port config p = Ok tt <-> port_allowed p.
Proof.
  unfold validate_port, port_allowed.
  assert (Hb : existsb (Z.eqb (host_port p)) (blocked_ports (network_policies config)) = false <->
               host_port p ∉ blocked_ports (network_policies config)).
  { rewrite existsb_none. split.
    - intros Hx Hin. apply Hx in Hin. by rewrite Z.eqb_refl in Hin.
    - intros Hn x Hx. apply Z.eqb_neq. intros E. apply Hn. by rewrite E. }
  rewrite <- Hb. clear Hb. destruct (existsb _ _); [naive_solver|].
  destruct (65535 <? host_port p) eqn:E1; b2p; [naive_solver lia|].
  destruct (container_port p =? 0) eqn:E2; b2p; cbn [orb]; [naive_solver|].
  destruct (65535 <? container_port p) eqn:E3; b2p; [naive_solver lia|].
  destruct (String.eqb_spec (protocol p) "tcp"), (String.eqb_spec (protocol p) "udp"); cbn; naive_solver lia.
Qed.

Lemma validate_ports_ok l : validate_ports config l = Ok tt <-> Forall port_allowed l.
Proof.
  induction l as [|p l IH]; cbn [validate_ports]; [by split|].
  rewrite Forall_cons, <- IH, <- validate_port_ok. destruct (validate_port config p) as [[]|]; naive_solver.
Qed.

Lemma validate_volume_ok v w :
  exists x, run env (validate_volume v) w =
    (x, record_event w (Event (Canonicalize (host_path v)) (answer env (length (trace w)) (Canonicalize (host_path v))))) /\
  (x = Ok tt <-> volume_allowed v (default (host_path v) (answer env (length (trace w)) (Canonicalize (host_path v))))).
Proof.
  eexists. split; [reflexivity|]. cbn beta. unfold volume_allowed.
  set (canonical := default _ _).
  destruct (List.find (fun s => starts_with s canonical) sensitive_paths) as [s|] eqn:Ef.
  - apply List.find_some in Ef as [Hin Hs]. apply list_elem_of_In in Hin. split; [done|].
    intros [Hn _]. rewrite Hn in Hs; done.
  - pose proof (List.find_none _ _ Ef) as Hn. cbn beta in Hn.
    assert (forall s, s ∈ sensitive_paths -> starts_with s canonical = false)
      by (intros s Hs; apply Hn; by apply list_elem_of_In).
    destruct (starts_with "/" (host_path v)), (starts_with "/" (container_path v)); cbn; naive_solver.
Qed.

Lemma validate_volumes_ok l w r w' :
  run env (validate_volumes l) w = (r, w') ->
  r = Ok tt <-> Forall2 volume_allowed l (canonical_paths (length (trace w)) l).
Proof.
  revert w. induction l as [|v l IH]; intros w E; cbn [validate_volumes canonical_paths] in *.
  { injection E as <- _. split; [constructor|done]. }
  rewrite run_bindr in E. destruct (validate_volume_ok v w) as (x & Ex & Hx). rewrite Ex in E.
  rewrite Forall2_cons, <- Hx. destruct x as [[]|e].
  - apply IH in E. cbn [trace record_event length] in E. naive_solver.
  - injection E as <- _. naive_solver.
Qed.

(** The effects of validation. *)
Definition asks_paths : pred := fun X e => match e with Canonicalize _ => True | _ => False end.

Lemma validate_asks spec : only asks_paths (validate_container_spec config spec).
Proof.
  unfold validate_container_spec. walk. induction (volumes spec) as [|v l IH]; cbn [validate_volumes]; [done|].
  unfold validate_volume. walk; exact IH.
Qed.

(** Validation decides the policy. *)
Lemma validate_ok spec w r w' :
  run env (validate_container_spec config spec) w = (r, w') ->
  r = Ok tt <-> compliant (canonical_paths (length (trace w)) (volumes spec)) spec.
Proof.
  unfold validate_container_spec. rewrite !run_bindr. cbn [run].
  pose proof (validate_image_ok (image spec)) as Hi. destruct (validate_image config (image spec)) as [[]|];
    [|intros [= <- <-]; split; [done|intros []; naive_solver]].
  rewrite run_bindr. cbn [run]. pose proof (validate_resources_ok spec) as Hr.
  destruct (validate_resources config spec) as [[]|]; [|intros [= <- <-]; split; [done|intros []; naive_solver]].
  rewrite run_bindr. cbn [run]. pose proof (validate_network_ok spec) as Hn.
  destruct (validate_network_config config spec) as [[]|]; [|intros [= <- <-]; split; [done|intros []; naive_solver]].
  rewrite run_bindr. destruct (run env (validate_volumes (volumes spec)) w) as [x w1] eqn:Ev.
  apply validate_volumes_ok in Ev. pose proof (validate_ports_ok (ports spec)) as Hp.
  destruct x as [[]|]; intros [= <- <-]; (split; [intros E; split; naive_solver|intros []; naive_solver]).
Qed.
End Policy.

(** ** Validator rentals: concrete libraries, environment and requests

    What the witnesses run: libraries that know a few texts and an environment in which
    identifiers are numbered and containers answer. *)

Definition demo_spec : ContainerSpec := {|
  image := "nvidia/cuda"; environment := {["MODE" := "train"]};
  ports := [{| container_port := 22; host_port := 0; protocol := "tcp" |}];
  resources := {| cpu_cores := f64_lit 3 2; memory_mb := 1024; storage_mb := 0; gpu_count := 1; gpu_types := [] |};
  entrypoint := []; command := ["/bin/bash"];
  volumes := [{| host_path := "/data"; container_path := "/mnt"; read_only := true |}];
  labels := ∅; capabilities := ["CAP_SYS_ADMIN"; "CHOWN"];
  network := {| net_mode := "bridge"; net_dns := []; extra_hosts := ∅ |} |}.

Definition container_json (st : string) : json :=
  JObject [("State", JObject [("Status", JString st)]);
           ("NetworkSettings", JObject [("Ports", JObject
             [("22/tcp", JArray [JObject [("HostPort", JString "32768")]])])])].

(** A specification is stored as the text "spec" and read back as [demo_spec]. *)
#[export] Instance demo_libraries : Libraries := {|
  spec_to_json := fun _ => Ok "spec";
  spec_of_json := fun t => if String.eqb t "spec" then Some demo_spec else None;
  strings_to_json := fun _ => None;
  json_of_text := fun t =>
    if String.eqb t "up" then Some (JArray [container_json "running"])
    else if String.eqb t "down" then Some (JArray [container_json "exited"]) else None;
  parse_from_rfc3339 := fun _ => None;
  parse_reference := fun _ => true;
  unicode_alphanumeric := fun _ => false;
  unicode_alphabetic := fun _ => false |}.

#[export] Instance demo_order : HashOrder := storage_order.

Definition reply (s : string) : option Output :=
  Some {| success := true; stdout := into_bytes s; stderr := [] |}.

(** A container is created under the name "c1", and answers inspections with [up]. *)
Definition demo_ssh (up : bool) (argv : list string) : option Output :=
  let cmd := default "" (last argv) in
  if String.prefix "docker run" cmd then reply "c1"
  else if String.prefix "docker inspect c1" cmd then reply (if up then "up" else "down")
  else reply "".

(** The containers are down from effect [down_from] on; statements fail where [fails] says. *)
Definition demo_env (fails : nat -> bool) (down_from : nat) : RentalEnv := {|
  statement_fails := fails;
  answer := fun X n e =>
    match e in effect Y return Y with
    | NewUuid => pretty n
    | UtcNow => 1000
    | Ssh argv => demo_ssh (n <? down_from)%nat argv
    | SpawnSsh _ => true
    | Canonicalize p => Some p
    | TimerFired => false
    | OpenSession _ => Ok {| session_id := "s1"; access_credentials := "ops@10.0.0.1:2222" |}
    | CloseSession _ => Ok {| close_success := true; close_message := "" |}
    | ConnectMiner _ _ => Ok tt
    | SelectRentals _ => Ok []
    | UpsertRental _ _ => Ok tt
    | RemoveRental _ => Ok tt
    | SelectExecutorDetails _ _ => Ok None
    | SelectMiner _ => Ok (Some {| miner_hotkey := "miner"; miner_endpoint := "http://10.0.0.1" |})
    | SelectMinerId _ => Ok "miner_7"
    | SetRentalGauge _ _ _ _ => tt
    | CountRental _ _ => tt
    end |}.

Definition demo_manager : RentalManager := {|
  ssh_key_manager := Some (Some ("ssh-ed25519 AAAA", "/keys/id")); rental_session_duration := 3600;
  deployment_config := DeploymentConfig_default |}.

Definition demo_api : ApiState :=
  {| rental_manager := Some demo_manager; miner_client := true; api_validator_hotkey := "validator" |}.

Definition demo_start : StartRentalRequest := {|
  sr_executor_id := "executor"; sr_container_image := "nvidia/cuda";
  sr_ssh_public_key := "ssh-ed25519 AAAA"; sr_environment := ∅; sr_ports := [];
  sr_resources := {| cpu_cores := f64_zero; memory_mb := 0; storage_mb := 0; gpu_count := 0; gpu_types := [] |};
  sr_command := default_command; sr_volumes := []; sr_no_ssh := false |}.

Definition demo_request : RentalRequest := {|
  rq_validator_hotkey := "validator"; rq_miner_id := "miner_7"; rq_executor_id := "executor";
  rq_container_spec := demo_spec; rq_ssh_public_key := "ssh-ed25519 AAAA"; rq_metadata := ∅ |}.

Definition empty_world : RentalWorld := {| table := ∅; gauges := ∅; trace := [] |}.
