(* ===== verification/VRentalClaims.v ===== *)
(** * Validator rentals: requests that run interleaved

    Handlers and the health monitor run concurrently and interleave at their effects.  A
    configuration is the list of running programs with the world; a step starts a request or
    performs the next effect of one program.  The invariant says what each program owns and
    has read, and that it stays true of the table. *)

From stdpp Require Import base gmap strings list relations pretty.
From Stdlib Require Import Ascii ZArith.
From S2P Require Import Prelude.
From S2P Require Import Text.
From S2P Require Import Float64.
From S2P Require Import TextOps.
From S2P Require Import Collections.
From S2P Require Import VRentalTypes.
From S2P Require Import ContainerClient.
From S2P Require Import Deployment.
From S2P Require Import VRentals.
From S2P Require Import VRentalFacts.
Local Open Scope Z_scope.

(** ** What programs learn and write *)

Definition is_known (K : knowledge) (r : RentalInfo) : Prop := (rental_id r, info_columns r) ∈ known K.

(** Nothing a program may do breaks the rules. *)
Definition safe {A} (p : prog A) : Prop := forall K, kwp p (fun _ _ => True) K.

Section Programs.
Context `{Libraries} `{HashOrder}.

Lemma safe_neutral {A} (p : prog A) : only neutral p -> safe p.
Proof. intros Hp K. by apply kwp_neutral. Qed.

Lemma safe_bind {A B} (p : prog A) (f : A -> prog B) : safe p -> (forall a, safe (f a)) -> safe (bind p f).
Proof. intros Hp Hf K. apply kwp_bind. eapply kwp_impl; [|apply Hp]. intros a K' _. apply Hf. Qed.

Lemma safe_bindr {A B E} (p : prog (result E A)) (f : A -> prog (result E B)) :
  safe p -> (forall a, safe (f a)) -> safe (bindr p f).
Proof. intros Hp Hf. apply safe_bind; [done|]. intros [a|e]; [done|]. by intros K. Qed.

Lemma safe_ret {A} (a : A) : safe (Ret a).
Proof. by intros K. Qed.

Lemma kwp_parse_rows rows (Q : result string (list RentalInfo) -> knowledge -> Prop) K :
  Forall (fun '(id, r) => (id, columns_of r) ∈ known K) rows ->
  (forall l, Forall (is_known K) l -> Q (Ok l) K) -> (forall e, Q (Err e) K) ->
  kwp (parse_rental_rows rows) Q K.
Proof.
  revert Q. induction rows as [|[id r] rows IH]; intros Q Hr HQ HE; [by apply HQ|].
  apply Forall_cons in Hr as [Hid Hr]. cbn [parse_rental_rows].
  apply kwp_bind. split; [done|]. intros details. apply kwp_bindr. cbn [kwp].
  unfold parse_rental_row. destruct (spec_of_json (row_container_spec r)); [|apply HE].
  apply kwp_bindr, IH; [done| |done]. intros l Hl. apply HQ. by constructor.
Qed.

(** A query teaches the columns of the rentals it returns. *)
Lemma kwp_query f (Q : result string (list RentalInfo) -> knowledge -> Prop) K :
  (forall r K', own K' = own K -> match r with Ok l => Forall (is_known K') l | Err _ => True end -> Q r K') ->
  kwp (query_rentals f) Q K.
Proof.
  intros HQ. apply kwp_bindr. split; [done|]. intros [rows|e]; cbn [kwp learns]; [|by apply HQ].
  apply kwp_parse_rows; [|intros l Hl; by apply HQ|intros e; by apply HQ].
  apply Forall_forall. intros [id r] Hin. cbn [known]. apply elem_of_app. left.
  apply list_elem_of_fmap. by exists (id, r).
Qed.

(** Storing a rental that was read, in a terminal state. *)
Lemma kwp_save_terminal r (Q : result string unit -> knowledge -> Prop) K :
  is_known K r -> terminal_text (state_text (state r)) ->
  (forall x K', known K' = known K -> Q x K') -> kwp (save_rental r) Q K.
Proof.
  intros Hr Ht HQ. unfold save_rental. apply kwp_bindr. cbn [kwp].
  destruct (spec_to_json (container_spec r)); [|by apply HQ].
  split; [by right|]. intros x. by apply HQ.
Qed.

(** Storing a new rental. *)
Lemma kwp_save_active r (Q : result string unit -> knowledge -> Prop) K :
  rental_id r ∈ own K -> state r = Active -> (forall x K', Q x K') -> kwp (save_rental r) Q K.
Proof.
  intros Hr Ht HQ. unfold save_rental. apply kwp_bindr. cbn [kwp].
  destruct (spec_to_json (container_spec r)); [|by apply HQ].
  split; [left; by rewrite Ht|]. intros x. by apply HQ.
Qed.

Lemma safe_query f : safe (query_rentals f).
Proof. intros K. by apply kwp_query. Qed.

Lemma kwp_load id (Q : result string (option RentalInfo) -> knowledge -> Prop) K :
  (forall r K', match r with Ok (Some i) => is_known K' i | _ => True end -> Q r K') ->
  kwp (load_rental id) Q K.
Proof.
  intros HQ. apply kwp_bindr, kwp_query. intros [l|e] K' _ Hl; cbn [kwp]; [|by apply HQ].
  apply HQ. destruct (last l) as [i|] eqn:Ei; [|done].
  rewrite Forall_forall in Hl. apply Hl. by apply last_Some_elem_of.
Qed.

Lemma safe_load id : safe (load_rental id).
Proof. intros K. by apply kwp_load. Qed.

Lemma safe_status m id : safe (get_rental_status m id).
Proof.
  apply safe_bindr; [apply safe_load|]. intros o. apply safe_neutral.
  walk; eauto with rentals.
Qed.

Lemma safe_logs m id follow tail_lines : safe (stream_logs m id follow tail_lines).
Proof.
  apply safe_bindr; [apply safe_load|]. intros o. apply safe_neutral.
  unfold ContainerClient_stream_logs. walk.
Qed.

Lemma close_session_neutral r : only neutral (close_ssh_session r).
Proof. unfold close_ssh_session. walk. Qed.

Lemma safe_stop m id force : safe (stop_rental m id force).
Proof.
  intros K. apply kwp_bindr, kwp_load. intros [[r|]|e] K' Hr; try done.
  apply kwp_bindr. cbn [kwp found]. apply kwp_bindr, kwp_neutral; [apply stop_container_neutral|].
  intros [u|e]; [|done]. apply kwp_bind, kwp_neutral; [apply close_session_neutral|]. intros _.
  apply kwp_bindr, kwp_save_terminal; [done|by left|]. intros [[]|e] K'' _; [|done].
  apply kwp_bind, kwp_neutral; [apply record_neutral|done].
Qed.

Lemma next_state_terminal s c s' : next_state s c = Some s' -> terminal_text (state_text s').
Proof. intros E. destruct c as [[[]|]|], s; cbn in E; simplify_eq; first [by left | by right]. Qed.

Lemma kwp_check key r K : is_known K r -> kwp (check_rental_health key r) (fun _ K' => known K' = known K) K.
Proof.
  intros Hr. destruct key as [[pub path]|]; [|done]. cbn [check_rental_health].
  apply kwp_bind, kwp_neutral; [apply health_neutral|]. intros c.
  destruct (next_state (state r) c) as [s|] eqn:Es; [|done].
  apply kwp_bind, kwp_save_terminal; [done|by eapply next_state_terminal|].
  intros [[]|e] K' EK; [|done]. apply kwp_bindr. cbn [kwp context].
  apply kwp_bind, kwp_neutral; [|done]. destruct s; try done; apply record_neutral.
Qed.

Lemma safe_check key l K : Forall (is_known K) l -> kwp (check_rentals key l) (fun _ _ => True) K.
Proof.
  intros Hl. revert K Hl. induction l as [|r l IH]; intros K Hl; [done|].
  apply Forall_cons in Hl as [Hr Hl]. cbn [check_rentals].
  apply kwp_bind. eapply kwp_impl; [|by apply kwp_check]. intros a K' EK. apply IH. cbn in EK.
  unfold is_known in *. by rewrite EK.
Qed.

Lemma safe_monitor key ticks : safe (monitoring_loop key ticks).
Proof.
  induction ticks as [|n IH]; [done|]. cbn [monitoring_loop]. apply safe_bind; [|done].
  intros K. apply kwp_bind, kwp_query. intros [l|e] K' _ Hl; [|done].
  apply kwp_bindr. cbn [kwp context]. apply kwp_bind. eapply kwp_impl; [|by apply safe_check]. done.
Qed.

Lemma safe_metrics : safe initialize_rental_metrics.
Proof.
  apply safe_bindr; [apply safe_query|]. intros l. apply safe_neutral. apply only_bind; [|done].
  induction l as [|r l IH]; [done|]. cbn [record_rentals]. apply only_bind; [apply record_neutral|done].
Qed.

Lemma safe_start m request : safe (start_rental m request).
Proof.
  intros K. apply kwp_bind. split; [done|]. intros uuid. cbn [kwp learns].
  destruct (ssh_key_manager m) as [[[pub path]|]|]; [|done|done].
  apply kwp_bindr, kwp_neutral; [unfold initiate_rental_ssh_session; walk|].
  intros [s|e]; [|done]. apply kwp_bind, kwp_neutral; [apply deploy_neutral|].
  intros [info|e]; [|apply safe_neutral; walk].
  unfold register_rental. apply kwp_bindr, kwp_neutral; [unfold executor_details_for; walk|].
  intros [d|e]; [|done]. apply kwp_bind. split; [done|]. intros now.
  apply kwp_bindr, kwp_save_active; [cbn; set_solver|done|]. intros [[]|e] K'; [|done].
  apply safe_neutral. walk; apply record_neutral.
Qed.
End Programs.

(** ** Configurations *)

Inductive request :=
  | RStart (r : StartRentalRequest)
  | RStatus (id : string)
  | RStop (id : string)
  | RLogs (id : string) (follow : option bool) (tail_lines : option Z)
  | RList (by_state : option RentalState)
  | RMetrics
  | RMonitor (ticks : nat).

Definition ignore {A} (p : prog A) : prog unit := bind p (fun _ => Ret tt).

Section Pool.
Context `{Libraries} `{HashOrder} (env : RentalEnv) (api : ApiState).

Definition program_of (r : request) : prog unit :=
  match r with
  | RStart r => ignore (route_start_rental api r)
  | RStatus id => ignore (route_get_rental_status api id)
  | RStop id => ignore (route_stop_rental api id)
  | RLogs id follow tail_lines => ignore (route_stream_rental_logs api id follow tail_lines)
  | RList by_state => ignore (route_list_rentals api by_state)
  | RMetrics => ignore initialize_rental_metrics
  | RMonitor ticks => monitoring_loop (rental_manager api ≫= persistent_key) ticks
  end.

Definition configuration : Type := list (prog unit) * RentalWorld.

Inductive step : configuration -> configuration -> Prop :=
  | step_request pool w r : step (pool, w) (pool ++ [program_of r], w)
  | step_effect pool w i X (e : effect X) k x w' :
      pool !! i = Some (Do e k) -> perform env w e = (x, w') ->
      step (pool, w) (<[i := k x]> pool, w').

Definition started (t : gmap string RentalRow) : configuration :=
  ([], {| table := t; gauges := ∅; trace := [] |}).

Lemma safe_program r : safe (program_of r).
Proof.
  destruct r as [r|id|id|id fo ta|s| |n]; cbn [program_of]; try apply safe_monitor;
    unfold ignore; (apply safe_bind; [|intros; apply safe_ret]).
  - unfold route_start_rental, status. repeat (apply safe_bindr; [apply safe_neutral; walk|intros ?]).
    destruct (negb (is_valid_ssh_public_key _)); [done|]. destruct (negb (is_Ok _)); [done|].
    repeat (apply safe_bindr; [apply safe_neutral; unfold or_status; walk|intros ?]).
    apply safe_bind; [apply safe_start | intros; apply safe_ret].
  - unfold route_get_rental_status, status.
    apply safe_bindr; [apply safe_ret|intros m].
    apply safe_bindr; [apply safe_bind; [apply safe_load | intros; apply safe_ret]|intros o].
    apply safe_bindr; [apply safe_ret|intros i].
    apply safe_bindr; [apply safe_bind; [apply safe_status | intros; apply safe_ret]|intros; apply safe_ret].
  - apply safe_bindr; [apply safe_ret|intros m].
    apply safe_bind; [apply safe_stop | intros; apply safe_ret].
  - apply safe_bindr; [apply safe_ret|intros m].
    apply safe_bind; [apply safe_logs | intros; apply safe_ret].
  - apply safe_bindr; [apply safe_ret|intros m].
    apply safe_bindr; [apply safe_bind; [apply safe_query | intros; apply safe_ret]|intros; apply safe_ret].
  - apply safe_metrics.
Qed.

(** ** The invariant *)

Definition rid (n : nat) : string := "rental-" +:+ answer env n NewUuid.

(** Identifiers are made up at random: no two are the same. *)
Definition distinct_uuids : Prop :=
  forall n m, answer env n NewUuid = answer env m NewUuid -> n = m.

Lemma rid_inj n m : distinct_uuids -> rid n = rid m -> n = m.
Proof. intros Hd E. by apply str_app_cancel, Hd in E. Qed.

(** The identifiers to come are not in use, what programs own is new and theirs alone, and
    what they have read is still true. *)
Record coherent (w : RentalWorld) (Ks : list knowledge) : Prop := {
  co_future : forall n, (length (trace w) <= n)%nat -> table w !! rid n = None;
  co_own : forall i K id, Ks !! i = Some K -> id ∈ own K ->
    table w !! id = None /\ exists n, (n < length (trace w))%nat /\ id = rid n;
  co_alone : forall i j K L, i <> j -> Ks !! i = Some K -> Ks !! j = Some L -> own K ## own L;
  co_known : forall i K id c, Ks !! i = Some K -> (id, c) ∈ known K ->
    exists r, table w !! id = Some r /\ columns_of r = c
}.

(** The columns of a rental, without its state. *)
Definition fixed_columns (r : RentalRow) : columns * (string * string * Z * string) :=
  (columns_of r, (row_validator_hotkey r, row_executor_id r, row_created_at r, row_container_spec r)).

(** What may happen to the table: rentals stay, keep their columns and either their state or
    reach a terminal one; new rentals are active or have ended. *)
Record follows (t t' : gmap string RentalRow) : Prop := {
  fo_old : forall id r, t !! id = Some r -> exists r', t' !! id = Some r' /\
    fixed_columns r' = fixed_columns r /\ (row_state r' = row_state r \/ terminal_text (row_state r'));
  fo_new : forall id r', t' !! id = Some r' -> t !! id = None ->
    row_state r' = "active" \/ terminal_text (row_state r')
}.

#[export] Instance follows_preorder : PreOrder follows.
Proof.
  split.
  - intros t. split; [|intros; congruence]. intros id r Hr. exists r. auto.
  - intros t1 t2 t3 [O1 N1] [O2 N2]. split.
    + intros id r Hr. destruct (O1 id r Hr) as (r2 & H2 & F2 & S2).
      destruct (O2 id r2 H2) as (r3 & H3 & F3 & S3). exists r3. repeat split; [done|congruence|].
      destruct S3 as [-> | S3]; [done|by right].
    + intros id r3 H3 H1. destruct (t2 !! id) as [r2|] eqn:H2; [|by apply (N2 id)].
      destruct (O2 id r2 H2) as (r3' & H3' & _ & S3). simplify_eq.
      destruct S3 as [-> | S3]; [by apply (N1 id) | by right].
Qed.

Lemma lookup_update {A} (l : list A) i j x y :
  <[i := x]> l !! j = Some y -> (i = j /\ x = y) \/ (i <> j /\ l !! j = Some y).
Proof.
  intros E. destruct (decide (i = j)) as [<- | Hij]; [left | right].
  - apply list_lookup_insert_Some in E as [(_ & ? & _) | (? & _)]; done.
  - by rewrite list_lookup_insert_ne in E.
Qed.

(** An effect that leaves the table alone, by a program that keeps what it owns. *)
Lemma coherent_read w w' Ks i K K' :
  coherent w Ks -> Ks !! i = Some K -> table w' = table w -> (length (trace w) <= length (trace w'))%nat ->
  own K' ⊆ own K ->
  (forall id c, (id, c) ∈ known K' -> exists r, table w !! id = Some r /\ columns_of r = c) ->
  coherent w' (<[i := K']> Ks).
Proof.
  intros [F O A N] Hi Ht Hl Ho Hk. split; rewrite ?Ht.
  - intros n Hn. apply F. lia.
  - intros j L id Hj Hid.
    assert (exists j L', Ks !! j = Some L' /\ id ∈ own L') as (j' & L' & Hj' & Hid').
    { apply lookup_update in Hj as [[-> ->] | [? Hj]]; [exists j, K; set_solver | by exists j, L]. }
    destruct (O _ _ _ Hj' Hid') as [? (n & ? & ->)]. split; [done|]. exists n. split; [lia|done].
  - intros j1 j2 L1 L2 Hne H1 H2.
    apply lookup_update in H1 as [[-> ->] | [? H1]], H2 as [[-> ->] | [? H2]]; try done.
    + specialize (A _ _ _ _ Hne Hi H2). set_solver.
    + specialize (A _ _ _ _ Hne H1 Hi). set_solver.
    + exact (A _ _ _ _ Hne H1 H2).
  - intros j L id c Hj Hc. apply lookup_update in Hj as [[-> ->] | [? Hj]]; eauto.
Qed.

(** A new identifier. *)
Lemma coherent_uuid w w' Ks i K :
  coherent w Ks -> Ks !! i = Some K -> table w' = table w ->
  trace w' = Event NewUuid (answer env (length (trace w)) NewUuid) :: trace w ->
  distinct_uuids ->
  coherent w' (<[i := learns K NewUuid (answer env (length (trace w)) NewUuid)]> Ks).
Proof.
  intros [F O A N] Hi Ht Hl Hd. set (n0 := length (trace w)).
  assert (Hlen : length (trace w') = S n0) by (rewrite Hl; done).
  assert (Hnew : forall j L, Ks !! j = Some L -> rid n0 ∉ own L).
  { intros j L Hj Hin. destruct (O _ _ _ Hj Hin) as [_ (n & Hn & E)].
    apply rid_inj in E; [lia|done]. }
  split; rewrite ?Ht, ?Hlen.
  - intros n Hn. apply F. lia.
  - intros j L id Hj Hid. apply lookup_update in Hj as [[-> <-] | [? Hj]].
    + cbn [learns own] in Hid. apply elem_of_union in Hid as [Hid | Hid].
      * apply elem_of_singleton in Hid as ->. split; [by apply F|]. exists n0. split; [lia|done].
      * destruct (O _ _ _ Hi Hid) as [? (n & ? & ->)]. split; [done|]. exists n. split; [lia|done].
    + destruct (O _ _ _ Hj Hid) as [? (n & ? & ->)]. split; [done|]. exists n. split; [lia|done].
  - intros j1 j2 L1 L2 Hne H1 H2.
    apply lookup_update in H1 as [[-> <-] | [? H1]], H2 as [[-> <-] | [? H2]]; try done; cbn [learns own].
    + specialize (A _ _ _ _ Hne Hi H2). specialize (Hnew _ _ H2). fold n0 in Hnew. unfold rid in Hnew. set_solver.
    + specialize (A _ _ _ _ Hne H1 Hi). specialize (Hnew _ _ H1). unfold rid in Hnew. set_solver.
    + exact (A _ _ _ _ Hne H1 H2).
  - intros j L id c Hj Hc. apply lookup_update in Hj as [[-> <-] | [? Hj]]; eauto.
Qed.

(** A statement that changes one row: the other programs own other identifiers, and what is
    known of the row stays true. *)
Lemma coherent_write w w' Ks i K id r :
  distinct_uuids -> coherent w Ks -> Ks !! i = Some K -> table w' = <[id := r]> (table w) ->
  (length (trace w) <= length (trace w'))%nat ->
  (id ∈ own K \/ exists old, table w !! id = Some old /\ columns_of old = columns_of r) ->
  coherent w' (<[i := {| own := own K ∖ {[ id ]}; known := known K |}]> Ks).
Proof.
  intros Hd [F O A N] Hi Ht Hl Hid.
  assert (Hothers : forall j L, Ks !! j = Some L -> i <> j -> id ∉ own L).
  { intros j L Hj Hij Hin. destruct Hid as [Hid | (old & Hold & _)].
    - specialize (A _ _ _ _ Hij Hi Hj). set_solver.
    - destruct (O _ _ _ Hj Hin). congruence. }
  assert (Hown : forall j L x, Ks !! j = Some L -> x ∈ own L -> x <> id ->
    <[id := r]> (table w) !! x = None /\ exists n, (n < length (trace w'))%nat /\ x = rid n).
  { intros j L x Hj Hx Hne. destruct (O _ _ _ Hj Hx) as [? (n & ? & ->)].
    rewrite lookup_insert_ne by done. split; [done|]. exists n. split; [lia|done]. }
  split; rewrite ?Ht.
  - intros n Hn. rewrite lookup_insert_ne; [apply F; lia|]. intros ->. destruct Hid as [Hid | (old & Hold & _)].
    + destruct (O _ _ _ Hi Hid) as [_ (m & Hm & E)]. apply rid_inj in E; [lia|done].
    + rewrite F in Hold by lia. done.
  - intros j L x Hj Hx. apply lookup_update in Hj as [[-> <-] | [? Hj]].
    + cbn [own] in Hx. eapply Hown; [exact Hi|set_solver|set_solver].
    + eapply Hown; [exact Hj|done|]. intros ->. by eapply Hothers.
  - intros j1 j2 L1 L2 Hne H1 H2.
    apply lookup_update in H1 as [[-> <-] | [? H1]], H2 as [[-> <-] | [? H2]]; try done; cbn [own].
    + specialize (A _ _ _ _ Hne Hi H2). set_solver.
    + specialize (A _ _ _ _ Hne H1 Hi). set_solver.
    + exact (A _ _ _ _ Hne H1 H2).
  - intros j L x c Hj Hc.
    assert (exists r', table w !! x = Some r' /\ columns_of r' = c) as (r' & Hr' & Ec).
    { apply lookup_update in Hj as [[-> <-] | [? Hj]]; eauto. }
    destruct (decide (x = id)) as [-> | Hne]; [|rewrite lookup_insert_ne by done; eauto].
    rewrite lookup_insert_eq. exists r. split; [done|]. destruct Hid as [Hid | (old & Hold & Eo)].
    + destruct (O _ _ _ Hi Hid). congruence.
    + congruence.
Qed.

Lemma follows_insert t id r :
  t !! id = None -> row_state r = "active" -> follows t (<[id := r]> t).
Proof.
  intros Hn Hs. split.
  - intros x rx Hx. exists rx. rewrite lookup_insert_ne by congruence. auto.
  - intros x rx Hx Hnone. destruct (decide (x = id)) as [-> | Hne].
    + rewrite lookup_insert_eq in Hx. simplify_eq. auto.
    + rewrite lookup_insert_ne in Hx by done. congruence.
Qed.

Lemma follows_update t id old r :
  t !! id = Some old -> fixed_columns r = fixed_columns old -> terminal_text (row_state r) ->
  follows t (<[id := r]> t).
Proof.
  intros Ho Hf Ht. split.
  - intros x rx Hx. destruct (decide (x = id)) as [-> | Hne].
    + rewrite lookup_insert_eq. assert (rx = old) as -> by congruence. exists r. auto.
    + exists rx. rewrite lookup_insert_ne by done. auto.
  - intros x rx Hx Hnone. rewrite lookup_insert_ne in Hx by congruence. congruence.
Qed.

(** The statement that stores a rental. *)
Lemma step_upsert w Ks i K id r x w' :
  distinct_uuids -> coherent w Ks -> Ks !! i = Some K -> demands K (UpsertRental id r) ->
  perform env w (UpsertRental id r) = (x, w') ->
  coherent w' (<[i := learns K (UpsertRental id r) x]> Ks) /\ follows (table w) (table w').
Proof.
  intros Hd Hc Hi Hdem E. unfold perform, statement in E. cbn [learns].
  destruct (statement_fails env (length (trace w))); injection E as <- <-.
  { split; [|reflexivity]. eapply coherent_read; [done|done|done|cbn; lia|cbn; set_solver|].
    intros y c Hy. eapply (co_known _ _ Hc i); done. }
  cbn [record_event set_table table]. unfold upsert. destruct Hdem as [[Hid Hs] | [Hk Hs]].
  - destruct (co_own _ _ Hc _ _ _ Hi Hid) as [Hn _]. rewrite Hn.
    split; [|by apply follows_insert]. eapply coherent_write; [done|done|done|reflexivity|cbn; lia|by left].
  - destruct (co_known _ _ Hc _ _ _ _ Hi Hk) as (old & Ho & Ec). rewrite Ho. split.
    + eapply coherent_write; [done|done|done|reflexivity|cbn; lia|].
      right. exists old. split; [done|]. by rewrite Ec.
    + eapply follows_update; [done| |done]. unfold fixed_columns, columns_of in *. cbn. congruence.
Qed.

(** What a query returns is true of the table. *)
Lemma known_select w K f x w' id c :
  perform env w (SelectRentals f) = (x, w') ->
  (forall id c, (id, c) ∈ known K -> exists r, table w !! id = Some r /\ columns_of r = c) ->
  (id, c) ∈ known (learns K (SelectRentals f) x) ->
  exists r, table w !! id = Some r /\ columns_of r = c.
Proof.
  intros E HK. unfold perform, statement in E.
  destruct (statement_fails env _); injection E as <- <-; cbn [learns known]; [apply HK|].
  intros [Hin | Hin]%elem_of_app; [|by apply HK].
  apply list_elem_of_fmap in Hin as ([id' r] & E & Hin). cbn in E. injection E as -> ->.
  exists r. split; [|done]. by apply elem_of_select_rows in Hin as [Hin _].
Qed.

(** Any effect of a safe program. *)
Lemma step_coherent w Ks i K {X} (e : effect X) x w' :
  distinct_uuids -> coherent w Ks -> Ks !! i = Some K -> demands K e -> perform env w e = (x, w') ->
  coherent w' (<[i := learns K e x]> Ks) /\ follows (table w) (table w').
Proof.
  intros Hd Hc Hi Hdem E.
  assert (Hread : table w' = table w -> (forall y, own (learns K e y) ⊆ own K) ->
    (forall id c, (id, c) ∈ known (learns K e x) -> exists r, table w !! id = Some r /\ columns_of r = c) ->
    coherent w' (<[i := learns K e x]> Ks) /\ follows (table w) (table w')).
  { intros Ht Ho Hk. split; [|by rewrite Ht].
    eapply coherent_read; try done. apply trace_perform in E. rewrite E. cbn. lia. }
  destruct e; try (apply Hread; [by injection E as <- <-|done|by intros; eapply (co_known _ _ Hc i)]).
  - split; [|by injection E as <- <-].
    injection E as <- <-. by eapply coherent_uuid.
  - apply Hread; [|intros [|]; cbn; set_solver|].
    + unfold perform, statement in E. destruct (statement_fails env _); by injection E as <- <-.
    + intros id c. eapply known_select; [exact E|]. by intros; eapply (co_known _ _ Hc i).
  - by eapply step_upsert.
  - destruct Hdem.
Qed.

(** Every program is safe with what it has learnt. *)
Definition invariant (c : configuration) : Prop :=
  exists Ks, Forall2 (fun p K => kwp p (fun _ _ => True) K) c.1 Ks /\ coherent c.2 Ks.

Lemma step_invariant c c' :
  distinct_uuids -> invariant c -> step c c' -> invariant c' /\ follows (table c.2) (table c'.2).
Proof.
  intros Hd (Ks & HK & Hc) Hs. destruct Hs as [pool w r|pool w i X e k x w' Hi E]; cbn in *.
  - split; [|reflexivity]. exists (Ks ++ [{| own := ∅; known := [] |}]). split.
    + apply Forall2_app; [done|]. apply Forall2_cons; split; [apply safe_program|done].
    + destruct Hc as [F O A N].
      assert (Hl : forall j L, (Ks ++ [{| own := ∅; known := [] |}]) !! j = Some L ->
        Ks !! j = Some L \/ L = {| own := ∅; known := [] |}).
      { intros j L Hj. apply lookup_app_Some in Hj as [? | [_ Hj]]; [by left|right].
        by apply list_lookup_singleton_Some in Hj as [_ <-]. }
      split; [done| | |].
      * intros j L id Hj Hid. destruct (Hl _ _ Hj) as [? | ->]; [eauto|]. set_solver.
      * intros j1 j2 L1 L2 Hne H1 H2.
        destruct (Hl _ _ H1) as [? | ->]; [|set_solver]. destruct (Hl _ _ H2) as [? | ->]; [|set_solver]. eauto.
      * intros j L id c Hj Hc. destruct (Hl _ _ Hj) as [? | ->]; [eauto|]. by apply elem_of_nil in Hc.
  - destruct (Forall2_lookup_l _ _ _ _ _ HK Hi) as (K & HiK & [Hdem Hk]).
    destruct (step_coherent w Ks i K e x w' Hd Hc HiK Hdem E) as [Hc' Hf]. split; [|done].
    exists (<[i := learns K e x]> Ks). split; [|done]. apply Forall2_insert; [done|]. apply Hk.
Qed.

Lemma run_invariant c c' :
  distinct_uuids -> invariant c -> rtc step c c' -> invariant c' /\ follows (table c.2) (table c'.2).
Proof.
  intros Hd Hi Hs. induction Hs as [c | c c1 c' Hs _ IH]; [by split|].
  destruct (step_invariant c c1 Hd Hi Hs) as [Hi1 Hf1]. destruct (IH Hi1) as [Hi' Hf']. split; [done|].
  by transitivity (table c1.2).
Qed.

Lemma started_invariant t : (forall n, t !! rid n = None) -> invariant (started t).
Proof. intros Ht. exists []. split; [constructor|]. split; try done. Qed.
End Pool.

(** ** Schedules *)

(** Start a request, or perform [n] effects of program [i]. *)
Inductive turn := Arrive (r : request) | Advance (i n : nat).

Section Schedule.
Context (env : RentalEnv) (api : ApiState).

Definition advance1 (i : nat) (c : configuration) : configuration :=
  match c.1 !! i with
  | Some (Do e k) => let '(x, w') := perform env c.2 e in (<[i := k x]> c.1, w')
  | _ => c
  end.

Definition play1 (c : configuration) (t : turn) : configuration :=
  match t with
  | Arrive r => (c.1 ++ [program_of api r], c.2)
  | Advance i n => Nat.iter n (advance1 i) c
  end.

Definition play (l : list turn) (c : configuration) : configuration := fold_left play1 l c.

Lemma advance1_steps i c : rtc (step env api) c (advance1 i c).
Proof.
  destruct c as [pool w]. unfold advance1. cbn [fst snd].
  destruct (pool !! i) as [[a|X e k]|] eqn:Ei; [reflexivity| |reflexivity].
  destruct (perform env w e) as [x w'] eqn:Ex. apply rtc_once. by econstructor.
Qed.

Lemma play_steps l c : rtc (step env api) c (play l c).
Proof.
  revert c. induction l as [|t l IH]; intros c; [reflexivity|]. cbn [play fold_left].
  etransitivity; [|apply IH]. destruct t as [r|i n]; cbn [play1].
  - destruct c as [pool w]. apply rtc_once. constructor.
  - induction n as [|n IHn]; [reflexivity|]. etransitivity; [exact IHn|]. apply advance1_steps.
Qed.
End Schedule.

Lemma demo_distinct fails down : distinct_uuids (demo_env fails down).
Proof. intros n m E. cbn in E. by apply (inj pretty) in E. Qed.

(** ** The life of a rental *)

(** C21: Requests and the health monitor run interleaved in any way, with any statements lost
    and any answers from executors and miners.  Between any two moments no rental disappears,
    no column of a rental changes but its state, and the state changes only to "stopped" or
    "failed": a rental that has ended is never active again.  Rentals that appear were stored
    as active. *)
Theorem rentals_never_revive `{Libraries, HashOrder} env api t c c' :
  distinct_uuids env -> (forall n, t !! rid env n = None) ->
  rtc (step env api) (started t) c -> rtc (step env api) c c' ->
  follows (table c.2) (table c'.2).
Proof.
  intros Hd Ht H1 H2. apply started_invariant in Ht.
  apply run_invariant in H1 as [Hi _]; [|done|done]. by apply run_invariant in H2 as [_ Hf].
Qed.

(** A rental is started; the monitor has read it when a stop request goes through; then the
    monitor finds the container down and stores its own verdict. *)
Definition life_turns : list turn := [Arrive (RStart demo_start); Advance 0 40].
Definition end_turns : list turn :=
  [Arrive (RMonitor 1); Advance 1 2; Arrive (RStop "rental-3"); Advance 2 40; Advance 1 40].
Definition life_env : RentalEnv := demo_env (fun _ => false) 15.

Definition state_at (id : string) (c : configuration) : option string := row_state <$> table c.2 !! id.

Lemma rentals_never_revive_witness :
  let c := play life_env demo_api life_turns (started ∅) in
  let c' := play life_env demo_api end_turns c in
  state_at "rental-3" c = Some "active" /\ state_at "rental-3" c' = Some "stopped" /\
  follows (table c.2) (table c'.2).
Proof.
  split; [vm_compute; reflexivity|]. split; [vm_compute; reflexivity|].
  apply (rentals_never_revive life_env demo_api ∅).
  - apply demo_distinct.
  - intros n. apply lookup_empty.
  - apply play_steps.
  - apply play_steps.
Defined.

(** ** The health monitor *)

(** One rental whose specification cannot be read, and the monitor looks at none: the pass
    ends with an error, and the table keeps its states. *)
Definition unreadable_row : RentalRow := {|
  row_validator_hotkey := "validator"; row_executor_id := "executor"; row_container_id := "c2";
  row_ssh_session_id := "s2"; row_ssh_credentials := "ops@10.0.0.2:22"; row_state := "active";
  row_created_at := 1; row_container_spec := "?"; row_miner_id := "miner_8" |}.
Definition readable_row : RentalRow := {|
  row_validator_hotkey := "validator"; row_executor_id := "executor"; row_container_id := "c1";
  row_ssh_session_id := "s1"; row_ssh_credentials := "ops@10.0.0.1:22"; row_state := "active";
  row_created_at := 2; row_container_spec := "spec"; row_miner_id := "miner_7" |}.

Definition monitor_pass (t : gmap string RentalRow) : result string unit * RentalWorld :=
  run (demo_env (fun _ => false) 0) (check_all_rentals (Some ("", "/keys/id")))
    {| table := t; gauges := ∅; trace := [] |}.

Example unreadable_row_blocks_monitor :
  (monitor_pass {["a" := readable_row]}).2.(table) !! "a"
    = Some {| row_validator_hotkey := "validator"; row_executor_id := "executor"; row_container_id := "c1";
              row_ssh_session_id := "s1"; row_ssh_credentials := "ops@10.0.0.1:22"; row_state := "stopped";
              row_created_at := 2; row_container_spec := "spec"; row_miner_id := "miner_7" |} /\
  (monitor_pass {["a" := readable_row; "b" := unreadable_row]}).1
    = Err "Failed to query non-terminal rentals" /\
  (monitor_pass {["a" := readable_row; "b" := unreadable_row]}).2.(table) !! "a" = Some readable_row.
Proof. split; [|split]; vm_compute; reflexivity. Qed.

(** What the states of a rental become after a check. *)
Lemma next_state_cases s check :
  next_state s check = None <->
  check = Some (Ok true) \/ (check <> None /\ (s = Stopped \/ s = Failed)).
Proof. destruct check as [[[]|e]|], s; naive_solver. Qed.

(** ** Log lines *)

(** A message is at most as long as allowed, apart from the mark of its truncation; the
    reading task panics exactly for a longer one that is cut inside a character. *)
Lemma truncate_message_bound max message :
  match truncate_message max message with
  | Ok m => (String.length m <= max + 15)%nat
  | Err _ => (max < String.length message)%nat /\ is_char_boundary max message = false
  end.
Proof.
  unfold truncate_message. destruct (max <? String.length message)%nat eqn:E.
  - apply Nat.ltb_lt in E. destruct (is_char_boundary max message) eqn:Eb; [|done].
    rewrite length_str_app, length_take_str by lia. cbn. lia.
  - apply Nat.ltb_ge in E. lia.
Qed.

(** Two bytes per character, and an odd bound. *)
Example long_line_panics :
  read_lines [(0, concat_str (replicate 3 (String (ascii_of_nat 195) (String (ascii_of_nat 169) EmptyString))))]
    "stdout" "c1" 3 10 = ([], true).
Proof. vm_compute. reflexivity. Qed.
