(* ===== verification/DeploymentClaims.v ===== *)
(** * Validator rentals: what is sent to executors, and how a start ends *)

From stdpp Require Import base gmap strings list.
From Stdlib Require Import Ascii ZArith.
From S2P Require Import Prelude.
From S2P Require Import Bytes.
From S2P Require Import Text.
From S2P Require Import Float64.
From S2P Require Import TextOps.
From S2P Require Import Collections.
From S2P Require Import VRentalTypes.
From S2P Require Import ContainerClient.
From S2P Require Import Deployment.
From S2P Require Import VRentals.
From S2P Require Import VRentalFacts.
Local Open Scope Z_scope.

(** ** Deployments comply *)

(** Only the validator's own file system was asked. *)
Definition asked_paths (v : event) : Prop := match v with Event e _ => asks_paths _ e end.

(** The command that runs the container, with the flags of the client. *)
Definition docker_run_argv `{Libraries, HashOrder} (c : ContainerClient) (spec : ContainerSpec) (id : string)
  : list string := ssh_argv c (join " " (docker_words spec id)).

Section Comply.
Context `{Libraries} `{HashOrder} (env : RentalEnv).

(** A refused specification reaches nobody. *)
Lemma deploy_refused config c spec id key w :
  ~ compliant config (canonical_paths env (length (trace w)) (volumes spec)) spec ->
  exists l w', run env (deploy_container config c spec id key) w =
    (Err "Container specification validation failed", w') /\ trace w' = l ++ trace w /\ Forall asked_paths l.
Proof.
  intros Hn. unfold deploy_container. rewrite run_bind.
  destruct (run env (validate_container_spec config spec) w) as [r w1] eqn:Ev.
  destruct (only_run asks_paths env _ _ _ _ (validate_asks config spec) Ev) as (l & Hl & Hf).
  apply validate_ok in Ev. exists l, w1. destruct r as [[]|e]; [destruct Hn; by apply Ev|done].
Qed.

(** An accepted one is run first of all. *)
Lemma deploy_accepted config c spec id key w r w' :
  compliant config (canonical_paths env (length (trace w)) (volumes spec)) spec ->
  run env (deploy_container config c spec id key) w = (r, w') ->
  exists l1 l2 out, trace w' = l2 ++ Event (Ssh (docker_run_argv c (apply_security_policies spec) id)) out :: l1 ++ trace w
    /\ Forall asked_paths l1.
Proof.
  intros Hc E. unfold deploy_container in E. rewrite run_bind in E.
  destruct (run env (validate_container_spec config spec) w) as [rv w1] eqn:Ev.
  destruct (only_run asks_paths env _ _ _ _ (validate_asks config spec) Ev) as (l1 & Hl1 & Hf).
  apply validate_ok, proj2 in Ev. specialize (Ev Hc) as ->. cbn [context] in E.
  rewrite run_bindr in E. cbn [run] in E. apply run_first in E as (l2 & out & E).
  rewrite docker_run_words, Hl1 in E. by exists l1, l2, out.
Qed.
End Comply.

(** C27: The validator runs a container exactly for the specifications its policy allows.
    For every configuration, specification and answer of the file system: if the image is a
    valid reference, not blocked and from an allowed registry, the resources are within the
    limits, the network mode is allowed, each volume has absolute paths and a canonical host
    path outside the sensitive directories, and each port is in range, not blocked and tcp or
    udp, then the first thing sent to the executor is the command whose words are given by
    the specification without the dangerous capabilities; otherwise nothing is sent at all
    and the deployment fails. *)
Theorem deployments_comply `{Libraries, HashOrder} env config c spec id key w r w' :
  run env (deploy_container config c spec id key) w = (r, w') ->
  let canonical := canonical_paths env (length (trace w)) (volumes spec) in
  Forall (fun cap => cap ∉ dangerous_caps) (capabilities (apply_security_policies spec)) /\
  (compliant config canonical spec ->
    exists l1 l2 out, Forall asked_paths l1 /\
      trace w' = l2 ++ Event (Ssh (docker_run_argv c (apply_security_policies spec) id)) out :: l1 ++ trace w) /\
  (~ compliant config canonical spec ->
    r = Err "Container specification validation failed" /\
    exists l, trace w' = l ++ trace w /\ Forall asked_paths l).
Proof.
  intros E. split; [|split].
  - apply Forall_forall. intros cap Hin. cbn [apply_security_policies capabilities] in Hin.
    apply list_elem_of_In, filter_In in Hin as [_ Hn]. rewrite <- mem_str_spec. by destruct (mem_str _ _).
  - intros Hc. destruct (deploy_accepted env config c spec id key w r w' Hc E) as (l1 & l2 & out & ? & ?).
    by exists l1, l2, out.
  - intros Hn. destruct (deploy_refused env config c spec id key w Hn) as (l & w1 & E1 & ? & ?).
    rewrite E1 in E. injection E as <- <-. split; [done|]. by exists l.
Qed.

(** The specification of the scenario is accepted: the words of its command, in which the
    capability SYS_ADMIN is gone. *)
Definition demo_client : ContainerClient := ContainerClient_new "ops@10.0.0.1:2222" None.
Definition demo_deploy : result string ContainerInfo * RentalWorld :=
  run (demo_env (fun _ => false) 100)
    (deploy_container DeploymentConfig_default demo_client demo_spec "rental-0" "ssh-ed25519 AAAA") empty_world.
Definition demo_validate : result string unit * RentalWorld :=
  run (demo_env (fun _ => false) 100) (validate_container_spec DeploymentConfig_default demo_spec) empty_world.

Lemma demo_compliant :
  compliant DeploymentConfig_default
    (canonical_paths (demo_env (fun _ => false) 100) (length (trace empty_world)) (volumes demo_spec)) demo_spec.
Proof.
  apply (validate_ok DeploymentConfig_default (demo_env (fun _ => false) 100) demo_spec empty_world
           demo_validate.1 demo_validate.2 (surjective_pairing _)).
  vm_compute. reflexivity.
Qed.

Lemma deployments_comply_witness :
  is_Ok demo_deploy.1 = true /\
  docker_words (apply_security_policies demo_spec) "rental-0" =
    ["docker"; "run"; "-d"; "-it"; "--name"; "basilica-rental-rental-0"; "--label";
     "basilica.rental_id=rental-0"; "--label"; "io.kubernetes.cri-o.userns-mode=auto"; "--label";
     "basilica.security.isolated=true"; "-e"; "MODE=train"; "-p"; "0:22"; "--cpus"; "1.5"; "-m"; "1024m";
     "--gpus"; "all"; "--runtime"; "nvidia"; "-v"; "/data:/mnt:ro"; "--cap-add"; "CHOWN"; "--network"; "bridge";
     "nvidia/cuda"; "/bin/bash"] /\
  exists l1 l2 out, Forall asked_paths l1 /\
    trace demo_deploy.2 = l2 ++
      Event (Ssh (docker_run_argv demo_client (apply_security_policies demo_spec) "rental-0")) out :: l1 ++ [].
Proof.
  split; [vm_compute; reflexivity|]. split; [vm_compute; reflexivity|].
  exact (proj1 (proj2 (deployments_comply (demo_env (fun _ => false) 100) DeploymentConfig_default demo_client
    demo_spec "rental-0" "ssh-ed25519 AAAA" empty_world demo_deploy.1 demo_deploy.2 (surjective_pairing _)))
    demo_compliant).
Defined.

(** ** Commands about a container *)

(** Letters, digits and the bytes of characters beyond ASCII. *)
Definition word_byte (a : ascii) : bool := ascii_alphabetic a || is_digit a || (128 <=? char_byte a).
Definition container_word (i : string) : Prop :=
  i <> "" /\ (String.length i <= 64)%nat /\ all_bytes word_byte i = true.

(** Bytes that have no meaning to a shell, and the space between words. *)
Definition harmless (a : ascii) : bool := word_byte a || Ascii.eqb a "-" || Ascii.eqb a " ".

Definition container_commands (i : string) : list (list string) :=
  [["docker"; "inspect"; i]; ["docker"; "stats"; i; "--no-stream"; "--format"; "json"];
   ["docker"; "stop"; i]; ["docker"; "kill"; i]; ["docker"; "rm"; "-f"; i]].

Definition container_command (i cmd : string) : Prop :=
  container_word i /\ split_char " " cmd ∈ container_commands i /\ all_bytes harmless cmd = true.

(** Remote commands go to the client [c] and are about the container [i]; the table is left
    alone. *)
Definition on_container (c : ContainerClient) (i : string) : pred := fun X e =>
  match e with
  | Ssh argv => exists cmd, argv = ssh_argv c cmd /\ container_command i cmd
  | SpawnSsh _ | UpsertRental _ _ | RemoveRental _ => False
  | _ => True
  end.

(** Remote commands are about the container of a rental in [t] with one of the identifiers
    [ids], and go to the executor that rental has access to, with the validator's [key]. *)
Definition names_own_container (key : option string) (t : gmap string RentalRow) (ids : string -> Prop) : pred :=
  fun X e =>
  match e with
  | Ssh argv => exists id row cmd, ids id /\ t !! id = Some row /\
      argv = ssh_argv (ContainerClient_new (row_ssh_credentials row) key) cmd /\
      container_command (row_container_id row) cmd
  | SpawnSsh _ => False
  | _ => True
  end.

Lemma word_not_space a : word_byte a = true -> negb (Ascii.eqb " " a) = true.
Proof. by destruct a as [[] [] [] [] [] [] [] []]. Qed.

Lemma word_no_space i : container_word i -> all_bytes (fun d => negb (Ascii.eqb " " d)) i = true.
Proof. intros (_ & _ & Hi). eapply all_bytes_impl; [apply word_not_space|done]. Qed.

Section Commands.
Context `{Libraries} `{HashOrder}.

Lemma alphanumeric_word c : is_alphanumeric c = true -> all_bytes word_byte c = true.
Proof.
  unfold is_alphanumeric. destruct (beyond_ascii c) eqn:Eb.
  - intros _. eapply all_bytes_impl; [|exact Eb]. intros a Ha. unfold word_byte. rewrite Ha. apply orb_true_r.
  - destruct c as [|a [|b c]]; try done. intros Ha. cbn. unfold word_byte. by rewrite Ha.
Qed.

Lemma validated_word id i : validate_container_id id = Ok i -> i = id /\ container_word i.
Proof.
  unfold validate_container_id. destruct id as [|a id]; [done|]. set (s := String a id).
  destruct (forallb is_alphanumeric (chars s)) eqn:Ef; cbn [negb]; [|done].
  destruct (64 <? String.length s)%nat eqn:El; [done|]. intros [= <-]. split; [done|].
  apply Nat.ltb_ge in El. split; [done|split; [done|]].
  rewrite <- (concat_chars s), all_bytes_concat. apply forallb_forall. intros c Hc.
  apply alphanumeric_word. rewrite forallb_forall in Ef. by apply Ef.
Qed.

(** A command made of fixed words and the identifier. *)
Lemma command_of_words l i :
  container_word i -> l ∈ container_commands i -> container_command i (join " " l).
Proof.
  intros Hi Hl. split; [done|].
  assert (Hw : Forall (fun s => all_bytes harmless s = true /\ all_bytes (fun d => negb (Ascii.eqb " " d)) s = true) l
               /\ l <> []).
  { assert (all_bytes harmless i = true).
    { destruct Hi as (_ & _ & Hi). eapply all_bytes_impl; [|exact Hi]. intros a Ha. unfold harmless. by rewrite Ha. }
    apply word_no_space in Hi. unfold container_commands in Hl.
    repeat (apply elem_of_cons in Hl as [-> | Hl]; [split; [repeat constructor; done|done]|]).
    by apply elem_of_nil in Hl. }
  destruct Hw as [Hw Hne]. split.
  - rewrite split_join; [done|done|]. eapply Forall_impl; [exact Hw|]. naive_solver.
  - clear Hl Hne. induction Hw as [|s l [Hs _] _ IH]; [done|]. destruct l as [|t l]; [done|].
    change (join " " (s :: t :: l)) with (s +:+ String " " (join " " (t :: l))).
    rewrite all_bytes_app, Hs. exact IH.
Qed.

Lemma ssh_names c l i m :
  container_word i -> l ∈ container_commands i -> only (on_container c i) (ssh c (join " " l) m).
Proof.
  intros Hi Hl. unfold ssh, execute_ssh_command. walk. exists (join " " l). split; [done|].
  by apply command_of_words.
Qed.

(** After the check of the identifier. *)
Lemma checked_names {A} c id (f : string -> prog (result string A)) :
  (container_word id -> only (on_container c id) (f id)) ->
  only (on_container c id) (bindr (Ret (validate_container_id id)) f).
Proof.
  intros Hf. destruct (validate_container_id id) as [i|e] eqn:Ei; [|done].
  apply validated_word in Ei as [-> Hi]. by apply Hf.
Qed.

Lemma status_names c id : only (on_container c id) (get_container_status c id).
Proof.
  apply checked_names. intros Hi. apply only_bindr; [|intros; by cbn].
  apply (ssh_names c ["docker"; "inspect"; id] id); [done|]. unfold container_commands. set_solver.
Qed.

Lemma usage_names c id : only (on_container c id) (get_resource_usage c id).
Proof.
  apply checked_names. intros Hi. apply only_bindr; [|intros; by cbn].
  apply (ssh_names c ["docker"; "stats"; id; "--no-stream"; "--format"; "json"] id); [done|].
  unfold container_commands. set_solver.
Qed.

Lemma client_stop_names c id force : only (on_container c id) (ContainerClient_stop_container c id force).
Proof.
  apply checked_names. intros Hi. apply only_bindr; [|intros; by cbn]. destruct force.
  - apply (ssh_names c ["docker"; "kill"; id] id); [done|]. unfold container_commands. set_solver.
  - apply (ssh_names c ["docker"; "stop"; id] id); [done|]. unfold container_commands. set_solver.
Qed.

Lemma remove_names c id : only (on_container c id) (remove_container c id).
Proof.
  apply checked_names. intros Hi. apply only_bindr; [|intros; by cbn].
  apply (ssh_names c ["docker"; "rm"; "-f"; id] id); [done|]. unfold container_commands. set_solver.
Qed.

Lemma stop_names c id force : only (on_container c id) (stop_container c id force).
Proof.
  assert (Hf : only (on_container c id) (force_stop c id)).
  { apply only_bind; [apply client_stop_names|]. intros r. apply only_bindr; [by cbn|]. intros _.
    apply only_bind; [apply remove_names|]. by cbn. }
  destruct force; [exact Hf|]. apply only_bind; [apply client_stop_names|]. intros []; [by cbn|exact Hf].
Qed.
End Commands.

(** *** Rentals that are read, and commands about them *)

Section OwnContainer.
Context `{Libraries} `{HashOrder} (env : RentalEnv).
Context (key : option string) (t : gmap string RentalRow) (ids : string -> Prop).

(** The columns of the rows are those of [t]. *)
Definition same_columns (u : gmap string RentalRow) : Prop :=
  forall id r, u !! id = Some r -> exists r0, t !! id = Some r0 /\ columns_of r = columns_of r0.

Definition of_table (id : string) (c : columns) : Prop :=
  ids id /\ exists r0, t !! id = Some r0 /\ c = columns_of r0.

(** Effects of a program that has read its rentals: commands about their containers, and
    rows with their columns. *)
Definition own_effects : pred := fun X e =>
  match e with
  | UpsertRental id r => of_table id (columns_of r)
  | RemoveRental _ => False
  | e => names_own_container key t ids _ e
  end.

(** A run keeps the columns, sends only what it may and gives a result in [Q]. *)
Definition sends {A} (p : prog A) (Q : A -> Prop) : Prop := forall w a w',
  same_columns (table w) -> run env p w = (a, w') ->
  same_columns (table w') /\ Q a /\
  exists l, trace w' = l ++ trace w /\ Forall (on_event (names_own_container key t ids)) l.

Lemma sends_bind {A B} (p : prog A) (f : A -> prog B) Q R :
  sends p Q -> (forall a, Q a -> sends (f a) R) -> sends (bind p f) R.
Proof.
  intros Hp Hf w b w' Hw E. rewrite run_bind in E. destruct (run env p w) as [a w1] eqn:Ep.
  destruct (Hp _ _ _ Hw Ep) as (Hw1 & Ha & l1 & El1 & Hl1).
  destruct (Hf a Ha _ _ _ Hw1 E) as (Hw' & Hb & l2 & El2 & Hl2).
  split; [done|]. split; [done|]. exists (l2 ++ l1). rewrite El2, El1, app_assoc.
  split; [done|]. by apply Forall_app.
Qed.

Definition on_ok {A} (Q : A -> Prop) (r : result string A) : Prop :=
  match r with Ok a => Q a | Err _ => True end.

Lemma sends_ret {A} (a : A) (Q : A -> Prop) : Q a -> sends (Ret a) Q.
Proof. intros HQ w b w' Hw [= <- <-]. split; [done|]. split; [done|]. by exists []. Qed.

Lemma sends_bindr {A B} (p : prog (result string A)) (f : A -> prog (result string B)) Q R :
  sends p (on_ok Q) -> (forall a, Q a -> sends (f a) (on_ok R)) -> sends (bindr p f) (on_ok R).
Proof. intros Hp Hf. eapply sends_bind; [done|]. intros [a|e] Ha; [by apply Hf|by apply sends_ret]. Qed.

Lemma same_columns_upsert u id r :
  same_columns u -> of_table id (columns_of r) -> same_columns (upsert id r u).
Proof.
  intros Hu (_ & r0 & Hr0 & Hc) i x. unfold upsert.
  destruct (u !! id); (intros [[<- <-]|[_ Hx]]%lookup_insert_Some; [|by apply Hu]); by exists r0.
Qed.

Lemma sends_effect {X} (e : effect X) : own_effects X e -> sends (act e) (fun _ => True).
Proof.
  intros He w x w' Hw E. cbn [act run] in E. destruct (perform env w e) as [y w1] eqn:Ep.
  injection E as -> ->. split; [|split; [done|]].
  - pose proof (table_perform env e w x w' Ep) as Ht.
    destruct e; try (by rewrite Ht); [|done]. unfold perform, statement in Ep.
    destruct (statement_fails env _); injection Ep as <- <-; [done|]. by apply same_columns_upsert.
  - exists [Event e x]. split; [by eapply trace_perform|]. constructor; [|done]. by destruct e.
Qed.

Lemma sends_only {A} (p : prog A) : only own_effects p -> sends p (fun _ => True).
Proof.
  induction p as [a|X e k IH]; intros Hp; [by apply sends_ret|]. destruct Hp as [He Hk].
  change (Do e k) with (bind (act e) k). eapply sends_bind; [by apply sends_effect|]. auto.
Qed.

(** The client's commands, for a rental that was read. *)
Lemma client_own c {A} (p : prog A) r :
  of_table (rental_id r) (info_columns r) -> c = ContainerClient_new (ssh_credentials r) key ->
  only (on_container c (container_id r)) p -> only own_effects p.
Proof.
  intros (Hid & r0 & Hr0 & Hc) ->. apply only_impl. intros X e He. destruct e; try done.
  unfold info_columns, columns_of in Hc. injection Hc as Hci _ Hcr _.
  destruct He as (cmd & -> & Hcmd). exists (rental_id r), r0, cmd. by rewrite <- Hci, <- Hcr.
Qed.

Lemma save_own r : of_table (rental_id r) (info_columns r) -> only own_effects (save_rental r).
Proof. intros Hr. apply only_bindr; [by cbn|]. intros text. by split. Qed.

Lemma record_own m ex d b : only own_effects (record_rental_status m ex d b).
Proof. unfold record_rental_status. destruct (extract_miner_uid m); by cbn. Qed.

Lemma parse_rows_sends rows :
  Forall (fun '(id, r) => of_table id (columns_of r)) rows ->
  sends (parse_rental_rows rows) (on_ok (Forall (fun r => of_table (rental_id r) (info_columns r)))).
Proof.
  induction rows as [|[id r] rows IH]; intros Hr; [by apply sends_ret; cbn|].
  apply Forall_cons in Hr as [Hid Hr]. cbn [parse_rental_rows].
  eapply sends_bind; [by apply sends_effect|]. intros d _. unfold parse_rental_row.
  destruct (spec_of_json (row_container_spec r)); [|by apply sends_ret].
  unfold bindr at 1. cbn [bind]. eapply sends_bindr; [apply (IH Hr)|]. intros l Hl. apply sends_ret. by constructor.
Qed.

(** A query gives rentals with the columns of the table. *)
Lemma query_sends f :
  (forall id r, matches_filter f id r = true -> ids id) ->
  sends (query_rentals f) (on_ok (Forall (fun r => of_table (rental_id r) (info_columns r)))).
Proof.
  intros Hf. eapply sends_bindr; [|apply parse_rows_sends]. intros w x w' Hw E.
  destruct (sends_effect (SelectRentals f) I w x w' Hw E) as (Hw' & _ & Hl). split; [done|]. split; [|done].
  cbn [act run] in E. unfold perform, statement in E.
  destruct (statement_fails env _); injection E as <- <-; [done|]. cbn [on_ok].
  apply Forall_forall. intros [id r] [Hr Hm]%elem_of_select_rows. split; [by eapply Hf|].
  by apply Hw in Hr.
Qed.
End OwnContainer.

Section OwnPrograms.
Context `{Libraries} `{HashOrder} (env : RentalEnv) (t : gmap string RentalRow).

(** The rental of one identifier. *)
Lemma load_sends key id :
  sends env key t (eq id) (load_rental id)
    (on_ok (fun o => forall r, o = Some r -> of_table t (eq id) (rental_id r) (info_columns r))).
Proof.
  eapply sends_bindr; [apply query_sends|].
  - intros i r Hm. unfold matches_filter in Hm. cbn in Hm.
    destruct (String.eqb i id) eqn:E; [|done]. by apply String.eqb_eq in E.
  - intros l Hl. apply sends_ret. intros r Hr. apply last_Some in Hr as [l' ->].
    by apply Forall_app in Hl as [_ [Hl _]%Forall_cons].
Qed.

Lemma found_sends key ids (o : option RentalInfo) (Q : RentalInfo -> Prop) :
  (forall r, o = Some r -> Q r) -> sends env key t ids (Ret (found o)) (on_ok Q).
Proof. intros HQ. apply sends_ret. destruct o; cbn; auto. Qed.

Lemma sends_final key ids {A} (p : prog (result string A)) :
  only (own_effects key t ids) p -> sends env key t ids p (on_ok (fun _ => True)).
Proof.
  intros Hp w a w' Hw E. destruct (sends_only env key t ids p Hp w a w' Hw E) as (? & _ & ?).
  split; [done|]. split; [by destruct a|done].
Qed.

Lemma stop_rental_sends m id force :
  sends env (snd <$> persistent_key m) t (eq id) (stop_rental m id force) (on_ok (fun _ => True)).
Proof.
  eapply sends_bindr; [apply load_sends|]. intros o Ho.
  eapply sends_bindr; [exact (found_sends _ _ o _ Ho)|]. intros r Hr. cbn beta in Hr. apply sends_final.
  apply only_bindr; [by eapply client_own, stop_names|]. intros _. apply only_bind.
  - apply only_bindr; [by cbn|]. intros [d|]; [|by cbn]. apply only_bind; [by cbn|]. intros x.
    apply only_bindr; [by cbn|]. intros _. apply only_bind; [by cbn|by cbn].
  - intros _. apply only_bindr; [by apply save_own|]. intros _. apply only_bind; [apply record_own|by cbn].
Qed.

Lemma rental_status_sends m id :
  sends env (snd <$> persistent_key m) t (eq id) (get_rental_status m id) (on_ok (fun _ => True)).
Proof.
  eapply sends_bindr; [apply load_sends|]. intros o Ho.
  eapply sends_bindr; [exact (found_sends _ _ o _ Ho)|]. intros r Hr. cbn beta in Hr. apply sends_final.
  apply only_bindr; [by eapply client_own, status_names|]. intros s.
  apply only_bindr; [by eapply client_own, usage_names|by cbn].
Qed.

Lemma check_own key r :
  of_table t (fun _ => True) (rental_id r) (info_columns r) ->
  only (own_effects (snd <$> key) t (fun _ => True)) (check_rental_health key r).
Proof.
  intros Hr. destruct key as [[pub path]|]; [|done]. apply only_bind.
  - apply only_timeout; [done|]. apply only_bindr; [by eapply client_own, status_names|by cbn].
  - intros c. destruct (next_state (state r) c) as [s|]; [|done].
    apply only_bind; [by apply save_own|]. intros x. apply only_bindr; [by cbn|]. intros _.
    apply only_bind; [|by cbn]. destruct s; try done; apply record_own.
Qed.

Lemma monitor_sends key ticks :
  sends env (snd <$> key) t (fun _ => True) (monitoring_loop key ticks) (fun _ => True).
Proof.
  induction ticks as [|n IH]; [by apply sends_ret|]. cbn [monitoring_loop].
  eapply (sends_bind _ _ _ _ _ _ (fun _ => True)); [|intros; exact IH]. eapply sends_bind; [apply query_sends; intros; exact I|].
  intros [l|e] Hl; [|by apply sends_ret]. cbn [context on_ok] in *. unfold bindr at 1. cbn [bind].
  apply sends_only, only_bind; [|by cbn]. induction Hl as [|r l Hr _ IHl]; [done|]. cbn [check_rentals].
  apply only_bind; [by apply check_own|done].
Qed.
End OwnPrograms.

(** C12: Whatever container identifier a rental has (executors report them), every command
    that stopping it or asking for its status sends is addressed with the access credentials
    of that rental's row and is one of five docker commands with the container identifier of
    that row as a single word, of at most 64 letters, digits or bytes beyond ASCII; apart
    from hyphens and the spaces between the words the command has no other character.  Each
    command of the health monitor is such a command about the container of one of the
    rentals in the table.  Nothing else is sent to an executor. *)
Theorem commands_name_one_container `{Libraries, HashOrder} env m id force key ticks w :
  let sent k ids {A} (p : prog A) :=
    exists l, trace (run env p w).2 = l ++ trace w /\ Forall (on_event (names_own_container k (table w) ids)) l in
  sent (snd <$> persistent_key m) (eq id) (stop_rental m id force) /\
  sent (snd <$> persistent_key m) (eq id) (get_rental_status m id) /\
  sent (snd <$> key) (fun _ => True) (monitoring_loop key ticks).
Proof.
  assert (Hs : forall k ids A (p : prog A) Q, sends env k (table w) ids p Q ->
    exists l, trace (run env p w).2 = l ++ trace w /\ Forall (on_event (names_own_container k (table w) ids)) l).
  { intros k ids A p Q Hp. destruct (run env p w) as [a w'] eqn:E.
    apply (Hp w a w'); [intros i r Hr; by exists r|done]. }
  split; [|split]; eapply Hs; [apply stop_rental_sends|apply rental_status_sends|apply monitor_sends].
Qed.

(** The commands of a run, oldest first. *)
Definition ssh_command (v : event) : list string :=
  match v with Event e _ => match e with Ssh argv => match last argv with Some c => [c] | None => [] end | _ => [] end end.

(** A rental of the scenario, started and then stopped. *)
Example stop_names_its_container :
  let env := demo_env (fun _ => false) 100 in
  let w := (run env (start_rental demo_manager demo_request) empty_world).2 in
  let w' := (run env (stop_rental demo_manager "rental-0" false) w).2 in
  row_container_id <$> table w !! "rental-0" = Some "c1" /\
  rev (take (length (trace w') - length (trace w)) (trace w')) ≫= ssh_command = ["docker stop c1"].
Proof. split; vm_compute; reflexivity. Qed.

(** ** What the policy lets through *)

(** A value of the environment ends the docker command and begins another one: the route
    accepts the request, and the words of the command are not quoted. *)
Definition injecting_start : StartRentalRequest := {|
  sr_executor_id := "executor"; sr_container_image := "nvidia/cuda";
  sr_ssh_public_key := "ssh-ed25519 AAAA"; sr_environment := {["A" := "1 nvidia/cuda; reboot #"]};
  sr_ports := []; sr_resources := sr_resources demo_start; sr_command := default_command;
  sr_volumes := []; sr_no_ssh := true |}.

Example environment_is_not_quoted :
  (run (demo_env (fun _ => false) 100)
    (validate_container_spec DeploymentConfig_default (route_spec injecting_start)) empty_world).1 = Ok tt /\
  contains "; reboot" (docker_run (apply_security_policies (route_spec injecting_start)) "rental-0") = true.
Proof. split; vm_compute; reflexivity. Qed.

(** Docker takes capabilities without their prefix, and [ALL]; only the prefixed names are
    removed. *)
Example capabilities_without_prefix :
  List.filter (fun cap => negb (mem_str cap dangerous_caps)) ["CAP_SYS_ADMIN"; "SYS_ADMIN"; "ALL"]
  = ["SYS_ADMIN"; "ALL"].
Proof. reflexivity. Qed.

(** The root directory and the directory of the docker socket may be mounted. *)
Example parents_may_be_mounted :
  volume_allowed {| host_path := "/"; container_path := "/host"; read_only := false |} "/" /\
  volume_allowed {| host_path := "/var/run"; container_path := "/host"; read_only := false |} "/var/run".
Proof.
  split; (split; [|done]); intros s Hs; unfold sensitive_paths in Hs;
    repeat (apply elem_of_cons in Hs as [-> | Hs]; [reflexivity|]); by apply elem_of_nil in Hs.
Qed.

(** ** Credentials *)

(** The connection the miner announces is taken apart again. *)
Lemma parse_ssh_connection_of user host port :
  0 <= port <= u16_max -> all_bytes (fun d => negb (Ascii.eqb "@" d)) host = true ->
  all_bytes (fun d => negb (Ascii.eqb "@" d)) (show_int port) = true ->
  all_bytes (fun d => negb (Ascii.eqb ":" d)) (show_int port) = true ->
  parse_ssh_connection (user +:+ String "@" (host +:+ String ":" (show_int port)))
  = (user +:+ "@" +:+ host, Some port).
Proof.
  intros Hp Hh Ha Hc. unfold parse_ssh_connection. rewrite rsplit_once_cut.
  - rewrite rsplit_once_cut by done. unfold parse_u16. by rewrite parse_show_int by lia.
  - rewrite all_bytes_app, Hh. cbn [all_bytes]. by rewrite Ha.
Qed.

(** ** How the start of a rental ends *)

(** ** Events *)

(** The miner opened the session [s]. *)
Definition opened (s : InitiateSshSessionResponse) (v : event) : Prop :=
  match v with
  | Event e x => match e in effect Y return Y -> Prop with
                 | OpenSession _ => fun r => r = Ok s
                 | _ => fun _ => False
                 end x
  end.

(** The executor ran the container. *)
Definition ran (argv : list string) (v : event) : Prop :=
  match v with
  | Event e x => match e in effect Y return Y -> Prop with
                 | Ssh a => fun o => a = argv /\ exists out, o = Some out /\ success out = true
                 | _ => fun _ => False
                 end x
  end.

(** The effects of each part. *)
Definition deploys : pred := fun X e => match e with Canonicalize _ | Ssh _ => True | _ => False end.
Definition registers : pred := fun X e =>
  match e with
  | SelectExecutorDetails _ _ | UtcNow | UpsertRental _ _ | SetRentalGauge _ _ _ _ | CountRental _ _ => True
  | _ => False
  end.
Definition quiet : pred := fun X e =>
  match e with NewUuid | OpenSession _ => True | _ => False end.

Section Start.
Context `{Libraries} `{HashOrder} (env : RentalEnv).

Lemma deploy_deploys config c spec id key : only deploys (deploy_container config c spec id key).
Proof.
  unfold deploy_container, validate_container_spec, ContainerClient_deploy_container,
    configure_container_ssh_access, install_ssh, with_shells, start_ssh, ssh_ignored, ssh_text, ssh,
    execute_ssh_command.
  walk. induction (volumes spec) as [|v l IH]; cbn [validate_volumes]; [done|].
  unfold validate_volume. walk; exact IH.
Qed.

Lemma register_registers request id s info : only registers (register_rental request id s info).
Proof. unfold register_rental, executor_details_for, save_rental, record_rental_status. walk. Qed.

(** A deployment that succeeds has run its container. *)
Lemma deploy_ran config c spec id key w info w' :
  run env (deploy_container config c spec id key) w = (Ok info, w') ->
  exists l, trace w' = l ++ trace w /\
    Exists (ran (ssh_argv c (docker_run (apply_security_policies spec) id))) l.
Proof.
  intros E. unfold deploy_container in E. rewrite run_bind in E.
  destruct (run env (validate_container_spec config spec) w) as [rv w1] eqn:Ev.
  destruct (only_run asks_paths env _ _ _ _ (validate_asks config spec) Ev) as (l1 & Hl1 & _).
  rewrite run_bindr in E. destruct rv as [[]|]; [|done]. cbn [run context] in E. rewrite run_bind in E.
  unfold ContainerClient_deploy_container in E. rewrite run_bindr in E.
  unfold ssh at 1 in E. unfold execute_ssh_command at 1 in E. rewrite !run_bind in E. cbn [act run] in E.
  destruct (perform env w1 (Ssh _)) as [out w2] eqn:E2. apply trace_perform in E2.
  destruct out as [o|]; [|done]. destruct (success o) eqn:Eo; [|done]. cbn [context] in E.
  assert (exists l2, trace w' = l2 ++ trace w2) as [l2 El2].
  { destruct (run env (bindr (Ret (validate_container_id _)) _) w2) as [x w3] eqn:E3.
    assert (Hx : forall A (p : prog A) u a u', run env p u = (a, u') -> exists l, trace u' = l ++ trace u).
    { intros A p u a u' Ep. assert (Hp : only (fun _ _ => True) p) by (clear; induction p; by cbn).
      destruct (only_run _ env _ _ _ _ Hp Ep) as (l & Hl & _). eauto. }
    apply Hx in E3 as [la Ea]. apply Hx in E as [lb Eb]. exists (lb ++ la). by rewrite Eb, Ea, app_assoc. }
  exists (l2 ++ Event (Ssh (ssh_argv c (docker_run (apply_security_policies spec) id))) (Some o) :: l1).
  rewrite El2, E2, Hl1. split; [by rewrite <- app_assoc|].
  apply Exists_app. right. apply Exists_cons_hd. cbn. eauto.
Qed.

(** Registering stores the rental or changes nothing. *)
Definition stored (request : RentalRequest) (id : string) (s : InitiateSshSessionResponse)
    (info : ContainerInfo) (row : RentalRow) : Prop :=
  row_state row = "active" /\ row_container_id row = ci_container_id info /\
  row_ssh_session_id row = session_id s /\ row_ssh_credentials row = access_credentials s /\
  row_executor_id row = rq_executor_id request /\ row_miner_id row = rq_miner_id request /\
  row_validator_hotkey row = rq_validator_hotkey request.

Lemma register_outcome request id s info w r w' :
  run env (register_rental request id s info) w = (r, w') ->
  match r with
  | Ok resp => rp_rental_id resp = id /\ rp_container_info resp = info /\
      exists row, stored request id s info row /\ table w' = upsert id row (table w)
  | Err _ => table w' = table w
  end.
Proof.
  intros E. unfold register_rental in E. rewrite run_bindr in E.
  destruct (run env (executor_details_for _ _) w) as [d w1] eqn:Ed.
  apply run_reading in Ed; [|unfold executor_details_for; walk].
  destruct d as [d|]; [|injection E as <- <-; done].
  rewrite run_bind in E. cbn [act run] in E. destruct (perform env w1 UtcNow) as [now w2] eqn:En.
  apply table_perform in En. rewrite run_bindr in E.
  unfold save_rental in E. rewrite run_bindr in E. cbn [run container_spec] in E.
  destruct (spec_to_json (rq_container_spec request)) as [text|]; [|injection E as <- <-; by rewrite En].
  cbn [act run] in E. unfold perform at 1, statement in E.
  destruct (statement_fails env (length (trace w2))); cbn [run] in E.
  { injection E as <- <-. cbn. by rewrite En. }
  rewrite run_bind in E. destruct (run env (record_rental_status _ _ _ _) _) as [u w3] eqn:E3.
  apply run_reading in E3; [|apply neutral_reading, record_neutral].
  rewrite run_bind in E. destruct (run env (match extract_miner_uid _ with _ => _ end) w3) as [v w4] eqn:E4.
  apply run_reading in E4; [|walk].
  injection E as <- <-. split; [done|]. split; [done|]. eexists. split; [|rewrite E4, E3; cbn; rewrite En, Ed; reflexivity].
  by repeat split.
Qed.

Definition not_closing : pred := fun X e => match e with CloseSession _ => False | _ => True end.

(** The three ways a start fails: without a session; with a session that the validator asked
    to close, as the last thing it did; or after the container ran, with the session and the
    container left behind. *)
Definition no_session (l : list event) : Prop := Forall (on_event quiet) l /\ forall s, ~ Exists (opened s) l.
Definition session_closed (hotkey : string) (l : list event) : Prop :=
  exists s l' x, l = Event (CloseSession (close_session_request (session_id s) hotkey "Deployment failed")) x :: l' /\
    Exists (opened s) l'.
Definition left_behind (m : RentalManager) (request : RentalRequest) (id : string) (l : list event) : Prop :=
  exists s, Exists (opened s) l /\
    Exists (ran (ssh_argv (create_container_client m (access_credentials s))
                   (docker_run (apply_security_policies (rq_container_spec request)) id))) l /\
    Forall (on_event not_closing) l.

(** From the opened session on. *)
Lemma deploy_and_register m request id s w r w' :
  run env (bind (deploy_container (deployment_config m) (create_container_client m (access_credentials s))
                   (rq_container_spec request) id (rq_ssh_public_key request))
             (fun deployed => match deployed with
              | Ok info => register_rental request id s info
              | Err e => bind (act (CloseSession (close_session_request (session_id s)
                                      (rq_validator_hotkey request) "Deployment failed"))) (fun _ => Ret (Err e))
              end)) w = (r, w') ->
  exists l, trace w' = l ++ trace w /\
  match r with
  | Ok resp => rp_rental_id resp = id /\ Forall (on_event not_closing) l /\
      Exists (ran (ssh_argv (create_container_client m (access_credentials s))
                     (docker_run (apply_security_policies (rq_container_spec request)) id))) l /\
      exists row, stored request id s (rp_container_info resp) row /\ table w' = upsert id row (table w)
  | Err _ => table w' = table w /\
      ((exists l' x, l = Event (CloseSession (close_session_request (session_id s)
                                  (rq_validator_hotkey request) "Deployment failed")) x :: l') \/
       (Forall (on_event not_closing) l /\
        Exists (ran (ssh_argv (create_container_client m (access_credentials s))
                       (docker_run (apply_security_policies (rq_container_spec request)) id))) l))
  end.
Proof.
  intros E. rewrite run_bind in E. destruct (run env (deploy_container _ _ _ _ _) w) as [d w1] eqn:Ed.
  pose proof (only_run deploys env _ _ _ _ (deploy_deploys _ _ _ _ _) Ed) as (l1 & Hl1 & Hd).
  pose proof (run_reading env _ _ _ _ (neutral_reading _ (deploy_neutral _ _ _ _ _)) Ed) as Ht.
  destruct d as [info|e].
  - destruct (deploy_ran _ _ _ _ _ _ _ _ Ed) as (l1' & Hl1' & Hran).
    rewrite Hl1 in Hl1'. apply app_inv_tail in Hl1' as <-.
    pose proof (only_run registers env _ _ _ _ (register_registers _ _ _ _) E) as (l2 & Hl2 & Hr).
    assert (Hn : Forall (on_event not_closing) (l2 ++ l1)).
    { apply Forall_app. split; [eapply Forall_impl; [exact Hr|]|eapply Forall_impl; [exact Hd|]];
        intros [X [] x]; by cbn. }
    assert (Hx : Exists (ran (ssh_argv (create_container_client m (access_credentials s))
                   (docker_run (apply_security_policies (rq_container_spec request)) id))) (l2 ++ l1))
      by (apply Exists_app; by right).
    exists (l2 ++ l1). rewrite Hl2, Hl1, app_assoc. split; [done|].
    apply register_outcome in E. destruct r as [resp|e].
    + destruct E as (Eid & <- & row & Hrow & Et). split; [done|]. split; [done|]. split; [done|].
      exists row. by rewrite Et, Ht.
    + split; [by rewrite E|]. by right.
  - cbn [bind act run] in E. destruct (perform env w1 (CloseSession _)) as [x w2] eqn:Ex.
    injection E as <- <-. pose proof (table_perform env _ _ _ _ Ex) as Et. apply trace_perform in Ex.
    exists (Event (CloseSession (close_session_request (session_id s) (rq_validator_hotkey request)
                     "Deployment failed")) x :: l1).
    split; [by rewrite Ex, Hl1|]. split; [by rewrite Et|]. left. eauto.
Qed.
End Start.

(** C29: How the start of a rental ends, for every environment.  If it succeeds, the miner
    opened a session that was not closed, the container ran, and the table has the rental
    under the new identifier, active, with that container and session.  If it fails, the
    table is as before, and either no session was opened and no command sent; or the last
    thing the validator did was to ask the miner to close the session it had opened; or the
    container ran and the session stays open, with nothing that would remember either. *)
Theorem start_rental_outcome `{Libraries, HashOrder} env m request w r w' :
  run env (start_rental m request) w = (r, w') ->
  let id := "rental-" +:+ answer env (length (trace w)) NewUuid in
  exists l, trace w' = l ++ trace w /\
  match r with
  | Ok resp => rp_rental_id resp = id /\ exists s row,
      Exists (opened s) l /\ Forall (on_event not_closing) l /\
      Exists (ran (ssh_argv (create_container_client m (access_credentials s))
                     (docker_run (apply_security_policies (rq_container_spec request)) id))) l /\
      stored request id s (rp_container_info resp) row /\ table w' = upsert id row (table w)
  | Err _ => table w' = table w /\
      (no_session l \/ session_closed (rq_validator_hotkey request) l \/ left_behind m request id l)
  end.
Proof.
  intros E id. unfold start_rental in E. rewrite run_bind in E. cbn [act run perform] in E.
  fold id in E. set (w1 := record_event w _) in E.
  assert (Hq : trace w1 = [Event NewUuid (answer env (length (trace w)) NewUuid)] ++ trace w) by done.
  assert (Hquiet : no_session [Event NewUuid (answer env (length (trace w)) NewUuid)]).
  { split; [by repeat constructor|]. intros s Hs. apply Exists_cons in Hs as [[]|Hs]. by apply Exists_nil in Hs. }
  destruct (ssh_key_manager m) as [[[public_key path]|]|];
    [|injection E as <- <-; eexists; split; [exact Hq|]; auto..].
  rewrite run_bindr in E. unfold initiate_rental_ssh_session in E. rewrite run_bind in E. cbn [act run] in E.
  destruct (perform env w1 (OpenSession _)) as [a w2] eqn:Ea.
  pose proof (table_perform env _ _ _ _ Ea) as Et. apply trace_perform in Ea. cbn [run] in E.
  destruct a as [s|e]; cbn [map_err] in E.
  - apply deploy_and_register in E as (l & Hl & Hr). rewrite Ea, Hq in Hl.
    match type of Hl with _ = l ++ ?o :: _ => set (op := o) in Hl; assert (Ho : opened s op) by done end.
    exists (l ++ [op; Event NewUuid (answer env (length (trace w)) NewUuid)]). rewrite Hl, <- app_assoc.
    split; [done|].
    assert (Hopen : forall k, Exists (opened s) (k ++ [op; Event NewUuid (answer env (length (trace w)) NewUuid)])).
    { intros k. apply Exists_app. right. by left. }
    assert (Htail : Forall (on_event not_closing) [op; Event NewUuid (answer env (length (trace w)) NewUuid)])
      by (by repeat constructor).
    destruct r as [resp|e].
    + destruct Hr as (Eid & Hn & Hran & row & Hrow & Etab). split; [done|]. exists s, row.
      split; [apply Hopen|]. split; [by apply Forall_app|]. split; [apply Exists_app; by left|].
      split; [done|]. by rewrite Etab, Et.
    + destruct Hr as [Etab [(l' & x & ->) | [Hn Hran]]]; (split; [by rewrite Etab, Et|]); right.
      * left. exists s, (l' ++ [op; Event NewUuid (answer env (length (trace w)) NewUuid)]), x. by split.
      * right. exists s. split; [apply Hopen|]. split; [apply Exists_app; by left|]. by apply Forall_app.
  - injection E as <- <-. eexists (_ :: _). rewrite Ea, Hq. split; [reflexivity|]. split; [by rewrite Et|].
    left. split; [by repeat constructor|]. intros s Hs.
    apply Exists_cons in Hs as [Hs|Hs]; [by cbn in Hs|]. by destruct Hquiet as [_ Hn]; apply (Hn s).
Qed.

(** A start whose last statement is lost: the container runs, and the table stays empty. *)
Definition lost_start : result string RentalResponse * RentalWorld :=
  run (demo_env (fun n => (7 <? n)%nat) 100) (start_rental demo_manager demo_request) empty_world.

Lemma start_rental_outcome_witness :
  is_Ok lost_start.1 = false /\
  exists l, trace lost_start.2 = l ++ [] /\
    table lost_start.2 = ∅ /\
    (no_session l \/ session_closed "validator" l \/ left_behind demo_manager demo_request "rental-0" l).
Proof.
  assert (Hr : is_Ok lost_start.1 = false) by (vm_compute; reflexivity). split; [exact Hr|].
  destruct (start_rental_outcome (demo_env (fun n => (7 <? n)%nat) 100) demo_manager demo_request empty_world
              lost_start.1 lost_start.2 (surjective_pairing _)) as (l & Hl & Ho).
  exists l. split; [exact Hl|]. destruct (lost_start.1); [discriminate Hr|exact Ho].
Defined.
