(* ===== verification/CollateralContract.v ===== *)
(** * The collateral contract

    The Solidity contract miners lock collateral in (collateral-contract,
    CollateralUpgradeable.sol): the storage, one function per transaction, the logs they
    emit and the errors they revert with.  A reverted transaction has no effect, so a call
    is a function to the new state and its logs, or an error.  Addresses, hot keys and
    executor identifiers are byte strings of their width; the mappings return zero for
    missing keys.

    The role administration and the proxy belong to OpenZeppelin: who has the admin role
    is part of the message.  The money transferred out runs the receiver's code, which may
    call the contract again; all effects and logs of [finalizeReclaim] precede the
    transfer and [slashCollateral] pays to the zero address, which has no code, so such
    calls are calls that follow.  Whether a receiver takes the money is part of the
    message. *)

From stdpp Require Import base gmap strings list.
From Stdlib Require Import ZArith.
From S2P Require Import Prelude.
From S2P Require Import Bytes.
Local Open Scope Z_scope.

(** ** Words *)

Definition address : Type := list Z.
Definition zero_address : address := replicate 20 0.
Definition u256_max : Z := 2 ^ 256 - 1.

(** A hot key and an executor identifier. *)
Definition key : Type := list Z * list Z.

Inductive Revert :=
  | AmountZero | BeforeDenyTimeout | ExecutorNotOwned | InsufficientAmount
  | NotTrustee | PastDenyTimeout | ReclaimNotFound | TransferFailed
  | InsufficientCollateralForReclaim
  | Require (message : string)
  | ArithmeticPanic           (* checked arithmetic of Solidity 0.8 *)
  | NotPayable                (* money sent to a function that takes none *)
  | Unauthorized.             (* OpenZeppelin's [onlyRole] *)

Definition checked_add (bits a b : Z) : result Revert Z :=
  if a + b <? 2 ^ bits then Ok (a + b) else Err ArithmeticPanic.
Definition checked_sub (a b : Z) : result Revert Z :=
  if b <=? a then Ok (a - b) else Err ArithmeticPanic.

#[export] Instance result_bind_revert : MBind (result Revert) := fun A B k r =>
  match r with Ok a => k a | Err e => Err e end.

Definition require (b : bool) (e : Revert) : result Revert unit :=
  if b then Ok tt else Err e.

(** ** Storage *)

Record Reclaim := {
  rc_hotkey : list Z;
  rc_executorId : list Z;
  rc_miner : address;
  rc_amount : Z;
  rc_denyTimeout : Z
}.

Definition no_reclaim : Reclaim := {|
  rc_hotkey := replicate 32 0; rc_executorId := replicate 16 0; rc_miner := zero_address;
  rc_amount := 0; rc_denyTimeout := 0 |}.

Record Contract := {
  TRUSTEE : address;
  DECISION_TIMEOUT : Z;
  MIN_COLLATERAL_INCREASE : Z;
  executorToMiner : gmap key address;
  collaterals : gmap key Z;
  reclaims : gmap Z Reclaim;
  collateralUnderPendingReclaims : gmap key Z;
  nextReclaimId : Z;
  balance : Z                 (* the money the contract holds *)
}.

(** Mappings read as zero where nothing was written. *)
Definition amount_at (m : gmap key Z) (k : key) : Z := default 0 (m !! k).
Definition owner_of (c : Contract) (k : key) : address := default zero_address (executorToMiner c !! k).
Definition reclaim_at (c : Contract) (i : Z) : Reclaim := default no_reclaim (reclaims c !! i).
Definition reclaim_key (r : Reclaim) : key := (rc_hotkey r, rc_executorId r).

(** ** Messages and logs *)

Record Message := {
  msg_sender : address;
  msg_value : Z;
  block_timestamp : Z;
  sender_is_admin : bool;     (* holds DEFAULT_ADMIN_ROLE *)
  payee_accepts : bool        (* the receiver of a payment takes it *)
}.

Record Deposit := {
  d_hotkey : list Z; d_executorId : list Z; d_miner : address; d_amount : Z }.
Record Reclaimed := {
  r_reclaimRequestId : Z; r_hotkey : list Z; r_executorId : list Z; r_miner : address; r_amount : Z }.
Record Slashed := {
  s_hotkey : list Z; s_executorId : list Z; s_miner : address; s_amount : Z;
  s_url : string; s_urlContentMd5Checksum : list Z }.

Inductive ContractLog :=
  | LogDeposit (d : Deposit)
  | LogReclaimProcessStarted (reclaimRequestId : Z) (k : key) (miner : address)
      (amount expirationTime : Z) (url : string) (urlContentMd5Checksum : list Z)
  | LogReclaimed (r : Reclaimed)
  | LogDenied (reclaimRequestId : Z) (url : string) (urlContentMd5Checksum : list Z)
  | LogSlashed (s : Slashed)
  | LogTrusteeUpdated (old new : address)
  | LogDecisionTimeoutUpdated (old new : Z)
  | LogMinCollateralIncreaseUpdated (old new : Z).

Definition Outcome : Type := result Revert (Contract * list ContractLog).

(** ** Transactions *)

Definition deposit (hotkey executorId : list Z) (m : Message) (c : Contract) : Outcome :=
  let k := (hotkey, executorId) in
  _ ← require (MIN_COLLATERAL_INCREASE c <=? msg_value m) InsufficientAmount;
  owners ← (if bool_decide (owner_of c k = zero_address)
            then Ok (<[k := msg_sender m]> (executorToMiner c))
            else if bool_decide (owner_of c k = msg_sender m) then Ok (executorToMiner c)
            else Err ExecutorNotOwned);
  total ← checked_add 256 (amount_at (collaterals c) k) (msg_value m);
  Ok ({| TRUSTEE := TRUSTEE c; DECISION_TIMEOUT := DECISION_TIMEOUT c;
         MIN_COLLATERAL_INCREASE := MIN_COLLATERAL_INCREASE c;
         executorToMiner := owners;
         collaterals := <[k := total]> (collaterals c);
         reclaims := reclaims c;
         collateralUnderPendingReclaims := collateralUnderPendingReclaims c;
         nextReclaimId := nextReclaimId c;
         balance := balance c + msg_value m |},
      [LogDeposit {| d_hotkey := hotkey; d_executorId := executorId;
                     d_miner := msg_sender m; d_amount := msg_value m |}]).

Definition reclaimCollateral (hotkey executorId : list Z) (url : string) (md5 : list Z)
    (m : Message) (c : Contract) : Outcome :=
  let k := (hotkey, executorId) in
  _ ← require (bool_decide (msg_sender m = owner_of c k)) ExecutorNotOwned;
  available ← checked_sub (amount_at (collaterals c) k)
                (amount_at (collateralUnderPendingReclaims c) k);
  _ ← require (negb (available =? 0)) AmountZero;
  denyTimeout ← checked_add 64 (wrap 64 (block_timestamp m)) (DECISION_TIMEOUT c);
  pending ← checked_add 256 (amount_at (collateralUnderPendingReclaims c) k) available;
  next ← checked_add 256 (nextReclaimId c) 1;
  Ok ({| TRUSTEE := TRUSTEE c; DECISION_TIMEOUT := DECISION_TIMEOUT c;
         MIN_COLLATERAL_INCREASE := MIN_COLLATERAL_INCREASE c;
         executorToMiner := executorToMiner c;
         collaterals := collaterals c;
         reclaims := <[nextReclaimId c :=
           {| rc_hotkey := hotkey; rc_executorId := executorId; rc_miner := msg_sender m;
              rc_amount := available; rc_denyTimeout := denyTimeout |}]> (reclaims c);
         collateralUnderPendingReclaims := <[k := pending]> (collateralUnderPendingReclaims c);
         nextReclaimId := next;
         balance := balance c |},
      [LogReclaimProcessStarted (nextReclaimId c) k (msg_sender m) available denyTimeout url md5]).

(** A payment of the contract's money succeeds if it is there and the receiver takes it. *)
Definition pay (c : Contract) (m : Message) (amount : Z) : bool :=
  (amount <=? balance c) && payee_accepts m.

Definition finalizeReclaim (reclaimRequestId : Z) (m : Message) (c : Contract) : Outcome :=
  let r := reclaim_at c reclaimRequestId in
  let k := reclaim_key r in
  _ ← require (negb (rc_amount r =? 0)) ReclaimNotFound;
  _ ← require (rc_denyTimeout r <? block_timestamp m) BeforeDenyTimeout;
  pending ← checked_sub (amount_at (collateralUnderPendingReclaims c) k) (rc_amount r);
  _ ← require (rc_amount r <=? amount_at (collaterals c) k) InsufficientCollateralForReclaim;
  left ← checked_sub (amount_at (collaterals c) k) (rc_amount r);
  _ ← require (pay c m (rc_amount r)) TransferFailed;
  Ok ({| TRUSTEE := TRUSTEE c; DECISION_TIMEOUT := DECISION_TIMEOUT c;
         MIN_COLLATERAL_INCREASE := MIN_COLLATERAL_INCREASE c;
         executorToMiner := <[k := zero_address]> (executorToMiner c);
         collaterals := <[k := left]> (collaterals c);
         reclaims := delete reclaimRequestId (reclaims c);
         collateralUnderPendingReclaims := <[k := pending]> (collateralUnderPendingReclaims c);
         nextReclaimId := nextReclaimId c;
         balance := balance c - rc_amount r |},
      [LogReclaimed {| r_reclaimRequestId := reclaimRequestId; r_hotkey := rc_hotkey r;
         r_executorId := rc_executorId r; r_miner := rc_miner r; r_amount := rc_amount r |}]).

Definition onlyTrustee (m : Message) (c : Contract) : result Revert unit :=
  require (bool_decide (msg_sender m = TRUSTEE c)) NotTrustee.

Definition denyReclaimRequest (reclaimRequestId : Z) (url : string) (md5 : list Z)
    (m : Message) (c : Contract) : Outcome :=
  let r := reclaim_at c reclaimRequestId in
  let k := reclaim_key r in
  _ ← onlyTrustee m c;
  _ ← require (negb (rc_amount r =? 0)) ReclaimNotFound;
  _ ← require (block_timestamp m <=? rc_denyTimeout r) PastDenyTimeout;
  pending ← checked_sub (amount_at (collateralUnderPendingReclaims c) k) (rc_amount r);
  Ok ({| TRUSTEE := TRUSTEE c; DECISION_TIMEOUT := DECISION_TIMEOUT c;
         MIN_COLLATERAL_INCREASE := MIN_COLLATERAL_INCREASE c;
         executorToMiner := executorToMiner c;
         collaterals := collaterals c;
         reclaims := delete reclaimRequestId (reclaims c);
         collateralUnderPendingReclaims := <[k := pending]> (collateralUnderPendingReclaims c);
         nextReclaimId := nextReclaimId c;
         balance := balance c |},
      [LogDenied reclaimRequestId url md5]).

Definition slashCollateral (hotkey executorId : list Z) (url : string) (md5 : list Z)
    (m : Message) (c : Contract) : Outcome :=
  let k := (hotkey, executorId) in
  let amount := amount_at (collaterals c) k in
  _ ← onlyTrustee m c;
  _ ← require (negb (amount =? 0)) AmountZero;
  _ ← require (pay c m amount) TransferFailed;
  Ok ({| TRUSTEE := TRUSTEE c; DECISION_TIMEOUT := DECISION_TIMEOUT c;
         MIN_COLLATERAL_INCREASE := MIN_COLLATERAL_INCREASE c;
         executorToMiner := <[k := zero_address]> (executorToMiner c);
         collaterals := <[k := 0]> (collaterals c);
         reclaims := reclaims c;
         collateralUnderPendingReclaims := collateralUnderPendingReclaims c;
         nextReclaimId := nextReclaimId c;
         balance := balance c - amount |},
      [LogSlashed {| s_hotkey := hotkey; s_executorId := executorId; s_miner := owner_of c k;
         s_amount := amount; s_url := url; s_urlContentMd5Checksum := md5 |}]).

(** The settings an admin may change. *)
Definition with_settings (c : Contract) (trustee : address) (timeout min : Z) : Contract := {|
  TRUSTEE := trustee; DECISION_TIMEOUT := timeout; MIN_COLLATERAL_INCREASE := min;
  executorToMiner := executorToMiner c; collaterals := collaterals c; reclaims := reclaims c;
  collateralUnderPendingReclaims := collateralUnderPendingReclaims c;
  nextReclaimId := nextReclaimId c; balance := balance c |}.

Definition updateTrustee (newTrustee : address) (m : Message) (c : Contract) : Outcome :=
  _ ← require (sender_is_admin m) Unauthorized;
  _ ← require (bool_decide (newTrustee <> zero_address)) (Require "New trustee cannot be zero address");
  Ok (with_settings c newTrustee (DECISION_TIMEOUT c) (MIN_COLLATERAL_INCREASE c),
      [LogTrusteeUpdated (TRUSTEE c) newTrustee]).

Definition updateDecisionTimeout (newTimeout : Z) (m : Message) (c : Contract) : Outcome :=
  _ ← require (sender_is_admin m) Unauthorized;
  _ ← require (0 <? newTimeout) (Require "Decision timeout must be greater than 0");
  Ok (with_settings c (TRUSTEE c) newTimeout (MIN_COLLATERAL_INCREASE c),
      [LogDecisionTimeoutUpdated (DECISION_TIMEOUT c) newTimeout]).

Definition updateMinCollateralIncrease (newMinIncrease : Z) (m : Message) (c : Contract) : Outcome :=
  _ ← require (sender_is_admin m) Unauthorized;
  _ ← require (0 <? newMinIncrease) (Require "Min collateral increase must be greater than 0");
  Ok (with_settings c (TRUSTEE c) (DECISION_TIMEOUT c) newMinIncrease,
      [LogMinCollateralIncreaseUpdated (MIN_COLLATERAL_INCREASE c) newMinIncrease]).

(** [initialize], on a contract deployed with empty storage. *)
Definition initialize (trustee : address) (minCollateralIncrease decisionTimeout : Z)
    (admin : address) : result Revert Contract :=
  _ ← require (bool_decide (trustee <> zero_address)) (Require "Trustee address must be non-zero");
  _ ← require (bool_decide (admin <> zero_address)) (Require "Admin address must be non-zero");
  _ ← require (0 <? minCollateralIncrease) (Require "Min collateral increase must be greater than 0");
  _ ← require (0 <? decisionTimeout) (Require "Decision timeout must be greater than 0");
  Ok {| TRUSTEE := trustee; DECISION_TIMEOUT := decisionTimeout;
        MIN_COLLATERAL_INCREASE := minCollateralIncrease; executorToMiner := ∅;
        collaterals := ∅; reclaims := ∅; collateralUnderPendingReclaims := ∅;
        nextReclaimId := 0; balance := 0 |}.

(** ** The contract as a state machine *)

Inductive Call :=
  | CallDeposit (hotkey executorId : list Z)
  | CallReclaim (hotkey executorId : list Z) (url : string) (md5 : list Z)
  | CallFinalize (reclaimRequestId : Z)
  | CallDeny (reclaimRequestId : Z) (url : string) (md5 : list Z)
  | CallSlash (hotkey executorId : list Z) (url : string) (md5 : list Z)
  | CallUpdateTrustee (newTrustee : address)
  | CallUpdateDecisionTimeout (newTimeout : Z)
  | CallUpdateMinCollateralIncrease (newMinIncrease : Z).

(** Only [deposit] is payable. *)
Definition execute (call : Call) (m : Message) (c : Contract) : Outcome :=
  match call with
  | CallDeposit hk ex => deposit hk ex m c
  | _ =>
      _ ← require (msg_value m =? 0) NotPayable;
      match call with
      | CallDeposit hk ex => deposit hk ex m c
      | CallReclaim hk ex url md5 => reclaimCollateral hk ex url md5 m c
      | CallFinalize i => finalizeReclaim i m c
      | CallDeny i url md5 => denyReclaimRequest i url md5 m c
      | CallSlash hk ex url md5 => slashCollateral hk ex url md5 m c
      | CallUpdateTrustee a => updateTrustee a m c
      | CallUpdateDecisionTimeout t => updateDecisionTimeout t m c
      | CallUpdateMinCollateralIncrease n => updateMinCollateralIncrease n m c
      end
  end.

(** A transaction: a reverted one leaves no trace. *)
Definition transact (c : Contract) (tx : Call * Message) : Contract * list ContractLog :=
  match execute tx.1 tx.2 c with
  | Ok r => r
  | Err _ => (c, [])
  end.

(** The transactions of a block in order, with their logs. *)
Fixpoint run_block (c : Contract) (txs : list (Call * Message)) : Contract * list ContractLog :=
  match txs with
  | [] => (c, [])
  | tx :: rest =>
      let '(c', logs) := transact c tx in
      let '(c'', more) := run_block c' rest in
      (c'', logs ++ more)
  end.

(** A history of blocks. *)
Definition run_blocks (c : Contract) (blocks : list (list (Call * Message))) : Contract :=
  foldl (fun c txs => (run_block c txs).1) c blocks.

(** ** The money is there

    [open_reclaims c k] is what the open requests on an executor add up to. *)

Definition open_reclaims (c : Contract) (k : key) : Z :=
  table_sum (fun _ r => if bool_decide (reclaim_key r = k) then rc_amount r else 0) (reclaims c).

Definition total_collateral (c : Contract) : Z := table_sum (fun _ v => v) (collaterals c).

(** [bytes32] and [bytes16]. *)
Definition key_ok (k : key) : Prop :=
  Forall is_byte k.1 /\ length k.1 = 32%nat /\ Forall is_byte k.2 /\ length k.2 = 16%nat.

(** The types of the storage, and what ties its mappings together. *)
Record contract_wf (c : Contract) : Prop := {
  wf_collaterals : forall k, 0 <= amount_at (collaterals c) k <= u256_max;
  wf_pending_range : forall k, 0 <= amount_at (collateralUnderPendingReclaims c) k <= u256_max;
  wf_next : 0 <= nextReclaimId c <= u256_max;
  wf_reclaims : forall i r, reclaims c !! i = Some r -> 0 <= i < nextReclaimId c /\ 0 < rc_amount r;
  wf_keys : forall i r, reclaims c !! i = Some r -> key_ok (reclaim_key r);
  wf_balance : balance c = total_collateral c;
  wf_pending : forall k, amount_at (collateralUnderPendingReclaims c) k = open_reclaims c k
}.

(** The arguments of a transaction have their types. *)
Definition call_ok (call : Call) : Prop :=
  match call with
  | CallDeposit hk ex | CallReclaim hk ex _ _ | CallSlash hk ex _ _ => key_ok (hk, ex)
  | _ => True
  end.

Definition tx_ok (tx : Call * Message) : Prop := call_ok tx.1 /\ 0 <= msg_value tx.2.

Lemma amount_at_insert m k k' v :
  amount_at (<[k := v]> m) k' = if bool_decide (k = k') then v else amount_at m k'.
Proof.
  unfold amount_at. case_bool_decide; subst.
  - by rewrite lookup_insert_eq.
  - by rewrite lookup_insert_ne.
Qed.

Lemma total_insert (m : gmap key Z) k v :
  table_sum (fun _ v => v) (<[k := v]> m) = table_sum (fun _ v => v) m - amount_at m k + v.
Proof.
  unfold amount_at. destruct (m !! k) as [v0|] eqn:E; cbn [default].
  - by rewrite (table_sum_update _ m k v0 v E).
  - rewrite table_sum_insert by done. lia.
Qed.

Lemma checked_add_Ok bits a b x : checked_add bits a b = Ok x -> x = a + b /\ a + b < 2 ^ bits.
Proof. unfold checked_add. destruct (a + b <? 2 ^ bits) eqn:E; intros [=]; b2p; lia. Qed.

Lemma checked_sub_Ok a b x : checked_sub a b = Ok x -> x = a - b /\ b <= a.
Proof. unfold checked_sub. destruct (b <=? a) eqn:E; intros [=]; b2p; lia. Qed.

Lemma require_Ok b e x : require b e = Ok x -> b = true.
Proof. by destruct b. Qed.

Lemma bind_Ok {A B} (r : result Revert A) (k : A -> result Revert B) b :
  (r ≫= k) = Ok b -> exists a, r = Ok a /\ k a = Ok b.
Proof. destruct r; [|discriminate]. intros Hk. by exists a. Qed.

(** Take a successful transaction apart, guard by guard. *)
Ltac unwind :=
  repeat match goal with
  | H : (_ ≫= _) = Ok _ |- _ => apply bind_Ok in H as (? & ? & H)
  | H : checked_add _ _ _ = Ok _ |- _ => apply checked_add_Ok in H as [-> H]
  | H : checked_sub _ _ = Ok _ |- _ => apply checked_sub_Ok in H as [-> H]
  | H : require _ _ = Ok _ |- _ => apply require_Ok in H
  | H : onlyTrustee _ _ = Ok _ |- _ => apply require_Ok in H
  | H : bool_decide _ = true |- _ => apply bool_decide_eq_true in H
  | H : negb _ = true |- _ => apply negb_true_iff in H
  | H : Ok _ = Ok _ |- _ => injection H as <- <-
  | H : andb _ _ = true |- _ => apply andb_true_iff in H as [? ?]
  end; b2p.

Lemma open_reclaims_insert c i r k (rs := reclaims c) :
  rs !! i = None ->
  table_sum (fun _ r => if bool_decide (reclaim_key r = k) then rc_amount r else 0) (<[i := r]> rs) =
  open_reclaims c k + (if bool_decide (reclaim_key r = k) then rc_amount r else 0).
Proof. intros Hi. rewrite table_sum_insert by done. unfold open_reclaims, rs. lia. Qed.

Lemma open_reclaims_delete c i r k (rs := reclaims c) :
  rs !! i = Some r ->
  table_sum (fun _ r => if bool_decide (reclaim_key r = k) then rc_amount r else 0) (delete i rs) =
  open_reclaims c k - (if bool_decide (reclaim_key r = k) then rc_amount r else 0).
Proof.
  intros Hi. unfold open_reclaims, rs.
  rewrite (table_sum_delete _ (reclaims c) i r Hi). lia.
Qed.

(** An open request is in the table. *)
Lemma open_reclaim_found c i :
  rc_amount (reclaim_at c i) <> 0 -> reclaims c !! i = Some (reclaim_at c i).
Proof. unfold reclaim_at. by destruct (reclaims c !! i). Qed.

Lemma open_reclaim_counted c i r :
  contract_wf c -> reclaims c !! i = Some r -> rc_amount r <= open_reclaims c (reclaim_key r).
Proof.
  intros Hwf Hi. unfold open_reclaims.
  assert (Hle := table_sum_lookup_le
    (fun (_ : Z) r' => if bool_decide (reclaim_key r' = reclaim_key r) then rc_amount r' else 0)
    (reclaims c) i r).
  cbn in Hle. rewrite bool_decide_true in Hle by done. apply Hle; [|done].
  intros j r' Hj. apply (wf_reclaims _ Hwf) in Hj. case_bool_decide; lia.
Qed.

Lemma collateral_covered c k : contract_wf c -> amount_at (collaterals c) k <= balance c.
Proof.
  intros Hwf. rewrite (wf_balance _ Hwf). unfold total_collateral.
  pose proof (wf_collaterals _ Hwf) as Hb. unfold amount_at in *.
  assert (forall k v, collaterals c !! k = Some v -> 0 <= v) as Hpos.
  { intros k' v Hk. specialize (Hb k'). rewrite Hk in Hb. cbn in Hb. lia. }
  destruct (collaterals c !! k) as [v|] eqn:E; cbn.
  - exact (table_sum_lookup_le (fun (_ : key) v => v) _ _ _ Hpos E).
  - exact (table_sum_nonneg (fun (_ : key) v => v) _ Hpos).
Qed.

Section Preservation.
Context (c : Contract) (m : Message) (Hwf : contract_wf c) (Hm : 0 <= msg_value m).

Lemma deposit_wf hk ex c' logs : deposit hk ex m c = Ok (c', logs) -> contract_wf c'.
Proof.
  intros H. unfold deposit in H. unwind.
  match goal with Ho : _ = Ok _ |- _ => clear Ho end.
  pose proof (wf_collaterals _ Hwf (hk, ex)).
  constructor; cbn [collaterals collateralUnderPendingReclaims nextReclaimId reclaims balance].
  - intros k. rewrite amount_at_insert. pose proof (wf_collaterals _ Hwf k).
    unfold u256_max in *. case_bool_decide; lia.
  - apply (wf_pending_range _ Hwf).
  - apply (wf_next _ Hwf).
  - apply (wf_reclaims _ Hwf).
  - apply (wf_keys _ Hwf).
  - rewrite (wf_balance _ Hwf). unfold total_collateral. cbn [collaterals].
    rewrite total_insert. lia.
  - apply (wf_pending _ Hwf).
Qed.

Lemma reclaimCollateral_wf hk ex url md5 c' logs :
  key_ok (hk, ex) ->
  reclaimCollateral hk ex url md5 m c = Ok (c', logs) -> contract_wf c'.
Proof.
  intros Hkey H. unfold reclaimCollateral in H. unwind.
  pose proof (wf_collaterals _ Hwf (hk, ex)). pose proof (wf_next _ Hwf).
  assert (reclaims c !! nextReclaimId c = None) as Hnew.
  { apply eq_None_not_Some. intros [r Hr]. apply (wf_reclaims _ Hwf) in Hr. lia. }
  constructor; cbn [collaterals collateralUnderPendingReclaims nextReclaimId reclaims balance].
  - apply (wf_collaterals _ Hwf).
  - intros k. rewrite amount_at_insert. pose proof (wf_pending_range _ Hwf k).
    unfold u256_max in *. case_bool_decide; lia.
  - unfold u256_max in *. lia.
  - intros i r [[<- <-]|[Hne Hi]]%lookup_insert_Some; cbn [rc_amount]; [split; lia|].
    apply (wf_reclaims _ Hwf) in Hi. lia.
  - intros i r [[<- <-]|[Hne Hi]]%lookup_insert_Some; [done|]. by apply (wf_keys _ Hwf) in Hi.
  - apply (wf_balance _ Hwf).
  - intros k. unfold open_reclaims at 1. cbn [reclaims].
    rewrite open_reclaims_insert by done. rewrite amount_at_insert.
    unfold reclaim_key. cbn [rc_hotkey rc_executorId rc_amount].
    rewrite <- (wf_pending _ Hwf k). case_bool_decide; subst; lia.
Qed.

Lemma finalizeReclaim_wf i c' logs : finalizeReclaim i m c = Ok (c', logs) -> contract_wf c'.
Proof.
  intros H. unfold finalizeReclaim in H. unwind.
  assert (reclaims c !! i = Some (reclaim_at c i)) as Hi by (apply open_reclaim_found; lia).
  set (r := reclaim_at c i) in *. pose proof (wf_reclaims _ Hwf _ _ Hi) as [Hid Hpos].
  constructor; cbn [collaterals collateralUnderPendingReclaims nextReclaimId reclaims balance].
  - intros k. rewrite amount_at_insert. pose proof (wf_collaterals _ Hwf k).
    pose proof (wf_collaterals _ Hwf (reclaim_key r)). case_bool_decide; lia.
  - intros k. rewrite amount_at_insert. pose proof (wf_pending_range _ Hwf k).
    pose proof (wf_pending_range _ Hwf (reclaim_key r)). case_bool_decide; lia.
  - apply (wf_next _ Hwf).
  - intros j r' [_ Hj]%lookup_delete_Some. by apply (wf_reclaims _ Hwf).
  - intros j r' [_ Hj]%lookup_delete_Some. by apply (wf_keys _ Hwf) in Hj.
  - rewrite (wf_balance _ Hwf). unfold total_collateral. cbn [collaterals].
    rewrite total_insert. lia.
  - intros k. unfold open_reclaims at 1. cbn [reclaims].
    rewrite (open_reclaims_delete _ _ _ _ Hi), amount_at_insert, <- (wf_pending _ Hwf k).
    case_bool_decide; subst; lia.
Qed.

Lemma denyReclaimRequest_wf i url md5 c' logs :
  denyReclaimRequest i url md5 m c = Ok (c', logs) -> contract_wf c'.
Proof.
  intros H. unfold denyReclaimRequest in H. unwind.
  assert (reclaims c !! i = Some (reclaim_at c i)) as Hi by (apply open_reclaim_found; lia).
  set (r := reclaim_at c i) in *. pose proof (wf_reclaims _ Hwf _ _ Hi) as [Hid Hpos].
  constructor; cbn [collaterals collateralUnderPendingReclaims nextReclaimId reclaims balance].
  - apply (wf_collaterals _ Hwf).
  - intros k. rewrite amount_at_insert. pose proof (wf_pending_range _ Hwf k).
    pose proof (wf_pending_range _ Hwf (reclaim_key r)). case_bool_decide; lia.
  - apply (wf_next _ Hwf).
  - intros j r' [_ Hj]%lookup_delete_Some. by apply (wf_reclaims _ Hwf).
  - intros j r' [_ Hj]%lookup_delete_Some. by apply (wf_keys _ Hwf) in Hj.
  - apply (wf_balance _ Hwf).
  - intros k. unfold open_reclaims at 1. cbn [reclaims].
    rewrite (open_reclaims_delete _ _ _ _ Hi), amount_at_insert, <- (wf_pending _ Hwf k).
    case_bool_decide; subst; lia.
Qed.

Lemma slashCollateral_wf hk ex url md5 c' logs :
  slashCollateral hk ex url md5 m c = Ok (c', logs) -> contract_wf c'.
Proof.
  intros H. unfold slashCollateral in H. unwind.
  constructor; cbn [collaterals collateralUnderPendingReclaims nextReclaimId reclaims balance].
  - intros k. rewrite amount_at_insert. pose proof (wf_collaterals _ Hwf k).
    unfold u256_max in *. case_bool_decide; lia.
  - apply (wf_pending_range _ Hwf).
  - apply (wf_next _ Hwf).
  - apply (wf_reclaims _ Hwf).
  - apply (wf_keys _ Hwf).
  - rewrite (wf_balance _ Hwf). unfold total_collateral. cbn [collaterals].
    rewrite total_insert. lia.
  - apply (wf_pending _ Hwf).
Qed.

Lemma with_settings_wf trustee timeout min : contract_wf (with_settings c trustee timeout min).
Proof. by destruct Hwf; constructor. Qed.

#[local] Hint Resolve deposit_wf reclaimCollateral_wf finalizeReclaim_wf denyReclaimRequest_wf
  slashCollateral_wf with_settings_wf : core.

Lemma execute_wf call c' logs : call_ok call -> execute call m c = Ok (c', logs) -> contract_wf c'.
Proof.
  destruct call; cbn [execute call_ok]; intros Hc; [by eauto|..]; intros H; apply bind_Ok in H as (u & _ & H);
    eauto; unfold updateTrustee, updateDecisionTimeout, updateMinCollateralIncrease in H;
    unwind; auto.
Qed.
End Preservation.

Lemma transact_wf c tx : contract_wf c -> tx_ok tx -> contract_wf (transact c tx).1.
Proof.
  intros Hwf [Hc Hm]. unfold transact. destruct (execute tx.1 tx.2 c) as [[c' logs]|] eqn:E; [|done].
  by eapply execute_wf.
Qed.

Lemma run_block_cons c tx rest :
  run_block c (tx :: rest) =
  ((run_block (transact c tx).1 rest).1, (transact c tx).2 ++ (run_block (transact c tx).1 rest).2).
Proof. cbn [run_block]. by destruct (transact c tx), (run_block _ rest). Qed.

Lemma run_block_wf txs : forall c,
  contract_wf c -> Forall tx_ok txs -> contract_wf (run_block c txs).1.
Proof.
  induction txs as [|tx txs IH]; intros c Hwf Hok; [done|]. inversion Hok; subst.
  rewrite run_block_cons. apply IH; [by apply transact_wf|done].
Qed.

Lemma run_blocks_wf blocks : forall c,
  contract_wf c -> Forall (Forall tx_ok) blocks ->
  contract_wf (run_blocks c blocks).
Proof.
  unfold run_blocks. induction blocks as [|b bs IH]; intros c Hwf Hok; [done|].
  inversion Hok; subst. cbn [foldl]. apply IH; [by apply run_block_wf|done].
Qed.

Lemma initialize_wf trustee min timeout admin c :
  initialize trustee min timeout admin = Ok c -> contract_wf c.
Proof.
  unfold initialize. intros H.
  repeat (apply bind_Ok in H as (? & _ & H)). injection H as <-.
  constructor; cbn; intros; unfold u256_max, amount_at in *; try done; try lia.
Qed.
