(* ===== verification/Collateral.v ===== *)
(** * Validator: the mirror of the collateral contract

    The validator copies the collateral of every executor from the logs of the contract
    into its database: the scan of the logs (collateral-contract/src/lib.rs, config.rs),
    the two tables and their statements (persistence/collateral_persistence.rs) and the
    periodic scan (collateral/collateral_scan.rs).

    The log format is Ethereum's: the class [EventAbi] has the signature hashes and
    decoders the [sol!] macro generates, and the encoding the chain uses; [AbiLaws] says
    that decoding inverts encoding and that the hashes of different events differ.  The
    RPC node and SQLite are an environment indexed by the number of interactions: any
    request may fail.  Timestamps are instants. *)

From stdpp Require Import base gmap strings list.
From Stdlib Require Import ZArith.
From S2P Require Import Prelude.
From S2P Require Import Bytes.
From S2P Require Import Text.
From S2P Require Import Collections.
From S2P Require Import CollateralContract.
Local Open Scope Z_scope.

(** ** Logs *)

Inductive CollateralEvent :=
  | EvDeposit (d : Deposit)
  | EvReclaimed (r : Reclaimed)
  | EvSlashed (s : Slashed).

Class EventAbi := {
  topic : Type;
  payload : Type;
  topic_eqb : topic -> topic -> bool;
  deposit_hash : topic;
  reclaimed_hash : topic;
  slashed_hash : topic;
  decode_deposit : list topic -> payload -> option Deposit;
  decode_reclaimed : list topic -> payload -> option Reclaimed;
  decode_slashed : list topic -> payload -> option Slashed;
  encode : ContractLog -> list topic * payload
}.

Record RawLog `{EventAbi} := {
  removed : bool;
  block_number : option Z;
  topics : list topic;
  log_data : payload
}.

(** ** Configuration *)

Definition MAX_BLOCKS_PER_SCAN : Z := 1000.
Definition CONTRACT_DEPLOYED_BLOCK_NUMBER : Z := 0.

Definition COLLATERAL_ADDRESS : address := replicate 20 0.
Definition DEFAULT_CONTRACT_ADDRESS : address := replicate 19 0 ++ [2].

Inductive Network := Mainnet | Testnet | Local.

Record CollateralNetworkConfig := {
  chain_id : Z;
  rpc_url : string;
  contract_address : address
}.

(** The parser of addresses is alloy's. *)
Definition from_network (parse_address : string -> option address) (network : Network)
    (contract_address : option string) : result string CollateralNetworkConfig :=
  let build (parsed : option address) :=
    match network with
    | Mainnet => {| chain_id := 964; rpc_url := "https://lite.chain.opentensor.ai:443";
                    contract_address := default COLLATERAL_ADDRESS parsed |}
    | Testnet => {| chain_id := 945; rpc_url := "https://test.finney.opentensor.ai";
                    contract_address := default DEFAULT_CONTRACT_ADDRESS parsed |}
    | Local => {| chain_id := 42; rpc_url := "http://localhost:9944";
                  contract_address := default DEFAULT_CONTRACT_ADDRESS parsed |}
    end in
  match contract_address with
  | None => Ok (build None)
  | Some s =>
      match parse_address s with
      | Some a => Ok (build (Some a))
      | None => Err ("Invalid contract address: " +:+ s)
      end
  end.

Definition default_config : CollateralNetworkConfig := {|
  chain_id := 964; rpc_url := "https://lite.chain.opentensor.ai:443";
  contract_address := COLLATERAL_ADDRESS |}.

(** ** Tables *)

(** collateral_status, keyed by [id]; unique in hotkey and executor_id. *)
Record status_row := {
  cs_hotkey : string;
  cs_executor_id : string;
  cs_miner : string;
  cs_collateral : string;
  cs_url : option string;
  cs_url_content_md5_checksum : option string;
  cs_updated_at : Z
}.

(** collateral_scan_status has the one row with id 1: block and time of the update. *)
Record CollateralDb := {
  collateral_status : gmap Z status_row;
  next_status_id : Z;                      (* AUTOINCREMENT *)
  collateral_scan_status : option (Z * Z)
}.

Definition empty_db : CollateralDb :=
  {| collateral_status := ∅; next_status_id := 1; collateral_scan_status := None |}.

(** ** Effects *)

Inductive CError :=
  | SqlFailed
  | RpcFailed
  | InvalidCollateral
  | StatusNotFound
  | FromBlockTooHigh
  | BlockNumberMissing
  | DecodeFailed.

Section Scan.
Context `{EventAbi} `{HashOrder}.

Record CEnv := {
  c_clock : nat -> Z;
  c_sql_fails : nat -> bool;
  rpc_block_number : nat -> option Z;
  rpc_logs : nat -> address -> Z -> Z -> option (list RawLog)
}.

Record CWorld := { cdb : CollateralDb; csteps : nat }.

Definition CM (A : Type) : Type := CEnv -> CWorld -> result CError A * CWorld.

#[export] Instance CM_ret : MRet CM := fun A a _ w => (Ok a, w).
#[export] Instance CM_bind : MBind CM := fun A B k m env w =>
  match m env w with
  | (Ok a, w') => k a env w'
  | (Err e, w') => (Err e, w')
  end.

Definition cfail {A} (e : CError) : CM A := fun _ w => (Err e, w).

(** One interaction with the environment. *)
Definition interact {A} (f : CEnv -> nat -> A) : CM A := fun env w =>
  (Ok (f env (csteps w)), {| cdb := cdb w; csteps := S (csteps w) |}).

Definition cnow : CM Z := interact c_clock.

(** A statement; [None] is a violated constraint. *)
Definition cstatement {A} (f : CollateralDb -> option (A * CollateralDb)) : CM A :=
  fails ← interact c_sql_fails;
  if fails : bool then cfail SqlFailed
  else fun _ w =>
    match f (cdb w) with
    | Some (a, d) => (Ok a, {| cdb := d; csteps := csteps w |})
    | None => (Err SqlFailed, w)
    end.

(** [if let Err(e) = result { warn!(..) }]. *)
Definition warn_only {A} (m : CM A) : CM unit := fun env w => (Ok tt, (m env w).2).

(** ** collateral_persistence.rs *)

Definition with_status (d : CollateralDb) (rows : gmap Z status_row) : CollateralDb := {|
  collateral_status := rows; next_status_id := next_status_id d;
  collateral_scan_status := collateral_scan_status d |}.

Definition with_scan (d : CollateralDb) (s : option (Z * Z)) : CollateralDb := {|
  collateral_status := collateral_status d; next_status_id := next_status_id d;
  collateral_scan_status := s |}.

(** [INSERT ... VALUES (?, ?, 1)], which a second run violates; the error is ignored. *)
Definition create_collateral_scanned_blocks_table : CM unit :=
  t ← cnow;
  _ ← cstatement (fun d => Some (tt, d));
  warn_only (cstatement (fun d =>
    match collateral_scan_status d with
    | None => Some (tt, with_scan d (Some (wrap_signed 64 CONTRACT_DEPLOYED_BLOCK_NUMBER, t)))
    | Some _ => None
    end)).

Definition get_last_scanned_block_number : CM Z :=
  row ← cstatement (fun d => Some (collateral_scan_status d, d));
  match row with
  | Some (block, _) => mret (wrap 64 block)
  | None => cfail SqlFailed
  end.

Definition update_last_scanned_block_number (last_scanned_block : Z) : CM unit :=
  t ← cnow;
  cstatement (fun d => Some (tt, with_scan d
    ((fun _ => (wrap_signed 64 last_scanned_block, t)) <$> collateral_scan_status d))).

(** [SELECT ... WHERE hotkey = ? AND executor_id = ?]. *)
Definition is_status_of (hotkey executor_id : string) (row : status_row) : bool :=
  bool_decide (cs_hotkey row = hotkey) && bool_decide (cs_executor_id row = executor_id).

Definition find_status (hotkey executor_id : string) (d : CollateralDb) : option (Z * status_row) :=
  head (filter (fun p => is_status_of hotkey executor_id p.2 = true) (map_to_list (collateral_status d))).

(** [U256::from_str_radix(_, 10)] on the digits the code writes. *)
Definition parse_u256 (s : string) : option Z :=
  v ← parse_digits s 0; if v <=? u256_max then Some v else None.

Definition get_collateral_status_id (hotkey executor_id : string) : CM (option (Z * Z)) :=
  row ← cstatement (fun d => Some (find_status hotkey executor_id d, d));
  match row with
  | Some (id, row) =>
      match parse_u256 (cs_collateral row) with
      | Some collateral => mret (Some (id, collateral))
      | None => cfail InvalidCollateral
      end
  | None => mret None
  end.

Definition saturating_add (a b : Z) : Z := Z.min (a + b) u256_max.
Definition saturating_sub (a b : Z) : Z := Z.max (a - b) 0.

(** [UPDATE collateral_status SET collateral = ?, updated_at = ? WHERE id = ?]. *)
Definition set_collateral (id : Z) (collateral : string) (t : Z) : CM unit :=
  cstatement (fun d => Some (tt, with_status d (alter (fun row => {|
    cs_hotkey := cs_hotkey row; cs_executor_id := cs_executor_id row; cs_miner := cs_miner row;
    cs_collateral := collateral; cs_url := cs_url row;
    cs_url_content_md5_checksum := cs_url_content_md5_checksum row; cs_updated_at := t |})
    id (collateral_status d)))).

(** [INSERT INTO collateral_status], under UNIQUE(hotkey, executor_id). *)
Definition insert_status (hotkey executor_id miner collateral : string) (t : Z) : CM unit :=
  cstatement (fun d =>
    match find_status hotkey executor_id d with
    | Some _ => None
    | None => Some (tt, {|
        collateral_status := <[next_status_id d := {|
          cs_hotkey := hotkey; cs_executor_id := executor_id; cs_miner := miner;
          cs_collateral := collateral; cs_url := None; cs_url_content_md5_checksum := None;
          cs_updated_at := t |}]> (collateral_status d);
        next_status_id := next_status_id d + 1;
        collateral_scan_status := collateral_scan_status d |})
    end).

Definition handle_deposit (d : Deposit) : CM unit :=
  found ← get_collateral_status_id (to_hex (d_hotkey d)) (to_hex (d_executorId d));
  match found with
  | Some (id, collateral) =>
      t ← cnow;
      set_collateral id (show_int (saturating_add collateral (d_amount d))) t
  | None =>
      t ← cnow;
      insert_status (to_hex (d_hotkey d)) (to_hex (d_executorId d))
        ("0x" +:+ to_hex (d_miner d)) (show_int (d_amount d)) t
  end.

Definition handle_reclaimed (r : Reclaimed) : CM unit :=
  found ← get_collateral_status_id (to_hex (r_hotkey r)) (to_hex (r_executorId r));
  match found with
  | Some (id, collateral) =>
      t ← cnow;
      set_collateral id (show_int (saturating_sub collateral (r_amount r))) t
  | None => cfail StatusNotFound
  end.

Definition handle_slashed (s : Slashed) : CM unit :=
  found ← get_collateral_status_id (to_hex (s_hotkey s)) (to_hex (s_executorId s));
  match found with
  | Some (id, _) =>
      t ← cnow;
      cstatement (fun d => Some (tt, with_status d (alter (fun row => {|
        cs_hotkey := cs_hotkey row; cs_executor_id := cs_executor_id row;
        cs_miner := "0x" +:+ to_hex zero_address;
        cs_collateral := show_int 0; cs_url := Some (s_url s);
        cs_url_content_md5_checksum := Some (to_hex (s_urlContentMd5Checksum s));
        cs_updated_at := t |}) id (collateral_status d))))
  | None => cfail StatusNotFound
  end.

(** ** The scan of the logs *)

(** The event of a log, [None] for any other; an error if it does not decode. *)
Definition decode_log (log : RawLog) : result CError (option CollateralEvent) :=
  let decoded {A} (r : option A) (mk : A -> CollateralEvent) :=
    match r with Some a => Ok (Some (mk a)) | None => Err DecodeFailed end in
  match head (topics log) with
  | Some sig =>
      if topic_eqb sig deposit_hash then
        decoded (decode_deposit (topics log) (log_data log)) EvDeposit
      else if topic_eqb sig reclaimed_hash then
        decoded (decode_reclaimed (topics log) (log_data log)) EvReclaimed
      else if topic_eqb sig slashed_hash then
        decoded (decode_slashed (topics log) (log_data log)) EvSlashed
      else Ok None
  | None => Ok None
  end.

(** One log into the events by block. *)
Definition collect_log (events : gmap Z (list CollateralEvent)) (log : RawLog)
    : result CError (gmap Z (list CollateralEvent)) :=
  if removed log then Ok events else
  match block_number log with
  | None => Err BlockNumberMissing
  | Some block =>
      match decode_log log with
      | Err e => Err e
      | Ok None => Ok events
      | Ok (Some event) => Ok (<[block := default [] (events !! block) ++ [event]]> events)
      end
  end.

Fixpoint collect_logs (events : gmap Z (list CollateralEvent)) (logs : list RawLog)
    : result CError (gmap Z (list CollateralEvent)) :=
  match logs with
  | [] => Ok events
  | log :: rest =>
      match collect_log events log with
      | Ok events' => collect_logs events' rest
      | Err e => Err e
      end
  end.

Definition scan_events_with_scope (from_block to_block : Z) (config : CollateralNetworkConfig)
    : CM (Z * gmap Z (list CollateralEvent)) :=
  logs ← interact (fun env n => rpc_logs env n (contract_address config) from_block to_block);
  match logs with
  | None => cfail RpcFailed
  | Some logs =>
      match collect_logs ∅ logs with
      | Ok events => mret (to_block, events)
      | Err e => cfail e
      end
  end.

Definition scan_events (from_block : Z) (config : CollateralNetworkConfig)
    : CM (Z * gmap Z (list CollateralEvent)) :=
  head ← interact rpc_block_number;
  match head with
  | None => cfail RpcFailed
  | Some head =>
      let current_block := Z.max (head - 1) 0 in
      if current_block <? from_block then cfail FromBlockTooHigh
      else
        let to_block := wrap 64 (from_block + MAX_BLOCKS_PER_SCAN) in
        scan_events_with_scope from_block (if current_block <? to_block then current_block else to_block) config
  end.

(** ** collateral_scan.rs *)

Definition handle_event (event : CollateralEvent) : CM unit :=
  match event with
  | EvDeposit d => handle_deposit d
  | EvReclaimed r => handle_reclaimed r
  | EvSlashed s => handle_slashed s
  end.

Fixpoint handle_events (events : list CollateralEvent) : CM unit :=
  match events with
  | [] => mret tt
  | event :: rest => _ ← handle_event event; handle_events rest
  end.

Fixpoint handle_blocks (blocks : list (Z * list CollateralEvent)) : CM unit :=
  match blocks with
  | [] => mret tt
  | (block, events) :: rest =>
      _ ← handle_events events;
      _ ← update_last_scanned_block_number block;
      handle_blocks rest
  end.

(** The entries of the hash map, sorted by block. *)
Definition sorted_blocks (n : nat) (events : gmap Z (list CollateralEvent)) : list (Z * list CollateralEvent) :=
  sort_by (fun a b => a.1 <=? b.1) (shuffle n "events_map" (map_to_list events)).

Definition scan_handle_collateral_events : CM unit :=
  last_block ← get_last_scanned_block_number;
  '(to_block, events_map) ← scan_events (wrap 64 (last_block + 1)) default_config;
  n ← interact (fun _ n => n);
  _ ← handle_blocks (sorted_blocks n events_map);
  update_last_scanned_block_number to_block.

(** [start]: one scan per tick, errors only logged. *)
Fixpoint run_scans (ticks : nat) (env : CEnv) (w : CWorld) : CWorld :=
  match ticks with
  | O => w
  | S k => run_scans k env (scan_handle_collateral_events env w).2
  end.
End Scan.
