(* ===== verification/CollateralClaims.v ===== *)
(** * The validator's table mirrors the collateral contract

    The history of the contract is a list of blocks of transactions; the logs an RPC node
    returns are those the transactions emitted.  Replaying the events of the logs gives
    the contract's mapping of collaterals, the handlers replay one event on the table
    without ever saturating or failing, and so every scan that reaches the node brings
    the table to the state of the contract at the block it recorded. *)

From stdpp Require Import base gmap strings list sorting.
From Stdlib Require Import ZArith.
From S2P Require Import Prelude.
From S2P Require Import Bytes.
From S2P Require Import Text.
From S2P Require Import Collections.
From S2P Require Import CollateralContract.
From S2P Require Import Collateral.
Local Open Scope Z_scope.

(** ** The contract can pay *)

(** C5: the collateral contract stays solvent.  After any transactions in any blocks it
    holds exactly the money of all collaterals, what is marked as pending for an executor
    is the sum of its open reclaim requests, and every amount fits its type.  So an open
    request past its timeout whose collateral is still there is always paid to a receiver
    that takes the money: no payment fails for lack of funds and no checked subtraction
    on the way reverts. *)
Theorem contract_solvent trustee min timeout admin c0 blocks :
  initialize trustee min timeout admin = Ok c0 ->
  Forall (Forall tx_ok) blocks ->
  let c := run_blocks c0 blocks in
  contract_wf c /\
  forall i r m, reclaims c !! i = Some r -> rc_denyTimeout r < block_timestamp m ->
    rc_amount r <= amount_at (collaterals c) (reclaim_key r) ->
    msg_value m = 0 -> payee_accepts m = true ->
    exists c' logs, execute (CallFinalize i) m c = Ok (c', logs) /\
      balance c' = balance c - rc_amount r /\ reclaims c' !! i = None /\
      amount_at (collaterals c') (reclaim_key r) = amount_at (collaterals c) (reclaim_key r) - rc_amount r.
Proof.
  intros Hinit Hok c. assert (contract_wf c) as Hwf by (eapply run_blocks_wf; eauto using initialize_wf).
  split; [done|]. intros i r m Hi Htime Hcol Hval Hpay.
  assert (reclaim_at c i = r) as Hr by (unfold reclaim_at; by rewrite Hi).
  pose proof (wf_reclaims _ Hwf _ _ Hi) as [_ Hpos].
  pose proof (open_reclaim_counted _ _ _ Hwf Hi) as Hpend. rewrite <- (wf_pending _ Hwf) in Hpend.
  pose proof (collateral_covered _ (reclaim_key r) Hwf) as Hcov.
  assert (rc_amount r <= balance c) as Hfunds by lia.
  unfold execute, finalizeReclaim, pay, checked_sub, require.
  rewrite Hr, Hval, Hpay, (proj2 (Z.eqb_neq _ _)), (proj2 (Z.ltb_lt _ _) Htime) by lia.
  rewrite (proj2 (Z.leb_le _ _) Hpend), (proj2 (Z.leb_le _ _) Hcol), (proj2 (Z.leb_le _ _) Hfunds).
  eexists _, _. split; [reflexivity|]. cbn [balance reclaims collaterals].
  by rewrite lookup_delete_eq, amount_at_insert, bool_decide_true.
Qed.

(** ** Events and the contract *)

Definition event_of (log : ContractLog) : option CollateralEvent :=
  match log with
  | LogDeposit d => Some (EvDeposit d)
  | LogReclaimed r => Some (EvReclaimed r)
  | LogSlashed s => Some (EvSlashed s)
  | _ => None
  end.

Definition event_key (event : CollateralEvent) : key :=
  match event with
  | EvDeposit d => (d_hotkey d, d_executorId d)
  | EvReclaimed r => (r_hotkey r, r_executorId r)
  | EvSlashed s => (s_hotkey s, s_executorId s)
  end.

(** What an event says about the collaterals. *)
Definition event_amount (m : gmap key Z) (event : CollateralEvent) : Z :=
  match event with
  | EvDeposit d => amount_at m (event_key event) + d_amount d
  | EvReclaimed r => amount_at m (event_key event) - r_amount r
  | EvSlashed _ => 0
  end.

Definition apply_event (m : gmap key Z) (event : CollateralEvent) : gmap key Z :=
  <[event_key event := event_amount m event]> m.

(** An event the contract can emit in a state with these collaterals. *)
Definition event_ok (m : gmap key Z) (event : CollateralEvent) : Prop :=
  key_ok (event_key event) /\
  match event with
  | EvDeposit d => 0 <= d_amount d /\ amount_at m (event_key event) + d_amount d <= u256_max
  | EvReclaimed r => 0 < r_amount r <= amount_at m (event_key event)
  | EvSlashed _ => 0 < amount_at m (event_key event)
  end.

Fixpoint events_ok (m : gmap key Z) (events : list CollateralEvent) : Prop :=
  match events with
  | [] => True
  | event :: rest => event_ok m event /\ events_ok (apply_event m event) rest
  end.

Lemma events_ok_app es es' : forall m,
  events_ok m es -> events_ok (foldl apply_event m es) es' -> events_ok m (es ++ es').
Proof. induction es as [|e es IH]; cbn; [done|]. intros m [He Hes] Hes'. auto. Qed.

Lemma event_amount_range m event :
  (forall k, 0 <= amount_at m k <= u256_max) -> event_ok m event ->
  0 <= event_amount m event <= u256_max.
Proof.
  intros Hm [_ He]. specialize (Hm (event_key event)).
  destruct event; cbn [event_amount]; unfold u256_max in *; lia.
Qed.

Section Replay.
Context (c : Contract) (m : Message) (Hwf : contract_wf c) (Hm : 0 <= msg_value m).

(** A successful transaction changes the collaterals as its events say. *)
Definition replays (c' : Contract) (logs : list ContractLog) : Prop :=
  collaterals c' = foldl apply_event (collaterals c) (omap event_of logs) /\
  events_ok (collaterals c) (omap event_of logs).

Lemma deposit_replays hk ex c' logs :
  key_ok (hk, ex) -> deposit hk ex m c = Ok (c', logs) -> replays c' logs.
Proof.
  intros Hk H. unfold deposit in H. unwind. split; [done|].
  cbn. unfold event_ok, u256_max. cbn. repeat split; try apply Hk; lia.
Qed.

Lemma finalize_replays i c' logs : finalizeReclaim i m c = Ok (c', logs) -> replays c' logs.
Proof.
  intros H. unfold finalizeReclaim in H. unwind.
  assert (reclaims c !! i = Some (reclaim_at c i)) as Hi by (apply open_reclaim_found; lia).
  pose proof (wf_reclaims _ Hwf _ _ Hi) as [_ Hpos]. pose proof (wf_keys _ Hwf _ _ Hi) as Hk.
  split; [done|]. cbn. unfold event_ok. cbn. repeat split; try apply Hk; done.
Qed.

Lemma slash_replays hk ex url md5 c' logs :
  key_ok (hk, ex) -> slashCollateral hk ex url md5 m c = Ok (c', logs) -> replays c' logs.
Proof.
  intros Hk H. unfold slashCollateral in H. unwind. split; [done|].
  pose proof (wf_collaterals _ Hwf (hk, ex)).
  cbn. unfold event_ok. cbn. repeat split; try apply Hk; lia.
Qed.

Lemma execute_replays call c' logs :
  call_ok call -> execute call m c = Ok (c', logs) -> replays c' logs.
Proof.
  destruct call; cbn [execute call_ok]; intros Hk H; [by eapply deposit_replays|..];
    apply bind_Ok in H as (u & _ & H);
    [|by eapply finalize_replays| |by eapply slash_replays|..];
    unfold reclaimCollateral, denyReclaimRequest, updateTrustee, updateDecisionTimeout,
      updateMinCollateralIncrease in H; unwind; done.
Qed.
End Replay.

Lemma transact_replays c tx :
  contract_wf c -> tx_ok tx -> replays c (transact c tx).1 (transact c tx).2.
Proof.
  intros Hwf [Hc Hm]. unfold transact. destruct (execute tx.1 tx.2 c) as [[c' logs]|] eqn:E; [|done].
  by eapply execute_replays.
Qed.

Lemma run_block_replays txs : forall c,
  contract_wf c -> Forall tx_ok txs -> replays c (run_block c txs).1 (run_block c txs).2.
Proof.
  induction txs as [|tx txs IH]; intros c Hwf Hok; [done|].
  apply Forall_cons in Hok as [Htx Htxs]. rewrite run_block_cons. cbn [fst snd].
  destruct (transact_replays c tx Hwf Htx) as [H1 H2].
  destruct (IH _ (transact_wf _ _ Hwf Htx) Htxs) as [H3 H4].
  unfold replays. rewrite omap_app, foldl_app. rewrite H1 in H3, H4.
  split; [done|]. by apply events_ok_app.
Qed.

(** ** The handlers replay an event on the table *)

(** The row of an executor holds its collateral in decimal digits. *)
Definition shows (d : CollateralDb) (m : gmap key Z) (k : key) : Prop :=
  match find_status (to_hex k.1) (to_hex k.2) d with
  | Some (_, row) => parse_u256 (cs_collateral row) = Some (amount_at m k)
  | None => amount_at m k = 0
  end.

(** UNIQUE(hotkey, executor_id). *)
Definition unique_rows (rows : gmap Z status_row) : Prop :=
  forall i j ri rj, rows !! i = Some ri -> rows !! j = Some rj ->
    cs_hotkey ri = cs_hotkey rj -> cs_executor_id ri = cs_executor_id rj -> i = j.

Record mirrors (d : CollateralDb) (m : gmap key Z) : Prop := {
  mi_unique : unique_rows (collateral_status d);
  mi_fresh : forall i r, collateral_status d !! i = Some r -> i < next_status_id d;
  mi_shows : forall k, key_ok k -> shows d m k
}.

Lemma is_status_of_true h e row :
  is_status_of h e row = true <-> cs_hotkey row = h /\ cs_executor_id row = e.
Proof. unfold is_status_of. by rewrite andb_true_iff, !bool_decide_eq_true. Qed.

Lemma find_status_Some h e d i row :
  find_status h e d = Some (i, row) ->
  collateral_status d !! i = Some row /\ cs_hotkey row = h /\ cs_executor_id row = e.
Proof.
  unfold find_status. intros Hh. apply head_Some_elem_of in Hh.
  apply list_elem_of_filter in Hh as [Hm Hin]. apply elem_of_map_to_list in Hin.
  by apply is_status_of_true in Hm.
Qed.

Lemma find_status_is_Some h e d i row :
  collateral_status d !! i = Some row -> cs_hotkey row = h -> cs_executor_id row = e ->
  is_Some (find_status h e d).
Proof.
  intros Hi Hh He. unfold find_status.
  assert ((i, row) ∈ filter (fun p => is_status_of h e p.2 = true) (map_to_list (collateral_status d))) as Hin.
  { apply list_elem_of_filter. split; [by apply is_status_of_true|by apply elem_of_map_to_list]. }
  destruct (filter _ _); [by apply elem_of_nil in Hin|]. by eexists.
Qed.

(** With unique keys, the row found is the row there is. *)
Lemma find_status_eq d h e i row :
  unique_rows (collateral_status d) -> collateral_status d !! i = Some row -> cs_hotkey row = h -> cs_executor_id row = e ->
  find_status h e d = Some (i, row).
Proof.
  intros Hd Hi Hh He. destruct (find_status_is_Some _ _ _ _ _ Hi Hh He) as [[j row'] Hf].
  rewrite Hf. apply find_status_Some in Hf as (Hj & Hh' & He').
  assert (i = j) as -> by (eapply Hd; eauto; congruence). congruence.
Qed.

Lemma to_hex_key k k' :
  key_ok k -> key_ok k' -> to_hex k.1 = to_hex k'.1 -> to_hex k.2 = to_hex k'.2 -> k = k'.
Proof.
  intros (H1 & _ & H2 & _) (H1' & _ & H2' & _) E1 E2. destruct k, k'; cbn in *.
  f_equal; by apply to_hex_inj.
Qed.

Lemma parse_show_u256 v : 0 <= v <= u256_max -> parse_u256 (show_int v) = Some v.
Proof.
  intros Hv. unfold parse_u256. rewrite show_int_digits by lia. cbn.
  by rewrite (proj2 (Z.leb_le _ _)) by lia.
Qed.

Section Update.
Context (f : status_row -> status_row)
  (Hkeep : forall r, cs_hotkey (f r) = cs_hotkey r /\ cs_executor_id (f r) = cs_executor_id r).

Lemma alter_row_back (rows : gmap Z status_row) i j r' :
  alter f i rows !! j = Some r' ->
  exists r, rows !! j = Some r /\ cs_hotkey r' = cs_hotkey r /\ cs_executor_id r' = cs_executor_id r.
Proof using Hkeep.
  destruct (decide (i = j)) as [->|Hne].
  - rewrite lookup_alter_eq. intros (r & Hr & ->)%fmap_Some. exists r. by destruct (Hkeep r).
  - rewrite lookup_alter_ne by done. eauto.
Qed.

Lemma unique_alter rows i : unique_rows rows -> unique_rows (alter f i rows).
Proof using Hkeep.
  intros Hu a b ra rb (ra' & Ha & Eh & Ee)%alter_row_back (rb' & Hb & Eh' & Ee')%alter_row_back ? ?.
  eapply Hu; eauto; congruence.
Qed.

(** A row is found as before, changed if it is the updated one. *)
Lemma find_status_alter d i h e :
  unique_rows (collateral_status d) ->
  find_status h e (with_status d (alter f i (collateral_status d))) =
  (fun p => (p.1, if decide (p.1 = i) then f p.2 else p.2)) <$> find_status h e d.
Proof using Hkeep.
  intros Hu. destruct (find_status h e d) as [[j r]|] eqn:Hf; cbn [fmap option_fmap option_map fst snd].
  - apply find_status_Some in Hf as (Hj & Eh & Ee). destruct (Hkeep r).
    apply find_status_eq; cbn [with_status collateral_status]; [by apply unique_alter| | |].
    + destruct (decide (j = i)) as [->|Hne].
      * by rewrite lookup_alter_eq, Hj.
      * by rewrite lookup_alter_ne.
    + case_decide; congruence.
    + case_decide; congruence.
  - apply eq_None_not_Some. intros [[j r'] Hf'].
    apply find_status_Some in Hf' as (Hj & Eh & Ee). cbn [with_status collateral_status] in Hj.
    apply alter_row_back in Hj as (r & Hj & Eh' & Ee').
    destruct (find_status_is_Some h e d j r) as [? ?]; congruence.
Qed.

(** Updating the amount of a row that is there. *)
Lemma mirrors_update d m k i row v :
  mirrors d m -> key_ok k -> find_status (to_hex k.1) (to_hex k.2) d = Some (i, row) ->
  cs_collateral (f row) = show_int v -> 0 <= v <= u256_max ->
  mirrors (with_status d (alter f i (collateral_status d))) (<[k := v]> m).
Proof using Hkeep.
  intros Hd Hk Hf Hv Hrange. pose proof (mi_unique _ _ Hd) as Hu. constructor.
  - by apply unique_alter.
  - intros j r' (r & Hj & _)%alter_row_back. by apply (mi_fresh _ _ Hd) in Hj.
  - intros k' Hk'. unfold shows. rewrite amount_at_insert, find_status_alter by done.
    pose proof (mi_shows _ _ Hd k' Hk') as Hs. unfold shows in Hs.
    destruct (decide (k = k')) as [<-|Hne].
    + rewrite Hf, bool_decide_true by done. cbn. rewrite decide_True by done.
      rewrite Hv. by apply parse_show_u256.
    + rewrite bool_decide_false by done.
      destruct (find_status (to_hex k'.1) _ d) as [[j r]|] eqn:Hf'; cbn; [|done].
      apply find_status_Some in Hf as (Hi & Eh & Ee). apply find_status_Some in Hf' as (Hj & Eh' & Ee').
      rewrite decide_False; [done|]. intros ->. apply Hne, to_hex_key; try done; congruence.
Qed.
End Update.

(** Inserting the row of an executor without one. *)
Lemma mirrors_insert d m k row v :
  mirrors d m -> key_ok k -> find_status (to_hex k.1) (to_hex k.2) d = None ->
  cs_hotkey row = to_hex k.1 -> cs_executor_id row = to_hex k.2 ->
  cs_collateral row = show_int v -> 0 <= v <= u256_max ->
  mirrors {| collateral_status := <[next_status_id d := row]> (collateral_status d);
             next_status_id := next_status_id d + 1;
             collateral_scan_status := collateral_scan_status d |} (<[k := v]> m).
Proof.
  intros Hd Hk Hf Eh Ee Hv Hrange.
  assert (Hnew : forall j r, collateral_status d !! j = Some r ->
    cs_hotkey r = cs_hotkey row -> cs_executor_id r = cs_executor_id row -> False).
  { intros j r Hj ? ?. destruct (find_status_is_Some (to_hex k.1) (to_hex k.2) d j r) as [? ?]; congruence. }
  assert (Hu : unique_rows (<[next_status_id d := row]> (collateral_status d))).
  { intros i j ri rj [[<- <-]|[? Hi]]%lookup_insert_Some [[<- <-]|[? Hj]]%lookup_insert_Some ? ?;
      try done; [by exfalso; eapply Hnew|by exfalso; eapply Hnew|].
    by eapply (mi_unique _ _ Hd). }
  constructor; [done| |].
  - cbn [collateral_status next_status_id].
    intros j r [[<- <-]|[? Hj]]%lookup_insert_Some; [lia|].
    apply (mi_fresh _ _ Hd) in Hj. lia.
  - intros k' Hk'. unfold shows. rewrite amount_at_insert.
    pose proof (mi_shows _ _ Hd k' Hk') as Hs. unfold shows in Hs.
    destruct (decide (k = k')) as [<-|Hne].
    + rewrite (find_status_eq _ _ _ (next_status_id d) row), bool_decide_true;
        try done; [|by apply lookup_insert_eq]. rewrite Hv. by apply parse_show_u256.
    + rewrite bool_decide_false by done.
      destruct (find_status (to_hex k'.1) _ d) as [[j r]|] eqn:Hf'.
      * apply find_status_Some in Hf' as (Hj & Eh' & Ee').
        rewrite (find_status_eq _ _ _ j r); try done. cbn [collateral_status].
        apply (mi_fresh _ _ Hd) in Hj as Hlt. by rewrite lookup_insert_ne by lia.
      * destruct (find_status _ _ {| collateral_status := _ |}) as [[j r]|] eqn:Hf''; [|done].
        apply find_status_Some in Hf'' as (Hj & Eh' & Ee'). cbn [collateral_status] in Hj.
        apply lookup_insert_Some in Hj as [[<- <-]|[_ Hj]].
        { exfalso. apply Hne, to_hex_key; try done; congruence. }
        destruct (find_status_is_Some (to_hex k'.1) (to_hex k'.2) d j r) as [? ?]; congruence.
Qed.

(** ** The handlers without lost statements *)

(** What alloy and the chain promise about logs. *)
Class AbiLaws `{EventAbi} : Prop := {
  topic_eqb_eq : forall a b, topic_eqb a b = true <-> a = b;
  hashes_differ : NoDup [deposit_hash; reclaimed_hash; slashed_hash];
  deposit_encoded : forall d,
    head (encode (LogDeposit d)).1 = Some deposit_hash /\
    decode_deposit (encode (LogDeposit d)).1 (encode (LogDeposit d)).2 = Some d;
  reclaimed_encoded : forall r,
    head (encode (LogReclaimed r)).1 = Some reclaimed_hash /\
    decode_reclaimed (encode (LogReclaimed r)).1 (encode (LogReclaimed r)).2 = Some r;
  slashed_encoded : forall s,
    head (encode (LogSlashed s)).1 = Some slashed_hash /\
    decode_slashed (encode (LogSlashed s)).1 (encode (LogSlashed s)).2 = Some s;
  others_encoded : forall log sig, event_of log = None -> head (encode log).1 = Some sig ->
    sig ∉ [deposit_hash; reclaimed_hash; slashed_hash]
}.

Section Handlers.
Context `{EventAbi} (env : CEnv) (Hsql : forall n, c_sql_fails env n = false).

Lemma bind_run {A B} (m : CM A) (k : A -> CM B) w :
  (m ≫= k) env w = match m env w with (Ok a, w') => k a env w' | (Err e, w') => (Err e, w') end.
Proof. reflexivity. Qed.

Lemma interact_run {A} (f : CEnv -> nat -> A) w :
  interact f env w = (Ok (f env (csteps w)), {| cdb := cdb w; csteps := S (csteps w) |}).
Proof. reflexivity. Qed.

Lemma cstatement_run {A} (f : CollateralDb -> option (A * CollateralDb)) w :
  cstatement f env w =
  match f (cdb w) with
  | Some (a, d) => (Ok a, {| cdb := d; csteps := S (csteps w) |})
  | None => (Err SqlFailed, {| cdb := cdb w; csteps := S (csteps w) |})
  end.
Proof using Hsql. unfold cstatement. rewrite bind_run, interact_run, Hsql. reflexivity. Qed.

(** The collateral read is the mirrored amount. *)
Lemma get_status_run k m w :
  mirrors (cdb w) m -> key_ok k ->
  get_collateral_status_id (to_hex k.1) (to_hex k.2) env w =
  (Ok ((fun p => (p.1, amount_at m k)) <$> find_status (to_hex k.1) (to_hex k.2) (cdb w)),
   {| cdb := cdb w; csteps := S (csteps w) |}).
Proof using Hsql.
  intros Hd Hk. unfold get_collateral_status_id. rewrite bind_run, cstatement_run.
  pose proof (mi_shows _ _ Hd k Hk) as Hs. unfold shows in Hs.
  destruct (find_status _ _ _) as [[i r]|]; [|done]. by rewrite Hs.
Qed.

(** A positive amount has a row. *)
Lemma mirrors_found d m k :
  mirrors d m -> key_ok k -> 0 < amount_at m k ->
  exists i row, find_status (to_hex k.1) (to_hex k.2) d = Some (i, row).
Proof.
  intros Hd Hk Hpos. pose proof (mi_shows _ _ Hd k Hk) as Hs. unfold shows in Hs.
  destruct (find_status _ _ _) as [[i r]|]; [eauto|lia].
Qed.

Definition replayed (w w' : CWorld) (m : gmap key Z) : Prop :=
  mirrors (cdb w') m /\ collateral_scan_status (cdb w') = collateral_scan_status (cdb w).

Lemma handle_deposit_run d m w (ev := EvDeposit d) :
  mirrors (cdb w) m -> (forall k, 0 <= amount_at m k <= u256_max) -> event_ok m ev ->
  exists w', handle_deposit d env w = (Ok tt, w') /\ replayed w w' (apply_event m ev).
Proof using Hsql.
  intros Hd Hm Hok. pose proof (event_amount_range _ _ Hm Hok) as Hr. destruct Hok as [Hk Hok].
  unfold handle_deposit. rewrite bind_run, (get_status_run (event_key ev) m) by done.
  destruct (find_status (to_hex (event_key ev).1) _ (cdb w)) as [[i row]|] eqn:Hf; cbn [fmap option_fmap option_map fst].
  - unfold cnow. rewrite bind_run, interact_run. unfold set_collateral. rewrite cstatement_run.
    eexists. split; [reflexivity|]. split; [|done]. cbn [cdb].
    eapply (mirrors_update _ _ _ _ (event_key ev)); [done|done|exact Hf| |done].
    cbn [cs_collateral]. f_equal. cbn [event_amount ev] in *. unfold saturating_add. lia.
  - unfold cnow. rewrite bind_run, interact_run. unfold insert_status. rewrite cstatement_run.
    cbn [cdb]. cbn [event_key ev fst snd] in Hf. rewrite Hf.
    eexists. split; [reflexivity|]. split; [|done]. cbn [cdb].
    apply (mirrors_insert _ _ (event_key ev)); try done. cbn [cs_collateral event_amount ev].
    pose proof (mi_shows _ _ Hd (event_key ev) Hk) as Hs. unfold shows in Hs.
    cbn [event_key ev fst snd] in *. rewrite Hf in Hs. f_equal. lia.
  Unshelve. by intros.
Qed.

Lemma handle_reclaimed_run r m w (ev := EvReclaimed r) :
  mirrors (cdb w) m -> (forall k, 0 <= amount_at m k <= u256_max) -> event_ok m ev ->
  exists w', handle_reclaimed r env w = (Ok tt, w') /\ replayed w w' (apply_event m ev).
Proof using Hsql.
  intros Hd Hm Hok. pose proof (event_amount_range _ _ Hm Hok) as Hr. destruct Hok as [Hk Hok].
  destruct (mirrors_found _ _ _ Hd Hk) as (i & row & Hf); [cbn in *; lia|].
  unfold handle_reclaimed. rewrite bind_run, (get_status_run (event_key ev) m), Hf by done.
  cbn [fmap option_fmap option_map fst]. unfold cnow. rewrite bind_run, interact_run.
  unfold set_collateral. rewrite cstatement_run.
  eexists. split; [reflexivity|]. split; [|done]. cbn [cdb].
  eapply (mirrors_update _ _ _ _ (event_key ev)); [done|done|exact Hf| |done].
  cbn [cs_collateral]. f_equal. cbn [event_amount ev] in *. unfold saturating_sub. lia.
  Unshelve. by intros.
Qed.

Lemma handle_slashed_run s m w (ev := EvSlashed s) :
  mirrors (cdb w) m -> (forall k, 0 <= amount_at m k <= u256_max) -> event_ok m ev ->
  exists w', handle_slashed s env w = (Ok tt, w') /\ replayed w w' (apply_event m ev).
Proof using Hsql.
  intros Hd Hm Hok. pose proof (event_amount_range _ _ Hm Hok) as Hr. destruct Hok as [Hk Hok].
  destruct (mirrors_found _ _ _ Hd Hk) as (i & row & Hf); [cbn in *; lia|].
  unfold handle_slashed. rewrite bind_run, (get_status_run (event_key ev) m), Hf by done.
  cbn [fmap option_fmap option_map fst]. unfold cnow. rewrite bind_run, interact_run.
  rewrite cstatement_run. eexists. split; [reflexivity|]. split; [|done]. cbn [cdb].
  eapply (mirrors_update _ _ _ _ (event_key ev)); [done|done|exact Hf| |done]. done.
  Unshelve. by intros.
Qed.

Lemma apply_event_range m ev :
  (forall k, 0 <= amount_at m k <= u256_max) -> event_ok m ev ->
  forall k, 0 <= amount_at (apply_event m ev) k <= u256_max.
Proof.
  intros Hm Hok k. unfold apply_event. rewrite amount_at_insert.
  pose proof (event_amount_range _ _ Hm Hok). case_bool_decide; [done|apply Hm].
Qed.

Lemma handle_events_run evs : forall m w,
  mirrors (cdb w) m -> (forall k, 0 <= amount_at m k <= u256_max) -> events_ok m evs ->
  exists w', handle_events evs env w = (Ok tt, w') /\ replayed w w' (foldl apply_event m evs).
Proof using Hsql.
  induction evs as [|ev evs IH]; intros m w Hd Hm Hok; [by exists w|].
  destruct Hok as [He Hes]. cbn [handle_events foldl].
  assert (exists w', handle_event ev env w = (Ok tt, w') /\ replayed w w' (apply_event m ev))
    as (w1 & E1 & Hd1 & Hs1).
  { destruct ev; [by apply handle_deposit_run|by apply handle_reclaimed_run|by apply handle_slashed_run]. }
  destruct (IH _ w1 Hd1 (apply_event_range _ _ Hm He) Hes) as (w2 & E2 & Hd2 & Hs2).
  exists w2. rewrite bind_run, E1. split; [done|]. split; [done|congruence].
Qed.
End Handlers.

Lemma wrap_signed_64 z : 0 <= z < 2 ^ 63 -> wrap_signed 64 z = z.
Proof.
  intros Hz. unfold wrap_signed. rewrite Z.mod_small by lia.
  by rewrite (proj2 (Z.ltb_lt _ _)) by lia.
Qed.

(** ** The chain *)

Section Chain.
Context `{AbiLaws} `{HashOrder}.
Context (c0 : Contract) (chain : list (list (Call * Message))).

(** The contract after block [b]; the first block is block 1. *)
Definition state_at (b : Z) : Contract := run_blocks c0 (take (Z.to_nat b) chain).

Definition logs_at (b : Z) : list ContractLog :=
  (run_block (state_at (b - 1)) (default [] (chain !! Z.to_nat (b - 1)))).2.

Definition events_at (b : Z) : list CollateralEvent := omap event_of (logs_at b).

Definition raw_log (b : Z) (log : ContractLog) : RawLog := {|
  removed := false; block_number := Some b; topics := (encode log).1; log_data := (encode log).2 |}.

(** [eth_getLogs]: the logs of a range of blocks in order. *)
Definition chain_logs (blocks : list Z) : list RawLog :=
  concat ((fun b => raw_log b <$> logs_at b) <$> blocks).

(** A node may fail, and it may lag; its answers are about this chain. *)
Record honest_node (env : CEnv) : Prop := {
  node_head : forall n h, rpc_block_number env n = Some h -> h <= Z.of_nat (length chain);
  node_logs : forall n from to logs,
    rpc_logs env n COLLATERAL_ADDRESS from to = Some logs ->
    logs = chain_logs (seqZ from (to - from + 1))
}.

Lemma decode_raw_log b log : decode_log (raw_log b log) = Ok (event_of log).
Proof.
  unfold decode_log, raw_log. cbn [topics log_data].
  pose proof hashes_differ as Hn. apply NoDup_cons in Hn as [Hd Hn]. apply NoDup_cons in Hn as [Hr _].
  assert (Heq : forall a, topic_eqb a a = true) by (intros; by apply topic_eqb_eq).
  assert (Hne : forall a b, a <> b -> topic_eqb a b = false)
    by (intros a b' Hab; apply not_true_iff_false; by rewrite topic_eqb_eq).
  destruct (event_of log) as [ev|] eqn:E.
  - destruct log; cbn in E; simplify_eq.
    + destruct (deposit_encoded d) as [-> ->]. by rewrite Heq.
    + destruct (reclaimed_encoded r) as [-> ->]. rewrite (Hne _ deposit_hash), Heq; [done|set_solver].
    + destruct (slashed_encoded s) as [-> ->].
      rewrite (Hne _ deposit_hash), (Hne _ reclaimed_hash), Heq; [done|set_solver|set_solver].
  - destruct (head (encode log).1) as [sig|] eqn:Hs; [|done].
    pose proof (others_encoded _ _ E Hs) as Hnot.
    rewrite !Hne; [done|set_solver|set_solver|set_solver].
Qed.

(** The events of a block, if there are any. *)
Definition add_events (m : gmap Z (list CollateralEvent)) (b : Z) (evs : list CollateralEvent) :=
  match evs with
  | [] => m
  | _ => <[b := default [] (m !! b) ++ evs]> m
  end.

Definition add_block (m : gmap Z (list CollateralEvent)) (b : Z) := add_events m b (events_at b).

Definition entries (blocks : list Z) : list (Z * list CollateralEvent) :=
  omap (fun b => match events_at b with [] => None | evs => Some (b, evs) end) blocks.

Lemma collect_block b logs rest : forall m,
  collect_logs m ((raw_log b <$> logs) ++ rest) = collect_logs (add_events m b (omap event_of logs)) rest.
Proof.
  induction logs as [|log logs IH]; intros m; [done|].
  cbn [fmap list_fmap app collect_logs]. unfold collect_log.
  change (removed (raw_log b log)) with false. change (block_number (raw_log b log)) with (Some b).
  cbn iota. rewrite decode_raw_log. cbn [omap list_omap].
  destruct (event_of log) as [ev|]; [|apply IH]. rewrite IH.
  destruct (omap event_of logs) as [|e es]; cbn [add_events].
  - done.
  - rewrite lookup_insert_eq, insert_insert_eq. cbn [default from_option id].
    by rewrite <- (app_assoc (default [] (m !! b))).
Qed.

Lemma collect_chain blocks : forall m,
  collect_logs m (chain_logs blocks) = Ok (foldl add_block m blocks).
Proof.
  induction blocks as [|b blocks IH]; intros m; [done|].
  unfold chain_logs in *. cbn [fmap list_fmap concat]. rewrite collect_block, IH. done.
Qed.

Lemma map_to_list_blocks blocks : forall m,
  NoDup blocks -> (forall b, b ∈ blocks -> m !! b = None) ->
  map_to_list (foldl add_block m blocks) ≡ₚ map_to_list m ++ entries blocks.
Proof.
  induction blocks as [|b blocks IH]; intros m Hnd Hm; cbn [foldl entries omap list_omap].
  { by rewrite app_nil_r. }
  apply NoDup_cons in Hnd as [Hb Hnd].
  rewrite IH; [|done|].
  - unfold add_block. destruct (events_at b) as [|e es]; cbn [add_events]; [done|].
    rewrite (Hm b) by set_solver. cbn [default app].
    rewrite map_to_list_insert by (apply Hm; set_solver). cbn [app].
    by rewrite <- Permutation_middle.
  - intros b' Hb'. unfold add_block. destruct (events_at b) as [|e es]; cbn [add_events]; [apply Hm; set_solver|].
    rewrite lookup_insert_ne by set_solver. apply Hm. set_solver.
Qed.

Lemma entries_fst blocks b evs : (b, evs) ∈ entries blocks -> b ∈ blocks /\ events_at b = evs.
Proof.
  unfold entries. intros (b' & Hb' & E)%list_elem_of_omap.
  destruct (events_at b') eqn:Hev; simplify_eq. by rewrite Hev.
Qed.

Lemma entries_sorted from n : StronglySorted (fun a b => a.1 <=? b.1 = true) (entries (seqZ from n)).
Proof.
  destruct (decide (0 <= n)) as [Hn|]; [|rewrite seqZ_nil by lia; constructor].
  revert from. pattern n. apply natlike_ind; [|clear n Hn; intros n Hn IH from|done].
  { intros from. rewrite seqZ_nil by lia. constructor. }
  rewrite seqZ_cons by lia. cbn [entries omap list_omap]. rewrite Z.pred_succ.
  specialize (IH (Z.succ from)).
  destruct (events_at from) as [|e es]; [done|]. constructor; [done|].
  apply Forall_forall. intros [b evs] [Hb _]%entries_fst. apply elem_of_seqZ in Hb.
  cbn. lia.
Qed.

(** The blocks of a scan in order, whatever order the hash map has. *)
Lemma sorted_blocks_entries i from n :
  sorted_blocks i (foldl add_block ∅ (seqZ from n)) = entries (seqZ from n).
Proof.
  assert (Hp : sorted_blocks i (foldl add_block ∅ (seqZ from n)) ≡ₚ entries (seqZ from n)).
  { unfold sorted_blocks. rewrite sort_by_Permutation, shuffle_Permutation.
    rewrite map_to_list_blocks; [by rewrite map_to_list_empty|apply NoDup_seqZ|].
    intros. apply lookup_empty. }
  eapply (StronglySorted_unique_strong (fun a b => (a.1 <=? b.1) = true)); [| | |exact Hp].
  - intros [a ea] [b eb] Ha Hb. rewrite Hp in Ha.
    apply entries_fst in Ha as [_ <-]. apply entries_fst in Hb as [_ <-]. cbn.
    intros Hab Hba. b2p. by assert (a = b) as -> by lia.
  - apply Sorted_StronglySorted.
    + intros [] [] []; cbn. rewrite !Z.leb_le. lia.
    + apply sort_by_Sorted. intros [] []; cbn. rewrite Z.leb_le, Z.leb_gt. lia.
  - apply entries_sorted.
Qed.

(** ** Scans *)

Context (Hwf0 : contract_wf c0) (Hchain : Forall (Forall tx_ok) chain).
Context (Hlen : Z.of_nat (length chain) < 2 ^ 62).
Context (env : CEnv) (Hsql : forall n, c_sql_fails env n = false) (Hnode : honest_node env).

Lemma state_at_wf b : contract_wf (state_at b).
Proof using Hwf0 Hchain. apply run_blocks_wf; [done|]. by apply Forall_take. Qed.

Lemma state_at_step b :
  1 <= b <= Z.of_nat (length chain) ->
  collaterals (state_at b) = foldl apply_event (collaterals (state_at (b - 1))) (events_at b) /\
  events_ok (collaterals (state_at (b - 1))) (events_at b).
Proof using Hwf0 Hchain.
  intros Hb. unfold events_at, logs_at.
  destruct (lookup_lt_is_Some_2 chain (Z.to_nat (b - 1))) as [txs Htxs]; [lia|].
  rewrite Htxs. cbn [default from_option id].
  replace (state_at b) with (run_block (state_at (b - 1)) txs).1.
  - apply run_block_replays; [apply state_at_wf|]. by eapply Forall_lookup_1.
  - unfold state_at, run_blocks. replace (Z.to_nat b) with (S (Z.to_nat (b - 1))) by lia.
    rewrite (take_S_r _ _ _ Htxs), foldl_app. done.
Qed.

Lemma amounts_at b k : 0 <= amount_at (collaterals (state_at b)) k <= u256_max.
Proof using Hwf0 Hchain. apply (wf_collaterals _ (state_at_wf b)). Qed.

Lemma update_last_run b w t0 :
  collateral_scan_status (cdb w) = Some t0 -> 0 <= b < 2 ^ 63 ->
  exists w', update_last_scanned_block_number b env w = (Ok tt, w') /\
    collateral_status (cdb w') = collateral_status (cdb w) /\
    next_status_id (cdb w') = next_status_id (cdb w) /\
    exists t, collateral_scan_status (cdb w') = Some (b, t).
Proof using Hsql.
  intros Hs Hb. unfold update_last_scanned_block_number, cnow.
  rewrite bind_run, interact_run, (cstatement_run env Hsql). cbn [cdb]. rewrite Hs.
  eexists. split; [reflexivity|]. split; [done|]. split; [done|]. cbn.
  eexists. by rewrite wrap_signed_64.
Qed.

Lemma mirrors_same d d' m :
  mirrors d m -> collateral_status d' = collateral_status d -> next_status_id d' = next_status_id d ->
  mirrors d' m.
Proof.
  intros [] E1 E2. constructor; rewrite ?E1, ?E2; [done|done|].
  intros k Hk. specialize (mi_shows0 k Hk). unfold shows, find_status in *. by rewrite E1.
Qed.

Definition mirrored (b : Z) (w : CWorld) : Prop :=
  mirrors (cdb w) (collaterals (state_at b)) /\
  exists t, collateral_scan_status (cdb w) = Some (b, t).

Lemma handle_blocks_run n : 0 <= n -> forall from w,
  1 <= from -> from + n - 1 <= Z.of_nat (length chain) ->
  mirrors (cdb w) (collaterals (state_at (from - 1))) -> is_Some (collateral_scan_status (cdb w)) ->
  exists w', handle_blocks (entries (seqZ from n)) env w = (Ok tt, w') /\
    mirrors (cdb w') (collaterals (state_at (from + n - 1))) /\ is_Some (collateral_scan_status (cdb w')).
Proof using Hwf0 Hchain Hlen Hsql.
  intros Hn. pattern n. apply natlike_ind; [|clear n Hn; intros n Hn IH|done]; intros from w Hfrom Hto Hd Hs.
  { rewrite seqZ_nil by lia. exists w. by rewrite Z.add_0_r. }
  rewrite seqZ_cons by lia. rewrite Z.pred_succ. cbn [entries omap list_omap].
  destruct (state_at_step from) as [Hcol Hok]; [lia|].
  replace (from + Z.succ n - 1) with (Z.succ from + n - 1) by lia.
  assert (mirrors (cdb w) (collaterals (state_at (from - 1))) -> events_at from = [] ->
    mirrors (cdb w) (collaterals (state_at (Z.succ from - 1)))) as Hskip.
  { intros Hd' E. rewrite E in Hcol. cbn in Hcol. by replace (Z.succ from - 1) with from by lia; rewrite Hcol. }
  destruct (events_at from) as [|e es] eqn:E; [apply IH; auto; lia|]. cbn [handle_blocks].
  destruct (handle_events_run env Hsql _ _ _ Hd (amounts_at _) Hok) as (w1 & E1 & Hd1 & Hs1).
  destruct Hs as [t0 Hs]. rewrite Hs in Hs1.
  destruct (update_last_run from w1 t0 Hs1) as (w2 & E2 & Er & En & t & Hs2); [lia|].
  destruct (IH (Z.succ from) w2) as (w3 & E3 & Hd3 & Hs3); [lia|lia| |by eexists|].
  { eapply mirrors_same; [|exact Er|exact En]. rewrite <- Hcol in Hd1.
    by replace (Z.succ from - 1) with from by lia. }
  exists w3. change (entries (seqZ (Z.succ from) n)) with
    (omap (fun b => match events_at b with [] => None | evs => Some (b, evs) end) (seqZ (Z.succ from) n)) in E3.
  rewrite bind_run, E1, bind_run, E2. done.
Qed.

(** The block a scan reaches when the node answers with head [h]. *)
Definition reached (b h : Z) : Z := Z.min (b + 1 + MAX_BLOCKS_PER_SCAN) (h - 1).

Lemma scan_run b w :
  0 <= b <= Z.of_nat (length chain) -> mirrored b w ->
  let r := scan_handle_collateral_events env w in
  match rpc_block_number env (S (csteps w)) with
  | Some h =>
      if b + 1 <? h then
        match rpc_logs env (S (S (csteps w))) COLLATERAL_ADDRESS (b + 1) (reached b h) with
        | Some _ => r.1 = Ok tt /\ mirrored (reached b h) r.2
        | None => r.1 = Err RpcFailed /\ mirrored b r.2
        end
      else r.1 = Err FromBlockTooHigh /\ mirrored b r.2
  | None => r.1 = Err RpcFailed /\ mirrored b r.2
  end.
Proof using H0 Hwf0 Hchain Hlen Hsql Hnode.
  intros Hb [Hd (t & Hs)] r. subst r.
  unfold scan_handle_collateral_events, get_last_scanned_block_number, scan_events, scan_events_with_scope.
  rewrite !bind_run, (cstatement_run env Hsql), Hs. cbn [fst snd mret CM_ret cdb csteps].
  rewrite (wrap_small 64 b), (wrap_small 64 (b + 1)) by lia.
  rewrite !bind_run, interact_run. cbn [csteps cdb].
  destruct (rpc_block_number env (S (csteps w))) as [h|] eqn:Eh; [|by split; [|split; eauto]].
  pose proof (node_head _ Hnode _ _ Eh) as Hh.
  destruct (b + 1 <? h) eqn:Elt; b2p; cycle 1.
  { rewrite (proj2 (Z.ltb_lt _ _)) by lia. by split; [|split; eauto]. }
  rewrite (proj2 (Z.ltb_ge _ _)) by lia. rewrite bind_run, interact_run. cbn [csteps contract_address default_config].
  assert (Hto : (if Z.max (h - 1) 0 <? wrap 64 (b + 1 + MAX_BLOCKS_PER_SCAN) then Z.max (h - 1) 0
    else wrap 64 (b + 1 + MAX_BLOCKS_PER_SCAN)) = reached b h).
  { unfold reached, MAX_BLOCKS_PER_SCAN. rewrite wrap_small by lia.
    destruct (Z.max (h - 1) 0 <? b + 1 + 1000) eqn:?; b2p; lia. }
  rewrite Hto. assert (b + 1 <= reached b h <= Z.of_nat (length chain)) as Hreach
    by (unfold reached, MAX_BLOCKS_PER_SCAN; lia).
  destruct (rpc_logs env _ _ _ _) as [logs|] eqn:El; [|by split; [|split; eauto]].
  rewrite (node_logs _ Hnode _ _ _ _ El), collect_chain. cbn [mret CM_ret].
  rewrite bind_run, interact_run, sorted_blocks_entries. cbn [csteps cdb].
  edestruct (handle_blocks_run (reached b h - (b + 1) + 1)) as (w2 & E2 & Hd2 & [t2 Hs2]);
    [lia| | | | |rewrite bind_run, E2]; [lia|lia|by replace (b + 1 - 1) with b by lia|by eexists|].
  destruct (update_last_run (reached b h) w2 t2 Hs2) as (w3 & E3 & Er & En & t3 & Hs3); [lia|].
  rewrite E3. split; [done|]. split; [|by eexists]. eapply mirrors_same; [|exact Er|exact En].
  by replace (reached b h) with (b + 1 + (reached b h - (b + 1) + 1) - 1) by lia.
Qed.

(** A scan keeps the mirror, and never moves it backwards. *)
Lemma scan_mirrored b w :
  0 <= b <= Z.of_nat (length chain) -> mirrored b w ->
  exists b', b <= b' <= Z.of_nat (length chain) /\ mirrored b' (scan_handle_collateral_events env w).2.
Proof using H0 Hwf0 Hchain Hlen Hsql Hnode.
  intros Hb Hw. pose proof (scan_run b w Hb Hw) as Hr. cbv zeta in Hr.
  destruct (rpc_block_number env (S (csteps w))) as [h|] eqn:Eh; [|exists b; split; [lia|apply Hr]].
  pose proof (node_head _ Hnode _ _ Eh).
  destruct (b + 1 <? h) eqn:?; b2p; [|exists b; split; [lia|apply Hr]].
  destruct (rpc_logs env _ _ _ _); [|exists b; split; [lia|apply Hr]].
  exists (reached b h). split; [|apply Hr]. unfold reached, MAX_BLOCKS_PER_SCAN. lia.
Qed.

Lemma run_scans_mirrored ticks : forall b w,
  0 <= b <= Z.of_nat (length chain) -> mirrored b w ->
  exists b', b <= b' <= Z.of_nat (length chain) /\ mirrored b' (run_scans ticks env w).
Proof using H0 Hwf0 Hchain Hlen Hsql Hnode.
  induction ticks as [|ticks IH]; intros b w Hb Hw; cbn [run_scans]; [by exists b; split; [lia|]|].
  destruct (scan_mirrored b w Hb Hw) as (b1 & Hb1 & Hw1).
  destruct (IH b1 _ ltac:(lia) Hw1) as (b2 & Hb2 & Hw2). exists b2. split; [lia|done].
Qed.
End Chain.

(** The database of a new validator. *)
Definition new_world `{EventAbi} (env : CEnv) : CWorld :=
  (create_collateral_scanned_blocks_table env {| cdb := empty_db; csteps := 0 |}).2.

Lemma mirrors_empty d : collateral_status d = ∅ -> mirrors d ∅.
Proof.
  intros E. constructor; rewrite ?E; [by intros i j ri rj Hi%lookup_empty_Some|by intros i r Hi%lookup_empty_Some|].
  intros k Hk. unfold shows, find_status. by rewrite E, map_to_list_empty.
Qed.

Lemma new_world_mirrored `{EventAbi} c0 chain env :
  collaterals c0 = ∅ -> (forall n, c_sql_fails env n = false) -> mirrored c0 chain 0 (new_world env).
Proof.
  intros Hc Hsql. unfold new_world, create_collateral_scanned_blocks_table, cnow, warn_only.
  rewrite bind_run, interact_run, bind_run, (cstatement_run env Hsql). cbn [cdb csteps snd].
  rewrite (cstatement_run env Hsql).
  cbn [cdb csteps snd empty_db collateral_scan_status]. split; [|by eexists].
  change (state_at c0 chain 0) with c0. rewrite Hc. by apply mirrors_empty.
Qed.

(** C7: the validator's collateral table mirrors the contract.  Over a node that may fail
    or lag at any time, after any number of scans the table shows for every executor the
    collateral the contract held for it at the recorded block (no row where there never
    was any); and when the node answers with a new head, the next scan succeeds and
    brings the table to the block before the head, or a thousand blocks on: the handlers
    never refuse an event of the contract and their saturating arithmetic never cuts an
    amount.  Statements of the database are taken to succeed; one that is lost can make the
    table wrong ([rescan_counts_deposit_twice]). *)
Theorem table_mirrors_contract `{AbiLaws} `{HashOrder} trustee min timeout admin c0 chain env ticks :
  initialize trustee min timeout admin = Ok c0 ->
  Forall (Forall tx_ok) chain -> Z.of_nat (length chain) < 2 ^ 62 ->
  (forall n, c_sql_fails env n = false) -> honest_node c0 chain env ->
  let w := run_scans ticks env (new_world env) in
  exists b, 0 <= b <= Z.of_nat (length chain) /\ mirrored c0 chain b w /\
    forall h, rpc_block_number env (S (csteps w)) = Some h -> b + 1 < h ->
      is_Some (rpc_logs env (S (S (csteps w))) COLLATERAL_ADDRESS (b + 1) (reached b h)) ->
      (scan_handle_collateral_events env w).1 = Ok tt /\
      mirrored c0 chain (reached b h) (scan_handle_collateral_events env w).2.
Proof.
  intros Hinit Hchain Hlen Hsql Hnode w. pose proof (initialize_wf _ _ _ _ _ Hinit) as Hwf.
  assert (collaterals c0 = ∅) as Hc.
  { unfold initialize in Hinit. repeat (apply bind_Ok in Hinit as (? & _ & Hinit)).
    by injection Hinit as <-. }
  destruct (run_scans_mirrored c0 chain Hwf Hchain Hlen env Hsql Hnode ticks 0 (new_world env))
    as (b & Hb & Hw); [lia|by apply new_world_mirrored|].
  exists b. split; [lia|]. split; [done|]. intros h Eh Hlt [logs El].
  pose proof (scan_run c0 chain Hwf Hchain Hlen env Hsql Hnode b w ltac:(lia) Hw) as Hr.
  cbv zeta in Hr. rewrite Eh, (proj2 (Z.ltb_lt _ _) Hlt), El in Hr. done.
Qed.

(** ** A small chain *)

Module CollateralScenario.
(** Logs that carry their event. *)
Definition log_code (log : ContractLog) : Z :=
  match log with LogDeposit _ => 1 | LogReclaimed _ => 2 | LogSlashed _ => 3 | _ => 4 end.

Definition plain_abi : EventAbi := {|
  topic := Z; payload := ContractLog; topic_eqb := Z.eqb;
  deposit_hash := 1; reclaimed_hash := 2; slashed_hash := 3;
  decode_deposit := fun _ log => match log with LogDeposit d => Some d | _ => None end;
  decode_reclaimed := fun _ log => match log with LogReclaimed r => Some r | _ => None end;
  decode_slashed := fun _ log => match log with LogSlashed s => Some s | _ => None end;
  encode := fun log => ([log_code log], log) |}.

#[local] Existing Instance plain_abi.
#[local] Existing Instance storage_order.

Lemma plain_abi_laws : AbiLaws.
Proof.
  constructor; try done.
  - apply Z.eqb_eq.
  - apply (bool_decide_unpack (NoDup [1; 2; 3])). done.
  - intros log sig E [= <-]. destruct log; try done; by apply (bool_decide_unpack (4 ∉ [1; 2; 3])).
Qed.

Definition trustee : address := replicate 20 7.
Definition alice : address := replicate 20 1.
Definition bob : address := replicate 20 2.
Definition hk : list Z := replicate 32 9.
Definition ex : list Z := replicate 16 3.
Definition ex2 : list Z := replicate 16 4.

Definition message (sender : address) (value time : Z) : Message := {|
  msg_sender := sender; msg_value := value; block_timestamp := time;
  sender_is_admin := false; payee_accepts := true |}.

Definition contract0 : Contract := {|
  TRUSTEE := trustee; DECISION_TIMEOUT := 10; MIN_COLLATERAL_INCREASE := 5;
  executorToMiner := ∅; collaterals := ∅; reclaims := ∅; collateralUnderPendingReclaims := ∅;
  nextReclaimId := 0; balance := 0 |}.

(** Two deposits in the first block, a slash in the second, a third block to build on. *)
Definition chain : list (list (Call * Message)) := [
  [(CallDeposit hk ex, message alice 100 1); (CallDeposit hk ex2, message bob 50 1)];
  [(CallSlash hk ex "" [], message trustee 0 2)];
  [] ].

Definition env_with (sql_fails : nat -> bool) : CEnv := {|
  c_clock := fun n => Z.of_nat n; c_sql_fails := sql_fails;
  rpc_block_number := fun _ => Some 3;
  rpc_logs := fun _ _ from to => Some (chain_logs contract0 chain (seqZ from (to - from + 1))) |}.

Definition env : CEnv := env_with (fun _ => false).

Lemma honest : honest_node contract0 chain env.
Proof. split; cbn; [intros n h [= <-]; lia|by intros n from to logs [= <-]]. Qed.

Lemma chain_ok : Forall (Forall tx_ok) chain.
Proof.
  repeat constructor; cbn; try done; try (apply bytes_by_check; reflexivity).
Qed.

(** What the table says about an executor. *)
Definition shown (w : CWorld) (executor : list Z) : option (string * string) :=
  (fun p => (cs_collateral p.2, cs_miner p.2)) <$> find_status (to_hex hk) (to_hex executor) (cdb w).

Lemma table_mirrors_contract_witness :
  exists b, 0 <= b <= 3 /\ mirrored contract0 chain b (run_scans 1 env (new_world env)) /\
    shown (run_scans 1 env (new_world env)) ex = Some ("0", "0x" +:+ to_hex zero_address) /\
    shown (run_scans 1 env (new_world env)) ex2 = Some ("50", "0x" +:+ to_hex bob).
Proof.
  destruct (@table_mirrors_contract plain_abi plain_abi_laws storage_order
    trustee 5 10 alice contract0 chain env 1) as (b & Hb & Hw & _);
    [reflexivity|exact chain_ok|reflexivity|done|exact honest|].
  exists b. split; [exact Hb|]. split; [exact Hw|]. split; vm_compute; reflexivity.
Defined.

(** One lost statement, the update of the scanned block after the events of the first
    block: the next scan handles the block again, the deposit counts twice, and every
    later scan keeps the wrong amount. *)
Definition lossy : CEnv := env_with (fun n => bool_decide (n = 14%nat)).

Theorem rescan_counts_deposit_twice :
  shown (run_scans 2 lossy (new_world lossy)) ex2 = Some ("100", "0x" +:+ to_hex bob) /\
  fst <$> collateral_scan_status (cdb (run_scans 2 lossy (new_world lossy))) = Some 2 /\
  amount_at (collaterals (state_at contract0 chain 2)) (hk, ex2) = 50.
Proof. vm_compute. repeat split. Qed.

(** ** What a slash leaves behind

    A reclaim request survives the slashing of its collateral: the next miner to deposit
    for the executor pays for it. *)
Definition stale_reclaim : list (Call * Message) := [
  (CallDeposit hk ex, message alice 100 1);
  (CallReclaim hk ex "" [], message alice 0 2);
  (CallSlash hk ex "" [], message trustee 0 3);
  (CallDeposit hk ex, message bob 100 4);
  (CallFinalize 0, message alice 0 13) ].

Theorem slashed_miner_reclaims_successor :
  omap event_of (run_block contract0 stale_reclaim).2 = [
    EvDeposit {| d_hotkey := hk; d_executorId := ex; d_miner := alice; d_amount := 100 |};
    EvSlashed {| s_hotkey := hk; s_executorId := ex; s_miner := alice; s_amount := 100;
                 s_url := ""; s_urlContentMd5Checksum := [] |};
    EvDeposit {| d_hotkey := hk; d_executorId := ex; d_miner := bob; d_amount := 100 |};
    EvReclaimed {| r_reclaimRequestId := 0; r_hotkey := hk; r_executorId := ex;
                   r_miner := alice; r_amount := 100 |} ] /\
  balance (run_block contract0 stale_reclaim).1 = 0.
Proof. vm_compute. split; reflexivity. Qed.

(** A deposit between a request and its finalization is left without an owner, and the
    next depositor becomes the owner of all of it. *)
Definition orphaned : list (Call * Message) := [
  (CallDeposit hk ex, message alice 100 1);
  (CallReclaim hk ex "" [], message alice 0 2);
  (CallDeposit hk ex, message alice 60 3);
  (CallFinalize 0, message alice 0 13);
  (CallDeposit hk ex, message bob 5 14);
  (CallReclaim hk ex "" [], message bob 0 15);
  (CallFinalize 1, message bob 0 26) ].

Theorem orphaned_collateral_goes_to_next_owner :
  last (omap event_of (run_block contract0 orphaned).2) =
  Some (EvReclaimed {| r_reclaimRequestId := 1; r_hotkey := hk; r_executorId := ex;
                       r_miner := bob; r_amount := 65 |}).
Proof. vm_compute. reflexivity. Qed.

(** The witness of the solvency of the contract: a request that is paid. *)
Definition paid_blocks : list (list (Call * Message)) := [
  [(CallDeposit hk ex, message alice 100 1); (CallDeposit hk ex2, message bob 50 1)];
  [(CallReclaim hk ex "" [], message alice 0 2)] ].

Lemma paid_blocks_ok : Forall (Forall tx_ok) paid_blocks.
Proof. repeat constructor; cbn; try done; try (apply bytes_by_check; reflexivity). Qed.

Lemma contract_solvent_witness :
  exists c' logs,
    execute (CallFinalize 0) (message bob 0 13) (run_blocks contract0 paid_blocks) = Ok (c', logs) /\
    balance c' = 50.
Proof.
  destruct (contract_solvent trustee 5 10 alice contract0 paid_blocks) as [_ Hpaid];
    [reflexivity|exact paid_blocks_ok|].
  destruct (Hpaid 0 {| rc_hotkey := hk; rc_executorId := ex; rc_miner := alice; rc_amount := 100;
    rc_denyTimeout := 12 |} (message bob 0 13)) as (c' & logs & E & Hb & _);
    [vm_compute; reflexivity|reflexivity|vm_compute; discriminate|reflexivity|reflexivity|].
  exists c', logs. split; [exact E|]. rewrite Hb. vm_compute. reflexivity.
Defined.
End CollateralScenario.
