(* ===== verification/ValidationQueue.v ===== *)
(** * Validator: the queue of validations

    The worker queue (miner_prover/validation_worker.rs): executors to validate wait in a
    priority queue, workers take them, verify them under a timeout, and retry with
    exponential back-off; a monitor removes entries that stay too long.  There is one
    queue per kind of validation, with the same code up to the priority of a retry and the
    limits, so a system here is one queue with its workers and its monitor.

    The tasks share the queue under a lock that they release between the steps, and the
    counters without a lock.  A system is a machine whose actions are the critical sections
    and the steps outside of them: a publication; the pop of a worker, its two updates of
    the counters, each on its own, the marking, the result, the return from the back-off,
    the count of the retry and the storing of the result; the three parts of the monitor;
    and the abort of a worker at shutdown, which is possible where it awaits.  A schedule
    is any list of actions: every interleaving of the tasks.  An action of a task that is
    not at that point does nothing.  What a verification gives and when is part of the
    action.

    Instants and durations are nanoseconds.  Counters wrap at 64 bits as the atomic ones
    do; those the code updates with the lock held change with that critical section.  The
    totals are those of the queue alone, where the code adds up both queues.  The results
    handed to the verification engine are collected in order.  The flag that keeps a queue
    from being started twice, a start after a shutdown and the report of the counters are
    not modelled. *)

From stdpp Require Import base gmap strings list.
From Stdlib Require Import ZArith.
From S2P Require Import Prelude.
From S2P Require Import Text.
From S2P Require Import Float64.
From S2P Require Import Signatures.
From S2P Require Import Collections.
Local Open Scope Z_scope.

(** ** Data *)

Inductive ValidationType := Full | Lightweight.

Record WorkerQueueConfig := {
  max_pending_items : Z;
  max_processing_time_secs : Z;
  lightweight_processing_time_secs : Z;
  full_stale_timeout_secs : Z;
  lightweight_stale_timeout_secs : Z;
  completed_item_ttl_secs : Z;
  full_worker_count : nat;
  lightweight_worker_count : nat;
  retry_backoff_base_secs : Z;
  max_retries : Z;
  health_check_interval_secs : Z
}.

(** [num_cpus::get()] is the machine's. *)
Definition WorkerQueueConfig_default (num_cpus : nat) : WorkerQueueConfig := {|
  max_pending_items := 1000;
  max_processing_time_secs := 2400;
  lightweight_processing_time_secs := 480;
  full_stale_timeout_secs := 2400 + 600;
  lightweight_stale_timeout_secs := 480 + 180;
  completed_item_ttl_secs := 3600;
  full_worker_count := 1;
  lightweight_worker_count := Nat.min num_cpus 4;
  retry_backoff_base_secs := 60;
  max_retries := 3;
  health_check_interval_secs := 30 |}.

Inductive Priority := High | Normal | Low.

Definition priority_code (p : Priority) : Z :=
  match p with High => 0 | Normal => 1 | Low => 2 end.

#[export] Instance Priority_eq_dec : EqDecision Priority.
Proof. solve_decision. Defined.
#[export] Program Instance Priority_countable : Countable Priority :=
  inj_countable' priority_code (fun z => if z =? 0 then High else if z =? 1 then Normal else Low) _.
Next Obligation. by intros []. Qed.

Record ExecutorInfoDetailed := {
  ei_id : string;
  ei_status : string;
  ei_capabilities : list string;
  ei_grpc_endpoint : string
}.

Inductive VerificationType := Manual | AutomatedWithSsh | ScheduledRoutine.

Record VerificationTask := {
  vt_miner_uid : Z;
  vt_miner_hotkey : string;
  vt_miner_endpoint : string;
  vt_stake_tao : f64;
  vt_is_validator : bool;
  vt_verification_type : VerificationType;
  vt_intended_validation_strategy : ValidationType;
  vt_created_at : Z;
  vt_timeout : Z
}.

Record WorkItem := {
  wi_id : Z;                    (* a random UUID *)
  wi_miner_uid : Z;
  wi_executor_info : ExecutorInfoDetailed;
  wi_task : VerificationTask;
  wi_miner_hotkey : string;
  wi_miner_endpoint : string;
  wi_created_at : Z;
  wi_priority : Priority;
  wi_retry_count : Z
}.

(** [ExecutorKey] and [QueueKey], which is ordered lexicographically. *)
Definition ExecutorKey : Type := Z * string.
Definition QueueKey : Type := Priority * (Z * Z).

Definition executor_key (item : WorkItem) : ExecutorKey := (wi_miner_uid item, ei_id (wi_executor_info item)).
Definition queue_key (item : WorkItem) : QueueKey := (wi_priority item, (wi_created_at item, wi_id item)).

Definition QueueKey_cmp (a b : QueueKey) : comparison :=
  match Z.compare (priority_code a.1) (priority_code b.1) with
  | Eq => match Z.compare a.2.1 b.2.1 with Eq => Z.compare a.2.2 b.2.2 | c => c end
  | c => c
  end.

Definition QueueKey_le (a b : QueueKey) : bool :=
  match QueueKey_cmp a b with Gt => false | _ => true end.

Record ProcessingEntry := { pe_started_at : Z; pe_work_item : WorkItem }.

Inductive CompletionStatus :=
  | Success (completed_at : Z)
  | Failed (completed_at : Z) (error : string).

Record QueueState := {
  pending : gmap QueueKey WorkItem;                          (* BTreeMap *)
  processing : gmap ExecutorKey ProcessingEntry;
  completed : list (ExecutorKey * CompletionStatus);         (* LRU, most recent first *)
  executor_index : gmap ExecutorKey QueueKey
}.

Definition completed_capacity : nat := 1000.

Definition QueueState_new : QueueState :=
  {| pending := ∅; processing := ∅; completed := []; executor_index := ∅ |}.

Definition with_processing (q : QueueState) (p : gmap ExecutorKey ProcessingEntry) : QueueState := {|
  pending := pending q; processing := p; completed := completed q; executor_index := executor_index q |}.
Definition with_completed (q : QueueState) (c : list (ExecutorKey * CompletionStatus)) : QueueState := {|
  pending := pending q; processing := processing q; completed := c; executor_index := executor_index q |}.

(** ** Operations of the queue *)

Definition is_duplicate (q : QueueState) (key : ExecutorKey) : bool :=
  bool_decide (is_Some (executor_index q !! key)) || bool_decide (is_Some (processing q !! key)).

(** [LruCache::peek] and [put]: the key moves to the front and the oldest entry goes. *)
Definition lru_peek (c : list (ExecutorKey * CompletionStatus)) (key : ExecutorKey) : option CompletionStatus :=
  snd <$> head (filter (fun p => p.1 = key) c).
Definition lru_put (key : ExecutorKey) (status : CompletionStatus)
    (c : list (ExecutorKey * CompletionStatus)) : list (ExecutorKey * CompletionStatus) :=
  take completed_capacity ((key, status) :: filter (fun p => p.1 <> key) c).

Definition can_requeue (q : QueueState) (key : ExecutorKey) (cooldown now : Z) : bool :=
  match lru_peek (completed q) key with
  | Some (Success completed_at) | Some (Failed completed_at _) => cooldown <? now - completed_at
  | None => true
  end.

Definition add_pending (item : WorkItem) (q : QueueState) : result string QueueState :=
  if is_duplicate q (executor_key item) then Err "Duplicate work item"
  else Ok {| pending := <[queue_key item := item]> (pending q);
             processing := processing q;
             completed := completed q;
             executor_index := <[executor_key item := queue_key item]> (executor_index q) |}.

(** [BTreeMap::pop_first]. *)
Definition pop_first (m : gmap QueueKey WorkItem) : option (QueueKey * WorkItem) :=
  head (sort_by (fun a b => QueueKey_le a.1 b.1) (map_to_list m)).

Definition pop_next (q : QueueState) : option WorkItem * QueueState :=
  match pop_first (pending q) with
  | Some (k, item) =>
      (Some item, {| pending := delete k (pending q); processing := processing q;
         completed := completed q; executor_index := delete (executor_key item) (executor_index q) |})
  | None => (None, q)
  end.

Definition mark_processing (key : ExecutorKey) (item : WorkItem) (now : Z) (q : QueueState) : QueueState :=
  with_processing q (<[key := {| pe_started_at := now; pe_work_item := item |}]> (processing q)).

Definition complete (key : ExecutorKey) (status : CompletionStatus) (q : QueueState) : QueueState :=
  with_completed (with_processing q (delete key (processing q))) (lru_put key status (completed q)).

Definition rollback (key : ExecutorKey) (q : QueueState) : option ProcessingEntry * QueueState :=
  (processing q !! key, with_processing q (delete key (processing q))).

Definition rollback_for_retry (key : ExecutorKey) (q : QueueState) : option WorkItem * QueueState :=
  (pe_work_item <$> processing q !! key, with_processing q (delete key (processing q))).

(** ** Metrics of the queue *)

Record QueueMetrics := {
  m_pending : Z;
  m_processing : Z;
  m_completed_total : Z;
  m_failed_total : Z;
  m_retried_total : Z;
  m_avg_processing_time_ms : Z
}.

Definition QueueMetrics_new : QueueMetrics := {|
  m_pending := 0; m_processing := 0; m_completed_total := 0; m_failed_total := 0;
  m_retried_total := 0; m_avg_processing_time_ms := 0 |}.

(** Changes of the counters, each [fetch_add] or [fetch_sub] modulo 2^64. *)
Definition count (m : QueueMetrics) (dpending dprocessing dcompleted dfailed dretried : Z) : QueueMetrics := {|
  m_pending := wrap 64 (m_pending m + dpending);
  m_processing := wrap 64 (m_processing m + dprocessing);
  m_completed_total := wrap 64 (m_completed_total m + dcompleted);
  m_failed_total := wrap 64 (m_failed_total m + dfailed);
  m_retried_total := wrap 64 (m_retried_total m + dretried);
  m_avg_processing_time_ms := m_avg_processing_time_ms m |}.

Definition with_avg (m : QueueMetrics) (ms : Z) : QueueMetrics := {|
  m_pending := m_pending m; m_processing := m_processing m; m_completed_total := m_completed_total m;
  m_failed_total := m_failed_total m; m_retried_total := m_retried_total m;
  m_avg_processing_time_ms := ms |}.

(** ** Results handed to the verification engine *)

Record MinerInfo := {
  mi_uid : Z;
  mi_hotkey : string;
  mi_endpoint : string;
  mi_is_validator : bool;
  mi_stake_tao : f64;
  mi_verification_score : f64
}.

Section Results.
Context `{Crypto}.

Definition create_miner_info (item : WorkItem) (verification_score : f64) : result string MinerInfo :=
  match Hotkey_new (wi_miner_hotkey item) with
  | Ok hotkey => Ok {| mi_uid := wi_miner_uid item; mi_hotkey := hotkey; mi_endpoint := wi_miner_endpoint item;
      mi_is_validator := vt_is_validator (wi_task item); mi_stake_tao := vt_stake_tao (wi_task item);
      mi_verification_score := verification_score |}
  | Err e => Err ("Invalid hotkey: " +:+ e)
  end.

(** A stored result: verified with a score, or failed. *)
Inductive StoredResult :=
  | StoredSuccess (executor_id : string) (score : f64)
  | StoredFailure (executor_id grpc_endpoint error : string) (execution_time : Z) (t : ValidationType).

Definition store_successful_validation (item : WorkItem) (score : f64) : list (Z * StoredResult * MinerInfo) :=
  match create_miner_info item score with
  | Ok info => [(wi_miner_uid item, StoredSuccess (ei_id (wi_executor_info item)) score, info)]
  | Err _ => []
  end.

Definition store_failed_validation (item : WorkItem) (error : string) (execution_time : Z)
    (t : ValidationType) : list (Z * StoredResult * MinerInfo) :=
  match create_miner_info item f64_zero with
  | Ok info => [(wi_miner_uid item, StoredFailure (ei_id (wi_executor_info item))
      (ei_grpc_endpoint (wi_executor_info item)) error execution_time t, info)]
  | Err _ => []
  end.

End Results.

(** ** Tasks *)

(** What a verification under its timeout gives. *)
Inductive Verified :=
  | VerifiedOk (score : f64)
  | VerifiedErr (e : string)
  | VerifiedTimeout.

Inductive Worker :=
  | Idle
  | Popped (item : WorkItem)                  (* the lock is released, nothing is counted *)
  | Started (item : WorkItem)                 (* counted as under verification *)
  | Counted (item : WorkItem)                 (* and no longer as pending; not yet marked *)
  | Verifying (item : WorkItem) (start_time : Z)
  | BackingOff (item : WorkItem) (until : Z)  (* asleep before the item is queued again *)
  | Requeued                                  (* the retry is not counted yet *)
  | StoringSuccess (item : WorkItem) (score : f64)
  | StoringFailure (item : WorkItem) (error : string) (start_time : Z)
  | Aborted.

(** The monitor with the stale entries it has still to remove, and the failure it has to
    store before it goes on. *)
Record Sweep := {
  sw_now : Z;
  sw_stale : list (ExecutorKey * WorkItem * Z);
  sw_unstored : option (WorkItem * string * Z)
}.

Record System := {
  queue : QueueState;
  metrics : QueueMetrics;
  workers : list Worker;
  sweep : option Sweep;
  stored : list (Z * StoredResult * MinerInfo)
}.

Definition System_new (worker_count : nat) : System := {|
  queue := QueueState_new; metrics := QueueMetrics_new; workers := replicate worker_count Idle;
  sweep := None; stored := [] |}.

Definition secs (s : Z) : Z := s * 1000000000.

Section Queue.
Context `{Crypto} (config : WorkerQueueConfig) (validation_type : ValidationType).

Definition worker_count : nat :=
  match validation_type with
  | Full => full_worker_count config | Lightweight => lightweight_worker_count config end.
Definition processing_time_secs : Z :=
  match validation_type with
  | Full => max_processing_time_secs config | Lightweight => lightweight_processing_time_secs config end.
Definition stale_timeout_secs : Z :=
  match validation_type with
  | Full => full_stale_timeout_secs config | Lightweight => lightweight_stale_timeout_secs config end.

(** [publish]: what the caller sees, and the system after. *)
Definition publish_item (executor : ExecutorInfoDetailed) (task : VerificationTask) (id now : Z) : WorkItem := {|
  wi_id := id; wi_miner_uid := vt_miner_uid task; wi_executor_info := executor; wi_task := task;
  wi_miner_hotkey := vt_miner_hotkey task; wi_miner_endpoint := vt_miner_endpoint task;
  wi_created_at := now;
  wi_priority := match validation_type with Lightweight => High | Full => Normal end;
  wi_retry_count := 0 |}.

Definition publish (executor : ExecutorInfoDetailed) (task : VerificationTask) (id now : Z) (s : System)
    : result string unit * System :=
  let key := (vt_miner_uid task, ei_id executor) in
  let q := queue s in
  if is_duplicate q key then (Ok tt, s)
  else if negb (can_requeue q key (secs (completed_item_ttl_secs config)) now) then (Ok tt, s)
  else if max_pending_items config <=? Z.of_nat (size (pending q)) then (Err "Queue is full", s)
  else
    match add_pending (publish_item executor task id now) q with
    | Err e => (Err e, s)
    | Ok q' => (Ok tt, {| queue := q'; metrics := count (metrics s) 1 0 0 0 0; workers := workers s;
                          sweep := sweep s; stored := stored s |})
    end.

Definition with_worker (s : System) (i : nat) (w : Worker) (q : QueueState) (m : QueueMetrics)
    (results : list (Z * StoredResult * MinerInfo)) : System := {|
  queue := q; metrics := m; workers := <[i := w]> (workers s); sweep := sweep s;
  stored := stored s ++ results |}.

(** A worker takes the next item, with the lock held for the pop only, *)
Definition worker_pop (i : nat) (s : System) : System :=
  match workers s !! i with
  | Some Idle =>
      match pop_next (queue s) with
      | (Some item, q) => with_worker s i (Popped item) q (metrics s) []
      | (None, _) => s
      end
  | _ => s
  end.

(** counts it as under verification, *)
Definition worker_count_processing (i : nat) (s : System) : System :=
  match workers s !! i with
  | Some (Popped item) => with_worker s i (Started item) (queue s) (count (metrics s) 0 1 0 0 0) []
  | _ => s
  end.

(** then as no longer pending, *)
Definition worker_count_pending (i : nat) (s : System) : System :=
  match workers s !! i with
  | Some (Started item) => with_worker s i (Counted item) (queue s) (count (metrics s) (-1) 0 0 0 0) []
  | _ => s
  end.

(** marks the executor with the lock held, and starts to verify. *)
Definition worker_mark (i : nat) (now start_time : Z) (s : System) : System :=
  match workers s !! i with
  | Some (Counted item) =>
      with_worker s i (Verifying item start_time) (mark_processing (executor_key item) item now (queue s))
        (metrics s) []
  | _ => s
  end.

(** The delay before retry number [attempt]. *)
Definition retry_delay (attempt : Z) : Z :=
  let factor := Z.shiftl 1 (Z.min (Z.max (attempt - 1) 0) 63) in
  let delay_seconds := Z.min (retry_backoff_base_secs config * factor) u64_max in
  let cap := processing_time_secs / 2 in
  if 0 <? cap then Z.min delay_seconds cap else delay_seconds.

Definition retried (item : WorkItem) : WorkItem := {|
  wi_id := wi_id item; wi_miner_uid := wi_miner_uid item; wi_executor_info := wi_executor_info item;
  wi_task := wi_task item; wi_miner_hotkey := wi_miner_hotkey item;
  wi_miner_endpoint := wi_miner_endpoint item; wi_created_at := wi_created_at item;
  wi_priority := match validation_type with Full => Low | Lightweight => wi_priority item end;
  wi_retry_count := wi_retry_count item + 1 |}.

Definition failure_message (outcome : Verified) : string :=
  let name := match validation_type with Full => "Verification" | Lightweight => "Lightweight verification" end in
  match outcome with
  | VerifiedTimeout => name +:+ " timed out after " +:+ show_int processing_time_secs +:+ "s ("
      +:+ show_int (max_retries config) +:+ " retries)"
  | VerifiedErr e => name +:+ " failed after " +:+ show_int (max_retries config) +:+ " retries: " +:+ e
  | VerifiedOk _ => EmptyString
  end.

(** The failure of a verification: retry the item of the entry, or give it up. *)
Definition worker_failed (i : nat) (item : WorkItem) (start_time : Z) (outcome : Verified) (now : Z)
    (s : System) : System :=
  let key := executor_key item in
  match rollback_for_retry key (queue s) with
  | (Some retry_item, q) =>
      if wi_retry_count retry_item <? max_retries config then
        let item' := retried retry_item in
        with_worker s i (BackingOff item' (now + secs (retry_delay (wi_retry_count item')))) q
          (count (metrics s) 0 (-1) 0 0 0) []
      else
        let error := failure_message outcome in
        with_worker s i (StoringFailure retry_item error start_time) (complete key (Failed now error) q)
          (count (metrics s) 0 (-1) 0 1 0) []
  | (None, q) =>
      with_worker s i Idle (rollback key q).2 (count (metrics s) 0 (-1) 0 0 0) []
  end.

(** The verification ends. *)
Definition worker_result (i : nat) (outcome : Verified) (now : Z) (s : System) : System :=
  match workers s !! i with
  | Some (Verifying item start_time) =>
      match outcome with
      | VerifiedOk score =>
          with_worker s i (StoringSuccess item score) (complete (executor_key item) (Success now) (queue s))
            (with_avg (count (metrics s) 0 (-1) 1 0 0) ((now - start_time) / 1000000)) []
      | _ => worker_failed i item start_time outcome now s
      end
  | _ => s
  end.

(** After the lock is released, the result is handed to the engine. *)
Definition worker_store (i : nat) (now : Z) (s : System) : System :=
  match workers s !! i with
  | Some (StoringSuccess item score) =>
      with_worker s i Idle (queue s) (metrics s) (store_successful_validation item score)
  | Some (StoringFailure item error start_time) =>
      with_worker s i Idle (queue s) (metrics s)
        (store_failed_validation item error (now - start_time) validation_type)
  | _ => s
  end.

(** [requeue_item] after the back-off, *)
Definition worker_requeue (i : nat) (now : Z) (s : System) : System :=
  match workers s !! i with
  | Some (BackingOff item until) =>
      if now <? until then s
      else match add_pending item (queue s) with
           | Ok q => with_worker s i Requeued q (count (metrics s) 1 0 0 0 0) []
           | Err _ => with_worker s i Requeued (queue s) (metrics s) []
           end
  | _ => s
  end.

(** and the count of the retry, without the lock and whether or not the item was queued. *)
Definition worker_count_retry (i : nat) (s : System) : System :=
  match workers s !! i with
  | Some Requeued => with_worker s i Idle (queue s) (count (metrics s) 0 0 0 0 1) []
  | _ => s
  end.

(** [shutdown] aborts a worker where it awaits; what it holds is dropped. *)
Definition worker_abort (i : nat) (s : System) : System :=
  match workers s !! i with
  | Some (Popped _) | Some (Started _) | Some Requeued | None => s
  | Some _ => with_worker s i Aborted (queue s) (metrics s) []
  end.

(** ** The monitor *)

(** [check_stale_items] first collects the stale entries under the read lock, in the
    order the hash map has, *)
Definition monitor_collect (order : list (ExecutorKey * ProcessingEntry) -> list (ExecutorKey * ProcessingEntry))
    (now : Z) (s : System) : System :=
  match sweep s with
  | Some _ => s
  | None =>
      {| queue := queue s; metrics := metrics s; workers := workers s;
         sweep := Some {| sw_now := now; sw_stale :=
           (fun p => (p.1, pe_work_item p.2, now - pe_started_at p.2)) <$>
           filter (fun p => secs stale_timeout_secs < now - pe_started_at p.2)
             (order (map_to_list (processing (queue s)))); sw_unstored := None |};
         stored := stored s |}
  end.

Definition stale_message (elapsed : Z) : string :=
  "Processing stale after " +:+ show_int (elapsed / 1000000000) +:+ "s (exceeded "
  +:+ show_int stale_timeout_secs +:+ "s timeout)".

(** then removes them one by one, each under the write lock, *)
Definition monitor_remove (s : System) : System :=
  match sweep s with
  | Some {| sw_now := now; sw_stale := (key, item, elapsed) :: rest; sw_unstored := None |} =>
      let error := stale_message elapsed in
      let '(q, m) :=
        match rollback key (queue s) with
        | (Some _, q) => (with_completed q (lru_put key (Failed now error) (completed q)),
                          count (metrics s) 0 (-1) 0 1 0)
        | (None, q) => (q, metrics s)
        end in
      {| queue := q; metrics := m; workers := workers s;
         sweep := Some {| sw_now := now; sw_stale := rest; sw_unstored := Some (item, error, elapsed) |};
         stored := stored s |}
  | Some {| sw_stale := []; sw_unstored := None |} =>
      {| queue := queue s; metrics := metrics s; workers := workers s; sweep := None; stored := stored s |}
  | _ => s
  end.

(** and stores each failure after the lock is released, whether or not the entry was still
    there. *)
Definition monitor_store (s : System) : System :=
  match sweep s with
  | Some {| sw_now := now; sw_stale := rest; sw_unstored := Some (item, error, elapsed) |} =>
      {| queue := queue s; metrics := metrics s; workers := workers s;
         sweep := Some {| sw_now := now; sw_stale := rest; sw_unstored := None |};
         stored := stored s ++ store_failed_validation item error elapsed validation_type |}
  | _ => s
  end.

(** ** Schedules *)

Inductive Action :=
  | Publish (executor : ExecutorInfoDetailed) (task : VerificationTask) (id now : Z)
  | WorkerPop (i : nat)
  | WorkerCountProcessing (i : nat)
  | WorkerCountPending (i : nat)
  | WorkerMark (i : nat) (now start_time : Z)
  | WorkerResult (i : nat) (outcome : Verified) (now : Z)
  | WorkerStore (i : nat) (now : Z)
  | WorkerRequeue (i : nat) (now : Z)
  | WorkerCountRetry (i : nat)
  | WorkerAbort (i : nat)
  | MonitorCollect (order : list (ExecutorKey * ProcessingEntry) -> list (ExecutorKey * ProcessingEntry)) (now : Z)
  | MonitorRemove
  | MonitorStore.

Definition act (s : System) (a : Action) : System :=
  match a with
  | Publish executor task id now => (publish executor task id now s).2
  | WorkerPop i => worker_pop i s
  | WorkerCountProcessing i => worker_count_processing i s
  | WorkerCountPending i => worker_count_pending i s
  | WorkerMark i now start_time => worker_mark i now start_time s
  | WorkerResult i outcome now => worker_result i outcome now s
  | WorkerStore i now => worker_store i now s
  | WorkerRequeue i now => worker_requeue i now s
  | WorkerCountRetry i => worker_count_retry i s
  | WorkerAbort i => worker_abort i s
  | MonitorCollect order now => monitor_collect order now s
  | MonitorRemove => monitor_remove s
  | MonitorStore => monitor_store s
  end.

Definition run (actions : list Action) : System := foldl act (System_new worker_count) actions.
End Queue.
