(* ===== verification/QueueClaims.v ===== *)
(** * The queue of validations under any interleaving

    Invariants of the worker queue over all schedules of its publishers, workers and
    monitor: the index of executors is that of the pending items, the queue stays
    bounded, and every published item is verified a bounded number of times.  The
    examples at the end are schedules in which the gaps between the critical sections
    show. *)

From stdpp Require Import base gmap strings list sorting.
From Stdlib Require Import ZArith.
From S2P Require Import Prelude.
From S2P Require Import Text.
From S2P Require Import Float64.
From S2P Require Import Signatures.
From S2P Require Import Collections.
From S2P Require Import ValidationQueue.
Local Open Scope Z_scope.

Create HintDb queue.

(** ** The order of the queue *)

Lemma QueueKey_le_total a b : QueueKey_le a b = false -> QueueKey_le b a = true.
Proof.
  unfold QueueKey_le, QueueKey_cmp.
  destruct (Z.compare_spec (priority_code a.1) (priority_code b.1)),
    (Z.compare_spec (priority_code b.1) (priority_code a.1)); try done; try lia;
  destruct (Z.compare_spec a.2.1 b.2.1), (Z.compare_spec b.2.1 a.2.1); try done; try lia;
  destruct (Z.compare_spec a.2.2 b.2.2), (Z.compare_spec b.2.2 a.2.2); try done; lia.
Qed.

Lemma QueueKey_le_trans a b c : QueueKey_le a b = true -> QueueKey_le b c = true -> QueueKey_le a c = true.
Proof.
  unfold QueueKey_le, QueueKey_cmp.
  destruct (Z.compare_spec (priority_code a.1) (priority_code b.1)),
    (Z.compare_spec (priority_code b.1) (priority_code c.1)),
    (Z.compare_spec (priority_code a.1) (priority_code c.1)); try done; try lia;
  destruct (Z.compare_spec a.2.1 b.2.1), (Z.compare_spec b.2.1 c.2.1), (Z.compare_spec a.2.1 c.2.1);
    try done; try lia;
  destruct (Z.compare_spec a.2.2 b.2.2), (Z.compare_spec b.2.2 c.2.2), (Z.compare_spec a.2.2 c.2.2);
    try done; lia.
Qed.

(** [pop_first] gives the least key. *)
Lemma pop_first_Some m k item :
  pop_first m = Some (k, item) ->
  m !! k = Some item /\ forall k' item', m !! k' = Some item' -> QueueKey_le k k' = true.
Proof.
  unfold pop_first. set (le := fun a b : QueueKey * WorkItem => QueueKey_le a.1 b.1).
  intros Hh. assert (Hin : (k, item) ∈ sort_by le (map_to_list m)) by by apply head_Some_elem_of.
  split; [by apply elem_of_map_to_list; apply elem_of_sort_by in Hin|].
  intros k' item' Hk'.
  assert (StronglySorted (fun a b => le a b = true) (sort_by le (map_to_list m))) as Hs.
  { apply Sorted_StronglySorted; [intros a b c; apply QueueKey_le_trans|].
    apply sort_by_Sorted. intros a b. apply QueueKey_le_total. }
  assert (Hin' : (k', item') ∈ sort_by le (map_to_list m))
    by (by apply elem_of_sort_by, elem_of_map_to_list).
  destruct (sort_by le (map_to_list m)) as [|p l]; [done|]. injection Hh as ->.
  apply elem_of_cons in Hin' as [[= -> ->]|Hin'].
  - destruct (QueueKey_le k k) eqn:E; [done|]. by pose proof (QueueKey_le_total _ _ E); congruence.
  - apply StronglySorted_inv in Hs as [_ Hs]. rewrite Forall_forall in Hs. exact (Hs _ Hin').
Qed.

Lemma pop_first_None m : pop_first m = None -> m = ∅.
Proof.
  unfold pop_first. intros Hh. apply map_to_list_empty_iff, length_zero_iff_nil.
  destruct (sort_by _ (map_to_list m)) eqn:E; [|done].
  by rewrite <- (length_sort_by (fun a b => QueueKey_le a.1 b.1)), E.
Qed.

(** ** The invariant of the queue *)

Record queue_wf (q : QueueState) : Prop := {
  qw_keys : forall k item, pending q !! k = Some item -> queue_key item = k;
  qw_index : forall ek qk, executor_index q !! ek = Some qk <->
    exists item, pending q !! qk = Some item /\ executor_key item = ek;
  qw_processing : forall ek e, processing q !! ek = Some e -> executor_key (pe_work_item e) = ek
}.

(** An item keeps its executor: identifiers are never shared. *)
Definition owned (owner : Z -> ExecutorKey) (item : WorkItem) : Prop := executor_key item = owner (wi_id item).

Definition all_pending (P : WorkItem -> Prop) (q : QueueState) : Prop :=
  forall k item, pending q !! k = Some item -> P item.
Definition all_processing (P : WorkItem -> Prop) (q : QueueState) : Prop :=
  forall k e, processing q !! k = Some e -> P (pe_work_item e).

Lemma not_duplicate q key :
  is_duplicate q key = false -> executor_index q !! key = None /\ processing q !! key = None.
Proof.
  unfold is_duplicate. intros [H1 H2]%orb_false_iff.
  apply bool_decide_eq_false in H1, H2. by split; apply eq_None_not_Some.
Qed.

(** A new item does not displace one that waits. *)
Lemma add_pending_fresh owner item q :
  queue_wf q -> all_pending (owned owner) q -> owned owner item ->
  is_duplicate q (executor_key item) = false -> pending q !! queue_key item = None.
Proof.
  intros Hq Ho Hi [Hd _]%not_duplicate. apply eq_None_not_Some. intros [item' Hitem'].
  assert (wi_id item' = wi_id item) as E by (apply (qw_keys _ Hq) in Hitem'; by injection Hitem').
  pose proof (Ho _ _ Hitem') as Ho'. unfold owned in *.
  assert (executor_index q !! executor_key item = Some (queue_key item)) as Hx; [|congruence].
  apply (qw_index _ Hq). exists item'. split; [done|congruence].
Qed.

Lemma add_pending_wf owner item q q' :
  queue_wf q -> all_pending (owned owner) q -> owned owner item -> add_pending item q = Ok q' ->
  queue_wf q' /\ pending q !! queue_key item = None /\
  pending q' = <[queue_key item := item]> (pending q) /\ processing q' = processing q.
Proof.
  intros Hq Ho Hi. unfold add_pending.
  destruct (is_duplicate q (executor_key item)) eqn:Hd; [done|]. intros [= <-].
  pose proof (add_pending_fresh _ _ _ Hq Ho Hi Hd) as Hf.
  split; [|done]. apply not_duplicate in Hd as [Hd _]. constructor; cbn.
  - intros k i [[<- <-]|[_ Hk]]%lookup_insert_Some; [done|]. by apply (qw_keys _ Hq).
  - intros ek qk. rewrite lookup_insert_Some. split.
    + intros [[<- <-]|[Hne Hx]]; [exists item; by rewrite lookup_insert_eq|].
      apply (qw_index _ Hq) in Hx as (i & Hpi & <-). exists i. split; [|done].
      rewrite lookup_insert_ne; [done|]. intros <-. congruence.
    + intros (i & [[<- <-]|[Hne Hpi]]%lookup_insert_Some & <-); [by left|].
      right. assert (executor_index q !! executor_key i = Some qk) as Hx by (apply (qw_index _ Hq); eauto).
      split; [|done]. intros E. congruence.
  - apply (qw_processing _ Hq).
Qed.

Lemma pop_next_wf q item q' :
  queue_wf q -> pop_next q = (Some item, q') ->
  queue_wf q' /\ pending q !! queue_key item = Some item /\
  pending q' = delete (queue_key item) (pending q) /\ processing q' = processing q /\
  forall k' item', pending q !! k' = Some item' -> QueueKey_le (queue_key item) k' = true.
Proof.
  intros Hq. unfold pop_next. destruct (pop_first (pending q)) as [[k i]|] eqn:E; [|done].
  intros [= -> <-]. apply pop_first_Some in E as [Hk Hmin].
  pose proof (qw_keys _ Hq _ _ Hk) as <-. split; [|done]. constructor; cbn.
  - intros k' i' [_ Hk']%lookup_delete_Some. by apply (qw_keys _ Hq).
  - intros ek qk. rewrite lookup_delete_Some. split.
    + intros [Hne (i' & Hi' & <-)%(qw_index _ Hq)]. exists i'. split; [|done].
      rewrite lookup_delete_ne; [done|]. intros <-. congruence.
    + intros (i' & [Hne Hi']%lookup_delete_Some & <-). split; [|by apply (qw_index _ Hq); eauto].
      intros E. apply Hne.
      assert (executor_index q !! executor_key i' = Some (queue_key item)) as H1
        by (apply (qw_index _ Hq); eauto).
      assert (executor_index q !! executor_key i' = Some qk) as H2 by (apply (qw_index _ Hq); eauto).
      congruence.
  - apply (qw_processing _ Hq).
Qed.

(** The entries under verification do not touch the waiting items. *)
Lemma with_processing_wf q p :
  queue_wf q -> (forall ek e, p !! ek = Some e -> executor_key (pe_work_item e) = ek) ->
  queue_wf (with_processing q p).
Proof. intros [] Hp. by constructor. Qed.

Lemma with_completed_wf q c : queue_wf q -> queue_wf (with_completed q c).
Proof. intros []. by constructor. Qed.

Lemma delete_processing_wf q key : queue_wf q -> queue_wf (with_processing q (delete key (processing q))).
Proof.
  intros Hq. apply with_processing_wf; [done|].
  intros ek e [_ He]%lookup_delete_Some. by apply (qw_processing _ Hq).
Qed.

(** ** Sums over the tables and the workers *)

Definition entry_weight {K V} (f : K -> V -> Z) (k : K) (o : option V) : Z :=
  match o with Some v => f k v | None => 0 end.

Lemma table_sum_delete_any `{Countable K} {V} (f : K -> V -> Z) (m : gmap K V) k :
  table_sum f (delete k m) = table_sum f m - entry_weight f k (m !! k).
Proof.
  destruct (m !! k) as [v|] eqn:E; cbn [entry_weight].
  - rewrite (table_sum_delete f m k v E). lia.
  - rewrite delete_id by done. lia.
Qed.

Lemma table_sum_insert_any `{Countable K} {V} (f : K -> V -> Z) (m : gmap K V) k v :
  table_sum f (<[k := v]> m) = table_sum f m - entry_weight f k (m !! k) + f k v.
Proof.
  destruct (m !! k) as [v0|] eqn:E; cbn [entry_weight].
  - by rewrite (table_sum_update f m k v0 v E).
  - rewrite table_sum_insert by done. lia.
Qed.

Lemma Zsum_update {A} (f : A -> Z) (l : list A) i x y :
  l !! i = Some x -> Zsum (f <$> <[i := y]> l) = Zsum (f <$> l) - f x + f y.
Proof.
  revert i. induction l as [|z l IH]; intros [|i] Hi; simplify_eq/=; [unfold Zsum; cbn; lia|].
  specialize (IH i Hi). unfold Zsum in *. cbn in *. lia.
Qed.

Lemma Zsum_bound {A} (f : A -> Z) (l : list A) :
  (forall x, f x <= 1) -> Zsum (f <$> l) <= Z.of_nat (length l).
Proof. intros Hf. induction l as [|x l IH]; [done|]. specialize (Hf x). unfold Zsum in *. cbn in *. lia. Qed.

Lemma Zsum_idle (f : Worker -> Z) n : f Idle = 0 -> Zsum (f <$> replicate n Idle) = 0.
Proof. intros Hf. induction n as [|n IH]; [done|]. unfold Zsum in *. cbn. lia. Qed.

(** ** The invariant of the system *)

Definition worker_item (w : Worker) : option WorkItem :=
  match w with
  | Popped item | Started item | Counted item | Verifying item _ | BackingOff item _ => Some item
  | _ => None
  end.

Definition holds_item (w : Worker) : Z := match worker_item w with Some _ => 1 | None => 0 end.

(** A worker that has taken an item and not yet counted it out of the pending ones. *)
Definition uncounted (w : Worker) : Z := match w with Popped _ | Started _ => 1 | _ => 0 end.

Definition worker_ok (P : WorkItem -> Prop) (w : Worker) : Prop :=
  match worker_item w with Some item => P item | None => True end.

Section Invariant.
Context `{Crypto} (config : WorkerQueueConfig) (vt : ValidationType) (owner : Z -> ExecutorKey).
Context (Hpend : 0 <= max_pending_items config) (Hretry : 0 <= max_retries config).

Definition item_ok (item : WorkItem) : Prop :=
  owned owner item /\ 0 <= wi_retry_count item <= max_retries config.

Record system_wf (s : System) : Prop := {
  sw_queue : queue_wf (queue s);
  sw_pending : all_pending item_ok (queue s);
  sw_processing : all_processing item_ok (queue s);
  sw_workers : Forall (worker_ok item_ok) (workers s);
  sw_length : length (workers s) = worker_count config vt;
  sw_count : m_pending (metrics s) =
    wrap 64 (Z.of_nat (size (pending (queue s))) + Zsum (uncounted <$> workers s));
  sw_bound : Z.of_nat (size (pending (queue s))) + Zsum (holds_item <$> workers s)
             <= max_pending_items config + Z.of_nat (worker_count config vt)
}.

Lemma items_owned q : all_pending item_ok q -> all_pending (owned owner) q.
Proof. intros Hq k item Hk. by apply Hq in Hk as [? _]. Qed.

(** A worker moves on, the queue changes as [dsize] says and its counter as [dm] does. *)
Lemma with_worker_wf s i w0 w q m res dsize dm :
  system_wf s -> workers s !! i = Some w0 -> queue_wf q ->
  all_pending item_ok q -> all_processing item_ok q -> worker_ok item_ok w ->
  Z.of_nat (size (pending q)) = Z.of_nat (size (pending (queue s))) + dsize ->
  m_pending m = wrap 64 (m_pending (metrics s) + dm) ->
  dm + uncounted w0 = dsize + uncounted w ->
  dsize + holds_item w <= holds_item w0 ->
  system_wf (with_worker s i w q m res).
Proof.
  intros Hs Hi Hq Hp Hpr Hw Hsize Hm Hu Hd. destruct Hs. constructor; cbn [with_worker queue metrics workers]; try done.
  - by apply Forall_insert.
  - by rewrite length_insert.
  - rewrite Hm, sw_count0, wrap_add_l, (Zsum_update _ _ _ w0) by done. f_equal. lia.
  - rewrite (Zsum_update _ _ _ w0) by done. lia.
Qed.

Lemma count_pending m a b c d e : m_pending (count m a b c d e) = wrap 64 (m_pending m + a).
Proof. reflexivity. Qed.

Lemma size_insert_fresh (q : gmap QueueKey WorkItem) k item :
  q !! k = None -> Z.of_nat (size (<[k := item]> q)) = Z.of_nat (size q) + 1.
Proof. intros Hk. rewrite map_size_insert_None by done. lia. Qed.

Lemma size_delete_there (q : gmap QueueKey WorkItem) k item :
  q !! k = Some item -> Z.of_nat (size (delete k q)) = Z.of_nat (size q) + -1.
Proof.
  intros Hk. rewrite map_size_delete_Some by by eexists.
  assert (size q <> 0%nat) by (intros E%map_size_empty_inv; subst; by rewrite lookup_empty in Hk). lia.
Qed.

Lemma publish_wf executor task id now s :
  system_wf s -> owner id = (vt_miner_uid task, ei_id executor) ->
  system_wf (publish config vt executor task id now s).2.
Proof using Hretry.
  intros Hs Ho. unfold publish.
  destruct (is_duplicate _ _); [done|]. destruct (negb _); [done|].
  destruct (max_pending_items config <=? _) eqn:Hfull; [done|]. b2p.
  destruct (add_pending _ _) as [q'|] eqn:E; [|done]. cbn [snd].
  assert (item_ok (publish_item vt executor task id now)) as Hi by (split; [by symmetry|cbn; lia]).
  apply (add_pending_wf owner) in E as (Hq & Hf & Hp & Hpr);
    [|apply (sw_queue _ Hs)|apply items_owned, (sw_pending _ Hs)|apply Hi].
  pose proof (Zsum_bound holds_item (workers s)) as Hh.
  destruct Hs. constructor; cbn [queue metrics workers]; try done.
  - intros k item. rewrite Hp. intros [[<- <-]|[_ Hk]]%lookup_insert_Some; [done|]. by eapply sw_pending0.
  - intros k e. rewrite Hpr. apply sw_processing0.
  - rewrite count_pending, sw_count0, wrap_add_l, Hp, size_insert_fresh by done. f_equal. lia.
  - rewrite Hp, size_insert_fresh by done. rewrite sw_length0 in Hh.
    assert (forall w, holds_item w <= 1) as Hle by (intros []; done). specialize (Hh Hle). lia.
Qed.

Lemma m_pending_id s : system_wf s -> m_pending (metrics s) = wrap 64 (m_pending (metrics s) + 0).
Proof. intros Hs. rewrite (sw_count _ Hs), Z.add_0_r. unfold wrap. by rewrite Z.mod_mod. Qed.
#[local] Hint Resolve m_pending_id : queue.

Lemma worker_pop_wf i s : system_wf s -> system_wf (worker_pop i s).
Proof.
  intros Hs. unfold worker_pop. destruct (workers s !! i) as [[]|] eqn:Hi; try done.
  destruct (pop_next (queue s)) as [[item|] q] eqn:E; [|done].
  apply pop_next_wf in E as (Hq & Hk & Hp & Hpr & _); [|apply (sw_queue _ Hs)].
  eapply with_worker_wf; [done|exact Hi|done| | | |by rewrite Hp; eapply size_delete_there|by eauto with queue|done|done].
  - intros k item'. rewrite Hp. intros [_ Hk']%lookup_delete_Some. by eapply (sw_pending _ Hs).
  - intros k e. rewrite Hpr. apply (sw_processing _ Hs).
  - by eapply (sw_pending _ Hs).
Qed.

Lemma worker_in s i w : system_wf s -> workers s !! i = Some w -> worker_ok item_ok w.
Proof. intros Hs Hi. by eapply Forall_lookup_1; [apply (sw_workers _ Hs)|]. Qed.

Lemma count_0 s q : system_wf s -> pending q = pending (queue s) ->
  Z.of_nat (size (pending q)) = Z.of_nat (size (pending (queue s))) + 0.
Proof. intros _ ->. lia. Qed.

(** Workers that do not change the waiting items. *)
Lemma counting_step_wf s i w0 w q m res dm :
  system_wf s -> workers s !! i = Some w0 -> queue_wf q -> pending q = pending (queue s) ->
  all_processing item_ok q -> worker_ok item_ok w -> m_pending m = wrap 64 (m_pending (metrics s) + dm) ->
  dm + uncounted w0 = uncounted w -> holds_item w <= holds_item w0 -> system_wf (with_worker s i w q m res).
Proof.
  intros Hs Hi Hq Hp Hpr Hw Hm Hu Hh.
  eapply with_worker_wf; [done|exact Hi|done| |done|done|by apply count_0|done|lia|lia].
  intros k item. rewrite Hp. apply (sw_pending _ Hs).
Qed.

Lemma processing_step_wf s i w0 w q m res :
  system_wf s -> workers s !! i = Some w0 -> queue_wf q -> pending q = pending (queue s) ->
  all_processing item_ok q -> worker_ok item_ok w -> m_pending m = wrap 64 (m_pending (metrics s) + 0) ->
  uncounted w0 = uncounted w -> holds_item w <= holds_item w0 -> system_wf (with_worker s i w q m res).
Proof. intros Hs Hi Hq Hp Hpr Hw Hm Hu Hh. by eapply (counting_step_wf _ _ w0); try done; lia. Qed.

(** Steps outside the lock: the queue stays, the worker moves on. *)
Lemma unlocked_step_wf s i w0 w m res dm :
  system_wf s -> workers s !! i = Some w0 -> worker_ok item_ok w ->
  m_pending m = wrap 64 (m_pending (metrics s) + dm) ->
  dm + uncounted w0 = uncounted w -> holds_item w <= holds_item w0 ->
  system_wf (with_worker s i w (queue s) m res).
Proof.
  intros Hs Hi Hw Hm Hu Hh.
  by eapply counting_step_wf; [done|exact Hi|apply (sw_queue _ Hs)|done|apply (sw_processing _ Hs)|..].
Qed.

Lemma unlocked_acts_wf i s :
  system_wf s ->
  system_wf (worker_count_processing i s) /\ system_wf (worker_count_pending i s) /\
  (forall now, system_wf (worker_store vt i now s)) /\ system_wf (worker_count_retry i s) /\ system_wf (worker_abort i s).
Proof.
  intros Hs. unfold worker_count_processing, worker_count_pending, worker_store, worker_count_retry, worker_abort.
  destruct (workers s !! i) as [w|] eqn:Hi; [|done]. pose proof (worker_in _ _ _ Hs Hi) as Hw.
  destruct w; split_and!; intros; try done;
    (eapply unlocked_step_wf; [done|exact Hi|exact Hw || done|first [apply count_pending | by apply m_pending_id]|done|done]).
Qed.

Lemma worker_mark_wf i now start s : system_wf s -> system_wf (worker_mark i now start s).
Proof.
  intros Hs. unfold worker_mark. destruct (workers s !! i) as [[]|] eqn:Hi; try done.
  pose proof (worker_in _ _ _ Hs Hi) as Hw. cbn in Hw.
  eapply processing_step_wf; [done|exact Hi| |done| |done|by apply m_pending_id|done|done].
  - apply with_processing_wf; [apply (sw_queue _ Hs)|].
    intros ek e [[<- <-]|[_ He]]%lookup_insert_Some; [done|]. by apply (qw_processing _ (sw_queue _ Hs)).
  - intros k e. cbn. intros [[<- <-]|[_ He]]%lookup_insert_Some; [done|]. by eapply (sw_processing _ Hs).
Qed.

Lemma all_processing_delete q key :
  all_processing item_ok q -> all_processing item_ok (with_processing q (delete key (processing q))).
Proof. intros Hq k e He. cbn in He. apply lookup_delete_Some in He as [_ He]. by eapply Hq. Qed.

Lemma all_processing_complete q key status :
  all_processing item_ok q -> all_processing item_ok (complete key status q).
Proof. intros Hq. exact (all_processing_delete _ key Hq). Qed.

#[local] Hint Resolve all_processing_delete all_processing_complete sw_processing : queue.

Lemma complete_wf key status q : queue_wf q -> queue_wf (complete key status q).
Proof. intros Hq. by apply with_completed_wf, delete_processing_wf. Qed.

Lemma retried_ok item :
  item_ok item -> wi_retry_count item < max_retries config -> item_ok (retried vt item).
Proof. intros [Ho Hr] Hlt. split; [done|cbn; lia]. Qed.

Lemma worker_result_wf i outcome now s :
  system_wf s -> system_wf (worker_result config vt i outcome now s).
Proof.
  intros Hs. unfold worker_result. destruct (workers s !! i) as [[| | | |item start| | | | |]|] eqn:Hi; try done.
  pose proof (sw_queue _ Hs) as Hq.
  assert (system_wf (worker_failed config vt i item start outcome now s)) as Hfail.
  { unfold worker_failed, rollback_for_retry, rollback.
    destruct (processing (queue s) !! executor_key item) as [e|] eqn:He; cbn [fmap option_fmap option_map].
    - pose proof (sw_processing _ Hs _ _ He) as Hok.
      destruct (wi_retry_count (pe_work_item e) <? max_retries config) eqn:Hlt; b2p.
      + eapply processing_step_wf; [done|exact Hi|by apply delete_processing_wf|done|
          by eauto with queue|by apply retried_ok|done|done|done].
      + eapply processing_step_wf; [done|exact Hi|by apply complete_wf, delete_processing_wf|done|
          by eauto with queue|done|done|done|done].
    - eapply processing_step_wf; [done|exact Hi|by do 2 apply delete_processing_wf|done|
        by eauto with queue|done|done|done|done]. }
  destruct outcome; [|done|done].
  eapply processing_step_wf; [done|exact Hi|by apply complete_wf|done|by eauto with queue|done|done|done|done].
Qed.

Lemma worker_requeue_wf i now s : system_wf s -> system_wf (worker_requeue i now s).
Proof.
  intros Hs. unfold worker_requeue. destruct (workers s !! i) as [[| | | | |item until| | | |]|] eqn:Hi; try done.
  pose proof (worker_in _ _ _ Hs Hi) as Hw. cbn in Hw. destruct (now <? until); [done|].
  destruct (add_pending item (queue s)) as [q|] eqn:E.
  - apply (add_pending_wf owner) in E as (Hq & Hf & Hp & Hpr);
      [|apply (sw_queue _ Hs)|apply items_owned, (sw_pending _ Hs)|apply Hw].
    eapply with_worker_wf; [done|exact Hi|done| | |done|by rewrite Hp; apply size_insert_fresh|done|done|done].
    + intros k item'. rewrite Hp. intros [[<- <-]|[_ Hk]]%lookup_insert_Some; [done|]. by eapply (sw_pending _ Hs).
    + intros k e. rewrite Hpr. apply (sw_processing _ Hs).
  - eapply unlocked_step_wf; [done|exact Hi|done|by apply m_pending_id|done|done].
Qed.

Lemma monitor_wf s q m sw st :
  system_wf s -> queue_wf q -> pending q = pending (queue s) -> all_processing item_ok q ->
  m_pending m = wrap 64 (m_pending (metrics s) + 0) ->
  system_wf {| queue := q; metrics := m; workers := workers s; sweep := sw; stored := st |}.
Proof.
  intros Hs Hq Hp Hpr Hm. pose proof (m_pending_id _ Hs) as Hid. destruct Hs.
  constructor; cbn; rewrite ?Hp; try done; [|by rewrite Hm, <- Hid].
  intros k item. rewrite Hp. apply sw_pending0.
Qed.

Lemma act_wf s a :
  system_wf s ->
  (forall executor task id now, a = Publish executor task id now ->
    owner id = (vt_miner_uid task, ei_id executor)) ->
  system_wf (act config vt s a).
Proof using Hretry.
  intros Hs Ha. pose proof (m_pending_id _ Hs) as Hid.
  destruct a; cbn [act]; try (by apply unlocked_acts_wf).
  - apply publish_wf; eauto.
  - by apply worker_pop_wf.
  - by apply worker_mark_wf.
  - by apply worker_result_wf.
  - by apply worker_requeue_wf.
  - unfold monitor_collect. destruct (sweep s); [done|].
    by apply monitor_wf; [| apply (sw_queue _ Hs)| |apply (sw_processing _ Hs)|].
  - unfold monitor_remove, rollback. destruct (sweep s) as [[t [|[[key item] el] rest] [|]]|]; try done.
    + by apply monitor_wf; [|apply (sw_queue _ Hs)| |apply (sw_processing _ Hs)|].
    + destruct (processing (queue s) !! key);
        (apply monitor_wf; [done| |done|exact (all_processing_delete _ key (sw_processing _ Hs))|done]).
      * by apply with_completed_wf, delete_processing_wf, (sw_queue _ Hs).
      * by apply delete_processing_wf, (sw_queue _ Hs).
  - unfold monitor_store. destruct (sweep s) as [[t rest [[[item error] el]|]]|]; try done.
    by apply monitor_wf; [|apply (sw_queue _ Hs)| |apply (sw_processing _ Hs)|].
Qed.

Lemma new_system_wf : system_wf (System_new (worker_count config vt)).
Proof using Hpend.
  constructor; cbn [System_new queue pending workers metrics QueueState_new]; try done.
  - constructor; cbn; try done. intros ek qk. rewrite lookup_empty. split; [done|].
    intros (? & Hx & _). by rewrite lookup_empty in Hx.
  - by apply Forall_replicate.
  - apply length_replicate.
  - by rewrite Zsum_idle, map_size_empty.
  - rewrite Zsum_idle, map_size_empty by done. lia.
Qed.

(** ** The verifications an item has left *)

Definition item_potential (id d : Z) (item : WorkItem) : Z :=
  if bool_decide (wi_id item = id) then max_retries config - wi_retry_count item + d else 0.

Definition worker_potential (id : Z) (w : Worker) : Z :=
  match w with
  | Popped item | Started item | Counted item | BackingOff item _ => item_potential id 1 item
  | _ => 0
  end.

Definition pending_potential (id : Z) (q : QueueState) : Z :=
  table_sum (fun _ item => item_potential id 1 item) (pending q).
Definition processing_potential (id : Z) (q : QueueState) : Z :=
  table_sum (fun _ e => item_potential id 0 (pe_work_item e)) (processing q).

Definition potential (id : Z) (s : System) : Z :=
  pending_potential id (queue s) + processing_potential id (queue s)
  + Zsum (worker_potential id <$> workers s).

(** The action starts a verification of the item. *)
Definition starts (id : Z) (s : System) (a : Action) : Z :=
  match a with
  | WorkerMark i _ _ =>
      match workers s !! i with
      | Some (Counted item) => if bool_decide (wi_id item = id) then 1 else 0
      | _ => 0
      end
  | _ => 0
  end.

Definition publishes (id : Z) (a : Action) : Z :=
  match a with
  | Publish _ _ id' _ => if bool_decide (id' = id) then 1 else 0
  | _ => 0
  end.

Lemma item_potential_nonneg id d item : 0 <= d -> item_ok item -> 0 <= item_potential id d item.
Proof. intros Hd [_ Hr]. unfold item_potential. case_bool_decide; lia. Qed.

Lemma item_potential_1 id item :
  item_potential id 1 item = item_potential id 0 item + (if bool_decide (wi_id item = id) then 1 else 0).
Proof. unfold item_potential. case_bool_decide; lia. Qed.

Lemma processing_weight_nonneg id s key :
  system_wf s ->
  0 <= entry_weight (fun (_ : ExecutorKey) e => item_potential id 0 (pe_work_item e)) key (processing (queue s) !! key).
Proof.
  intros Hs. destruct (processing (queue s) !! key) as [e|] eqn:E; cbn; [|lia].
  apply item_potential_nonneg; [lia|]. by eapply (sw_processing _ Hs).
Qed.

(** Deleting an entry gives its potential back. *)
Lemma processing_potential_delete id q key c :
  processing_potential id (with_completed (with_processing q (delete key (processing q))) c) =
  processing_potential id q - entry_weight (fun _ e => item_potential id 0 (pe_work_item e)) key (processing q !! key).
Proof. apply table_sum_delete_any. Qed.

Lemma potential_with_worker id s i w0 w q m res :
  workers s !! i = Some w0 ->
  potential id (with_worker s i w q m res) =
  pending_potential id q + processing_potential id q
  + (Zsum (worker_potential id <$> workers s) - worker_potential id w0 + worker_potential id w).
Proof. intros Hi. unfold potential. cbn [with_worker queue workers]. by rewrite (Zsum_update _ _ _ w0). Qed.

Lemma add_pending_potential id item q q' :
  pending q !! queue_key item = None -> pending q' = <[queue_key item := item]> (pending q) ->
  processing q' = processing q ->
  pending_potential id q' + processing_potential id q' =
  pending_potential id q + processing_potential id q + item_potential id 1 item.
Proof.
  intros Hf Hp Hpr. unfold pending_potential, processing_potential. rewrite Hp, Hpr, table_sum_insert by done. lia.
Qed.

Lemma retried_potential id item : item_potential id 1 (retried vt item) = item_potential id 0 item.
Proof. unfold item_potential. cbn. case_bool_decide; lia. Qed.

Lemma worker_failed_potential id i item start outcome now s :
  system_wf s -> workers s !! i = Some (Verifying item start) ->
  potential id (worker_failed config vt i item start outcome now s) <= potential id s.
Proof.
  intros Hs Hi. pose proof (processing_weight_nonneg id s (executor_key item) Hs) as Hw.
  unfold worker_failed, rollback_for_retry, rollback.
  pose proof (processing_potential_delete id (queue s) (executor_key item) (completed (queue s))) as Hdel.
  destruct (processing (queue s) !! executor_key item) as [e|] eqn:He; cbn [fmap option_fmap option_map entry_weight] in *.
  - destruct (wi_retry_count (pe_work_item e) <? max_retries config);
      rewrite (potential_with_worker _ _ _ _ _ _ _ _ Hi); cbn [worker_potential]; unfold potential.
    + rewrite retried_potential.
      change (processing_potential id (with_processing (queue s) _)) with
        (processing_potential id (with_completed (with_processing (queue s) (delete (executor_key item)
          (processing (queue s)))) (completed (queue s)))).
      rewrite Hdel. unfold pending_potential. cbn. lia.
    + unfold complete. rewrite processing_potential_delete. cbn [processing with_processing].
      rewrite lookup_delete_eq. cbn [entry_weight].
      change (processing_potential id (with_processing (queue s) _)) with
        (processing_potential id (with_completed (with_processing (queue s) (delete (executor_key item)
          (processing (queue s)))) (completed (queue s)))).
      rewrite Hdel. unfold pending_potential. cbn. lia.
  - rewrite (potential_with_worker _ _ _ _ _ _ _ _ Hi). cbn [worker_potential snd]. unfold potential.
    unfold processing_potential, pending_potential. cbn [with_processing processing pending].
    rewrite !table_sum_delete_any, lookup_delete_eq, He. cbn. lia.
Qed.

Lemma worker_potential_nonneg id w : worker_ok item_ok w -> 0 <= worker_potential id w.
Proof. intros Hw. destruct w; cbn in *; try lia; by apply item_potential_nonneg. Qed.

Lemma unlocked_acts_potential id i s :
  system_wf s ->
  potential id (worker_count_processing i s) <= potential id s /\
  potential id (worker_count_pending i s) <= potential id s /\
  (forall now, potential id (worker_store vt i now s) <= potential id s) /\
  potential id (worker_count_retry i s) <= potential id s /\
  potential id (worker_abort i s) <= potential id s.
Proof.
  intros Hs. unfold worker_count_processing, worker_count_pending, worker_store, worker_count_retry, worker_abort.
  destruct (workers s !! i) as [w|] eqn:Hi; [|split_and!; intros; lia].
  pose proof (worker_potential_nonneg id w (worker_in _ _ _ Hs Hi)) as Hw.
  assert (forall w' m res, worker_potential id w' <= worker_potential id w ->
    potential id (with_worker s i w' (queue s) m res) <= potential id s) as Hstep.
  { intros w' m res Hle. rewrite (potential_with_worker _ _ _ _ _ _ _ _ Hi). unfold potential. lia. }
  destruct w; split_and!; intros; try apply Z.le_refl; apply Hstep; try apply Z.le_refl; exact Hw.
Qed.

Lemma act_potential id s a :
  system_wf s ->
  (forall executor task id now, a = Publish executor task id now ->
    owner id = (vt_miner_uid task, ei_id executor)) ->
  potential id (act config vt s a) + starts id s a <= potential id s + publishes id a * (max_retries config + 1).
Proof using Hretry.
  intros Hs Ha. pose proof (sw_queue _ Hs) as Hq. pose proof (items_owned _ (sw_pending _ Hs)) as Ho.
  destruct a as [ex task id' now|i|i|i|i now start|i outcome now|i now|i now|i|i|order now| |];
    cbn [act starts publishes]; rewrite ?Z.mul_0_l, ?Z.add_0_r;
    try (by apply unlocked_acts_potential).
  - unfold publish. pose proof (Ha _ _ _ _ eq_refl) as Hid.
    assert (0 <= (if bool_decide (id' = id) then 1 else 0) * (max_retries config + 1)) by (case_bool_decide; lia).
    destruct (is_duplicate _ _); [cbn; lia|]. destruct (negb _); [cbn; lia|]. destruct (_ <=? _); [cbn; lia|].
    destruct (add_pending _ _) as [q'|] eqn:E; [|cbn; lia]. cbn [snd].
    apply (add_pending_wf owner) in E as (_ & Hf & Hp & Hpr); [|done|done|by unfold owned].
    unfold potential. cbn [queue workers]. rewrite (add_pending_potential _ _ _ _ Hf Hp Hpr).
    unfold item_potential. cbn. case_bool_decide; lia.
  - unfold worker_pop. destruct (workers s !! i) as [[]|] eqn:Hi; try lia.
    destruct (pop_next (queue s)) as [[item|] q] eqn:E; [|lia].
    apply pop_next_wf in E as (_ & Hk & Hp & Hpr & _); [|done].
    rewrite (potential_with_worker _ _ _ _ _ _ _ _ Hi). cbn [worker_potential]. unfold potential.
    unfold pending_potential, processing_potential. rewrite Hp, Hpr, table_sum_delete_any, Hk. cbn. lia.
  - unfold worker_mark. destruct (workers s !! i) as [[]|] eqn:Hi; try lia.
    rewrite (potential_with_worker _ _ _ _ _ _ _ _ Hi). cbn [worker_potential]. unfold potential.
    pose proof (processing_weight_nonneg id s (executor_key item) Hs).
    unfold pending_potential, processing_potential. cbn [mark_processing with_processing processing pending].
    rewrite table_sum_insert_any, item_potential_1. cbn [pe_work_item]. lia.
  - unfold worker_result. destruct (workers s !! i) as [[| | | |item start| | | | |]|] eqn:Hi; try lia.
    destruct outcome; [|by apply worker_failed_potential|by apply worker_failed_potential].
    rewrite (potential_with_worker _ _ _ _ _ _ _ _ Hi). cbn [worker_potential]. unfold potential, complete.
    pose proof (processing_weight_nonneg id s (executor_key item) Hs).
    rewrite processing_potential_delete. unfold pending_potential. cbn. lia.
  - unfold worker_requeue. destruct (workers s !! i) as [[| | | | |item until| | | |]|] eqn:Hi; try lia.
    pose proof (worker_in _ _ _ Hs Hi) as Hw. cbn in Hw. destruct (now <? until); [lia|].
    destruct (add_pending item (queue s)) as [q|] eqn:E;
      rewrite (potential_with_worker _ _ _ _ _ _ _ _ Hi); cbn [worker_potential]; unfold potential.
    + apply (add_pending_wf owner) in E as (_ & Hf & Hp & Hpr); [|done|done|apply Hw].
      rewrite (add_pending_potential _ _ _ _ Hf Hp Hpr). lia.
    + pose proof (item_potential_nonneg id 1 item ltac:(lia) Hw). lia.
  - unfold monitor_collect. destruct (sweep s); apply Z.le_refl.
  - unfold monitor_remove, rollback. destruct (sweep s) as [[t [|[[key item] el] rest] [|]]|]; try apply Z.le_refl.
    pose proof (processing_weight_nonneg id s key Hs) as Hw.
    pose proof (processing_potential_delete id (queue s) key (completed (queue s))) as Hdel.
    unfold potential, pending_potential, processing_potential in *.
    destruct (processing (queue s) !! key);
      cbn [queue workers with_completed with_processing pending processing entry_weight] in *; lia.
  - unfold monitor_store. destruct (sweep s) as [[t rest [[[item error] el]|]]|]; apply Z.le_refl.
Qed.
End Invariant.

(** ** Schedules *)

Definition publication (a : Action) : option (Z * ExecutorKey) :=
  match a with
  | Publish executor task id _ => Some (id, (vt_miner_uid task, ei_id executor))
  | _ => None
  end.

Definition publications (actions : list Action) : list (Z * ExecutorKey) := omap publication actions.

(** The verifications of an item along a schedule. *)
Fixpoint verifications `{Crypto} (config : WorkerQueueConfig) (vt : ValidationType) (id : Z)
    (s : System) (actions : list Action) : Z :=
  match actions with
  | [] => 0
  | a :: rest => starts id s a + verifications config vt id (act config vt s a) rest
  end.

Lemma publications_owner actions :
  NoDup (publications actions).*1 ->
  exists owner, Forall (fun p => owner p.1 = p.2) (publications actions).
Proof.
  intros Hnd. exists (fun id => default (0, EmptyString) ((list_to_map (publications actions) : gmap Z ExecutorKey) !! id)).
  apply Forall_forall. intros [id ek] Hin. cbn [fst snd].
  by rewrite (elem_of_list_to_map_1 _ _ _ Hnd Hin).
Qed.

Section Schedules.
Context `{Crypto} (config : WorkerQueueConfig) (vt : ValidationType) (owner : Z -> ExecutorKey).
Context (Hpend : 0 <= max_pending_items config) (Hretry : 0 <= max_retries config).

Lemma owner_of_action a executor task id now :
  Forall (fun p => owner p.1 = p.2) (publications [a]) -> a = Publish executor task id now ->
  owner id = (vt_miner_uid task, ei_id executor).
Proof. intros Ho ->. by apply Forall_cons in Ho as [Ho _]. Qed.

Lemma publications_cons a actions : publications (a :: actions) = publications [a] ++ publications actions.
Proof. unfold publications. cbn. by destruct (publication a). Qed.

Lemma acts_wf actions : forall s,
  system_wf config vt owner s -> Forall (fun p => owner p.1 = p.2) (publications actions) ->
  system_wf config vt owner (foldl (act config vt) s actions).
Proof using Hretry.
  induction actions as [|a actions IH]; intros s Hs Ho; [done|]. cbn [foldl].
  rewrite publications_cons in Ho. apply Forall_app in Ho as [Ha Ho].
  apply IH; [|done]. apply act_wf; [done|done|]. intros. by eapply owner_of_action.
Qed.

Lemma potential_nonneg id s : system_wf config vt owner s -> 0 <= potential config id s.
Proof using Hretry.
  intros Hs. unfold potential.
  assert (0 <= pending_potential config id (queue s)).
  { apply table_sum_nonneg. intros k item Hk. apply (item_potential_nonneg config owner); [lia|].
    by eapply (sw_pending _ _ _ _ Hs). }
  assert (0 <= processing_potential config id (queue s)).
  { apply table_sum_nonneg. intros k e Hk. apply (item_potential_nonneg config owner); [lia|].
    by eapply (sw_processing _ _ _ _ Hs). }
  assert (0 <= Zsum (worker_potential config id <$> workers s)); [|lia].
  apply Zsum_nonneg, Forall_fmap, (Forall_impl _ _ _ (sw_workers _ _ _ _ Hs)).
  intros w Hw. by apply (worker_potential_nonneg config owner).
Qed.

Lemma verifications_potential id actions : forall s,
  system_wf config vt owner s -> Forall (fun p => owner p.1 = p.2) (publications actions) ->
  verifications config vt id s actions <=
  potential config id s + Zsum (publishes id <$> actions) * (max_retries config + 1).
Proof using Hretry.
  induction actions as [|a actions IH]; intros s Hs Ho; cbn [verifications fmap list_fmap].
  { pose proof (potential_nonneg id s Hs). cbn. lia. }
  rewrite publications_cons in Ho. apply Forall_app in Ho as [Ha Ho].
  pose proof (act_potential config vt owner Hretry id s a Hs
    (fun ex task id' now E => owner_of_action a ex task id' now Ha E)) as Hstep.
  assert (system_wf config vt owner (act config vt s a)) as Hs'
    by (apply act_wf; [done|done|intros; by eapply owner_of_action]).
  specialize (IH _ Hs' Ho). unfold Zsum in *. cbn [foldr]. lia.
Qed.

(** An identifier is published at most once. *)
Lemma publishes_once id actions :
  NoDup (publications actions).*1 -> Zsum (publishes id <$> actions) <= 1.
Proof.
  assert (forall actions, id ∉ (publications actions).*1 -> Zsum (publishes id <$> actions) = 0) as Hno.
  { induction actions0 as [|a actions0 IH]; [done|]. rewrite publications_cons, fmap_app, elem_of_app.
    intros Hin. unfold Zsum in *. cbn. rewrite IH by tauto.
    destruct a; cbn; try lia. rewrite bool_decide_false; [lia|]. intros ->. apply Hin. left. by left. }
  induction actions as [|a actions IH]; [done|]. rewrite publications_cons, fmap_app.
  intros (_ & Hdis & Hnd)%NoDup_app. unfold Zsum in *. cbn.
  destruct a; cbn in *; try (specialize (IH Hnd); lia).
  case_bool_decide; subst; [|specialize (IH Hnd); lia]. rewrite Hno; [lia|].
  apply Hdis. by left.
Qed.
End Schedules.

(** C14: the queue of validations is consistent under every interleaving of its
    publishers, workers and monitor, with the steps the workers take outside of the lock.
    The index of executors is exactly that of the waiting items, so an executor waits at
    most once; the number of waiting items stays within the configured maximum plus the
    number of workers; its counter, which a worker lowers after it has released the lock,
    is ahead by exactly the workers that have taken an item and not yet counted it, and so
    exact when there are none; a worker takes the most urgent item, by priority, then age,
    then identifier, and finds none only if nothing waits. *)
Theorem queue_consistent `{Crypto} config vt actions :
  0 <= max_pending_items config -> 0 <= max_retries config -> NoDup (publications actions).*1 ->
  let s := run config vt actions in
  let q := queue s in
  (forall ek qk, executor_index q !! ek = Some qk <->
    exists item, pending q !! qk = Some item /\ executor_key item = ek) /\
  (forall k k' item item', pending q !! k = Some item -> pending q !! k' = Some item' ->
    executor_key item = executor_key item' -> k = k') /\
  Z.of_nat (size (pending q)) <= max_pending_items config + Z.of_nat (worker_count config vt) /\
  m_pending (metrics s) = wrap 64 (Z.of_nat (size (pending q)) + Zsum (uncounted <$> workers s)) /\
  match (pop_next q).1 with
  | Some item => pending q !! queue_key item = Some item /\
      forall k item', pending q !! k = Some item' -> QueueKey_le (queue_key item) k = true
  | None => pending q = ∅
  end.
Proof.
  intros Hpend Hretry Hnd s q. destruct (publications_owner _ Hnd) as [owner Ho].
  assert (system_wf config vt owner s) as Hs by (apply acts_wf; [done|by apply new_system_wf|done]).
  pose proof (sw_queue _ _ _ _ Hs) as Hq. split; [apply (qw_index _ Hq)|]. split; [|split; [|split]].
  - intros k k' item item' Hk Hk' E.
    assert (executor_index q !! executor_key item = Some k) as H1 by (apply (qw_index _ Hq); eauto).
    assert (executor_index q !! executor_key item = Some k') as H2 by (apply (qw_index _ Hq); eauto).
    congruence.
  - pose proof (sw_bound _ _ _ _ Hs) as Hb.
    assert (0 <= Zsum (holds_item <$> workers s)); [|unfold q; lia].
    apply Zsum_nonneg, Forall_fmap, Forall_true. intros []; done.
  - apply (sw_count _ _ _ _ Hs).
  - destruct (pop_next q) as [[item|] q'] eqn:E; cbn [fst].
    + apply pop_next_wf in E as (_ & Hk & _ & _ & Hmin); [done|exact Hq].
    + unfold pop_next in E. destruct (pop_first (pending q)) as [[]|] eqn:Hf; [done|].
      by apply pop_first_None.
Qed.

(** C35: retries end.  Whatever the schedule, the verifications give and the monitor
    removes, an item that is published once is verified at most once more than the
    configured number of retries. *)
Theorem verifications_bounded `{Crypto} config vt actions id :
  0 <= max_pending_items config -> 0 <= max_retries config -> NoDup (publications actions).*1 ->
  verifications config vt id (System_new (worker_count config vt)) actions <= max_retries config + 1.
Proof.
  intros Hpend Hretry Hnd. destruct (publications_owner _ Hnd) as [owner Ho].
  pose proof (verifications_potential config vt owner Hretry id actions _
    (new_system_wf config vt owner Hpend) Ho) as Hv.
  assert (potential config id (System_new (worker_count config vt)) = 0) as Hp.
  { unfold potential. cbn [System_new queue workers]. unfold pending_potential, processing_potential.
    cbn [QueueState_new pending processing]. by rewrite !table_sum_empty, Zsum_idle. }
  pose proof (publishes_once owner id _ Hnd). nia.
Qed.

(** ** Concrete schedules *)

Module QueueScenario.
#[local] Instance crypto : Crypto := {|
  blake3 := fun _ => []; ss58_public _ := true; ss58_account _ := true;
  account_id_from_str _ := Some []; public_from_str _ := None; sr25519_verify _ _ _ := false |}.

Definition config : WorkerQueueConfig := WorkerQueueConfig_default 2.

Definition executor (id : string) : ExecutorInfoDetailed :=
  {| ei_id := id; ei_status := "active"; ei_capabilities := []; ei_grpc_endpoint := "" |}.

Definition task (uid : Z) : VerificationTask := {|
  vt_miner_uid := uid; vt_miner_hotkey := "5GrwvaEF5zXb26Fz9rcQpDWS57CtERHpNehXCPcNoHGKutQY"; vt_miner_endpoint := "";
  vt_stake_tao := f64_zero; vt_is_validator := false; vt_verification_type := AutomatedWithSsh;
  vt_intended_validation_strategy := Full; vt_created_at := 0; vt_timeout := 0 |}.

(** Two executors; the first fails to verify and waits with low priority. *)
Definition busy : list Action := [
  Publish (executor "a") (task 1) 10 0; Publish (executor "b") (task 1) 11 1;
  WorkerPop 0; WorkerCountProcessing 0; WorkerCountPending 0; WorkerMark 0 2 2;
  WorkerResult 0 (VerifiedErr "ssh") 3;
  Publish (executor "c") (task 2) 12 4; WorkerRequeue 0 (secs 61); WorkerCountRetry 0; WorkerPop 0 ].

(** The worker has taken the second executor and not counted it yet. *)
Lemma queue_consistent_witness :
  size (pending (queue (run config Full busy))) = 2%nat /\
  wi_id <$> (pop_next (queue (run config Full busy))).1 = Some 12 /\
  Zsum (uncounted <$> workers (run config Full busy)) = 1 /\
  m_pending (metrics (run config Full busy)) = 3.
Proof.
  destruct (queue_consistent config Full busy) as (_ & _ & _ & Hm & _);
    [done|done|apply (bool_decide_unpack (NoDup [10; 11; 12])); reflexivity|].
  split; [vm_compute; reflexivity|]. split; [vm_compute; reflexivity|]. split; [vm_compute; reflexivity|].
  rewrite Hm. vm_compute. reflexivity.
Defined.

(** An item that always fails is verified four times, the bound for three retries. *)
Definition attempt (n : Z) : list Action := [
  WorkerPop 0; WorkerCountProcessing 0; WorkerCountPending 0;
  WorkerMark 0 (secs (1000 * n)) (secs (1000 * n)); WorkerResult 0 VerifiedTimeout (secs (1000 * n + 1));
  WorkerRequeue 0 (secs (1000 * n + 900)); WorkerCountRetry 0; WorkerStore 0 (secs (1000 * n + 901)) ].

Definition failing : list Action := Publish (executor "a") (task 1) 10 0 :: mjoin (attempt <$> [0; 1; 2; 3; 4]).

Lemma verifications_bounded_witness :
  verifications config Full 10 (System_new 1) failing = 4 /\
  verifications config Full 10 (System_new 1) failing <= 4 /\
  length (stored (run config Full failing)) = 1%nat.
Proof.
  split; [vm_compute; reflexivity|]. split; [|vm_compute; reflexivity].
  apply (verifications_bounded config Full failing 10); [done|done|].
  apply (bool_decide_unpack (NoDup [10])). reflexivity.
Defined.

(** Between the pop and the mark an executor is in neither table: a publication then
    queues it again, a second worker verifies it at the same time, and its mark replaces
    the entry of the first.  When both fail, the first worker takes the entry of the
    second, and its own item is gone with all its retries. *)
Definition doubled : list Action := [
  Publish (executor "a") (task 1) 10 0; WorkerPop 0; WorkerCountProcessing 0; WorkerCountPending 0;
  Publish (executor "a") (task 1) 11 1; WorkerMark 0 2 2;
  WorkerPop 1; WorkerCountProcessing 1; WorkerCountPending 1; WorkerMark 1 3 3 ].

Theorem executor_verified_twice_at_once :
  (worker_item <$> workers (run config Lightweight doubled)) =
    [Some (publish_item Lightweight (executor "a") (task 1) 10 0);
     Some (publish_item Lightweight (executor "a") (task 1) 11 1)] /\
  size (processing (queue (run config Lightweight doubled))) = 1%nat /\
  fmap wi_id <$> (worker_item <$> workers (run config Lightweight (doubled ++
    [WorkerResult 0 (VerifiedErr "ssh") 4; WorkerResult 1 (VerifiedErr "ssh") 5]))) = [Some 11; None].
Proof. vm_compute. repeat split. Qed.

(** An entry the monitor removes is counted out twice: the counter of items under
    verification wraps around. *)
Definition stale : list Action := [
  Publish (executor "a") (task 1) 10 0; WorkerPop 0; WorkerCountProcessing 0; WorkerCountPending 0; WorkerMark 0 0 0;
  MonitorCollect (fun l => l) (secs 661); MonitorRemove; WorkerResult 0 VerifiedTimeout (secs 662) ].

Theorem processing_counter_wraps :
  m_processing (metrics (run config Lightweight stale)) = 2 ^ 64 - 1.
Proof. vm_compute. reflexivity. Qed.
End QueueScenario.
