(* ===== verification/VerificationStore.v ===== *)
(** * Validator: storing the results of verifications

    What the verification engine keeps about miners, executors and GPUs
    (miner_prover/verification.rs): the verification log, the status of an executor, the
    assignment of GPU UUIDs to executors, the registration of miners and their UIDs, and
    the periodic clean-up.

    Timestamps are text in the database, and two formats meet: [to_rfc3339]
    ("2025-01-02T03:04:05Z") and SQLite's [datetime] ("2025-01-02 03:04:05").  A stamp
    keeps its format, because the clean-up compares them as text: within one day the 'T'
    of the first is greater than the blank of the second.

    The effects are as for the other parts of the validator: any statement can fail, an
    error inside a transaction rolls it back.  The profile queries are the programs of
    [ProfileRepo], run on the view of these tables that the scoring has.  The identifier
    of an executor row is made of its miner and executor, so that pair names one row.
    The JSON details of a log entry are left out, and so is the format of a profile's
    time of update. *)

From stdpp Require Import base gmap strings list.
From Stdlib Require Import ZArith.
From S2P Require Import Prelude.
From S2P Require Import Text.
From S2P Require Import Float64.
From S2P Require Import Signatures.
From S2P Require Import Collections.
From S2P Require Import Categories.
From S2P Require Import WeightAllocation.
From S2P Require Import ValidatorWorld.
From S2P Require Import ProfileRepo.
From S2P Require Import ValidationQueue.
Local Open Scope Z_scope.

(** ** Time stamps *)

Inductive Stamp :=
  | Rfc (nanos : Z)         (* Utc::now().to_rfc3339() *)
  | Sql (secs : Z).         (* datetime('now') *)

Definition nanos_per_sec : Z := 1000000000.
Definition day_secs : Z := 86400.

Definition stamp_day (s : Stamp) : Z :=
  match s with Rfc n => n / nanos_per_sec / day_secs | Sql t => t / day_secs end.

(** [stamp < datetime(cutoff)] and [stamp > datetime(cutoff)] on text. *)
Definition before (s : Stamp) (cutoff : Z) : bool :=
  match s with
  | Rfc _ => stamp_day s <? cutoff / day_secs
  | Sql t => t <? cutoff
  end.
Definition after (s : Stamp) (cutoff : Z) : bool :=
  match s with
  | Rfc _ => cutoff / day_secs <=? stamp_day s
  | Sql t => cutoff <? t
  end.

(** ** Tables *)

(** miners, keyed by [id]; the hotkey is unique. *)
Record miner_row := {
  mr_hotkey : string;
  mr_endpoint : string;
  mr_verification_score : f64;
  mr_uptime_percentage : f64;
  mr_registered_at : Stamp;
  mr_executor_info : string
}.

(** miner_executors, keyed by [id]; the miner is a foreign key that cascades. *)
Record exec_row := {
  xr_miner_id : string;
  xr_executor_id : string;
  xr_grpc_address : string;
  xr_gpu_count : Z;
  xr_gpu_specs : string;
  xr_cpu_specs : string;
  xr_location : option string;
  xr_status : string;
  xr_last_health_check : option Stamp;
  xr_updated_at : Stamp
}.

(** gpu_uuid_assignments, keyed by [gpu_uuid]. *)
Record gpu_row := {
  gr_gpu_index : Z;
  gr_executor_id : string;
  gr_miner_id : string;
  gr_gpu_name : option string;
  gr_gpu_memory_gb : option f64;
  gr_last_verified : Stamp
}.

(** verification_logs, keyed by [id]. *)
Record vlog_row := {
  lr_executor_id : string;
  lr_timestamp : Z;
  lr_score : f64;
  lr_success : bool;
  lr_duration_ms : Z;
  lr_error_message : option string;
  lr_last_binary_validation : option (Z * f64)
}.

Record EngineDb := {
  t_miners : gmap string miner_row;
  t_executors : gmap string exec_row;
  t_gpus : gmap string gpu_row;
  t_logs : gmap Z vlog_row;
  t_profiles : gmap Z profile_row
}.

(** What the scoring reads of these tables. *)
Definition scoring_view (d : EngineDb) : Database := {|
  assignments := (fun g => {| ga_gpu_index := gr_gpu_index g; ga_executor_id := gr_executor_id g;
    ga_miner_id := gr_miner_id g; ga_gpu_name := gr_gpu_name g;
    ga_gpu_memory_gb := gr_gpu_memory_gb g |}) <$> t_gpus d;
  executors := (fun x => {| me_miner_id := xr_miner_id x; me_executor_id := xr_executor_id x;
    me_status := xr_status x; me_last_health_check := None |}) <$> t_executors d;
  logs := ∅; profiles := t_profiles d; emission_metrics := ∅; next_emission_id := 1;
  allocation_history := [] |}.

(** ** Effects *)

Inductive EError :=
  | SqlFailure
  | GrpcAddressTaken (grpc_address other_miner : string)
  | OldMinerNotFound (id : string)
  | HotkeyTaken (other_miner hotkey : string)
  | NoGpusStored (expected : Z)
  | ProfileError (e : VError)
  | EnginePanic (message : string).

Record EEnv := {
  e_clock : nat -> Z;                (* nanoseconds *)
  e_sql_fails : nat -> bool;
  e_uuid : nat -> Z
}.

Record EWorld := { edb : EngineDb; sessions : gset string; esteps : nat }.

Definition EM (A : Type) : Type := EEnv -> EWorld -> result EError A * EWorld.

#[export] Instance EM_ret : MRet EM := fun A a _ w => (Ok a, w).
#[export] Instance EM_bind : MBind EM := fun A B k m env w =>
  match m env w with
  | (Ok a, w') => k a env w'
  | (Err e, w') => (Err e, w')
  end.

Definition efail {A} (e : EError) : EM A := fun _ w => (Err e, w).

(** A result that is inspected: errors become values, a panic unwinds. *)
Definition etry {A} (m : EM A) : EM (result EError A) := fun env w =>
  match m env w with
  | (Err (EnginePanic s), w') => (Err (EnginePanic s), w')
  | (r, w') => (Ok r, w')
  end.

Definition with_edb (w : EWorld) (d : EngineDb) : EWorld :=
  {| edb := d; sessions := sessions w; esteps := esteps w |}.

Definition einteract {A} (f : EEnv -> nat -> A) : EM A := fun env w =>
  (Ok (f env (esteps w)), {| edb := edb w; sessions := sessions w; esteps := S (esteps w) |}).

(** [Utc::now().to_rfc3339()] and [datetime('now')]. *)
Definition rfc_now : EM Z := einteract e_clock.
Definition sql_now : EM Z := einteract (fun env n => e_clock env n / nanos_per_sec).

(** A statement; [None] is a violated constraint. *)
Definition estatement {A} (f : EngineDb -> option (A * EngineDb)) : EM A :=
  fails ← einteract e_sql_fails;
  if fails : bool then efail SqlFailure
  else fun _ w =>
    match f (edb w) with
    | Some (a, d) => (Ok a, with_edb w d)
    | None => (Err SqlFailure, w)
    end.

Definition equery {A} (f : EngineDb -> A) : EM A := estatement (fun d => Some (f d, d)).
Definition eupdate (f : EngineDb -> EngineDb) : EM unit := estatement (fun d => Some (tt, f d)).

(** [begin], the statements, [commit]; dropping the transaction rolls it back. *)
Definition begin_commit {A} (m : EM A) : EM A :=
  _ ← equery (fun _ => tt); a ← m; _ ← equery (fun _ => tt); mret a.
Definition etransaction {A} (m : EM A) : EM A := fun env w =>
  match begin_commit m env w with
  | (Ok a, w') => (Ok a, w')
  | (Err e, w') => (Err e, with_edb w' (edb w))
  end.

Fixpoint efor {A} (l : list A) (f : A -> EM unit) : EM unit :=
  match l with
  | [] => mret tt
  | x :: rest => _ ← f x; efor rest f
  end.

Definition with_miners (d : EngineDb) (m : gmap string miner_row) : EngineDb := {|
  t_miners := m; t_executors := t_executors d; t_gpus := t_gpus d; t_logs := t_logs d; t_profiles := t_profiles d |}.
Definition with_executors (d : EngineDb) (x : gmap string exec_row) : EngineDb := {|
  t_miners := t_miners d; t_executors := x; t_gpus := t_gpus d; t_logs := t_logs d; t_profiles := t_profiles d |}.
Definition with_gpus (d : EngineDb) (g : gmap string gpu_row) : EngineDb := {|
  t_miners := t_miners d; t_executors := t_executors d; t_gpus := g; t_logs := t_logs d; t_profiles := t_profiles d |}.
Definition with_logs (d : EngineDb) (l : gmap Z vlog_row) : EngineDb := {|
  t_miners := t_miners d; t_executors := t_executors d; t_gpus := t_gpus d; t_logs := l; t_profiles := t_profiles d |}.
Definition with_eprofiles (d : EngineDb) (p : gmap Z profile_row) : EngineDb := {|
  t_miners := t_miners d; t_executors := t_executors d; t_gpus := t_gpus d; t_logs := t_logs d; t_profiles := p |}.

(** A program of the profile repository, on the view of the tables it has. *)
Definition on_profiles {A} (m : VM A) : EM A := fun env w =>
  let venv := {| clock := e_clock env; sql_fails := e_sql_fails env; save_outcome := fun _ => SaveOk;
    chain_block := fun _ => None; chain_metagraph := fun _ => None; chain_accepts := fun _ => false;
    sql_avg := fun _ => f64_zero |} in
  let vw := {| db := scoring_view (edb w); storage := MemoryStorage_new; last_weight_set_block := 0;
    submissions := []; steps := esteps w |} in
  let '(r, vw') := m venv vw in
  (match r with
   | Ok a => Ok a
   | Err (Panic s) => Err (EnginePanic s)
   | Err e => Err (ProfileError e)
   end,
   {| edb := with_eprofiles (edb w) (profiles (db vw')); sessions := sessions w; esteps := steps vw' |}).

(** ** Executors and their GPUs *)

Definition of_executor (miner_id executor_id : string) (x : exec_row) : bool :=
  String.eqb (xr_miner_id x) miner_id && String.eqb (xr_executor_id x) executor_id.

Definition executors_where (p : exec_row -> bool) (d : EngineDb) : list (string * exec_row) :=
  List.filter (fun kv => p kv.2) (map_to_list (t_executors d)).

(** [SELECT status FROM miner_executors WHERE miner_id = ? AND executor_id = ?]. *)
Definition status_of (miner_id executor_id : string) (d : EngineDb) : option string :=
  xr_status ∘ snd <$> head (executors_where (of_executor miner_id executor_id) d).

Definition owned_by (miner_id executor_id : string) (g : gpu_row) : bool :=
  String.eqb (gr_miner_id g) miner_id && String.eqb (gr_executor_id g) executor_id.

(** [DELETE FROM gpu_uuid_assignments WHERE ...]: the number of rows. *)
Definition delete_gpus (p : EngineDb -> string -> gpu_row -> bool) : EM Z :=
  estatement (fun d => Some
    (Z.of_nat (length (List.filter (fun kv => p d kv.1 kv.2) (map_to_list (t_gpus d)))),
     with_gpus d (filter (fun kv => p d kv.1 kv.2 = false) (t_gpus d)))).

Definition cleanup_gpu_assignments (executor_id miner_id : string) : EM Z :=
  delete_gpus (fun _ _ g => owned_by miner_id executor_id g).

(** [UPDATE miner_executors SET ... WHERE ...]. *)
Definition update_executors (p : string -> exec_row -> bool) (f : exec_row -> exec_row) : EM unit :=
  eupdate (fun d => with_executors d (map_imap (fun id x => Some (if p id x then f x else x)) (t_executors d))).

Definition set_status (status : string) (health : option Stamp) (updated : Stamp) (x : exec_row) : exec_row := {|
  xr_miner_id := xr_miner_id x; xr_executor_id := xr_executor_id x; xr_grpc_address := xr_grpc_address x;
  xr_gpu_count := xr_gpu_count x; xr_gpu_specs := xr_gpu_specs x; xr_cpu_specs := xr_cpu_specs x;
  xr_location := xr_location x; xr_status := status; xr_last_health_check := health; xr_updated_at := updated |}.

Definition set_gpu_count (count : Z) (status : string) (updated : Stamp) (x : exec_row) : exec_row := {|
  xr_miner_id := xr_miner_id x; xr_executor_id := xr_executor_id x; xr_grpc_address := xr_grpc_address x;
  xr_gpu_count := count; xr_gpu_specs := xr_gpu_specs x; xr_cpu_specs := xr_cpu_specs x;
  xr_location := xr_location x; xr_status := status; xr_last_health_check := xr_last_health_check x;
  xr_updated_at := updated |}.

(** ** GPU assignments *)

Record GpuInfo := { gi_index : Z; gi_gpu_name : string; gi_gpu_uuid : string; gi_gpu_memory_gb : f64 }.

Definition valid_uuid (g : GpuInfo) : bool :=
  negb (String.eqb (gi_gpu_uuid g) "") && negb (String.eqb (gi_gpu_uuid g) "Unknown UUID").

Definition reported_uuids (gpu_infos : list GpuInfo) : list string :=
  gi_gpu_uuid <$> List.filter valid_uuid gpu_infos.

Definition is_reported (gpu_infos : list GpuInfo) (uuid : string) : bool :=
  existsb (String.eqb uuid) (reported_uuids gpu_infos).

(** Statuses whose GPUs another executor may take. *)
Definition inactive (status : string) : bool :=
  String.eqb status "offline" || String.eqb status "failed" || String.eqb status "stale".

Definition gpu_row_of (miner_id executor_id : string) (g : GpuInfo) (t : Z) : gpu_row := {|
  gr_gpu_index := wrap_signed 32 (gi_index g); gr_executor_id := executor_id; gr_miner_id := miner_id;
  gr_gpu_name := Some (gi_gpu_name g); gr_gpu_memory_gb := Some (gi_gpu_memory_gb g);
  gr_last_verified := Rfc t |}.

(** One reported GPU with a valid UUID. *)
Definition store_gpu (miner_id executor_id : string) (t : Z) (g : GpuInfo) : EM unit :=
  existing ← equery (fun d => t_gpus d !! gi_gpu_uuid g);
  match existing with
  | Some row =>
      if negb (owned_by miner_id executor_id row) then
        status ← equery (status_of (gr_miner_id row) (gr_executor_id row));
        if match status with Some s => inactive s | None => true end then
          eupdate (fun d => with_gpus d (alter (fun _ => gpu_row_of miner_id executor_id g t)
            (gi_gpu_uuid g) (t_gpus d)))
        else mret tt
      else
        eupdate (fun d => with_gpus d (alter (fun r => {|
          gr_gpu_index := gr_gpu_index r; gr_executor_id := gr_executor_id r; gr_miner_id := gr_miner_id r;
          gr_gpu_name := gr_gpu_name r; gr_gpu_memory_gb := Some (gi_gpu_memory_gb g);
          gr_last_verified := Rfc t |}) (gi_gpu_uuid g) (t_gpus d)))
  | None =>
      estatement (fun d =>
        match t_gpus d !! gi_gpu_uuid g with
        | Some _ => None
        | None => Some (tt, with_gpus d (<[gi_gpu_uuid g := gpu_row_of miner_id executor_id g t]> (t_gpus d)))
        end)
  end.

Definition count_gpus (miner_id executor_id : string) (d : EngineDb) : Z :=
  Z.of_nat (size (filter (fun kv => owned_by miner_id executor_id kv.2 = true) (t_gpus d))).

Definition status_after (current_status : string) (has_gpus : bool) : string :=
  if String.eqb current_status "online" then (if has_gpus then "online" else "offline")
  else if String.eqb current_status "verified" then (if has_gpus then "online" else "offline")
  else (if has_gpus then "verified" else "offline").

Definition store_gpu_uuid_assignments (miner_uid : Z) (executor_id : string) (gpu_infos : list GpuInfo) : EM unit :=
  let miner_id := miner_id_of miner_uid in
  t ← rfc_now;
  _ ← (match reported_uuids gpu_infos with
       | [] => cleanup_gpu_assignments executor_id miner_id
       | _ => delete_gpus (fun _ uuid g => owned_by miner_id executor_id g && negb (is_reported gpu_infos uuid))
       end);
  _ ← efor (List.filter valid_uuid gpu_infos) (store_gpu miner_id executor_id t);
  gpu_count ← equery (count_gpus miner_id executor_id);
  current ← equery (status_of miner_id executor_id);
  match current with
  | None => efail SqlFailure
  | Some current_status =>
      let has_gpus := 0 <? gpu_count in
      s ← sql_now;
      _ ← update_executors (fun _ x => of_executor miner_id executor_id x)
            (set_gpu_count (wrap_signed 32 gpu_count) (status_after current_status has_gpus) (Sql s));
      let expected := Z.of_nat (length (reported_uuids gpu_infos)) in
      if (0 <? expected) && (gpu_count =? 0) then efail (NoGpusStored expected) else mret tt
  end.

Definition update_gpu_assignment_timestamps (miner_uid : Z) (executor_id : string) (gpu_infos : list GpuInfo) : EM unit :=
  let miner_id := miner_id_of miner_uid in
  t ← rfc_now;
  match reported_uuids gpu_infos with
  | [] => mret tt
  | _ =>
      eupdate (fun d => with_gpus d (map_imap (fun uuid r => Some
        (if owned_by miner_id executor_id r && is_reported gpu_infos uuid then {|
           gr_gpu_index := gr_gpu_index r; gr_executor_id := gr_executor_id r; gr_miner_id := gr_miner_id r;
           gr_gpu_name := gr_gpu_name r; gr_gpu_memory_gb := gr_gpu_memory_gb r; gr_last_verified := Rfc t |}
         else r)) (t_gpus d)))
  end.

(** ** Miners *)

Definition miner_with_hotkey (hotkey : string) (d : EngineDb) : list string :=
  fst <$> List.filter (fun kv => String.eqb (mr_hotkey kv.2) hotkey) (map_to_list (t_miners d)).

(** An UPDATE of one miner, under UNIQUE(hotkey). *)
Definition update_miner (id : string) (f : miner_row -> miner_row) : EM unit :=
  estatement (fun d =>
    match t_miners d !! id with
    | None => Some (tt, d)
    | Some r =>
        if existsb (fun other => negb (String.eqb other id)) (miner_with_hotkey (mr_hotkey (f r)) d) then None
        else Some (tt, with_miners d (<[id := f r]> (t_miners d)))
    end).

Definition insert_miner (id : string) (r : miner_row) : EM unit :=
  estatement (fun d =>
    match t_miners d !! id, miner_with_hotkey (mr_hotkey r) d with
    | None, [] => Some (tt, with_miners d (<[id := r]> (t_miners d)))
    | _, _ => None
    end).

(** INSERT into miner_executors: the miner must exist; [or_ignore] skips a taken id. *)
Definition insert_executor (or_ignore : bool) (id : string) (x : exec_row) : EM unit :=
  estatement (fun d =>
    match t_executors d !! id with
    | Some _ => if or_ignore then Some (tt, d) else None
    | None =>
        match t_miners d !! xr_miner_id x with
        | None => None
        | Some _ => Some (tt, with_executors d (<[id := x]> (t_executors d)))
        end
    end).

Definition handle_recycled_miner_uid (miner_id new_hotkey existing_hotkey : string) (info : MinerInfo) : EM unit :=
  update_miner miner_id (fun r => {|
    mr_hotkey := if String.eqb existing_hotkey new_hotkey then mr_hotkey r else new_hotkey;
    mr_endpoint := mi_endpoint info; mr_verification_score := mi_verification_score info;
    mr_uptime_percentage := mr_uptime_percentage r; mr_registered_at := mr_registered_at r;
    mr_executor_info := mr_executor_info r |}).

Definition create_new_miner (miner_id hotkey : string) (info : MinerInfo) : EM unit :=
  s ← sql_now;
  insert_miner miner_id {| mr_hotkey := hotkey; mr_endpoint := mi_endpoint info;
    mr_verification_score := mi_verification_score info; mr_uptime_percentage := f64_of_Z 100;
    mr_registered_at := Sql s; mr_executor_info := "{}" |}.

(** The executors of the old UID, one by one, under the new one. *)
Definition migrate_executor (new_miner_id : string) (x : exec_row) : EM unit :=
  taken ← equery (executors_where (fun y => String.eqb (xr_grpc_address y) (xr_grpc_address x)
                                            && negb (String.eqb (xr_miner_id y) new_miner_id)));
  match taken with
  | _ :: _ => mret tt
  | [] =>
      s ← sql_now;
      insert_executor false (new_miner_id +:+ "_" +:+ xr_executor_id x) {|
        xr_miner_id := new_miner_id; xr_executor_id := xr_executor_id x; xr_grpc_address := xr_grpc_address x;
        xr_gpu_count := xr_gpu_count x; xr_gpu_specs := xr_gpu_specs x; xr_cpu_specs := xr_cpu_specs x;
        xr_location := xr_location x; xr_status := xr_status x; xr_last_health_check := None;
        xr_updated_at := Sql s |}
  end.

(** [DELETE FROM miners] cascades to the executors. *)
Definition delete_miner (id : string) : EM unit :=
  eupdate (fun d => with_executors (with_miners d (delete id (t_miners d)))
    (filter (fun kv => xr_miner_id kv.2 <> id) (t_executors d))).

Definition migrate_miner_uid (old_miner_id new_miner_id : string) (info : MinerInfo) : EM unit :=
  etransaction (
    old ← equery (fun d => t_miners d !! old_miner_id);
    match old with
    | None => efail (OldMinerNotFound old_miner_id)
    | Some old_row =>
        others ← equery (fun d => List.filter (fun id => negb (String.eqb id old_miner_id))
                                    (miner_with_hotkey (mi_hotkey info) d));
        create ← (match others with
                  | [] => mret true
                  | id :: _ => if String.eqb id new_miner_id then mret false
                               else efail (HotkeyTaken id (mi_hotkey info))
                  end);
        execs ← equery (executors_where (fun x => String.eqb (xr_miner_id x) old_miner_id));
        _ ← delete_miner old_miner_id;
        _ ← (if create : bool then
               insert_miner new_miner_id {| mr_hotkey := mi_hotkey info; mr_endpoint := mi_endpoint info;
                 mr_verification_score := mr_verification_score old_row;
                 mr_uptime_percentage := mr_uptime_percentage old_row;
                 mr_registered_at := mr_registered_at old_row; mr_executor_info := mr_executor_info old_row |}
             else mret tt);
        _ ← efor (snd <$> execs) (migrate_executor new_miner_id);
        eupdate (fun d => with_gpus d ((fun g =>
          if String.eqb (gr_miner_id g) old_miner_id then {|
            gr_gpu_index := gr_gpu_index g; gr_executor_id := gr_executor_id g; gr_miner_id := new_miner_id;
            gr_gpu_name := gr_gpu_name g; gr_gpu_memory_gb := gr_gpu_memory_gb g;
            gr_last_verified := gr_last_verified g |}
          else g) <$> t_gpus d))
    end).

Definition ensure_miner_exists_with_info (info : MinerInfo) : EM unit :=
  let miner_id := miner_id_of (mi_uid info) in
  by_uid ← equery (fun d => t_miners d !! miner_id);
  match by_uid with
  | Some row => handle_recycled_miner_uid miner_id (mi_hotkey info) (mr_hotkey row) info
  | None =>
      by_hotkey ← equery (fun d => head (miner_with_hotkey (mi_hotkey info) d));
      match by_hotkey with
      | Some old_miner_id => migrate_miner_uid old_miner_id miner_id info
      | None => create_new_miner miner_id (mi_hotkey info) info
      end
  end.

(** Errors are only logged. *)
Definition sync_miners_from_metagraph (miners : list MinerInfo) : EM unit :=
  efor miners (fun info => _ ← etry (ensure_miner_exists_with_info info); mret tt).

(** ** The relationship of a miner and an executor *)

Definition relationship_id (miner_id executor_id : string) : string := miner_id +:+ "_" +:+ executor_id.

(** The executor changes its identifier behind the same address. *)
Definition rename_executor (miner_id old_id executor_id : string) : EM unit :=
  etransaction (
    _ ← eupdate (fun d => with_gpus d ((fun g =>
          if owned_by miner_id old_id g then {|
            gr_gpu_index := gr_gpu_index g; gr_executor_id := executor_id; gr_miner_id := gr_miner_id g;
            gr_gpu_name := gr_gpu_name g; gr_gpu_memory_gb := gr_gpu_memory_gb g;
            gr_last_verified := gr_last_verified g |}
          else g) <$> t_gpus d));
    eupdate (fun d => with_executors d (filter (fun kv => of_executor miner_id old_id kv.2 = false) (t_executors d)))).

(** A row with the same address: offline, and its GPUs are freed. *)
Definition retire_duplicate (miner_id : string) (dup : string * exec_row) : EM unit :=
  s ← sql_now;
  _ ← update_executors (fun id _ => String.eqb id dup.1) (set_status "offline" (Some (Sql s)) (Sql s));
  _ ← cleanup_gpu_assignments (xr_executor_id dup.2) miner_id;
  mret tt.

Definition ensure_miner_executor_relationship (miner_uid : Z) (executor_id grpc_endpoint : string)
    (info : MinerInfo) : EM unit :=
  let miner_id := miner_id_of miner_uid in
  _ ← ensure_miner_exists_with_info info;
  known ← equery (executors_where (of_executor miner_id executor_id));
  match known with
  | [] =>
      other ← equery (fun d => head (executors_where (fun x => String.eqb (xr_grpc_address x) grpc_endpoint
                                       && negb (String.eqb (xr_miner_id x) miner_id)) d));
      match other with
      | Some (_, x) => efail (GrpcAddressTaken grpc_endpoint (xr_miner_id x))
      | None =>
          old ← equery (fun d => head (executors_where (fun x => String.eqb (xr_grpc_address x) grpc_endpoint
                                         && String.eqb (xr_miner_id x) miner_id) d));
          _ ← (match old with
               | Some (_, x) => rename_executor miner_id (xr_executor_id x) executor_id
               | None => mret tt
               end);
          s ← sql_now;
          insert_executor true (relationship_id miner_id executor_id) {|
            xr_miner_id := miner_id; xr_executor_id := executor_id; xr_grpc_address := grpc_endpoint;
            xr_gpu_count := 0; xr_gpu_specs := "{}"; xr_cpu_specs := "{}"; xr_location := Some "discovered";
            xr_status := "online"; xr_last_health_check := None; xr_updated_at := Sql s |}
      end
  | _ =>
      duplicates ← equery (fun d => List.filter (fun kv => negb (String.eqb kv.1 (relationship_id miner_id executor_id)))
                             (executors_where (fun x => String.eqb (xr_grpc_address x) grpc_endpoint) d));
      efor duplicates (retire_duplicate miner_id)
  end.

(** ** Results *)

(** [ExecutorVerificationResult], with the GPUs of its executor result. *)
Record VerificationOutcome := {
  vo_executor_id : string;
  vo_grpc_endpoint : string;
  vo_verification_score : f64;
  vo_ssh_connection_successful : bool;
  vo_binary_validation_successful : bool;
  vo_gpu_infos : option (list GpuInfo);
  vo_execution_time_ms : Z;
  vo_validation_type : ValidationType
}.

Definition is_full (t : ValidationType) : bool := match t with Full => true | Lightweight => false end.

Definition outcome_success (r : VerificationOutcome) : bool :=
  vo_ssh_connection_successful r && (negb (is_full (vo_validation_type r)) || vo_binary_validation_successful r).

Definition outcome_error (r : VerificationOutcome) : option string :=
  if negb (vo_ssh_connection_successful r) then Some "SSH connection failed"
  else if is_full (vo_validation_type r) && negb (vo_binary_validation_successful r) then
    Some "Binary validation failed"
  else None.

Definition store_log (r : VerificationOutcome) (created t : Z) : EM unit :=
  id ← einteract e_uuid;
  estatement (fun d =>
    match t_logs d !! id with
    | Some _ => None
    | None => Some (tt, with_logs d (<[id := {|
        lr_executor_id := vo_executor_id r; lr_timestamp := created; lr_score := vo_verification_score r;
        lr_success := outcome_success r; lr_duration_ms := wrap_signed 64 (vo_execution_time_ms r);
        lr_error_message := outcome_error r;
        lr_last_binary_validation :=
          if outcome_success r && vo_binary_validation_successful r then Some (t, vo_verification_score r)
          else None |}]> (t_logs d)))
    end).

Definition new_status (miner_id : string) (r : VerificationOutcome) : EM string :=
  if negb (outcome_success r) then mret "offline"
  else match vo_validation_type r with
       | Full => mret "online"
       | Lightweight =>
           found ← etry (equery (status_of miner_id (vo_executor_id r)));
           mret (match found with Ok (Some s) => s | _ => "verified" end)
       end.

(** The successes of the last three hours, by text as in [after]. *)
Definition recent_successes (miner_id : string) (now : Z) (d : EngineDb) : Z :=
  Z.of_nat (length (mjoin ((fun l => List.filter (fun x => String.eqb (xr_executor_id x) (lr_executor_id l)
                                        && String.eqb (xr_miner_id x) miner_id) (snd <$> map_to_list (t_executors d)))
    <$> List.filter (fun l => lr_success l && after (Rfc (lr_timestamp l)) (now - 3 * 3600)) (snd <$> map_to_list (t_logs d))))).

Section Store.
Context `{HashOrder}.

Definition gpu_map (gpu_counts : list (string * Z * string * f64)) : gmap string Z :=
  fold_left (fun m r => let '(_, count, gpu_name, _) := r in
    entry_add (GpuCategory_to_string (GpuCategory_from_str gpu_name)) count m) gpu_counts ∅.

Definition store_profile (miner_uid : Z) (score : f64) : EM unit :=
  let miner_id := miner_id_of miner_uid in
  gpu_counts ← on_profiles (get_miner_gpu_uuid_assignments miner_id);
  s ← sql_now;
  existing ← etry (equery (recent_successes miner_id s));
  let existing_count := match existing with Ok n => wrap 32 n | Err _ => 0 end in
  t ← rfc_now;
  t' ← rfc_now;
  _ ← etry (on_profiles (upsert_gpu_profile {|
        miner_uid := miner_uid; gpu_counts := gpu_map gpu_counts; total_score := score;
        verification_count := wrap 32 (existing_count + 1); last_updated := t;
        last_successful_validation := Some t' |}));
  mret tt.

Definition store_executor_verification_result_with_miner_info (miner_uid : Z) (r : VerificationOutcome)
    (info : MinerInfo) : EM unit :=
  let miner_id := miner_id_of miner_uid in
  let success := outcome_success r in
  created ← rfc_now;
  t ← rfc_now;
  _ ← store_log r created t;
  status ← new_status miner_id r;
  _ ← etransaction (
        _ ← update_executors (fun _ x => String.eqb (xr_executor_id x) (vo_executor_id r))
              (set_status status (Some (Rfc t)) (Rfc t));
        if success then mret tt
        else _ ← cleanup_gpu_assignments (vo_executor_id r) miner_id; mret tt);
  if negb success then mret tt
  else
    let gpu_infos := default [] (vo_gpu_infos r) in
    match vo_validation_type r with
    | Full =>
        _ ← ensure_miner_executor_relationship miner_uid (vo_executor_id r) (vo_grpc_endpoint r) info;
        _ ← store_gpu_uuid_assignments miner_uid (vo_executor_id r) gpu_infos;
        store_profile miner_uid (vo_verification_score r)
    | Lightweight => update_gpu_assignment_timestamps miner_uid (vo_executor_id r) gpu_infos
    end.

(** ** The clean-up *)

Definition is_offline (x : exec_row) : bool := String.eqb (xr_status x) "offline".

Definition has_gpus (d : EngineDb) (x : exec_row) : bool :=
  existsb (fun g => owned_by (xr_miner_id x) (xr_executor_id x) g) (snd <$> map_to_list (t_gpus d)).

(** [last_health_check < cutoff OR (last_health_check IS NULL AND updated_at < cutoff)]. *)
Definition unhealthy_since (cutoff : Z) (x : exec_row) : bool :=
  match xr_last_health_check x with
  | Some h => before h cutoff
  | None => before (xr_updated_at x) cutoff
  end.

Definition cleanup_row (x : exec_row) : EM unit :=
  _ ← cleanup_gpu_assignments (xr_executor_id x) (xr_miner_id x); mret tt.

(** Steps 1 and 1d: the GPUs of offline executors. *)
Definition cleanup_offline (p : exec_row -> bool) : EM unit :=
  rows ← equery (fun d => snd <$> executors_where (fun x => is_offline x && p x && has_gpus d x) d);
  efor rows cleanup_row.

(** Step 1b: executors that claim GPUs and have none. *)
Definition reset_mismatched (x : exec_row) : EM unit :=
  let here := fun _ => of_executor (xr_miner_id x) (xr_executor_id x) in
  s ← sql_now;
  _ ← update_executors here (fun y => set_gpu_count 0 (xr_status y) (Sql s) y);
  if String.eqb (xr_status x) "online" || String.eqb (xr_status x) "verified" then
    s' ← sql_now;
    update_executors here (fun y => set_status "offline" (xr_last_health_check y) (Sql s') y)
  else mret tt.

Definition cleanup_mismatched : EM unit :=
  rows ← equery (fun d => snd <$> executors_where (fun x => (0 <? xr_gpu_count x) && negb (has_gpus d x)) d);
  efor rows reset_mismatched.

(** Step 1c: GPUs not verified for six hours, or of executors offline for two. *)
Definition cleanup_stale : EM unit :=
  s ← sql_now;
  _ ← delete_gpus (fun d _ g =>
        before (gr_last_verified g) (s - 6 * 3600)
        || existsb (fun x => of_executor (gr_miner_id g) (gr_executor_id g) x && is_offline x
                             && unhealthy_since (s - 2 * 3600) x) (snd <$> map_to_list (t_executors d)));
  mret tt.

(** Step 2: the recent verifications of an executor, latest first; the last
    [threshold] of them failed. *)
Definition recent_logs (executor_id : string) (cutoff : Z) (d : EngineDb) : list vlog_row :=
  sort_by (fun a b => lr_timestamp b <=? lr_timestamp a)
    (List.filter (fun l => String.eqb (lr_executor_id l) executor_id && after (Rfc (lr_timestamp l)) cutoff)
       (snd <$> map_to_list (t_logs d))).

Definition keeps_failing (threshold : Z) (cutoff : Z) (d : EngineDb) (x : exec_row) : bool :=
  let last := take (Z.to_nat threshold) (recent_logs (xr_executor_id x) cutoff d) in
  (threshold <=? Z.of_nat (length (List.filter (fun l => negb (lr_success l)) last)))
  && forallb (fun l => negb (lr_success l)) last.

Definition release_session (executor_id : string) : EM unit := fun _ w =>
  (Ok tt, {| edb := edb w; sessions := sessions w ∖ {[executor_id]}; esteps := esteps w |}).

Definition delete_executor (x : exec_row) : EM unit :=
  _ ← etransaction (
        _ ← cleanup_gpu_assignments (xr_executor_id x) (xr_miner_id x);
        eupdate (fun d => with_executors d
          (filter (fun kv => of_executor (xr_miner_id x) (xr_executor_id x) kv.2 = false) (t_executors d))));
  release_session (xr_executor_id x).

Definition delete_failing (threshold : Z) : EM unit :=
  s ← sql_now;
  rows ← equery (fun d => snd <$> executors_where (fun x => is_offline x && keeps_failing threshold (s - 3600) d x) d);
  efor rows delete_executor.

(** Step 3. *)
Definition delete_stale_offline (cleanup_minutes : Z) : EM unit :=
  s ← sql_now;
  eupdate (fun d => with_executors d
    (filter (fun kv => is_offline kv.2 && unhealthy_since (s - cleanup_minutes * 60) kv.2 = false) (t_executors d))).

(** Step 4: the profiles of miners with offline executors or without active ones. *)
Definition affected_miners (d : EngineDb) : list Z :=
  fst <$> List.filter (fun kv =>
    existsb (fun x => is_offline x && (cast_integer (String.substring 6 (String.length (xr_miner_id x)) (xr_miner_id x)) =? kv.1))
      (snd <$> map_to_list (t_executors d))
    || (negb (is_empty (mp_gpu_counts kv.2))
        && negb (existsb (fun x => String.eqb (xr_miner_id x) (miner_id_of kv.1) && negb (inactive (xr_status x)))
                   (snd <$> map_to_list (t_executors d)))))
    (map_to_list (t_profiles d)).

Definition refresh_profile (uid : Z) : EM unit :=
  gpu_counts ← on_profiles (get_miner_gpu_uuid_assignments (miner_id_of uid));
  let counts := gpu_map gpu_counts in
  s ← sql_now;
  eupdate (fun d => with_eprofiles d (alter (fun p =>
    if is_empty counts then {|
      mp_gpu_counts := counts; mp_total_score := f64_zero; mp_verification_count := 0;
      mp_last_updated := s * nanos_per_sec; mp_last_successful_validation := None |}
    else {|
      mp_gpu_counts := counts; mp_total_score := mp_total_score p; mp_verification_count := mp_verification_count p;
      mp_last_updated := s * nanos_per_sec; mp_last_successful_validation := mp_last_successful_validation p |})
    uid (t_profiles d))).

(** [gpu_assignment_cleanup_ttl] in seconds. *)
Definition cleanup_minutes (ttl : option Z) : Z :=
  Z.max (match ttl with Some secs => secs / 60 | None => 120 end) 120.

Definition cleanup_failed_executors_after_failures (ttl : option Z) (threshold : Z) : EM unit :=
  _ ← cleanup_offline (fun _ => true);
  _ ← cleanup_mismatched;
  _ ← cleanup_stale;
  s ← sql_now;
  _ ← cleanup_offline (unhealthy_since (s - cleanup_minutes ttl * 60));
  _ ← delete_failing threshold;
  _ ← delete_stale_offline (cleanup_minutes ttl);
  miners ← equery affected_miners;
  efor miners refresh_profile.
End Store.
