(* ===== verification/EngineClaims.v ===== *)
(** * GPU assignments are safe

    The rules of a small program logic for the engine's effects, and with it: the GPUs of
    an active executor are not touched by the results of others, whatever fails; a full
    validation takes exactly the GPUs it may; and the clean-up leaves no GPU with an
    offline executor. *)

From stdpp Require Import base gmap strings list.
From Stdlib Require Import ZArith.
From S2P Require Import Prelude.
From S2P Require Import Text.
From S2P Require Import Float64.
From S2P Require Import Signatures.
From S2P Require Import Collections.
From S2P Require Import Categories.
From S2P Require Import WeightAllocation.
From S2P Require Import ValidatorWorld.
From S2P Require Import ProfileRepo.
From S2P Require Import ValidationQueue.
From S2P Require Import VerificationStore.
Local Open Scope Z_scope.

(** ** Rules

    [spec env P m Q]: from tables with [P], [m] leaves a result and tables with [Q] in the
    environment [env], however its statements end there. *)

Section Rules.
Context (env : EEnv).

Definition spec {A} (P : EngineDb -> Prop) (m : EM A) (Q : result EError A -> EngineDb -> Prop) : Prop :=
  forall w, P (edb w) -> Q (m env w).1 (edb (m env w).2).

Definition keeps (P : EngineDb -> Prop) {A} (m : EM A) : Prop := spec P m (fun _ => P).

Lemma spec_bind {A B} P R Q (m : EM A) (k : A -> EM B) :
  spec P m (fun r d => match r with Ok a => R a d | Err e => Q (Err e) d end) ->
  (forall a, spec (R a) (k a) Q) -> spec P (m ≫= k) Q.
Proof.
  intros Hm Hk w Hw. specialize (Hm w Hw). unfold mbind, EM_bind.
  destruct (m env w) as [[a|e] w']; [by apply Hk|done].
Qed.

Lemma spec_query {A} P (f : EngineDb -> A) :
  spec P (equery f) (fun r d => P d /\ forall a, r = Ok a -> a = f d).
Proof.
  intros w Hw. unfold equery, estatement, einteract, mbind, EM_bind.
  destruct (e_sql_fails env (esteps w)); cbn; [by split|]. split; [done|]. by intros a [=].
Qed.

(** The value read is a function of the tables the rest starts from. *)
Lemma spec_query_bind {A B} P Q (f : EngineDb -> A) (k : A -> EM B) :
  (forall d, P d -> forall e, Q (Err e) d) ->
  (forall a, spec (fun d => P d /\ f d = a) (k a) Q) -> spec P (equery f ≫= k) Q.
Proof.
  intros Hf Hk. eapply (spec_bind _ (fun a d => P d /\ f d = a)); [|done].
  intros w Hw. destruct (spec_query P f w Hw) as [Hp Ha].
  destruct (equery f env w) as [[a|e] w']; cbn in *; [|by apply Hf].
  split; [done|]. symmetry. by apply Ha.
Qed.

Lemma kept_bind {A B} P (m : EM A) (k : A -> EM B) : keeps P m -> (forall a, keeps P (k a)) -> keeps P (m ≫= k).
Proof. intros Hm Hk. apply (spec_bind _ (fun _ => P)); [|done]. intros w Hw. specialize (Hm w Hw). by case_match. Qed.

Lemma keeps_query_bind {A B} P (f : EngineDb -> A) (k : A -> EM B) :
  (forall d, P d -> keeps P (k (f d))) -> keeps P (equery f ≫= k).
Proof.
  intros Hk. apply spec_query_bind; [done|]. intros a w [Hw <-]. by apply (Hk (edb w)).
Qed.

Lemma kept_ret {A} P (a : A) : keeps P (mret a).
Proof. by intros w Hw. Qed.
Lemma keeps_fail {A} P e : keeps P (efail e : EM A).
Proof. by intros w Hw. Qed.
Lemma keeps_interact {A} P (f : EEnv -> nat -> A) : keeps P (einteract f).
Proof. by intros w Hw. Qed.
Lemma kept_query {A} P (f : EngineDb -> A) : keeps P (equery f).
Proof. intros w Hw. by apply spec_query. Qed.

Lemma kept_statement {A} (P : EngineDb -> Prop) (f : EngineDb -> option (A * EngineDb)) :
  (forall d a d', P d -> f d = Some (a, d') -> P d') -> keeps P (estatement f).
Proof.
  intros Hf w Hw. unfold estatement, einteract, mbind, EM_bind.
  destruct (e_sql_fails env (esteps w)); cbn; [done|].
  destruct (f (edb w)) as [[a d']|] eqn:E; cbn; [by eapply Hf|done].
Qed.

Lemma keeps_update (P : EngineDb -> Prop) f : (forall d, P d -> P (f d)) -> keeps P (eupdate f).
Proof. intros Hf. apply kept_statement. intros d a d' Hd [= _ <-]. auto. Qed.

Lemma keeps_try {A} P (m : EM A) : keeps P m -> keeps P (etry m).
Proof. intros Hm w Hw. specialize (Hm w Hw). unfold etry. destruct (m env w) as [[|[]] w']; done. Qed.

Lemma kept_transaction {A} P (m : EM A) : keeps P m -> keeps P (etransaction m).
Proof.
  intros Hm w Hw. unfold etransaction.
  assert (keeps P (begin_commit m)) as Hk.
  { unfold begin_commit. repeat (apply kept_bind; [by auto using kept_query|intros ?]). apply kept_ret. }
  specialize (Hk w Hw). by destruct (begin_commit m env w) as [[a|e] w'].
Qed.

Lemma keeps_for {A} P (l : list A) (f : A -> EM unit) : (forall x, x ∈ l -> keeps P (f x)) -> keeps P (efor l f).
Proof.
  induction l as [|x l IH]; intros Hf; cbn [efor]; [apply kept_ret|].
  apply kept_bind; [apply Hf; by left|]. intros _. apply IH. intros y Hy. apply Hf. by right.
Qed.

Lemma keeps_on_profiles {A} (P : EngineDb -> Prop) (m : VM A) :
  (forall d p, P d -> P (with_eprofiles d p)) -> keeps P (on_profiles m).
Proof. intros HP w Hw. unfold on_profiles. case_match. cbn. by apply HP. Qed.

(** The value of an interaction is one of the environment's. *)
Lemma keeps_interact_bind {A B} P (f : EEnv -> nat -> A) (k : A -> EM B) :
  (forall n, keeps P (k (f env n))) -> keeps P (einteract f ≫= k).
Proof. intros Hk w Hw. by apply (Hk (esteps w) {| edb := edb w; sessions := sessions w; esteps := S (esteps w) |}). Qed.

Lemma spec_for {A} (I : list A -> EngineDb -> Prop) (l : list A) (f : A -> EM unit) :
  (forall x rest, spec (I (x :: rest)) (f x) (fun r d => match r with Ok _ => I rest d | Err _ => True end)) ->
  spec (I l) (efor l f) (fun r d => r = Ok tt -> I [] d).
Proof.
  intros Hf. induction l as [|x l IH]; cbn [efor]; [by intros w Hw|].
  apply (spec_bind _ (fun _ => I l)); [|done]. intros w Hw. specialize (Hf x l w Hw). by case_match.
Qed.
End Rules.

(** Split a program into its statements. *)
Ltac keep :=
  repeat match goal with
  | |- keeps _ _ (mret _) => apply kept_ret
  | |- keeps _ _ (efail _) => apply keeps_fail
  | |- keeps _ _ (equery _) => apply kept_query
  | |- keeps _ _ (einteract _) => apply keeps_interact
  | |- keeps _ _ rfc_now => apply keeps_interact
  | |- keeps _ _ sql_now => apply keeps_interact
  | |- keeps _ _ (etransaction _) => apply kept_transaction
  | |- keeps _ _ (etry _) => apply keeps_try
  | |- keeps _ _ (_ ≫= _) => apply kept_bind; [|intros ?]
  end.

(** ** The GPUs of others

    A row [r] for GPU [u], whose executor is registered and active behind another
    address, of a miner with another hotkey. *)

Section Guarded.
Context (env : EEnv) (miner_id executor_id endpoint hotkey u : string) (r : gpu_row).
Context (Hm : gr_miner_id r <> miner_id) (He : gr_executor_id r <> executor_id).

Definition is_owner : exec_row -> bool := of_executor (gr_miner_id r) (gr_executor_id r).

Record guarded (d : EngineDb) : Prop := {
  gu_row : t_gpus d !! u = Some r;
  gu_exists : exists id x, t_executors d !! id = Some x /\ is_owner x = true;
  gu_active : forall id x, t_executors d !! id = Some x -> is_owner x = true ->
    inactive (xr_status x) = false /\ xr_grpc_address x <> endpoint;
  gu_miner : exists mr, t_miners d !! gr_miner_id r = Some mr /\ mr_hotkey mr <> hotkey
}.

Lemma not_mine : owned_by miner_id executor_id r = false.
Proof using Hm. unfold owned_by. by rewrite (proj2 (String.eqb_neq _ _) Hm). Qed.

Lemma not_my_miner other : owned_by miner_id other r = false.
Proof using Hm. unfold owned_by. by rewrite (proj2 (String.eqb_neq _ _) Hm). Qed.

Lemma is_owner_eq x : is_owner x = true <-> xr_miner_id x = gr_miner_id r /\ xr_executor_id x = gr_executor_id r.
Proof. unfold is_owner, of_executor. by rewrite andb_true_iff, !String.eqb_eq. Qed.

Lemma guarded_gpus d g : guarded d -> g !! u = Some r -> guarded (with_gpus d g).
Proof. intros [] Hg. by constructor. Qed.

Lemma guarded_logs d l : guarded d -> guarded (with_logs d l).
Proof. intros []. by constructor. Qed.

Lemma guarded_profiles d p : guarded d -> guarded (with_eprofiles d p).
Proof. intros []. by constructor. Qed.

Lemma guarded_miners d m :
  guarded d -> m !! gr_miner_id r = t_miners d !! gr_miner_id r -> guarded (with_miners d m).
Proof. intros [] E. constructor; cbn; try done. by rewrite E. Qed.

Lemma guarded_executors d xs :
  guarded d -> (forall id x, t_executors d !! id = Some x -> is_owner x = true -> xs !! id = Some x) ->
  (forall id x, xs !! id = Some x -> is_owner x = true -> t_executors d !! id = Some x) ->
  guarded (with_executors d xs).
Proof.
  intros [Hr (id & x & Hx & Ho) Ha Hmi] Hto Hfrom. constructor; cbn; try done.
  - exists id, x. eauto.
  - intros id' x' Hx' Ho'. eauto.
Qed.

Lemma guarded_filter_executors d (P : string * exec_row -> Prop) `{!forall x, Decision (P x)} :
  guarded d -> (forall id x, is_owner x = true -> P (id, x)) ->
  guarded (with_executors d (filter P (t_executors d))).
Proof.
  intros Hd HP. apply guarded_executors; [done| |].
  - intros id x Hx Ho. apply map_lookup_filter_Some. eauto.
  - by intros id x [Hx _]%map_lookup_filter_Some.
Qed.

Lemma guarded_insert_executor d id x :
  guarded d -> t_executors d !! id = None -> is_owner x = false ->
  guarded (with_executors d (<[id := x]> (t_executors d))).
Proof.
  intros Hd Hid Ho. apply guarded_executors; [done| |].
  - intros id' x' Hx' Ho'. rewrite lookup_insert_ne; [done|]. congruence.
  - intros id' x' [[<- <-]|[_ Hx']]%lookup_insert_Some; congruence.
Qed.

Lemma keeps_update_executors p f :
  (forall d id x, guarded d -> t_executors d !! id = Some x -> is_owner x = true -> p id x = false) ->
  (forall x, is_owner (f x) = is_owner x) -> keeps env guarded (update_executors p f).
Proof.
  intros Hp Hf. apply keeps_update. intros d Hd. apply guarded_executors; [done| |].
  - intros id x Hx Ho. rewrite map_lookup_imap, Hx. cbn. by rewrite (Hp d id x).
  - intros id x'. rewrite map_lookup_imap. destruct (t_executors d !! id) as [x|] eqn:Hx; [|done]. cbn.
    intros [= <-] Ho. destruct (p id x) eqn:E; [|done].
    rewrite Hf in Ho. by rewrite (Hp d id x Hd Hx Ho) in E.
Qed.

Lemma keeps_delete_gpus p : (forall d, guarded d -> p d u r = false) -> keeps env guarded (delete_gpus p).
Proof.
  intros Hp. apply kept_statement. intros d a d' Hd [= _ <-]. apply guarded_gpus; [done|].
  apply map_lookup_filter_Some. split; [apply (gu_row _ Hd)|]. by apply Hp.
Qed.

Lemma keeps_cleanup other : keeps env guarded (cleanup_gpu_assignments other miner_id).
Proof using Hm. apply keeps_delete_gpus. intros. apply not_my_miner. Qed.

(** The owner of the GPU is found active. *)
Lemma guarded_status d : guarded d ->
  exists s, status_of (gr_miner_id r) (gr_executor_id r) d = Some s /\ inactive s = false.
Proof.
  intros Hd. destruct (gu_exists _ Hd) as (id & x & Hx & Ho). unfold status_of, executors_where.
  assert (In (id, x) (List.filter (fun kv => is_owner kv.2) (map_to_list (t_executors d)))) as Hin.
  { apply filter_In. split; [|done]. by apply list_elem_of_In, elem_of_map_to_list. }
  unfold is_owner in *. destruct (List.filter _ _) as [|[id' x'] l] eqn:E; [done|]. cbn. eexists. split; [done|].
  assert (In (id', x') ((id', x') :: l)) as Hin' by by left.
  rewrite <- E in Hin'. apply filter_In in Hin' as [Hin' Ho']. apply list_elem_of_In, elem_of_map_to_list in Hin'.
  by apply (gu_active _ Hd id' x').
Qed.

Lemma keeps_store_gpu t g : keeps env guarded (store_gpu miner_id executor_id t g).
Proof using Hm.
  unfold store_gpu. apply keeps_query_bind. intros d Hd.
  assert (forall g', keeps env guarded (eupdate (fun d => with_gpus d (alter g' (gi_gpu_uuid g) (t_gpus d)))) \/ gi_gpu_uuid g = u)
    as Halter.
  { intros g'. destruct (decide (gi_gpu_uuid g = u)) as [|Hne]; [by right|]. left.
    apply keeps_update. intros d' Hd'. apply guarded_gpus; [done|].
    rewrite lookup_alter_ne by done. apply (gu_row _ Hd'). }
  destruct (t_gpus d !! gi_gpu_uuid g) as [row|] eqn:Hrow.
  - destruct (owned_by miner_id executor_id row) eqn:Hown; cbn [negb].
    + destruct (Halter (fun r => {| gr_gpu_index := gr_gpu_index r; gr_executor_id := gr_executor_id r;
        gr_miner_id := gr_miner_id r; gr_gpu_name := gr_gpu_name r;
        gr_gpu_memory_gb := Some (gi_gpu_memory_gb g); gr_last_verified := Rfc t |})) as [Hk|Hu]; [done|].
      rewrite Hu, (gu_row _ Hd) in Hrow. injection Hrow as <-. by rewrite not_mine in Hown.
    + apply keeps_query_bind. intros d' Hd'.
      destruct (match status_of _ _ _ with Some s => _ | None => _ end) eqn:Hst; [|apply kept_ret].
      destruct (Halter (fun _ => gpu_row_of miner_id executor_id g t)) as [Hk|Hu]; [done|].
      rewrite Hu, (gu_row _ Hd) in Hrow. injection Hrow as <-.
      destruct (guarded_status d' Hd') as (s & Hs & Hin). rewrite Hs in Hst. congruence.
  - apply kept_statement. intros d' a d'' Hd'. destruct (t_gpus d' !! gi_gpu_uuid g) eqn:E; [done|].
    intros [= _ <-]. apply guarded_gpus; [done|]. rewrite lookup_insert_ne; [apply (gu_row _ Hd')|].
    intros Hu. by rewrite Hu, (gu_row _ Hd') in E.
Qed.

Lemma keeps_store_gpu_uuid_assignments uid gpus :
  miner_id = miner_id_of uid -> keeps env guarded (store_gpu_uuid_assignments uid executor_id gpus).
Proof using Hm He.
  intros Hid. unfold store_gpu_uuid_assignments. rewrite <- Hid. keep.
  - destruct (reported_uuids gpus); [apply keeps_cleanup|]. apply keeps_delete_gpus. intros.
    by rewrite not_mine.
  - apply keeps_for. intros g _. apply keeps_store_gpu.
  - case_match; keep; [|case_match; keep]. apply keeps_update_executors; [|done].
    intros d id x Hd Hx Ho. apply is_owner_eq in Ho as [Ho1 Ho2]. unfold of_executor.
    rewrite Ho1. by rewrite (proj2 (String.eqb_neq _ _) Hm).
Qed.

Lemma keeps_update_timestamps uid gpus :
  miner_id = miner_id_of uid -> keeps env guarded (update_gpu_assignment_timestamps uid executor_id gpus).
Proof using Hm.
  intros Hid. unfold update_gpu_assignment_timestamps. rewrite <- Hid. keep.
  destruct (reported_uuids gpus); [apply kept_ret|]. apply keeps_update. intros d Hd.
  apply guarded_gpus; [done|]. by rewrite map_lookup_imap, (gu_row _ Hd); cbn; rewrite not_mine.
Qed.

(** *** Miners *)

Lemma keeps_update_miner f : keeps env guarded (update_miner miner_id f).
Proof using Hm.
  apply kept_statement. intros d a d' Hd. destruct (t_miners d !! miner_id); [|by intros [= _ <-]].
  case_match; [done|]. intros [= _ <-]. apply guarded_miners; [done|]. by apply lookup_insert_ne.
Qed.

Lemma keeps_insert_miner row : keeps env guarded (insert_miner miner_id row).
Proof using Hm.
  apply kept_statement. intros d a d' Hd. destruct (t_miners d !! miner_id); [done|].
  destruct (miner_with_hotkey _ _); [|done]. intros [= _ <-]. apply guarded_miners; [done|]. by apply lookup_insert_ne.
Qed.

Lemma keeps_insert_executor b id x :
  xr_miner_id x = miner_id -> keeps env guarded (insert_executor b id x).
Proof using Hm.
  intros Hx. apply kept_statement. intros d a d' Hd. destruct (t_executors d !! id) eqn:Hid.
  - destruct b; [|done]. by intros [= _ <-].
  - destruct (t_miners d !! xr_miner_id x); [|done]. intros [= _ <-]. apply guarded_insert_executor; [done|done|].
    destruct (is_owner x) eqn:Ho; [|done]. apply is_owner_eq in Ho as [Ho _]. congruence.
Qed.

(** A miner with the hotkey of the result is not the owner. *)
Lemma guarded_other_miner d id : guarded d -> id ∈ miner_with_hotkey hotkey d -> gr_miner_id r <> id.
Proof.
  intros Hd Hin E. destruct (gu_miner _ Hd) as (mr & Hmr & Hhk). apply Hhk.
  unfold miner_with_hotkey in Hin. apply list_elem_of_fmap in Hin as ([id' mr'] & -> & Hin).
  apply list_elem_of_In, filter_In in Hin as [Hin Heq]. apply list_elem_of_In, elem_of_map_to_list in Hin.
  cbn in *. apply String.eqb_eq in Heq. congruence.
Qed.

Lemma keeps_migrate_miner_uid old info :
  gr_miner_id r <> old -> mi_hotkey info = hotkey -> keeps env guarded (migrate_miner_uid old miner_id info).
Proof using Hm.
  intros Hold Hhk. unfold migrate_miner_uid. keep. case_match; keep.
  - case_match; keep. case_match; keep.
  - unfold delete_miner. apply keeps_update. intros d Hd.
    apply (guarded_filter_executors (with_miners d (delete old (t_miners d)))).
    + apply guarded_miners; [done|]. by apply lookup_delete_ne.
    + intros id x [Ho _]%is_owner_eq. cbn. congruence.
  - case_match; keep. apply keeps_insert_miner.
  - apply keeps_for. intros x _. unfold migrate_executor. keep. case_match; keep. by apply keeps_insert_executor.
  - apply keeps_update. intros d Hd. apply guarded_gpus; [done|].
    by rewrite lookup_fmap, (gu_row _ Hd); cbn; rewrite (proj2 (String.eqb_neq _ _) Hold).
Qed.

Lemma keeps_ensure_miner info :
  miner_id = miner_id_of (mi_uid info) -> mi_hotkey info = hotkey -> keeps env guarded (ensure_miner_exists_with_info info).
Proof using Hm.
  intros Hid Hhk. unfold ensure_miner_exists_with_info. rewrite <- Hid. keep. case_match.
  { unfold handle_recycled_miner_uid. apply keeps_update_miner. }
  apply keeps_query_bind. intros d Hd. destruct (head _) as [old|] eqn:Eh.
  - apply keeps_migrate_miner_uid; [|done]. eapply guarded_other_miner; [done|].
    rewrite <- Hhk. by apply head_Some_elem_of.
  - unfold create_new_miner. keep. apply keeps_insert_miner.
Qed.

(** *** The relationship *)

(** The rows to retire are behind the address of the result. *)
Definition behind_endpoint (dups : list (string * exec_row)) (d : EngineDb) : Prop :=
  forall dup x, dup ∈ dups -> t_executors d !! dup.1 = Some x -> xr_grpc_address x = endpoint.

Lemma keeps_retire_duplicate dups dup :
  dup ∈ dups -> keeps env (fun d => guarded d /\ behind_endpoint dups d) (retire_duplicate miner_id dup).
Proof using Hm.
  intros Hin. unfold retire_duplicate. keep.
  - apply keeps_update. intros d [Hd Hb]. split.
    + apply guarded_executors; [done| |].
      * intros id x Hx Ho. rewrite map_lookup_imap, Hx. cbn. destruct (String.eqb id dup.1) eqn:E; [|done].
        apply String.eqb_eq in E as ->. apply (Hb _ _ Hin) in Hx as Hg. by destruct (gu_active _ Hd _ _ Hx Ho).
      * intros id x'. rewrite map_lookup_imap. destruct (t_executors d !! id) as [x|] eqn:Hx; [|done]. cbn.
        intros [= <-] Ho. destruct (String.eqb id dup.1) eqn:E; [|done]. apply String.eqb_eq in E as ->.
        apply (Hb _ _ Hin) in Hx as Hg. by destruct (gu_active _ Hd _ _ Hx Ho).
    + intros dup' x' Hin'. cbn. rewrite map_lookup_imap. destruct (t_executors d !! dup'.1) as [x|] eqn:Hx; [|done]. cbn.
      intros [= <-]. specialize (Hb _ _ Hin' Hx). by case_match.
  - intros w [Hd Hb]. split; [by apply keeps_cleanup|].
    enough (keeps env (behind_endpoint dups) (cleanup_gpu_assignments (xr_executor_id dup.2) miner_id)) as Hk
      by by apply Hk.
    apply kept_statement. by intros d n d' Hd' [= _ <-].
Qed.

Lemma keeps_relationship uid info :
  miner_id = miner_id_of uid -> mi_uid info = uid -> mi_hotkey info = hotkey ->
  keeps env guarded (ensure_miner_executor_relationship uid executor_id endpoint info).
Proof using Hm He.
  intros Hid Huid Hhk. unfold ensure_miner_executor_relationship. rewrite <- Hid. keep.
  { apply keeps_ensure_miner; congruence. }
  case_match.
  - keep. repeat (case_match; keep); try by apply keeps_insert_executor.
    unfold rename_executor. keep.
    + apply keeps_update. intros d Hd. apply guarded_gpus; [done|].
      by rewrite lookup_fmap, (gu_row _ Hd); cbn; rewrite not_my_miner.
    + apply keeps_update. intros d Hd. apply guarded_filter_executors; [done|].
      intros id x [Ho _]%is_owner_eq. cbn. unfold of_executor. rewrite Ho.
      by rewrite (proj2 (String.eqb_neq _ _) Hm).
  - apply spec_query_bind; [done|]. intros dups w [Hw Hd].
    enough (keeps env (fun d => guarded d /\ behind_endpoint dups d) (efor dups (retire_duplicate miner_id))) as Hk.
    { apply Hk. split; [done|]. subst dups. intros dup x Hin Hx.
      apply list_elem_of_In, filter_In in Hin as [Hin _]. unfold executors_where in Hin.
      apply filter_In in Hin as [Hin Hg]. apply list_elem_of_In in Hin. destruct dup as [id x'].
      apply elem_of_map_to_list in Hin. cbn in *. apply String.eqb_eq in Hg. congruence. }
    apply keeps_for. intros dup Hin. by apply keeps_retire_duplicate.
Qed.

Lemma keeps_store_result `{HashOrder} uid out info :
  miner_id = miner_id_of uid -> mi_uid info = uid -> mi_hotkey info = hotkey ->
  vo_executor_id out = executor_id -> vo_grpc_endpoint out = endpoint ->
  keeps env guarded (store_executor_verification_result_with_miner_info uid out info).
Proof using Hm He.
  intros Hid Huid Hhk Hex Hep. unfold store_executor_verification_result_with_miner_info.
  rewrite <- Hid, Hex. keep.
  - unfold store_log. keep. apply kept_statement. intros d a' d' Hd. case_match; [done|].
    intros [= _ <-]. by apply guarded_logs.
  - unfold new_status. case_match; keep. case_match; keep.
  - apply keeps_update_executors; [|done]. intros d id x Hd Hx [_ Ho]%is_owner_eq.
    rewrite Ho. by apply String.eqb_neq.
  - case_match; keep. apply keeps_cleanup.
  - case_match; keep. case_match; keep.
    + rewrite Hep. by apply keeps_relationship.
    + by apply keeps_store_gpu_uuid_assignments.
    + unfold store_profile. keep; apply keeps_on_profiles; intros; by apply guarded_profiles.
    + by apply keeps_update_timestamps.
Qed.
End Guarded.

(** C8: the GPUs of an active executor are safe from others.  Storing the result of a
    verification, of either kind, successful or not, and whatever statements fail on the
    way, leaves the assignment of a GPU as it is if its executor is another one, of
    another miner with another hotkey, registered behind another address, and not
    offline, failed or stale: nothing an executor reports makes the validator take such a
    GPU away. *)
Theorem active_gpus_are_safe `{HashOrder} uid out info env w u r :
  mi_uid info = uid ->
  t_gpus (edb w) !! u = Some r ->
  gr_miner_id r <> miner_id_of uid -> gr_executor_id r <> vo_executor_id out ->
  (exists id x, t_executors (edb w) !! id = Some x /\ of_executor (gr_miner_id r) (gr_executor_id r) x = true) ->
  (forall id x, t_executors (edb w) !! id = Some x -> of_executor (gr_miner_id r) (gr_executor_id r) x = true ->
    inactive (xr_status x) = false /\ xr_grpc_address x <> vo_grpc_endpoint out) ->
  (exists mr, t_miners (edb w) !! gr_miner_id r = Some mr /\ mr_hotkey mr <> mi_hotkey info) ->
  t_gpus (edb (store_executor_verification_result_with_miner_info uid out info env w).2) !! u = Some r.
Proof.
  intros Huid Hr Hm He Hex Hact Hmi. apply (gu_row (vo_grpc_endpoint out) (mi_hotkey info)).
  by apply (keeps_store_result env (miner_id_of uid) (vo_executor_id out)).
Qed.

(** ** A full validation without lost statements *)

Section NoFaults.
Context (env : EEnv) (Hsql : forall n, e_sql_fails env n = false).

(** [ends m d Q]: from tables [d] the program ends in a result and tables with [Q]. *)
Definition ends {A} (m : EM A) (d : EngineDb) (Q : result EError A -> EngineDb -> Prop) : Prop :=
  forall s n, exists r d' s' n',
    m env {| edb := d; sessions := s; esteps := n |} = (r, {| edb := d'; sessions := s'; esteps := n' |}) /\ Q r d'.

Lemma ends_bind {A B} (m : EM A) (k : A -> EM B) d R Q :
  ends m d (fun r d' => match r with Ok a => R a d' | Err _ => False end) ->
  (forall a d', R a d' -> ends (k a) d' Q) -> ends (m ≫= k) d Q.
Proof.
  intros Hm Hk s n. destruct (Hm s n) as ([a|e] & d' & s' & n' & E & Hr); [|done].
  destruct (Hk a d' Hr s' n') as (r & d'' & s'' & n'' & E' & Hq).
  exists r, d'', s'', n''. split; [|done]. unfold mbind, EM_bind. by rewrite E.
Qed.

Lemma ends_ret {A} (a : A) d (Q : result EError A -> EngineDb -> Prop) : Q (Ok a) d -> ends (mret a) d Q.
Proof. intros Hq s n. by exists (Ok a), d, s, n. Qed.
Lemma ends_fail {A} e d (Q : result EError A -> EngineDb -> Prop) : Q (Err e) d -> ends (efail e) d Q.
Proof. intros Hq s n. by exists (Err e), d, s, n. Qed.
Lemma ends_interact {A} (f : EEnv -> nat -> A) d (Q : result EError A -> EngineDb -> Prop) :
  (forall a, Q (Ok a) d) -> ends (einteract f) d Q.
Proof. intros Hq s n. eexists _, _, _, _. split; [reflexivity|]. apply Hq. Qed.

Lemma ends_statement {A} (f : EngineDb -> option (A * EngineDb)) d a d' (Q : result EError A -> EngineDb -> Prop) :
  f d = Some (a, d') -> Q (Ok a) d' -> ends (estatement f) d Q.
Proof using Hsql.
  intros Hf Hq s n. exists (Ok a), d', s, (S n). split; [|done].
  unfold estatement, einteract, mbind, EM_bind. cbn. rewrite Hsql. cbn. by rewrite Hf.
Qed.

Lemma ends_query {A} (f : EngineDb -> A) d (Q : result EError A -> EngineDb -> Prop) :
  Q (Ok (f d)) d -> ends (equery f) d Q.
Proof using Hsql. intros Hq. by eapply ends_statement. Qed.
Lemma ends_update f d (Q : result EError unit -> EngineDb -> Prop) : Q (Ok tt) (f d) -> ends (eupdate f) d Q.
Proof using Hsql. intros Hq. by eapply ends_statement. Qed.

Lemma ends_for {A} (l : list A) (f : A -> EM unit) (g : A -> EngineDb -> EngineDb) :
  (forall x d, x ∈ l -> ends (f x) d (fun r d' => r = Ok tt /\ d' = g x d)) ->
  forall d, ends (efor l f) d (fun r d' => r = Ok tt /\ d' = foldl (fun d x => g x d) d l).
Proof.
  induction l as [|x l IH]; intros Hf d; cbn [efor foldl]; [by apply ends_ret|].
  eapply (ends_bind _ _ _ (fun _ d' => d' = g x d)).
  - intros s n. destruct (Hf x d ltac:(by left) s n) as (r & d' & s' & n' & E & -> & Hd).
    by exists (Ok tt), d', s', n'.
  - intros [] d' ->. apply IH. intros y d'' Hy. apply Hf. by right.
Qed.

Context (miner_id executor_id : string).

(** The claimant may take a GPU that nobody has, that it has, or whose executor is gone
    or inactive. *)
Definition may_take (d : EngineDb) (u : string) : bool :=
  match t_gpus d !! u with
  | None => true
  | Some row =>
      owned_by miner_id executor_id row
      || match status_of (gr_miner_id row) (gr_executor_id row) d with Some s => inactive s | None => true end
  end.

Definition owns (d : EngineDb) (u : string) : Prop :=
  exists row, t_gpus d !! u = Some row /\ owned_by miner_id executor_id row = true.

(** What [store_gpu] does to the tables. *)
Definition stored_gpu (t : Z) (g : GpuInfo) (d : EngineDb) : EngineDb :=
  match t_gpus d !! gi_gpu_uuid g with
  | Some row =>
      if owned_by miner_id executor_id row then
        with_gpus d (alter (fun r => {|
          gr_gpu_index := gr_gpu_index r; gr_executor_id := gr_executor_id r; gr_miner_id := gr_miner_id r;
          gr_gpu_name := gr_gpu_name r; gr_gpu_memory_gb := Some (gi_gpu_memory_gb g);
          gr_last_verified := Rfc t |}) (gi_gpu_uuid g) (t_gpus d))
      else if may_take d (gi_gpu_uuid g) then
        with_gpus d (alter (fun _ => gpu_row_of miner_id executor_id g t) (gi_gpu_uuid g) (t_gpus d))
      else d
  | None => with_gpus d (<[gi_gpu_uuid g := gpu_row_of miner_id executor_id g t]> (t_gpus d))
  end.

Lemma ends_store_gpu t g d :
  ends (store_gpu miner_id executor_id t g) d (fun r d' => r = Ok tt /\ d' = stored_gpu t g d).
Proof using Hsql.
  unfold store_gpu, stored_gpu, may_take. eapply (ends_bind _ _ _ (fun a d' => d' = d /\ a = t_gpus d !! gi_gpu_uuid g)).
  { by apply ends_query. }
  intros a d' [-> ->]. destruct (t_gpus d !! gi_gpu_uuid g) as [row|] eqn:Hrow.
  - destruct (owned_by miner_id executor_id row); cbn [negb orb]; [by apply ends_update|].
    eapply (ends_bind _ _ _ (fun a d' => d' = d /\ a = status_of (gr_miner_id row) (gr_executor_id row) d)).
    { by apply ends_query. }
    intros a d' [-> ->]. destruct (match status_of _ _ _ with Some s => _ | None => _ end);
      [by apply ends_update|by apply ends_ret].
  - eapply ends_statement; [by rewrite Hrow|done].
Qed.

Lemma stored_gpu_executors t g d : t_executors (stored_gpu t g d) = t_executors d.
Proof. unfold stored_gpu. by repeat case_match. Qed.

Lemma owned_gpu_row_of g t : owned_by miner_id executor_id (gpu_row_of miner_id executor_id g t) = true.
Proof. unfold owned_by. cbn. by rewrite !String.eqb_refl. Qed.

Lemma status_of_ext m e d d' : t_executors d' = t_executors d -> status_of m e d' = status_of m e d.
Proof. intros E. unfold status_of, executors_where. by rewrite E. Qed.

(** After storing the GPUs in [l]: those the claimant may take are its own, the others
    are as before. *)
Definition claimed (d : EngineDb) (l : list GpuInfo) (d' : EngineDb) : Prop :=
  t_executors d' = t_executors d /\
  (forall u, u ∈ gi_gpu_uuid <$> l -> may_take d u = true -> owns d' u) /\
  (forall u, u ∉ gi_gpu_uuid <$> l \/ may_take d u = false -> t_gpus d' !! u = t_gpus d !! u).

Lemma stored_gpu_other t g d u : u <> gi_gpu_uuid g -> t_gpus (stored_gpu t g d) !! u = t_gpus d !! u.
Proof.
  intros Hu. unfold stored_gpu. repeat case_match; cbn; try done;
    first [by rewrite lookup_alter_ne|by rewrite lookup_insert_ne].
Qed.

Lemma stored_gpu_taken t g d : may_take d (gi_gpu_uuid g) = true -> owns (stored_gpu t g d) (gi_gpu_uuid g).
Proof.
  intros Hm. unfold stored_gpu, owns. destruct (t_gpus d !! gi_gpu_uuid g) as [row|] eqn:Hrow.
  - destruct (owned_by miner_id executor_id row) eqn:Ho.
    + cbn. rewrite lookup_alter_eq, Hrow. by eexists.
    + rewrite Hm. cbn. rewrite lookup_alter_eq, Hrow. eexists. split; [done|]. apply owned_gpu_row_of.
  - cbn. rewrite lookup_insert_eq. eexists. split; [done|]. apply owned_gpu_row_of.
Qed.

Lemma stored_gpu_refused t g d : may_take d (gi_gpu_uuid g) = false -> stored_gpu t g d = d.
Proof.
  intros Hm. unfold stored_gpu. rewrite Hm. unfold may_take in Hm.
  destruct (t_gpus d !! gi_gpu_uuid g); [|done]. by destruct (owned_by _ _ _).
Qed.

Lemma owns_may_take d d' u : t_executors d' = t_executors d -> owns d' u -> may_take d' u = true.
Proof. intros _ (row & Hrow & Ho). unfold may_take. by rewrite Hrow, Ho. Qed.

Lemma may_take_ext d d' u :
  t_executors d' = t_executors d -> t_gpus d' !! u = t_gpus d !! u -> may_take d' u = may_take d u.
Proof. intros Ex Eg. unfold may_take. rewrite Eg. case_match; [|done]. by rewrite (status_of_ext _ _ d d' Ex). Qed.

Lemma claimed_step t d l g d' : claimed d l d' -> claimed d (l ++ [g]) (stored_gpu t g d').
Proof.
  intros (Ex & Hin & Hout). split; [by rewrite stored_gpu_executors|]. rewrite fmap_app. split.
  - intros u [Hu|Hu]%elem_of_app Hm; cbn in Hu.
    + destruct (decide (u = gi_gpu_uuid g)) as [->|Hne].
      * apply stored_gpu_taken, (owns_may_take d); auto.
      * unfold owns. rewrite stored_gpu_other by done. by apply Hin.
    + apply list_elem_of_singleton in Hu as ->. apply stored_gpu_taken.
      destruct (decide (gi_gpu_uuid g ∈ gi_gpu_uuid <$> l)) as [Hl|Hl].
      * apply (owns_may_take d); auto.
      * rewrite (may_take_ext d d'); auto.
  - intros u Hu. destruct (decide (u = gi_gpu_uuid g)) as [->|Hne].
    + destruct Hu as [Hu|Hu]; [exfalso; apply Hu, elem_of_app; right; by left|].
      rewrite stored_gpu_refused; [by apply Hout; right|]. rewrite (may_take_ext d d'); auto.
    + rewrite stored_gpu_other by done. apply Hout. destruct Hu as [Hu|Hu]; [left|by right].
      intros Hl. apply Hu, elem_of_app. by left.
Qed.

Lemma claimed_foldl t d l : claimed d l (foldl (fun d g => stored_gpu t g d) d l).
Proof.
  induction l as [|g l IH] using rev_ind; cbn.
  - split; [done|]. split; [|done]. intros u Hu. by apply elem_of_nil in Hu.
  - rewrite foldl_app. by apply claimed_step.
Qed.

(** The tables after the GPUs that are no longer reported are removed. *)
Definition unreported (gpus : list GpuInfo) (u : string) (row : gpu_row) : bool :=
  owned_by miner_id executor_id row && negb (is_reported gpus u).

Definition trimmed (gpus : list GpuInfo) (d : EngineDb) : EngineDb :=
  with_gpus d (filter (fun kv => unreported gpus kv.1 kv.2 = false) (t_gpus d)).

Lemma is_reported_elem gpus u : is_reported gpus u = true <-> u ∈ gi_gpu_uuid <$> List.filter valid_uuid gpus.
Proof.
  unfold is_reported. rewrite existsb_exists. unfold reported_uuids. split.
  - intros (x & Hx & ->%String.eqb_eq). by apply list_elem_of_In.
  - intros Hu. exists u. split; [by apply list_elem_of_In|apply String.eqb_refl].
Qed.

Lemma ends_trim gpus d :
  ends (match reported_uuids gpus with
        | [] => cleanup_gpu_assignments executor_id miner_id
        | _ => delete_gpus (fun _ uuid g => owned_by miner_id executor_id g && negb (is_reported gpus uuid))
        end) d (fun r d' => match r with Ok _ => d' = trimmed gpus d | Err _ => False end).
Proof using Hsql.
  destruct (reported_uuids gpus) eqn:Hrep.
  - unfold cleanup_gpu_assignments, delete_gpus. eapply ends_statement; [reflexivity|].
    unfold trimmed. f_equal. apply map_filter_ext. intros u row _. cbn. unfold unreported, is_reported.
    rewrite Hrep. cbn. by rewrite andb_true_r.
  - unfold delete_gpus. by eapply ends_statement.
Qed.

Lemma trimmed_lookup gpus d u :
  t_gpus (trimmed gpus d) !! u = (row ← t_gpus d !! u; if unreported gpus u row then None else Some row).
Proof.
  unfold trimmed. cbn. rewrite map_lookup_filter. destruct (t_gpus d !! u) as [row|]; [|done]. cbn.
  destruct (unreported gpus u row) eqn:E; [|by rewrite option_guard_True].
  by rewrite option_guard_False.
Qed.

Lemma trimmed_reported gpus d u : is_reported gpus u = true -> t_gpus (trimmed gpus d) !! u = t_gpus d !! u.
Proof.
  intros Hu. rewrite trimmed_lookup. destruct (t_gpus d !! u); [|done]. cbn. unfold unreported.
  by rewrite Hu, andb_false_r.
Qed.

Lemma claimed_owns gpus d d' u :
  claimed (trimmed gpus d) (List.filter valid_uuid gpus) d' ->
  owns d' u <-> is_reported gpus u = true /\ may_take d u = true.
Proof.
  intros (Ex & Hin & Hout).
  assert (Hmt : is_reported gpus u = true -> may_take (trimmed gpus d) u = may_take d u).
  { intros Hu. apply may_take_ext; [done|]. by apply trimmed_reported. }
  split.
  - intros Ho. destruct (is_reported gpus u) eqn:Hu.
    + split; [done|]. rewrite <- Hmt by done. destruct (may_take (trimmed gpus d) u) eqn:Hm; [done|].
      rewrite <- Hm. destruct Ho as (row & Hrow & Hown). rewrite Hout in Hrow by by right.
      unfold may_take. by rewrite Hrow, Hown.
    + exfalso. destruct Ho as (row & Hrow & Hown).
      rewrite Hout in Hrow by (left; rewrite <- is_reported_elem; congruence).
      rewrite trimmed_lookup in Hrow. destruct (t_gpus d !! u) as [row'|]; [|done]. cbn in Hrow.
      destruct (unreported gpus u row') eqn:E; [done|]. injection Hrow as ->.
      unfold unreported in E. by rewrite Hown, Hu in E.
  - intros [Hu Hm]. apply Hin; [by apply is_reported_elem|]. by rewrite Hmt.
Qed.

Lemma claimed_others gpus d d' u row :
  claimed (trimmed gpus d) (List.filter valid_uuid gpus) d' ->
  t_gpus d !! u = Some row -> owned_by miner_id executor_id row = false ->
  is_reported gpus u && may_take d u = false -> t_gpus d' !! u = Some row.
Proof.
  intros (Ex & Hin & Hout) Hrow Hown Hno.
  assert (t_gpus (trimmed gpus d) !! u = Some row) as Ht.
  { rewrite trimmed_lookup, Hrow. cbn. unfold unreported. by rewrite Hown. }
  rewrite Hout; [done|]. apply andb_false_iff in Hno as [Hno|Hno].
  - left. rewrite <- is_reported_elem. congruence.
  - right. rewrite (may_take_ext d); [done|done|]. by rewrite Ht.
Qed.

(** What a full validation leaves in the tables. *)
Definition validated (gpus : list GpuInfo) (current_status : string) (d : EngineDb)
    (r : result EError unit) (d' : EngineDb) : Prop :=
  let n := count_gpus miner_id executor_id d' in
  let expected := Z.of_nat (length (reported_uuids gpus)) in
  (forall u, owns d' u <-> is_reported gpus u = true /\ may_take d u = true) /\
  (forall u row, t_gpus d !! u = Some row -> owned_by miner_id executor_id row = false ->
    is_reported gpus u && may_take d u = false -> t_gpus d' !! u = Some row) /\
  (exists s, forall id, t_executors d' !! id = (fun x => if of_executor miner_id executor_id x
      then set_gpu_count (wrap_signed 32 n) (status_after current_status (0 <? n)) (Sql s) x else x)
    <$> t_executors d !! id) /\
  r = (if (0 <? expected) && (n =? 0) then Err (NoGpusStored expected) else Ok tt).

Lemma ends_store_gpu_uuid_assignments uid gpus d current :
  miner_id = miner_id_of uid -> status_of miner_id executor_id d = Some current ->
  ends (store_gpu_uuid_assignments uid executor_id gpus) d (validated gpus current d).
Proof using Hsql.
  intros Hid Hst. unfold store_gpu_uuid_assignments. rewrite <- Hid.
  apply (ends_bind _ _ _ (fun _ d' => d' = d)); [by apply ends_interact|]. intros t d0 ->.
  apply (ends_bind _ _ _ (fun _ d' => d' = trimmed gpus d)); [apply ends_trim|]. intros _ d1 ->.
  set (d2 := foldl (fun d g => stored_gpu t g d) (trimmed gpus d) (List.filter valid_uuid gpus)).
  pose proof (claimed_foldl t (trimmed gpus d) (List.filter valid_uuid gpus)) as Hc. fold d2 in Hc.
  apply (ends_bind _ _ _ (fun _ d' => d' = d2)).
  { intros s n. destruct (ends_for (List.filter valid_uuid gpus) (store_gpu miner_id executor_id t) (stored_gpu t)
      (fun g d' _ => ends_store_gpu t g d') (trimmed gpus d) s n) as (r & d' & s' & n' & E & -> & Hd).
    by exists (Ok tt), d', s', n'. }
  intros _ d3 ->.
  apply (ends_bind _ _ _ (fun a d' => d' = d2 /\ a = count_gpus miner_id executor_id d2)); [by apply ends_query|].
  intros n d3 [-> ->].
  assert (status_of miner_id executor_id d2 = Some current) as Hst2.
  { rewrite <- Hst. apply status_of_ext. apply (proj1 Hc). }
  apply (ends_bind _ _ _ (fun a d' => d' = d2 /\ a = Some current)); [by apply ends_query|]. intros c d3 [-> ->].
  apply (ends_bind _ _ _ (fun _ d' => d' = d2)); [by apply ends_interact|]. intros s d3 ->.
  set (d4 := with_executors d2 (map_imap (fun _ x => Some (if of_executor miner_id executor_id x
    then set_gpu_count (wrap_signed 32 (count_gpus miner_id executor_id d2))
           (status_after current (0 <? count_gpus miner_id executor_id d2)) (Sql s) x else x)) (t_executors d2))).
  apply (ends_bind _ _ _ (fun _ d' => d' = d4)); [by apply ends_update|]. intros _ d3 ->.
  assert (forall r, r = (if (0 <? Z.of_nat (length (reported_uuids gpus))) && (count_gpus miner_id executor_id d2 =? 0)
    then Err (NoGpusStored (Z.of_nat (length (reported_uuids gpus)))) else Ok tt) -> validated gpus current d r d4) as Hv.
  { intros r Hr. split; [|split; [|split; [|done]]].
    - intros u. exact (claimed_owns gpus d d2 u Hc).
    - intros u row. exact (claimed_others gpus d d2 u row Hc).
    - exists s. intros id. cbn. rewrite map_lookup_imap, (proj1 Hc). by destruct (t_executors _ !! id). }
  destruct ((0 <? _) && _); [by apply ends_fail, Hv|by apply ends_ret, Hv].
Qed.
End NoFaults.

(** C37: a full validation takes exactly the GPUs it may.  When no statement is lost, the
    executor has afterwards exactly the GPUs it reported with a valid UUID that nobody
    had, that it had already, or whose previous executor is unknown or inactive; the
    assignments of others stay as they are; its row shows the number of its GPUs and the
    status that follows from it, and the validation is an error exactly when GPUs were
    reported and none could be taken. *)
Theorem full_validation_takes_free_gpus uid executor_id gpus env w current :
  (forall n, e_sql_fails env n = false) ->
  status_of (miner_id_of uid) executor_id (edb w) = Some current ->
  let r := store_gpu_uuid_assignments uid executor_id gpus env w in
  validated (miner_id_of uid) executor_id gpus current (edb w) r.1 (edb r.2).
Proof.
  intros Hsql Hst. destruct w as [d s n].
  destruct (ends_store_gpu_uuid_assignments env Hsql (miner_id_of uid) executor_id uid gpus d current eq_refl Hst s n)
    as (r & d' & s' & n' & E & Hv). cbv zeta. by rewrite E.
Qed.

(** ** The clean-up *)

(** No GPU is assigned to an executor that is offline. *)
Definition no_offline_gpus (d : EngineDb) : Prop :=
  forall u g id x, t_gpus d !! u = Some g -> t_executors d !! id = Some x ->
    of_executor (gr_miner_id g) (gr_executor_id g) x = true -> is_offline x = false.

Lemma of_executor_eq m e x : of_executor m e x = true <-> xr_miner_id x = m /\ xr_executor_id x = e.
Proof. unfold of_executor. by rewrite andb_true_iff, !String.eqb_eq. Qed.

Lemma owned_by_eq m e g : owned_by m e g = true <-> gr_miner_id g = m /\ gr_executor_id g = e.
Proof. unfold owned_by. by rewrite andb_true_iff, !String.eqb_eq. Qed.

Lemma executors_where_elem p d x :
  x ∈ snd <$> executors_where p d <-> exists id, t_executors d !! id = Some x /\ p x = true.
Proof.
  unfold executors_where. rewrite list_elem_of_fmap. split.
  - intros ([id x'] & -> & Hin). apply list_elem_of_In, filter_In in Hin as [Hin Hp].
    apply list_elem_of_In, elem_of_map_to_list in Hin. by exists id.
  - intros (id & Hid & Hp). exists (id, x). split; [done|].
    apply list_elem_of_In, filter_In. split; [|done]. by apply list_elem_of_In, elem_of_map_to_list.
Qed.

Lemma has_gpus_true d x u g :
  t_gpus d !! u = Some g -> owned_by (xr_miner_id x) (xr_executor_id x) g = true -> has_gpus d x = true.
Proof.
  intros Hg Ho. unfold has_gpus. apply existsb_exists. exists g. split; [|done].
  apply list_elem_of_In, list_elem_of_fmap. exists (u, g). split; [done|]. by apply elem_of_map_to_list.
Qed.

Section Cleanup.
Context `{HashOrder} (env : EEnv).

(** *** No GPU stays with an offline executor *)

(** The offline executors with GPUs are among those still to clean. *)
Definition still_to_clean (rest : list exec_row) (d : EngineDb) : Prop :=
  forall u g id x, t_gpus d !! u = Some g -> t_executors d !! id = Some x ->
    of_executor (gr_miner_id g) (gr_executor_id g) x = true -> is_offline x = true ->
    exists y, y ∈ rest /\ owned_by (xr_miner_id y) (xr_executor_id y) g = true.

Lemma spec_cleanup_row y rest :
  spec env (still_to_clean (y :: rest)) (cleanup_row y)
    (fun r d => match r with Ok _ => still_to_clean rest d | Err _ => True end).
Proof.
  unfold cleanup_row. apply (spec_bind _ _ (fun _ => still_to_clean rest)); [|by intros a w Hw].
  intros w Hw. unfold cleanup_gpu_assignments, delete_gpus, estatement, einteract, mbind, EM_bind.
  destruct (e_sql_fails env (esteps w)); cbn; [done|].
  intros u g id x [Hg Hno]%map_lookup_filter_Some Hx Ho Hoff. cbn in Hno.
  destruct (Hw u g id x Hg Hx Ho Hoff) as (y' & Hy' & Hown).
  apply elem_of_cons in Hy' as [->|Hy']; [congruence|]. by exists y'.
Qed.

Lemma spec_cleanup_offline :
  spec env (fun _ => True) (cleanup_offline (fun _ => true)) (fun r d => r = Ok tt -> no_offline_gpus d).
Proof.
  unfold cleanup_offline. apply spec_query_bind; [done|]. intros rows w [_ Hrows].
  enough (still_to_clean rows (edb w)) as Hw.
  { intros Hok. pose proof (spec_for env still_to_clean rows cleanup_row (fun x rest => spec_cleanup_row x rest) w Hw Hok) as Hd.
    intros u g id x Hg Hx Ho. destruct (is_offline x) eqn:E; [|done].
    destruct (Hd u g id x Hg Hx Ho E) as (y & Hy & _). by apply elem_of_nil in Hy. }
  intros u g id x Hg Hx [Ho1 Ho2]%of_executor_eq Hoff. exists x.
  assert (owned_by (xr_miner_id x) (xr_executor_id x) g = true) as Hown by by apply owned_by_eq.
  split; [|done]. rewrite <- Hrows. apply executors_where_elem. exists id. split; [done|].
  by rewrite Hoff, (has_gpus_true _ _ _ _ Hg Hown).
Qed.

Lemma keeps_no_offline_delete p : keeps env no_offline_gpus (delete_gpus p).
Proof.
  apply kept_statement. intros d a d' Hd [= _ <-] u g id x [Hg _]%map_lookup_filter_Some Hx Ho.
  by eapply Hd.
Qed.

Lemma keeps_no_offline_cleanup p : keeps env no_offline_gpus (cleanup_offline p).
Proof.
  unfold cleanup_offline. keep. apply keeps_for. intros x _. unfold cleanup_row. keep. apply keeps_no_offline_delete.
Qed.

Lemma keeps_no_offline_filter (P : string * exec_row -> Prop) `{!forall x, Decision (P x)} :
  keeps env no_offline_gpus (eupdate (fun d => with_executors d (filter P (t_executors d)))).
Proof.
  apply keeps_update. intros d Hd u g id x Hg Hx Ho. cbn in *.
  apply map_lookup_filter_Some in Hx as [Hx _]. by eapply Hd.
Qed.

(** Executors without GPUs may go offline. *)
Definition gpuless (rows : list exec_row) (d : EngineDb) : Prop :=
  forall y u g, y ∈ rows -> t_gpus d !! u = Some g -> owned_by (xr_miner_id y) (xr_executor_id y) g = false.

Lemma keeps_reset_mismatched rows y :
  y ∈ rows -> keeps env (fun d => no_offline_gpus d /\ gpuless rows d) (reset_mismatched y).
Proof.
  intros Hy.
  assert (forall f, (forall x, xr_miner_id (f x) = xr_miner_id x /\ xr_executor_id (f x) = xr_executor_id x) ->
    keeps env (fun d => no_offline_gpus d /\ gpuless rows d)
      (update_executors (fun _ => of_executor (xr_miner_id y) (xr_executor_id y)) f)) as Hup.
  { intros f Hf. apply keeps_update. intros d [Hd Hg]. split; [|done].
    intros u g id x' Hu Hx' Ho. cbn in *. rewrite map_lookup_imap in Hx'.
    destruct (t_executors d !! id) as [x|] eqn:Hx; [|done]. cbn in Hx'. injection Hx' as <-.
    destruct (of_executor (xr_miner_id y) (xr_executor_id y) x) eqn:Hxy; [|by eapply Hd].
    exfalso. specialize (Hg y u g Hy Hu). apply of_executor_eq in Hxy as [E1 E2]. destruct (Hf x) as [F1 F2].
    apply of_executor_eq in Ho as [O1 O2]. rewrite F1 in O1. rewrite F2 in O2.
    assert (owned_by (xr_miner_id y) (xr_executor_id y) g = true) as Ho by (apply owned_by_eq; split; congruence).
    congruence. }
  unfold reset_mismatched. keep; [by apply Hup|]. case_match; keep. by apply Hup.
Qed.

Lemma keeps_no_offline_mismatched : keeps env no_offline_gpus cleanup_mismatched.
Proof.
  unfold cleanup_mismatched. apply spec_query_bind; [done|]. intros rows w [Hw Hrows].
  enough (keeps env (fun d => no_offline_gpus d /\ gpuless rows d) (efor rows reset_mismatched)) as Hk.
  { apply Hk. split; [done|]. intros y u g Hy Hu. rewrite <- Hrows in Hy.
    apply executors_where_elem in Hy as (id & _ & Hp). apply andb_true_iff in Hp as [_ Hp].
    destruct (owned_by _ _ g) eqn:Ho; [|done]. by rewrite (has_gpus_true _ _ _ _ Hu Ho) in Hp. }
  apply keeps_for. intros y Hy. by apply keeps_reset_mismatched.
Qed.

Lemma keeps_no_offline_rest threshold minutes :
  keeps env no_offline_gpus (
    _ ← cleanup_mismatched; _ ← cleanup_stale; s ← sql_now;
    _ ← cleanup_offline (unhealthy_since (s - minutes * 60));
    _ ← delete_failing threshold; _ ← delete_stale_offline minutes;
    miners ← equery affected_miners; efor miners refresh_profile).
Proof.
  keep.
  - apply keeps_no_offline_mismatched.
  - unfold cleanup_stale. keep. apply keeps_no_offline_delete.
  - apply keeps_no_offline_cleanup.
  - unfold delete_failing. keep. apply keeps_for. intros x _. unfold delete_executor. keep.
    + apply keeps_no_offline_delete.
    + apply keeps_no_offline_filter.
    + by intros w Hw.
  - unfold delete_stale_offline. keep. apply keeps_no_offline_filter.
  - apply keeps_for. intros uid _. unfold refresh_profile. keep.
    + apply keeps_on_profiles. by intros d p Hd.
    + apply keeps_update. by intros d Hd.
Qed.

(** *** Fresh GPUs of executors that are not offline stay *)

Context (u : string) (r : gpu_row) (xid : string) (x0 : exec_row).
Context (Hx0 : of_executor (gr_miner_id r) (gr_executor_id r) x0 = true).
Context (Hfresh : forall n, before (gr_last_verified r) (e_clock env n / nanos_per_sec - 6 * 3600) = false).

Record settled (d : EngineDb) : Prop := {
  se_gpu : t_gpus d !! u = Some r;
  se_row : t_executors d !! xid = Some x0;
  se_online : forall id x, t_executors d !! id = Some x ->
    of_executor (gr_miner_id r) (gr_executor_id r) x = true -> is_offline x = false
}.

Lemma settled_not_owner d y id :
  settled d -> t_executors d !! id = Some y -> is_offline y = true ->
  owned_by (xr_miner_id y) (xr_executor_id y) r = false.
Proof.
  intros Hd Hy Hoff. destruct (owned_by _ _ r) eqn:Ho; [|done]. apply owned_by_eq in Ho as [O1 O2].
  rewrite (se_online _ Hd id y Hy) in Hoff; [done|]. by apply of_executor_eq.
Qed.

Lemma keeps_settled_delete p : (forall d, settled d -> p d u r = false) -> keeps env settled (delete_gpus p).
Proof.
  intros Hp. apply kept_statement. intros d a d' Hd [= _ <-]. destruct (Hd) as []. constructor; cbn; try done.
  apply map_lookup_filter_Some. split; [done|]. by apply Hp.
Qed.

Lemma keeps_settled_filter (P : string * exec_row -> Prop) `{!forall x, Decision (P x)} :
  P (xid, x0) -> keeps env settled (eupdate (fun d => with_executors d (filter P (t_executors d)))).
Proof.
  intros HP. apply keeps_update. intros d []. constructor; cbn; [done| |].
  - by apply map_lookup_filter_Some.
  - intros id x [Hx _]%map_lookup_filter_Some. eauto.
Qed.

Lemma keeps_settled_cleanup p : keeps env settled (cleanup_offline p).
Proof.
  unfold cleanup_offline. apply keeps_query_bind. intros d Hd. apply keeps_for. intros y Hy.
  apply executors_where_elem in Hy as (id & Hy & Hp). apply andb_true_iff in Hp as [Hp _].
  apply andb_true_iff in Hp as [Hoff _]. unfold cleanup_row. keep. apply keeps_settled_delete.
  intros d' _. by apply (settled_not_owner d y id).
Qed.

Lemma keeps_settled_mismatched : keeps env settled cleanup_mismatched.
Proof.
  unfold cleanup_mismatched. apply keeps_query_bind. intros d Hd. apply keeps_for. intros y Hy.
  apply executors_where_elem in Hy as (id & Hy & Hp). apply andb_true_iff in Hp as [_ Hp].
  assert (owned_by (xr_miner_id y) (xr_executor_id y) r = false) as Hno.
  { destruct (owned_by _ _ r) eqn:Ho; [|done]. by rewrite (has_gpus_true _ _ _ _ (se_gpu _ Hd) Ho) in Hp. }
  assert (forall x, of_executor (gr_miner_id r) (gr_executor_id r) x = true ->
    of_executor (xr_miner_id y) (xr_executor_id y) x = false) as Hne.
  { intros x [O1 O2]%of_executor_eq. destruct (of_executor _ _ x) eqn:E; [|done].
    apply of_executor_eq in E as [E1 E2].
    assert (owned_by (xr_miner_id y) (xr_executor_id y) r = true) by (apply owned_by_eq; split; congruence). congruence. }
  assert (forall f, (forall x, xr_miner_id (f x) = xr_miner_id x /\ xr_executor_id (f x) = xr_executor_id x) ->
    keeps env settled (update_executors (fun _ => of_executor (xr_miner_id y) (xr_executor_id y)) f)) as Hup.
  { intros f Hf. apply keeps_update. intros d' []. constructor; cbn; [done| |].
    - rewrite map_lookup_imap, se_row0. cbn. by rewrite Hne.
    - intros id' x'. rewrite map_lookup_imap. destruct (t_executors d' !! id') as [x|] eqn:Hx; [|done]. cbn.
      intros [= <-]. destruct (of_executor (xr_miner_id y) (xr_executor_id y) x) eqn:E; [|by eapply se_online0].
      intros [O1 O2]%of_executor_eq. destruct (Hf x) as [F1 F2]. rewrite F1 in O1. rewrite F2 in O2.
      rewrite Hne in E; [done|]. by apply of_executor_eq. }
  unfold reset_mismatched. keep; [by apply Hup|]. case_match; keep. by apply Hup.
Qed.

Lemma keeps_settled_stale : keeps env settled cleanup_stale.
Proof using Hfresh.
  unfold cleanup_stale, sql_now. apply keeps_interact_bind. intros n. keep. apply keeps_settled_delete.
  intros d Hd. rewrite Hfresh. cbn. apply not_true_is_false. rewrite existsb_exists.
  intros (x & Hin & Hp). apply list_elem_of_In, list_elem_of_fmap in Hin as ([id x'] & -> & Hin).
  apply elem_of_map_to_list in Hin. cbn in *. apply andb_true_iff in Hp as [Hp _].
  apply andb_true_iff in Hp as [Ho Hoff]. by rewrite (se_online _ Hd id x' Hin Ho) in Hoff.
Qed.

Lemma keeps_settled ttl threshold :
  keeps env settled (cleanup_failed_executors_after_failures ttl threshold).
Proof using Hfresh Hx0.
  assert (forall d, settled d -> is_offline x0 = false) as Hon by (intros d []; eauto).
  unfold cleanup_failed_executors_after_failures. keep.
  - apply keeps_settled_cleanup.
  - apply keeps_settled_mismatched.
  - apply keeps_settled_stale.
  - apply keeps_settled_cleanup.
  - unfold delete_failing. apply kept_bind; [apply keeps_interact|intros ?]. apply keeps_query_bind. intros d Hd. apply keeps_for. intros y Hy.
    apply executors_where_elem in Hy as (id & Hy & Hp). apply andb_true_iff in Hp as [Hoff _].
    pose proof (settled_not_owner d y id Hd Hy Hoff) as Hno. unfold delete_executor. keep.
    + apply keeps_settled_delete. intros. exact Hno.
    + apply keeps_settled_filter. cbn. destruct (of_executor (xr_miner_id y) (xr_executor_id y) x0) eqn:E; [|done].
      apply of_executor_eq in E as [E1 E2]. apply of_executor_eq in Hx0 as [O1 O2].
      assert (owned_by (xr_miner_id y) (xr_executor_id y) r = true) by (apply owned_by_eq; split; congruence). congruence.
    + intros w []. by constructor.
  - unfold delete_stale_offline. keep. intros w Hw. apply keeps_settled_filter; [|done]. cbn. by rewrite (Hon _ Hw).
  - apply keeps_for. intros uid _. unfold refresh_profile. keep.
    + apply keeps_on_profiles. intros d p []. by constructor.
    + apply keeps_update. intros d []. by constructor.
Qed.
End Cleanup.

(** Without lost statements the first step ends. *)
Lemma cleanup_offline_ends env p w :
  (forall n, e_sql_fails env n = false) -> (cleanup_offline p env w).1 = Ok tt.
Proof.
  intros Hsql. destruct w as [d s n]. unfold cleanup_offline.
  destruct (ends_bind env (equery (fun d => snd <$> executors_where (fun x => is_offline x && p x && has_gpus d x) d))
    (fun rows => efor rows cleanup_row) d (fun _ _ => True) (fun r _ => r = Ok tt)) with (s := s) (n := n)
    as (r & d' & s' & n' & E & Hr).
  - by apply ends_query.
  - intros rows d' _ s' n'. destruct (ends_for env rows cleanup_row
      (fun x d => with_gpus d (filter (fun kv => owned_by (xr_miner_id x) (xr_executor_id x) kv.2 = false) (t_gpus d))))
      with (d := d') (s := s') (n := n') as (r & d'' & s'' & n'' & E & Hr & _); [|by exists r, d'', s'', n''].
    intros x d0 _. eapply (ends_bind _ _ _ _ (fun _ d' => d' = _)); [by eapply ends_statement|].
    intros a d1 ->. by apply ends_ret.
  - by rewrite E.
Qed.

(** C40: the clean-up frees the GPUs of offline executors and no others.  When it
    succeeds, and also when only its last steps fail because a profile cannot be read, so
    in particular whenever no statement is lost, no GPU is left with an executor that is
    offline, the executors it marks as offline itself included.  And whatever statements
    fail, a GPU verified recently (by the text comparison the clean-up makes) whose
    executor is registered and not offline keeps its assignment, and the executor its
    row. *)
Theorem cleanup_frees_offline_gpus `{HashOrder} ttl threshold env w :
  let o := cleanup_failed_executors_after_failures ttl threshold env w in
  (o.1 = Ok tt \/ (forall n, e_sql_fails env n = false) -> no_offline_gpus (edb o.2)) /\
  forall u r xid x,
    of_executor (gr_miner_id r) (gr_executor_id r) x = true ->
    (forall n, before (gr_last_verified r) (e_clock env n / nanos_per_sec - 6 * 3600) = false) ->
    settled u r xid x (edb w) ->
    t_gpus (edb o.2) !! u = Some r /\ t_executors (edb o.2) !! xid = Some x.
Proof.
  intros o. split.
  - intros Hok. subst o. unfold cleanup_failed_executors_after_failures in *.
    pose proof (spec_cleanup_offline env w I) as Hc. pose proof (cleanup_offline_ends env (fun _ => true) w) as He.
    unfold mbind at 1, EM_bind at 1. unfold mbind at 1, EM_bind at 1 in Hok.
    destruct (cleanup_offline (fun _ => true) env w) as [[[]|e] w']; cbn [fst snd] in *.
    + apply keeps_no_offline_rest. by apply Hc.
    + by destruct Hok as [|Hsql%He].
  - intros u r xid x Hx Hfresh Hset.
    destruct (keeps_settled env u r xid x Hx Hfresh ttl threshold w Hset) as []. done.
Qed.

(** ** Two miners

    Miner 1 has GPU "gpu-a" on an executor that is online and GPU "gpu-b" on one that is
    offline; an executor of miner 2 reports both, and a new one. *)

Module EngineScenario.
Definition stamp : Stamp := Rfc 0.

Definition miner (hotkey : string) : miner_row := {|
  mr_hotkey := hotkey; mr_endpoint := "http://miner"; mr_verification_score := f64_zero;
  mr_uptime_percentage := f64_zero; mr_registered_at := stamp; mr_executor_info := "{}" |}.

Definition executor (miner_id executor_id address status : string) : exec_row := {|
  xr_miner_id := miner_id; xr_executor_id := executor_id; xr_grpc_address := address; xr_gpu_count := 1;
  xr_gpu_specs := "{}"; xr_cpu_specs := "{}"; xr_location := None; xr_status := status;
  xr_last_health_check := Some stamp; xr_updated_at := stamp |}.

Definition gpu (executor_id : string) : gpu_row := {|
  gr_gpu_index := 0; gr_executor_id := executor_id; gr_miner_id := "miner_1";
  gr_gpu_name := Some "NVIDIA A100"; gr_gpu_memory_gb := Some f64_zero; gr_last_verified := stamp |}.

Definition online : exec_row := executor "miner_1" "e1" "http://a" "online".

Definition tables : EngineDb := {|
  t_miners := <["miner_1" := miner "hk1"]> (<["miner_2" := miner "hk2"]> ∅);
  t_executors := <["miner_1_e1" := online]>
    (<["miner_1_e2" := executor "miner_1" "e2" "http://b" "offline"]>
      (<["miner_2_e3" := executor "miner_2" "e3" "http://c" "verified"]> ∅));
  t_gpus := <["gpu-a" := gpu "e1"]> (<["gpu-b" := gpu "e2"]> ∅);
  t_logs := ∅; t_profiles := ∅ |}.

Definition environment : EEnv := {|
  e_clock := fun _ => 0; e_sql_fails := fun _ => false; e_uuid := fun n => Z.of_nat n |}.

Definition world : EWorld := {| edb := tables; sessions := ∅; esteps := 0 |}.

Definition info2 : MinerInfo := {|
  mi_uid := 2; mi_hotkey := "hk2"; mi_endpoint := "http://miner"; mi_is_validator := false;
  mi_stake_tao := f64_zero; mi_verification_score := f64_zero |}.

Definition reported (uuid : string) : GpuInfo := {|
  gi_index := 0; gi_gpu_name := "NVIDIA A100"; gi_gpu_uuid := uuid; gi_gpu_memory_gb := f64_zero |}.

Definition reports : list GpuInfo := [reported "gpu-a"; reported "gpu-b"; reported "gpu-c"].

Definition outcome : VerificationOutcome := {|
  vo_executor_id := "e3"; vo_grpc_endpoint := "http://c"; vo_verification_score := f64_zero;
  vo_ssh_connection_successful := true; vo_binary_validation_successful := true;
  vo_gpu_infos := Some reports; vo_execution_time_ms := 5; vo_validation_type := Full |}.

Lemma the_executors id x :
  t_executors tables !! id = Some x ->
  x = online \/ x = executor "miner_1" "e2" "http://b" "offline" \/ x = executor "miner_2" "e3" "http://c" "verified".
Proof.
  cbn [tables t_executors].
  intros [[_ <-]|[_ [[_ <-]|[_ [[_ <-]|[_ Hx]]%lookup_insert_Some]]%lookup_insert_Some]]%lookup_insert_Some; auto.
  by rewrite lookup_empty in Hx.
Qed.

Lemma online_owner id x :
  t_executors tables !! id = Some x -> of_executor "miner_1" "e1" x = true -> x = online.
Proof. intros [->|[->| ->]]%the_executors; [done|by vm_compute|by vm_compute]. Qed.

Lemma active_gpus_are_safe_witness :
  t_gpus (edb (@store_executor_verification_result_with_miner_info storage_order 2 outcome info2 environment world).2)
    !! "gpu-a" = Some (gpu "e1") /\
  gr_executor_id <$> t_gpus (edb (@store_executor_verification_result_with_miner_info storage_order 2 outcome info2
    environment world).2) !! "gpu-b" = Some "e3".
Proof.
  split.
  - apply (@active_gpus_are_safe storage_order 2 outcome info2 environment world "gpu-a" (gpu "e1")).
    + reflexivity.
    + vm_compute; reflexivity.
    + discriminate.
    + discriminate.
    + exists "miner_1_e1", online. split; vm_compute; reflexivity.
    + intros id x Hx Ho. rewrite (online_owner id x Hx Ho). split; [reflexivity|discriminate].
    + exists (miner "hk1"). split; [vm_compute; reflexivity|discriminate].
  - vm_compute; reflexivity.
Defined.

Lemma full_validation_takes_free_gpus_witness :
  let r := store_gpu_uuid_assignments 2 "e3" reports environment world in
  r.1 = Ok tt /\ validated (miner_id_of 2) "e3" reports "verified" tables r.1 (edb r.2).
Proof.
  split; [vm_compute; reflexivity|].
  apply (full_validation_takes_free_gpus 2 "e3" reports environment world "verified"); [reflexivity|].
  vm_compute; reflexivity.
Defined.

Lemma cleanup_frees_offline_gpus_witness :
  let o := @cleanup_failed_executors_after_failures storage_order None 3 environment world in
  t_gpus (edb o.2) !! "gpu-a" = Some (gpu "e1") /\ t_gpus (edb o.2) !! "gpu-b" = None /\ no_offline_gpus (edb o.2).
Proof.
  intros o. destruct (@cleanup_frees_offline_gpus storage_order None 3 environment world) as [Hno Hkept].
  split; [|split].
  - destruct (Hkept "gpu-a" (gpu "e1") "miner_1_e1" online) as [Hg _]; [reflexivity| | |exact Hg].
    + reflexivity.
    + constructor; [vm_compute; reflexivity|vm_compute; reflexivity|].
      intros id x Hx Ho. rewrite (online_owner id x Hx Ho). reflexivity.
  - subst o. vm_compute; reflexivity.
  - apply Hno. by left; vm_compute.
Defined.
End EngineScenario.
