(* ===== verification/ExecutorPool.v ===== *)
(** * The executors of a miner: health checks and assignment strategies

    basilica-miner: the health monitoring of executor_manager.rs, the health and
    interaction tables of persistence/registration_db.rs, and the strategies of
    validator_discovery.rs that give executors to validators.  What a check meets on the
    network and which statements of the database are lost is given by its environment.
    Deployment over SSH is not modelled, nor are the fields of an executor's state only
    deployment uses. *)

From stdpp Require Import base gmap strings list.
From Stdlib Require Import Ascii ZArith SpecFloat.
From S2P Require Import Prelude.
From S2P Require Import Bytes.
From S2P Require Import Text.
From S2P Require Import Float64.
From S2P Require Import TextOps.
From S2P Require Import Collections.
From S2P Require Import Assignments.
Local Open Scope Z_scope.

(** ** Executors and their state *)

Record ResourceUsageStats := {
  cpu_percent : f64;
  memory_mb : Z;
  network_rx_bytes : Z;
  network_tx_bytes : Z;
  disk_read_bytes : Z;
  disk_write_bytes : Z;
  gpu_utilization : list f64;
  gpu_memory_mb : list Z
}.

(** The columns of [RemoteMachine] the monitoring uses. *)
Record RemoteMachine := {
  machine_id : string;
  machine_name : string;
  machine_host : string;
  machine_gpu_count : option Z;
  executor_port : Z
}.

Record ExecutorState := {
  machine : RemoteMachine;
  has_client : bool;                    (* grpc_client.is_some() *)
  is_healthy : bool;
  last_health_check : option Z;
  failed_checks : Z;                    (* u32 *)
  resources : option ResourceUsageStats
}.

Record AvailableExecutor := {
  ae_id : string;
  ae_name : string;
  ae_grpc_address : string;
  ae_resources : option ResourceUsageStats;
  ae_gpu_count : Z
}.

(** ** The tables *)

Record health_row := {
  hr_is_healthy : bool;
  hr_last_health_check : option Z;
  hr_consecutive_failures : Z;
  hr_updated_at : Z
}.

Record interaction_row := {
  ir_validator_hotkey : string;
  ir_interaction_type : string;
  ir_success : bool;
  ir_details : option string
}.

Record RegistrationTables := {
  executor_health : gmap string health_row;
  validator_interactions : list interaction_row;
  db_statements : nat
}.

Record ExecutorManager := {
  max_retry_attempts : Z;
  state : gmap string ExecutorState;
  db : RegistrationTables
}.

Section Database.
Context (lost : nat -> bool).
Implicit Types d : RegistrationTables.

(** One statement, which may be lost. *)
Definition db_statement {A} (f : RegistrationTables -> A * RegistrationTables) d
    : result string A * RegistrationTables :=
  let d1 := {| executor_health := executor_health d; validator_interactions := validator_interactions d;
               db_statements := S (db_statements d) |} in
  if lost (db_statements d) then (Err "database error", d1)
  else let '(a, d2) := f d1 in (Ok a, d2).

(** The number of failures the next row has; a healthy executor has none. *)
Definition next_failures (executor_id : string) (healthy : bool) d : result string Z * RegistrationTables :=
  if healthy then (Ok 0, d)
  else
    db_statement (fun d =>
      (match executor_health d !! executor_id with
       | Some r => wrap_signed 32 (hr_consecutive_failures r + 1)
       | None => 1
       end, d)) d.

Definition update_executor_health (now : Z) (executor_id : string) (healthy : bool) d
    : result string unit * RegistrationTables :=
  match next_failures executor_id healthy d with
  | (Err e, d) => (Err e, d)
  | (Ok failures, d) =>
      db_statement (fun d =>
        (tt, {| executor_health := <[executor_id := {|
                  hr_is_healthy := healthy;
                  hr_last_health_check :=
                    if healthy then Some now
                    else (executor_health d !! executor_id) ≫= hr_last_health_check;
                  hr_consecutive_failures := failures;
                  hr_updated_at := now |}]> (executor_health d);
                validator_interactions := validator_interactions d;
                db_statements := db_statements d |})) d
  end.

Definition is_executor_healthy (executor_id : string) d : result string bool * RegistrationTables :=
  db_statement (fun d => (match executor_health d !! executor_id with Some r => hr_is_healthy r | None => false end, d)) d.

Definition record_validator_interaction (validator_hotkey interaction_type : string) (success : bool)
    (details : option string) d : result string unit * RegistrationTables :=
  db_statement (fun d =>
    (tt, {| executor_health := executor_health d;
            validator_interactions := validator_interactions d ++
              [{| ir_validator_hotkey := validator_hotkey; ir_interaction_type := interaction_type;
                  ir_success := success; ir_details := details |}];
            db_statements := db_statements d |})) d.

Definition update_validator_interaction (validator_hotkey : string) (success : bool) d
    : result string unit * RegistrationTables :=
  record_validator_interaction validator_hotkey "authentication" success None d.

(** ** Health checks *)

Definition parse_u64 : string -> option Z := parse_int 0 u64_max.

Definition parse_resources (status : gmap string string) : option ResourceUsageStats :=
  cpu ← status !! "cpu_usage" ≫= parse_f64;
  memory ← status !! "memory_mb" ≫= parse_u64;
  rx ← status !! "network_rx_bytes" ≫= parse_u64;
  tx ← status !! "network_tx_bytes" ≫= parse_u64;
  read ← status !! "disk_read_bytes" ≫= parse_u64;
  written ← status !! "disk_write_bytes" ≫= parse_u64;
  utilization ← status !! "gpu_utilization";
  gpu_memory ← status !! "gpu_memory_mb";
  Some {| cpu_percent := cpu; memory_mb := memory; network_rx_bytes := rx; network_tx_bytes := tx;
          disk_read_bytes := read; disk_write_bytes := written;
          gpu_utilization := omap (fun v => parse_f64 (trim v)) (split_char "," utilization);
          gpu_memory_mb := omap (fun v => parse_u64 (trim v)) (split_char "," gpu_memory) |}.

(** [HealthCheckResponse]: the overall status and the text of the resources. *)
Record HealthCheckResponse := { hc_status : string; hc_resource_status : gmap string string }.

(** What one check meets: the connection, which is made only if there is none, and the
    answer; no answer is a timeout. *)
Inductive Connecting := BadEndpoint (e : string) | ConnectFailed (e : string) | Connected.
Record CheckEnv := {
  connecting : Connecting;
  answer : option (result string HealthCheckResponse);
  checked_at : Z
}.

Definition with_db (m : ExecutorManager) (d : RegistrationTables) : ExecutorManager :=
  {| max_retry_attempts := max_retry_attempts m; state := state m; db := d |}.
Definition with_executor (m : ExecutorManager) (id : string) (s : ExecutorState) : ExecutorManager :=
  {| max_retry_attempts := max_retry_attempts m; state := <[id := s]> (state m); db := db m |}.

(** The in-memory state changes first; the row may fail to follow. *)
Definition store_health (now : Z) (id : string) (healthy : bool) (m : ExecutorManager)
    : result string unit * ExecutorManager :=
  let '(r, d) := update_executor_health now id healthy (db m) in (r, with_db m d).

Definition handle_health_success (now : Z) (id : string) (response : HealthCheckResponse)
    (m : ExecutorManager) : result string unit * ExecutorManager :=
  match state m !! id with
  | None => (Ok tt, m)
  | Some s =>
      let healthy := String.eqb (trim (hc_status response)) "healthy" in
      store_health now id healthy (with_executor m id {|
        machine := machine s; has_client := has_client s; is_healthy := healthy;
        last_health_check := Some now; failed_checks := 0;
        resources := parse_resources (hc_resource_status response) |})
  end.

Definition handle_health_failure (now : Z) (id : string) (m : ExecutorManager)
    : result string unit * ExecutorManager :=
  match state m !! id with
  | None => (Ok tt, m)
  | Some s =>
      let failed := wrap 32 (failed_checks s + 1) in
      let unhealthy := max_retry_attempts m <=? failed in
      store_health now id false (with_executor m id {|
        machine := machine s; has_client := has_client s && negb unhealthy;
        is_healthy := is_healthy s && negb unhealthy;
        last_health_check := last_health_check s; failed_checks := failed; resources := resources s |})
  end.

(** The client of an executor: the one it has, or a new connection. *)
Definition connect_client (env : CheckEnv) (id : string) (m : ExecutorManager)
    : result string unit * ExecutorManager :=
  match state m !! id with
  | None => (Err ("Machine " +:+ id +:+ " not found"), m)
  | Some s =>
      if has_client s then (Ok tt, m)
      else match connecting env with
           | BadEndpoint e => (Err e, m)
           | ConnectFailed e =>
               (Err e, with_executor m id {|
                  machine := machine s; has_client := false; is_healthy := false;
                  last_health_check := last_health_check s; failed_checks := wrap 32 (failed_checks s + 1);
                  resources := resources s |})
           | Connected =>
               (Ok tt, with_executor m id {|
                  machine := machine s; has_client := true; is_healthy := is_healthy s;
                  last_health_check := last_health_check s; failed_checks := failed_checks s;
                  resources := resources s |})
           end
  end.

Definition check_health (env : CheckEnv) (id : string) (m : ExecutorManager)
    : result string unit * ExecutorManager :=
  match connect_client env id m with
  | (Err e, m) => (Err e, m)
  | (Ok _, m) =>
      match answer env with
      | Some (Ok response) => handle_health_success (checked_at env) id response m
      | Some (Err e) =>
          match handle_health_failure (checked_at env) id m with
          | (Err e', m) => (Err e', m)
          | (Ok _, m) => (Err e, m)
          end
      | None =>
          match handle_health_failure (checked_at env) id m with
          | (Err e', m) => (Err e', m)
          | (Ok _, m) => (Err "Health check timeout", m)
          end
      end
  end.

(** One round of the loop checks every executor, in the order the map has them. *)
Definition health_round `{HashOrder} (n : nat) (env : string -> CheckEnv) (m : ExecutorManager)
    : ExecutorManager :=
  fold_left (fun m id => (check_health (env id) id m).2) (iter n "executors" (state m)).*1 m.
End Database.

(** A configured executor counts as healthy until it is checked. *)
Definition initial_state (x : RemoteMachine) : ExecutorState := {|
  machine := x; has_client := false; is_healthy := true; last_health_check := None;
  failed_checks := 0; resources := None |}.

Definition ExecutorManager_new (machines : list RemoteMachine) (max_retry_attempts : Z)
    (d : RegistrationTables) : result string ExecutorManager :=
  match machines with
  | [] => Err "At least one executor must be configured"
  | _ => Ok {| max_retry_attempts := max_retry_attempts;
               state := foldl (fun m x => <[machine_id x := initial_state x]> m) ∅ machines;
               db := d |}
  end.

Definition available_executor (s : ExecutorState) : AvailableExecutor := {|
  ae_id := machine_id (machine s); ae_name := machine_name (machine s);
  ae_grpc_address := machine_host (machine s) +:+ ":" +:+ show_int (executor_port (machine s));
  ae_resources := resources s; ae_gpu_count := default 0 (machine_gpu_count (machine s)) |}.

Definition list_available `{HashOrder} (n : nat) (m : ExecutorManager) : list AvailableExecutor :=
  available_executor <$> List.filter is_healthy (values n "executors" (state m)).

(** ** Strategies *)

Record ValidatorInfo := {
  vi_uid : Z;
  vi_hotkey : string;
  vi_stake : Z;                         (* u64, in nano TAO *)
  vi_axon_endpoint : option string
}.

(** validator hotkey to executor identifiers *)
Notation Assigned := (gmap string (list string)) (only parsing).

Definition online (v : ValidatorInfo) : bool := bool_decide (is_Some (vi_axon_endpoint v)).

(** [executor_iter.by_ref().take(n)]: the executors taken, and those left. *)
Definition take_executors (n : nat) (executors : list string) : list string * list string :=
  (take n executors, drop n executors).

(** Each validator in turn takes some executors; one that gets none has no entry. *)
Fixpoint hand_out (count : ValidatorInfo -> nat) (validators : list ValidatorInfo)
    (executors : list string) (assignments : Assigned) : list string * Assigned :=
  match validators with
  | [] => (executors, assignments)
  | v :: rest =>
      let '(assigned, executors) := take_executors (count v) executors in
      hand_out count rest executors
        (match assigned with [] => assignments | _ => <[vi_hotkey v := assigned]> assignments end)
  end.

(** The remaining executors, one for each online validator without any. *)
Fixpoint hand_out_rest (validators : list ValidatorInfo) (executors : list string)
    (assignments : Assigned) : Assigned :=
  match validators with
  | [] => assignments
  | v :: rest =>
      if bool_decide (assignments !! vi_hotkey v = None) && online v then
        match executors with
        | [] => hand_out_rest rest [] assignments
        | e :: executors => hand_out_rest rest executors (<[vi_hotkey v := [e]]> assignments)
        end
      else hand_out_rest rest executors assignments
  end.

Definition business_logic_assignment (preferred_validators : list string) (max_executors_per_validator : nat)
    (validators : list ValidatorInfo) (executors : list AvailableExecutor) : Assigned :=
  let preferred := List.filter (fun v => existsb (String.eqb (vi_hotkey v)) preferred_validators) validators in
  let '(executors, assignments) :=
    hand_out (fun _ => max_executors_per_validator) preferred (ae_id <$> executors) ∅ in
  hand_out_rest validators executors assignments.

(** The two shuffles are those of the random number generator. *)
Definition random_assignment (shuffle_executors : list AvailableExecutor -> list AvailableExecutor)
    (shuffle_validators : list ValidatorInfo -> list ValidatorInfo) (max_executors_per_validator : nat)
    (validators : list ValidatorInfo) (executors : list AvailableExecutor) : Assigned :=
  (hand_out (fun _ => max_executors_per_validator) (shuffle_validators (List.filter online validators))
     (ae_id <$> shuffle_executors executors) ∅).2.

(** [f64::round]: half away from zero. *)
Definition f64_round (x : f64) : f64 :=
  match x with
  | S754_finite s m e =>
      if 0 <=? e then x
      else
        let q := (2 * Zpos m + 2 ^ (- e)) / (2 * 2 ^ (- e)) in
        if q =? 0 then S754_zero s else f64_of_Z (if s then - q else q)
  | _ => x
  end.

Definition stake_executor_count (executors_per_tao : f64) (v : ValidatorInfo) : nat :=
  let tao_stake := f64_div (f64_of_Z (vi_stake v)) (f64_of_Z 1000000000) in
  Nat.max (Z.to_nat (f64_to_u64 (f64_round (f64_mul tao_stake executors_per_tao)))) 1.

Definition stake_based_assignment (min_stake_threshold : Z) (executors_per_tao : f64)
    (validators : list ValidatorInfo) (executors : list AvailableExecutor) : Assigned :=
  let eligible := sort_by (fun a b => vi_stake b <=? vi_stake a)
    (List.filter (fun v => (min_stake_threshold <=? vi_stake v) && online v) validators) in
  (hand_out (stake_executor_count executors_per_tao) eligible (ae_id <$> executors) ∅).2.

(** The [i]-th executor goes to eligible validator [i mod length]. *)
Fixpoint deal (eligible : list ValidatorInfo) (i : nat) (executors : list string) (assignments : Assigned) : Assigned :=
  match executors with
  | [] => assignments
  | e :: rest =>
      deal eligible (S i) rest
        (match eligible !! (i mod length eligible)%nat with
         | Some v => alter (fun l => l ++ [e]) (vi_hotkey v) assignments
         | None => assignments
         end)
  end.

Definition round_robin_assignment (validators : list ValidatorInfo) (executors : list AvailableExecutor) : Assigned :=
  let eligible := List.filter online validators in
  match eligible with
  | [] => ∅
  | _ =>
      filter (fun kv => kv.2 <> [])
        (deal eligible 0 (ae_id <$> executors)
           (foldl (fun m v => <[vi_hotkey v := []]> m) ∅ eligible))
  end.

(** [stake_map.get(hotkey).copied().unwrap_or(0.0)], for the rows the query returns. *)
Definition stake_in (stakes : gmap string f64) (v : ValidatorInfo) : f64 :=
  default f64_zero (stakes !! vi_hotkey v).

(** [None] is a panic of the comparison; hotkeys are ASCII, so that the slice of the log
    line is in order. *)
Definition highest_stake_assignment `{HashOrder} (lost : nat -> bool) (n : nat) (min_stake_threshold : f64)
    (validator_hotkey : option string) (validators : list ValidatorInfo) (executors : list AvailableExecutor)
    (d : AssignmentTables) : option Assigned * AssignmentTables :=
  match get_validator_stakes_above lost n min_stake_threshold d with
  | (Err _, d) => (Some ∅, d)
  | (Ok rows, d) =>
      let stakes : gmap string f64 :=
        foldl (fun m r => <[st_validator_hotkey r := st_stake_amount r]> m) ∅ rows in
      match ae_id <$> executors with
      | [] => (Some ∅, d)
      | ids =>
          (sorted ← sort_desc (stake_in stakes)
             (List.filter (fun v => online v && f64_leb min_stake_threshold (stake_in stakes v)) validators);
           Some (match (match validator_hotkey with
                        | Some target => List.find (fun v => String.eqb (vi_hotkey v) target) sorted
                        | None => head sorted
                        end) with
                 | Some v => {[vi_hotkey v := ids]}
                 | None => ∅
                 end), d)
      end
  end.

(** ** Discovery *)

(** The strategy is the trait object of the service. *)
Record ValidatorDiscovery := {
  assignments : Assigned;
  uses_assignment_db : bool
}.

(** [found]: the validators of the metagraph, or the error of asking for them. *)
Definition discover_and_assign `{HashOrder}
    (strategy : list ValidatorInfo -> list AvailableExecutor -> Assigned -> Assigned)
    (n : nat) (found : result string (list ValidatorInfo)) (m : ExecutorManager) (v : ValidatorDiscovery)
    : result string unit * ValidatorDiscovery :=
  match found with
  | Err e => (Err e, v)
  | Ok validators =>
      (Ok tt, {| assignments := strategy validators (list_available n m) (assignments v);
                 uses_assignment_db := uses_assignment_db v |})
  end.

(** With a database its rows decide, and none, or an error, is no assignment. *)
Definition get_validator_assignments `{HashOrder} (lost : nat -> bool) (n : nat) (validator_hotkey : string)
    (v : ValidatorDiscovery) (d : AssignmentTables) : option (list string) * AssignmentTables :=
  if uses_assignment_db v then
    match get_assignments_for_validator lost n validator_hotkey d with
    | (Ok [], d) | (Err _, d) => (None, d)
    | (Ok rows, d) => (Some (ea_executor_id <$> rows), d)
    end
  else (assignments v !! validator_hotkey, d).
