(* ===== verification/MinerSessions.v ===== *)
(** * SSH sessions of validators on executors

    basilica-miner: ssh/session_orchestrator.rs, with the executors registered in
    executors/connection_manager.rs.  A request is a program that takes the locks of the
    orchestrator one after the other, so requests interleave between its sections; a
    session spawns a task that sleeps until it expires.  A call to an executor, with its
    retries, is one section: it runs the client and the handler of ExecutorAccess.v on the
    process that listens at the endpoint.  What serde_json reads out of an answer's
    credentials is a parameter; audit lines are left out. *)

From stdpp Require Import base gmap strings list.
From Stdlib Require Import Ascii ZArith.
From S2P Require Import Prelude.
From S2P Require Import Text.
From S2P Require Import Signatures.
From S2P Require Import Decimal.
From S2P Require Import MinerAuth.
From S2P Require Import Collections.
From S2P Require Import AccessControl.
From S2P Require Import ExecutorAccess.
Local Open Scope Z_scope.

(** ** Messages and records *)

Inductive SshSessionStatus := SessionUnknown | SessionActive | SessionExpired | SessionFailed.

Definition is_active (s : SshSessionStatus) : bool := match s with SessionActive => true | _ => false end.

Definition status_code (s : SshSessionStatus) : Z :=
  match s with SessionUnknown => 0 | SessionActive => 1 | SessionExpired => 2 | SessionFailed => 3 end.

Record InitiateSshSessionRequest := {
  iq_validator_hotkey : string;
  iq_executor_id : string;
  iq_purpose : string;
  iq_validator_public_key : string;
  iq_session_duration_secs : Z;         (* i64 *)
  iq_session_metadata : string;
  iq_rental_mode : bool;
  iq_rental_id : string
}.

Record InitiateSshSessionResponse := {
  ir_session_id : string;
  ir_access_credentials : string;
  ir_expires_at : Z;
  ir_executor_id : string;
  ir_status : Z
}.

Record CloseSshSessionRequest := { cq_session_id : string; cq_validator_hotkey : string; cq_reason : string }.
Record CloseSshSessionResponse := { close_success : bool; close_message : string }.

Record ListSshSessionsRequest := { lq_validator_hotkey : string; lq_include_expired : bool }.

(** [SshSession] of the protocol. *)
Record ProtoSshSession := {
  pr_session_id : string; pr_executor_id : string; pr_validator_hotkey : string;
  pr_created_at : Z; pr_expires_at : Z; pr_status : Z
}.

Record SshSession := {
  ss_session_id : string;
  ss_validator_hotkey : string;
  ss_executor_id : string;
  ss_validator_public_key : string;
  ss_created_at : Z;
  ss_expires_at : Z;
  ss_status : SshSessionStatus;
  ss_purpose : string;
  ss_metadata : option string
}.

Record RateLimitInfo := { session_count : Z; window_start : Z }.

Record SshSessionConfig := {
  max_sessions_per_validator : Z;
  session_rate_limit : Z;
  cleanup_interval : Z;                 (* nanoseconds *)
  max_session_duration : Z;             (* nanoseconds *)
  enable_audit_log : bool
}.

Definition SshSessionConfig_default : SshSessionConfig := {|
  max_sessions_per_validator := 5; session_rate_limit := 20; cleanup_interval := seconds 60;
  max_session_duration := seconds 3600; enable_audit_log := true |}.

Record ExecutorInfo := {
  xi_id : uuid;
  xi_host : string;
  xi_ssh_port : Z;
  xi_ssh_username : string;
  xi_grpc_endpoint : option string
}.

(** The orchestrator, the registered executors, and the executors themselves by the
    endpoint they listen at. *)
Record Miner := {
  ssh_sessions : gmap string SshSession;
  sessions_by_validator : gmap string (list string);
  rate_limits : gmap string RateLimitInfo;
  executor_infos : gmap uuid ExecutorInfo;
  nodes : gmap string Executor
}.

Definition with_ssh_sessions (m : Miner) (s : gmap string SshSession) : Miner := {|
  ssh_sessions := s; sessions_by_validator := sessions_by_validator m; rate_limits := rate_limits m;
  executor_infos := executor_infos m; nodes := nodes m |}.
Definition with_by_validator (m : Miner) (s : gmap string (list string)) : Miner := {|
  ssh_sessions := ssh_sessions m; sessions_by_validator := s; rate_limits := rate_limits m;
  executor_infos := executor_infos m; nodes := nodes m |}.
Definition with_rate_limits (m : Miner) (r : gmap string RateLimitInfo) : Miner := {|
  ssh_sessions := ssh_sessions m; sessions_by_validator := sessions_by_validator m; rate_limits := r;
  executor_infos := executor_infos m; nodes := nodes m |}.
Definition with_infos (m : Miner) (i : gmap uuid ExecutorInfo) : Miner := {|
  ssh_sessions := ssh_sessions m; sessions_by_validator := sessions_by_validator m;
  rate_limits := rate_limits m; executor_infos := i; nodes := nodes m |}.
Definition with_nodes (m : Miner) (x : gmap string Executor) : Miner := {|
  ssh_sessions := ssh_sessions m; sessions_by_validator := sessions_by_validator m;
  rate_limits := rate_limits m; executor_infos := executor_infos m; nodes := x |}.

(** ** Registered executors *)

Definition register_executor (info : ExecutorInfo) (m : Miner) : Miner :=
  with_infos m (<[xi_id info := info]> (executor_infos m)).
Definition unregister_executor (id : uuid) (m : Miner) : Miner :=
  with_infos m (delete id (executor_infos m)).

Definition get_executor_info `{UuidText} (executor_id : string) (m : Miner) : result string ExecutorInfo :=
  match uuid_parse_str executor_id with
  | None => Err "Invalid executor ID"
  | Some id =>
      match executor_infos m !! id with
      | Some info => Ok info
      | None => Err ("Executor " +:+ uuid_to_string id +:+ " not found")
      end
  end.

(** ** Programs *)

(** What a section reads: the clock, a random identifier, the network for a call, and the
    order of the session map. *)
Section Programs.
Context `{Crypto} `{UuidText}.

Record StepEnv := { step_now : Z; step_uuid : uuid; step_call : ClientEnv; step_order : nat }.

Inductive Reply :=
  | Created (r : result string InitiateSshSessionResponse)
  | Closed (r : result string CloseSshSessionResponse)
  | Listed (l : list ProtoSshSession)
  | Finished.

(** A section changes the state, may spawn a task that sleeps until a time, and goes on. *)
Inductive Prog :=
  | Done (r : Reply)
  | Locked (f : StepEnv -> Miner -> Miner * option (Z * Prog) * Prog).

Context (default_hash : string -> N) `{!ProstMessage ProvisionAccessRequest} `{HashOrder}.
Context (client : ExecutorGrpcClient) (credentials_username : string -> option string).
Context (cfg : SshSessionConfig).

(** The client of the miner calls the executor at [endpoint], if one listens there. *)
Definition call_executor (env : ClientEnv) (endpoint validator_hotkey public_key : string) (duration : Z)
    (metadata : option string) (m : Miner) : result string ProvisionAccessResponse * Miner :=
  match nodes m !! endpoint with
  | None => (Err "Failed to connect to executor", m)
  | Some x =>
      match provision_validator_access default_hash client env validator_hotkey public_key duration metadata x with
      | Some (r, _, x') => (r, with_nodes m (<[endpoint := x']> (nodes m)))
      | None => (Err "Failed to connect to executor", m)
      end
  end.

(** serde_json prints the keys of an object in order. *)
Definition rental_metadata (permissions : string) : string :=
  let quoted s := String "034" (s +:+ String "034" "") in
  "{" +:+ quoted "docker_access" +:+ ":true," +:+ quoted "permissions" +:+ ":" +:+ quoted permissions
  +:+ "," +:+ quoted "rental_mode" +:+ ":true}".

Definition add_validator_key_to_executor (env : ClientEnv) (info : ExecutorInfo) (validator_hotkey public_key : string)
    (duration : Z) (permissions : string) (rental_mode : bool) (m : Miner) : result string string * Miner :=
  match xi_grpc_endpoint info with
  | None => (Err "Executor has no gRPC endpoint configured", m)
  | Some endpoint =>
      match call_executor env endpoint validator_hotkey public_key duration
              (if rental_mode then Some (rental_metadata permissions) else None) m with
      | (Err _, m) => (Err "Failed to provision validator access via gRPC", m)
      | (Ok response, m) =>
          if negb (success response) then
            (Err ("Failed to add validator key: " +:+ default "Unknown error" (response_error response)), m)
          else (Ok (default (xi_ssh_username info) (credentials_username (credentials response))), m)
      end
  end.

(** A duration of zero is meant to revoke the access. *)
Definition revoke_on_executor (env : ClientEnv) (info : ExecutorInfo) (s : SshSession) (m : Miner)
    : result string unit * Miner :=
  match xi_grpc_endpoint info with
  | None => (Err "Executor has no gRPC endpoint configured", m)
  | Some endpoint =>
      match call_executor env endpoint (ss_validator_hotkey s) (ss_validator_public_key s) 0 None m with
      | (Err _, m) => (Err "Failed to revoke validator access via gRPC", m)
      | (Ok response, m) =>
          if negb (success response) then
            (Err ("Failed to remove validator key: " +:+ default "Unknown error" (response_error response)), m)
          else (Ok tt, m)
      end
  end.

Definition remove_validator_key_from_executor (s : SshSession) (k : result string unit -> Prog) : Prog :=
  Locked (fun _ m =>
    (m, None,
     match get_executor_info (ss_executor_id s) m with
     | Err _ => k (Err "Failed to get executor information")
     | Ok info =>
         Locked (fun env m => let '(r, m) := revoke_on_executor (step_call env) info s m in (m, None, k r))
     end)).

(** ** Limits *)

Definition request_duration (req : InitiateSshSessionRequest) : Z :=
  seconds (wrap 64 (iq_session_duration_secs req)).

Definition validate_session_request (req : InitiateSshSessionRequest) : result string unit :=
  if (String.length (iq_validator_public_key req) =? 0)%nat then Err "Validator public key is required"
  else if negb (String.prefix "ssh-" (iq_validator_public_key req)) then Err "Invalid SSH public key format"
  else if max_session_duration cfg <? request_duration req then
    Err ("Session duration exceeds maximum allowed: " +:+ show_int (wrap 64 (iq_session_duration_secs req))
         +:+ " > " +:+ show_int (max_session_duration cfg / seconds 1))
  else if wrap 64 (iq_session_duration_secs req) =? 0 then Err "Session duration must be greater than 0"
  else Ok tt.

(** The window starts anew an hour after its start. *)
Definition current_window (now : Z) (v : string) (m : Miner) : RateLimitInfo :=
  let info := default {| session_count := 0; window_start := now |} (rate_limits m !! v) in
  if window_start info + hours 1 <? now then {| session_count := 0; window_start := now |} else info.

Definition check_rate_limits (now : Z) (v : string) (m : Miner) : result string unit * Miner :=
  let info := current_window now v m in
  if session_rate_limit cfg <=? session_count info then
    (Err ("Rate limit exceeded: " +:+ show_int (session_rate_limit cfg) +:+ " sessions per hour"),
     with_rate_limits m (<[v := info]> (rate_limits m)))
  else
    (Ok tt, with_rate_limits m (<[v := {| session_count := session_count info + 1;
                                          window_start := window_start info |}]> (rate_limits m))).

Definition active_of (v : string) (s : SshSession) : bool :=
  String.eqb (ss_validator_hotkey s) v && is_active (ss_status s).

Definition active_count (v : string) (m : Miner) : Z :=
  Z.of_nat (length (List.filter (active_of v) (map_to_list (ssh_sessions m)).*2)).

Definition check_concurrent_limits (v : string) (m : Miner) : result string unit :=
  if max_sessions_per_validator cfg <=? active_count v m then
    Err ("Concurrent session limit exceeded: " +:+ show_int (max_sessions_per_validator cfg) +:+ " active sessions")
  else Ok tt.

(** ** Requests *)

Definition with_status (status : SshSessionStatus) (s : SshSession) : SshSession := {|
  ss_session_id := ss_session_id s; ss_validator_hotkey := ss_validator_hotkey s;
  ss_executor_id := ss_executor_id s; ss_validator_public_key := ss_validator_public_key s;
  ss_created_at := ss_created_at s; ss_expires_at := ss_expires_at s; ss_status := status;
  ss_purpose := ss_purpose s; ss_metadata := ss_metadata s |}.

Definition expire (id : string) (m : Miner) : Miner :=
  with_ssh_sessions m (alter (with_status SessionExpired) id (ssh_sessions m)).

Definition cleanup_expired_session (id : string) (k : Prog) : Prog :=
  Locked (fun _ m =>
    (m, None,
     match ssh_sessions m !! id with
     | Some s =>
         if is_active (ss_status s) then
           remove_validator_key_from_executor s (fun _ => Locked (fun _ m => (expire id m, None, k)))
         else k
     | None => k
     end)).

Definition new_ssh_session (req : InitiateSshSessionRequest) (id : string) (now : Z) : SshSession := {|
  ss_session_id := id; ss_validator_hotkey := iq_validator_hotkey req; ss_executor_id := iq_executor_id req;
  ss_validator_public_key := iq_validator_public_key req; ss_created_at := now;
  ss_expires_at := now + request_duration req; ss_status := SessionActive; ss_purpose := iq_purpose req;
  ss_metadata := Some (iq_session_metadata req) |}.

(** The session is stored, then listed under its validator, and its expiry is scheduled. *)
Definition store_session (req : InitiateSshSessionRequest) (info : ExecutorInfo) (username id : string) (now : Z) : Prog :=
  Locked (fun _ m =>
    (with_ssh_sessions m (<[id := new_ssh_session req id now]> (ssh_sessions m)), None,
     Locked (fun env m =>
       let v := iq_validator_hotkey req in
       (with_by_validator m (<[v := default [] (sessions_by_validator m !! v) ++ [id]]> (sessions_by_validator m)),
        Some (step_now env + request_duration req, cleanup_expired_session id (Done Finished)),
        Done (Created (Ok {|
          ir_session_id := id;
          ir_access_credentials := username +:+ "@" +:+ xi_host info +:+ ":" +:+ show_int (xi_ssh_port info);
          ir_expires_at := (now + request_duration req) / seconds 1;
          ir_executor_id := iq_executor_id req; ir_status := status_code SessionActive |})))))).

Definition session_permissions (req : InitiateSshSessionRequest) : result string string :=
  if iq_rental_mode req then
    if (String.length (iq_rental_id req) =? 0)%nat then Err "Rental ID is required when rental_mode is true"
    else Ok "rental"
  else Ok "validation".

(** The key goes to the executor; the session is dated by the clock after the call. *)
Definition provision_session (req : InitiateSshSessionRequest) (info : ExecutorInfo) (id permissions : string) : Prog :=
  Locked (fun env m =>
    let '(r, m) := add_validator_key_to_executor (step_call env) info (iq_validator_hotkey req)
      (iq_validator_public_key req) (wrap 64 (iq_session_duration_secs req)) permissions (iq_rental_mode req) m in
    (m, None,
     match r with
     | Err e => Done (Created (Err e))
     | Ok username => store_session req info username id (step_now env)
     end)).

Definition create_session (req : InitiateSshSessionRequest) : Prog :=
  match validate_session_request req with
  | Err e => Done (Created (Err e))
  | Ok _ =>
      Locked (fun env m =>
        let '(r, m) := check_rate_limits (step_now env) (iq_validator_hotkey req) m in
        (m, None,
         match r with
         | Err e => Done (Created (Err e))
         | Ok _ =>
             Locked (fun env m =>
               (m, None,
                match check_concurrent_limits (iq_validator_hotkey req) m with
                | Err e => Done (Created (Err e))
                | Ok _ =>
                    let id := "ssh-session-" +:+ uuid_to_string (step_uuid env) in
                    Locked (fun _ m =>
                      (m, None,
                       match get_executor_info (iq_executor_id req) m with
                       | Err _ => Done (Created (Err "Failed to get executor information"))
                       | Ok info =>
                           match session_permissions req with
                           | Err e => Done (Created (Err e))
                           | Ok permissions => provision_session req info id permissions
                           end
                       end))
                end))
         end))
  end.

Definition close_session (req : CloseSshSessionRequest) : Prog :=
  Locked (fun _ m =>
    (m, None,
     match ssh_sessions m !! cq_session_id req with
     | None => Done (Closed (Err ("Session not found: " +:+ cq_session_id req)))
     | Some s =>
         if negb (String.eqb (ss_validator_hotkey s) (cq_validator_hotkey req)) then
           Done (Closed (Err "Unauthorized: not session owner"))
         else
           remove_validator_key_from_executor s (fun r =>
             match r with
             | Err e => Done (Closed (Err e))
             | Ok _ =>
                 Locked (fun _ m =>
                   (expire (cq_session_id req) m, None,
                    Done (Closed (Ok {| close_success := true; close_message := "Session closed successfully" |}))))
             end)
     end)).

Definition proto_session (s : SshSession) : ProtoSshSession := {|
  pr_session_id := ss_session_id s; pr_executor_id := ss_executor_id s; pr_validator_hotkey := ss_validator_hotkey s;
  pr_created_at := ss_created_at s / seconds 1; pr_expires_at := ss_expires_at s / seconds 1;
  pr_status := status_code (ss_status s) |}.

Definition list_sessions (req : ListSshSessionsRequest) : Prog :=
  Locked (fun env m =>
    (m, None, Done (Listed (proto_session <$>
       List.filter (fun s => String.eqb (ss_validator_hotkey s) (lq_validator_hotkey req)
                             && (lq_include_expired req || is_active (ss_status s)))
         (values (step_order env) "ssh_sessions" (ssh_sessions m)))))).

(** One turn of the clean-up task. *)
Definition run_cleanup_task : Prog :=
  Locked (fun env m =>
    let now := step_now env in
    let expired := List.filter (fun s => (ss_expires_at s <? now) && is_active (ss_status s))
                     (values (step_order env) "ssh_sessions" (ssh_sessions m)) in
    (m, None,
     foldr (fun s k => cleanup_expired_session (ss_session_id s) k)
       (Locked (fun _ m =>
          (with_ssh_sessions m (filter (fun kv => is_active (ss_status kv.2) || (now - hours 24 <? ss_expires_at kv.2) = true)
             (ssh_sessions m)), None, Done Finished)))
       expired)).

(** ** Schedules *)

Inductive Request :=
  | CreateRequest (r : InitiateSshSessionRequest)
  | CloseRequest (r : CloseSshSessionRequest)
  | ListRequest (r : ListSshSessionsRequest)
  | CleanupTick.

Definition program (r : Request) : Prog :=
  match r with
  | CreateRequest r => create_session r
  | CloseRequest r => close_session r
  | ListRequest r => list_sessions r
  | CleanupTick => run_cleanup_task
  end.

Inductive Task := Running (p : Prog) | Sleeping (wake : Z) (p : Prog).

Record Service := { service_miner : Miner; tasks : list Task }.

Inductive Action :=
  | Start (r : Request)
  | Step (i : nat) (env : StepEnv)
  | Register (info : ExecutorInfo)
  | Unregister (id : uuid).

Definition spawned (o : option (Z * Prog)) : list Task :=
  match o with Some (wake, p) => [Sleeping wake p] | None => [] end.

Definition act (s : Service) (a : Action) : Service :=
  match a with
  | Start r => {| service_miner := service_miner s; tasks := tasks s ++ [Running (program r)] |}
  | Register info => {| service_miner := register_executor info (service_miner s); tasks := tasks s |}
  | Unregister id => {| service_miner := unregister_executor id (service_miner s); tasks := tasks s |}
  | Step i env =>
      match tasks s !! i with
      | Some (Running (Locked f)) =>
          let '(m, o, p) := f env (service_miner s) in
          {| service_miner := m; tasks := <[i := Running p]> (tasks s) ++ spawned o |}
      | Some (Sleeping wake p) =>
          if wake <=? step_now env then
            {| service_miner := service_miner s; tasks := <[i := Running p]> (tasks s) |}
          else s
      | _ => s
      end
  end.

Definition run (m : Miner) (actions : list Action) : Service :=
  foldl act {| service_miner := m; tasks := [] |} actions.
End Programs.
