(* ===== verification/MinerService.v ===== *)
(** * The miner's service for validators

    basilica-miner: validator_comms.rs, the requests of [MinerDiscoveryService]:
    authentication by signature, which issues a token, offers of executors for a token,
    and SSH sessions.  It ties together the token service (JwtAuth.v), the health and the
    assignment of executors (ExecutorPool.v, Assignments.v), signatures and the session
    orchestrator.  Messages leave out the text of library errors; the answer to a lease
    keeps the fields the code fills from data, and drops its constants.  The older
    request for executor sessions through ssh_access_service is not modelled. *)

From stdpp Require Import base gmap strings list.
From Stdlib Require Import Ascii ZArith.
From S2P Require Import Prelude.
From S2P Require Import Bytes.
From S2P Require Import Text.
From S2P Require Import Float64.
From S2P Require Import TextOps.
From S2P Require Import Signatures.
From S2P Require Import Decimal.
From S2P Require Import MinerAuth.
From S2P Require Import Collections.
From S2P Require Import JwtAuth.
From S2P Require Import Assignments.
From S2P Require Import ExecutorPool.
Local Open Scope Z_scope.

Inductive GrpcStatus :=
  | InvalidArgument (message : string)
  | PermissionDenied (message : string)
  | Unauthenticated (message : string)
  | Internal (message : string)
  | Panicked.                          (* a panic of the handler *)

Record SecurityConfig := {
  allowed_validators : list string;
  verify_request_signatures : bool;
  sc_token_expiration : Z              (* nanoseconds *)
}.

Record ValidatorAuthRequest := {
  aq_validator_hotkey : string;
  aq_signature : string;
  aq_nonce : string;
  aq_timestamp : option Z;             (* seconds *)
  aq_target_miner_hotkey : string
}.

Record MinerAuthResponse := {
  session_token : string;
  token_expires_at : Z;
  response_miner_hotkey : string;
  miner_signature : string;
  response_nonce : string
}.

Record GpuSpec := {
  gs_model : string;
  gs_memory_mb : Z;
  gs_uuid : string;
  gs_utilization_percent : f64;
  gs_memory_utilization_percent : f64
}.

Record ResourceLimits := { max_cpu_cores : Z; max_memory_mb : Z; max_gpus : Z }.

Record ExecutorConnectionDetails := {
  cd_executor_id : string;
  cd_grpc_endpoint : string;
  cd_gpu_spec : option GpuSpec;
  cd_available_resources : option ResourceLimits
}.

Record MinerDiscoveryService := {
  security_config : SecurityConfig;
  executor_manager : ExecutorManager;
  jwt_service : JwtAuthService;
  validator_discovery : option ValidatorDiscovery;
  assignment_tables : AssignmentTables;
  signer : option Signer               (* the Bittensor service *)
}.

Definition with_jwt (s : MinerDiscoveryService) (j : JwtAuthService) : MinerDiscoveryService := {|
  security_config := security_config s; executor_manager := executor_manager s; jwt_service := j;
  validator_discovery := validator_discovery s; assignment_tables := assignment_tables s; signer := signer s |}.
Definition with_manager (s : MinerDiscoveryService) (m : ExecutorManager) : MinerDiscoveryService := {|
  security_config := security_config s; executor_manager := m; jwt_service := jwt_service s;
  validator_discovery := validator_discovery s; assignment_tables := assignment_tables s; signer := signer s |}.
Definition with_assignment_tables (s : MinerDiscoveryService) (d : AssignmentTables) : MinerDiscoveryService := {|
  security_config := security_config s; executor_manager := executor_manager s; jwt_service := jwt_service s;
  validator_discovery := validator_discovery s; assignment_tables := d; signer := signer s |}.

Section Service.
Context `{Crypto} `{UuidText} `{Jwt} `{HashOrder}.

(** ** Authentication *)

(** What a request reads: the times of the freshness check and of the token, the random
    identifiers, lost statements. *)
Record AuthEnv := {
  checked_now : Z;
  issued_now : Z;
  session_draw : uuid;
  token_draw : uuid;
  response_draw : uuid;
  answered_now : Z;
  auth_lost : nat -> bool
}.

Definition timestamp_secs (r : ValidatorAuthRequest) : Z := default 0 (aq_timestamp r).

Definition canonical_payload (r : ValidatorAuthRequest) : string :=
  "BASILICA_AUTH_V1:" +:+ aq_nonce r +:+ ":" +:+ aq_target_miner_hotkey r +:+ ":" +:+ show_int (timestamp_secs r).

Definition legacy_payload (r : ValidatorAuthRequest) : string :=
  aq_nonce r +:+ ":" +:+ aq_target_miner_hotkey r.

(** A fresh canonical signature, a canonical one without a time, or a legacy one. *)
Definition check_signature (now : Z) (r : ValidatorAuthRequest) : result GrpcStatus unit :=
  match Hotkey_new (aq_validator_hotkey r) with
  | Err _ => Err (InvalidArgument "Invalid hotkey")
  | Ok h =>
      if is_Ok (chain_verify_signature h (aq_signature r) (into_bytes (canonical_payload r))) then
        if (0 <? timestamp_secs r) && (300 <? Z.abs (timestamp now - timestamp_secs r)) then
          Err (Unauthenticated "Authentication timestamp outside allowed window (5 minutes)")
        else Ok tt
      else
        if is_Ok (chain_verify_signature h (aq_signature r) (into_bytes (legacy_payload r))) then Ok tt
        else Err (Unauthenticated "Invalid signature")
  end.

Definition check_target (s : MinerDiscoveryService) (r : ValidatorAuthRequest) : result GrpcStatus unit :=
  if (String.length (trim (aq_target_miner_hotkey r)) =? 0)%nat then
    Err (InvalidArgument "target_miner_hotkey is required")
  else match signer s with
       | Some k =>
           if String.eqb (aq_target_miner_hotkey r) (account_text k) then Ok tt
           else Err (PermissionDenied "Authentication request not intended for this miner")
       | None => Ok tt
       end.

Definition check_allowed (s : MinerDiscoveryService) (r : ValidatorAuthRequest) : result GrpcStatus unit :=
  match allowed_validators (security_config s) with
  | [] => Ok tt
  | allowed =>
      match Hotkey_new (aq_validator_hotkey r) with
      | Err _ => Err (InvalidArgument "Invalid hotkey")
      | Ok h => if existsb (String.eqb h) allowed then Ok tt else Err (PermissionDenied "Validator not authorized")
      end
  end.

Definition validator_permissions : list string := ["executor.list"; "executor.access"; "executor.lease"].

(** The answer is signed when the miner can sign. *)
Definition sign_response (env : AuthEnv) (s : MinerDiscoveryService) (hotkey token : string)
    : result GrpcStatus MinerAuthResponse :=
  let expires_at := answered_now env + sc_token_expiration (security_config s) / nanos * nanos in
  match signer s with
  | None => Ok {| session_token := token; token_expires_at := expires_at; response_miner_hotkey := "";
                  miner_signature := ""; response_nonce := "" |}
  | Some k =>
      let nonce := uuid_to_string (response_draw env) in
      match sign_data k (into_bytes ("MINER_AUTH_RESPONSE:" +:+ hotkey +:+ ":" +:+ nonce +:+ ":" +:+ token)) with
      | Err _ => Err (Internal "Failed to sign authentication response")
      | Ok signature => Ok {| session_token := token; token_expires_at := expires_at;
                              response_miner_hotkey := account_text k; miner_signature := signature; response_nonce := nonce |}
      end
  end.

(** The interaction is recorded, which may fail, before the token is made. *)
Definition issue_token (env : AuthEnv) (r : ValidatorAuthRequest) (s : MinerDiscoveryService)
    : result GrpcStatus MinerAuthResponse * MinerDiscoveryService :=
  let '(_, d) := update_validator_interaction (auth_lost env) (aq_validator_hotkey r) true (db (executor_manager s)) in
  let s := with_manager s (with_db (executor_manager s) d) in
  match Hotkey_new (aq_validator_hotkey r) with
  | Err _ => (Err (InvalidArgument "Invalid hotkey"), s)
  | Ok h =>
      match generate_token (issued_now env) (token_draw env) h
              ("session_" +:+ uuid_to_string (session_draw env)) validator_permissions None (jwt_service s) with
      | (Err _, j) => (Err (Internal "Failed to generate authentication token"), with_jwt s j)
      | (Ok token, j) => (sign_response env s (aq_validator_hotkey r) token, with_jwt s j)
      end
  end.

Definition authenticate_validator (env : AuthEnv) (r : ValidatorAuthRequest) (s : MinerDiscoveryService)
    : result GrpcStatus MinerAuthResponse * MinerDiscoveryService :=
  match check_target s r with
  | Err e => (Err e, s)
  | Ok _ =>
      match (if verify_request_signatures (security_config s) then check_signature (checked_now env) r else Ok tt) with
      | Err e => (Err e, s)
      | Ok _ =>
          match check_allowed s r with
          | Err e => (Err e, s)
          | Ok _ => issue_token env r s
          end
      end
  end.

(** ** Offers of executors *)

Record LeaseEnv := { decoded_now : Z; activity_now : Z; lease_lost : nat -> bool; lease_order : nat }.

(** [&s[..8.min(s.len())]]; inside a character it panics. *)
Definition first_eight (s : string) : option string :=
  let n := Nat.min 8 (String.length s) in
  if is_char_boundary n s then Some (take_str n s) else None.

(** The ratio of the memory to 1.2 times itself. *)
Definition memory_utilization (gpu_memory : Z) : f64 :=
  if 0 <? gpu_memory then
    f64_min (f64_div (f64_of_Z gpu_memory) (f64_mul (f64_of_Z gpu_memory) (f64_lit 12 10))) (f64_of_Z 100)
  else f64_zero.

(** [None] is a panic. *)
Definition create_gpu_spec_from_executor (x : AvailableExecutor) : option (option GpuSpec) :=
  if ae_gpu_count x =? 0 then Some None
  else
    name ← first_eight (ae_id x);
    let '(utilization, memory) :=
      match ae_resources x with
      | Some r => (default f64_zero (head (gpu_utilization r)), default 0 (head (gpu_memory_mb r)))
      | None => (f64_zero, 0)
      end in
    Some (Some {| gs_model := "GPU-" +:+ name; gs_memory_mb := memory; gs_uuid := "gpu-" +:+ ae_id x +:+ "-0";
                  gs_utilization_percent := utilization; gs_memory_utilization_percent := memory_utilization memory |}).

Definition connection_details (x : AvailableExecutor) : option ExecutorConnectionDetails :=
  spec ← create_gpu_spec_from_executor x;
  Some {| cd_executor_id := ae_id x; cd_grpc_endpoint := ae_grpc_address x; cd_gpu_spec := spec;
          cd_available_resources := (fun r => {| max_cpu_cores := f64_to_uint 4294967295 (cpu_percent r);
            max_memory_mb := memory_mb r; max_gpus := ae_gpu_count x |}) <$> ae_resources x |}.

(** With discovery, the healthy executors among those assigned to the validator. *)
Definition offered_executors (env : LeaseEnv) (validator : string) (s : MinerDiscoveryService)
    : list AvailableExecutor * MinerDiscoveryService :=
  match validator_discovery s with
  | None => (list_available (lease_order env) (executor_manager s), s)
  | Some v =>
      let '(assigned, d) := get_validator_assignments (lease_lost env) (lease_order env) validator v (assignment_tables s) in
      (match assigned with
       | Some ids => List.filter (fun x => existsb (String.eqb (ae_id x)) ids)
                       (list_available (lease_order env) (executor_manager s))
       | None => []
       end, with_assignment_tables s d)
  end.

Definition request_executor_lease (env : LeaseEnv) (token : string) (s : MinerDiscoveryService)
    : result GrpcStatus (list ExecutorConnectionDetails) * MinerDiscoveryService :=
  match validate_token (decoded_now env) (activity_now env) token (jwt_service s) with
  | (Err _, j) => (Err (Unauthenticated "Invalid or expired session token"), with_jwt s j)
  | (Ok claims, j) =>
      let s := with_jwt s j in
      if negb (existsb (String.eqb "executor.list") (claim_permissions claims)) then
        (Err (PermissionDenied "Insufficient permissions"), s)
      else
        let '(l, s) := offered_executors env (sub claims) s in
        match mapM connection_details l with
        | None => (Err Panicked, s)
        | Some details => (Ok details, s)
        end
  end.
End Service.
