(* ===== verification/MinerClaims.v ===== *)
(** * The service of a miner: executors given and offered

    What the strategies of a miner give out, and what an authenticated validator is
    offered. *)

From stdpp Require Import base gmap strings list.
From Stdlib Require Import Ascii ZArith.
From S2P Require Import Prelude.
From S2P Require Import Bytes.
From S2P Require Import Text.
From S2P Require Import Float64.
From S2P Require Import TextOps.
From S2P Require Import Signatures.
From S2P Require Import Decimal.
From S2P Require Import MinerAuth.
From S2P Require Import AuthClaims.
From S2P Require Import Collections.
From S2P Require Import JwtAuth.
From S2P Require Import JwtClaims.
From S2P Require Import Assignments.
From S2P Require Import ExecutorPool.
From S2P Require Import MinerService.
Local Open Scope Z_scope.

(** ** Every executor once *)

(** All executors given out, with their number. *)
Definition given (a : Assigned) : list string := mjoin (map_to_list a).*2.

Lemma given_empty : given ∅ = [].
Proof. unfold given. by rewrite map_to_list_empty. Qed.

Lemma given_insert_fresh a h l : a !! h = None -> given (<[h := l]> a) ≡ₚ l ++ given a.
Proof. intros Hh. unfold given. by rewrite map_to_list_insert. Qed.

Lemma given_singleton h l : given {[h := l]} = l.
Proof. unfold given. rewrite map_to_list_singleton. cbn. apply app_nil_r. Qed.

Lemma given_delete a h l : a !! h = Some l -> given a ≡ₚ l ++ given (delete h a).
Proof.
  intros Hh. rewrite <- (insert_delete_id a h l Hh) at 1. apply given_insert_fresh, lookup_delete_eq.
Qed.

Lemma given_insert a h l : given (<[h := l]> a) ⊆+ l ++ given a.
Proof.
  rewrite <- insert_delete_eq, given_insert_fresh by apply lookup_delete_eq.
  apply submseteq_skips_l. destruct (a !! h) as [l'|] eqn:Hh.
  - rewrite (given_delete a h l' Hh). by apply submseteq_inserts_l.
  - by rewrite delete_id.
Qed.

Lemma given_alter a h l e : a !! h = Some l -> given (alter (fun l => l ++ [e]) h a) ≡ₚ e :: given a.
Proof.
  intros Hh. rewrite (given_delete (alter _ _ _) h (l ++ [e])), delete_alter_eq, (given_delete a h l Hh).
  - rewrite <- app_assoc. symmetry. apply Permutation_middle.
  - by rewrite lookup_alter_eq, Hh.
Qed.

Lemma given_nonempty a : given (filter (fun kv => kv.2 <> []) a) ≡ₚ given a.
Proof.
  induction a as [|h l a Hh Hf IH] using map_first_key_ind; [done|].
  destruct (decide (l = [])) as [->|Hl].
  - rewrite map_filter_insert_False by naive_solver. rewrite delete_id by done.
    by rewrite given_insert_fresh.
  - rewrite map_filter_insert_True by done.
    rewrite !given_insert_fresh; [by rewrite IH|done|]. apply map_lookup_filter_None. by left.
Qed.

(** *** Handing out in turn *)

Lemma hand_out_given count validators : forall executors a,
  (hand_out count validators executors a).1 ++ given (hand_out count validators executors a).2
  ⊆+ executors ++ given a.
Proof.
  induction validators as [|v rest IH]; intros executors a; [done|]. cbn [hand_out take_executors].
  etrans; [apply IH|]. set (l := take (count v) executors).
  assert (given (match l with [] => a | _ => <[vi_hotkey v := l]> a end) ⊆+ l ++ given a) as Hg.
  { destruct l; [done|]. apply given_insert. }
  rewrite <- (take_drop (count v) executors) at 2. fold l. rewrite <- app_assoc, (Permutation_app_comm l).
  rewrite <- app_assoc. apply submseteq_skips_l. by rewrite (Permutation_app_comm (given a)).
Qed.

Lemma hand_out_rest_given validators : forall executors a,
  given (hand_out_rest validators executors a) ⊆+ executors ++ given a.
Proof.
  induction validators as [|v rest IH]; intros executors a; cbn [hand_out_rest]; [by apply submseteq_inserts_l|].
  destruct (_ && _); [|apply IH]. destruct executors as [|e executors]; [apply IH|].
  etrans; [apply IH|]. etrans; [apply submseteq_skips_l, given_insert|]. cbn.
  by rewrite <- Permutation_middle.
Qed.

(** *** Round robin *)

Lemma alter_present (a : Assigned) h e w :
  is_Some (a !! w) -> is_Some (alter (fun l : list string => l ++ [e]) h a !! w).
Proof. rewrite lookup_alter_is_Some. done. Qed.

(** The validator whose turn it is. *)
Lemma turn_Some (eligible : list ValidatorInfo) i :
  eligible <> [] -> exists v, eligible !! (i mod length eligible)%nat = Some v.
Proof.
  intros Hne. apply lookup_lt_is_Some, Nat.mod_upper_bound. by destruct eligible.
Qed.

Lemma deal_given eligible : forall executors i a,
  eligible <> [] -> (forall v, v ∈ eligible -> is_Some (a !! vi_hotkey v)) ->
  given (deal eligible i executors a) ≡ₚ executors ++ given a.
Proof.
  intros executors. induction executors as [|e rest IH]; intros i a Hne Ha; [done|]. cbn [deal].
  destruct (turn_Some eligible i Hne) as [v Hv]. rewrite Hv.
  destruct (Ha v) as [l Hl]; [by eapply list_elem_of_lookup_2|].
  rewrite IH, (given_alter _ _ _ _ Hl) by (try done; intros w Hw; by apply alter_present, Ha).
  cbn. by rewrite <- Permutation_middle.
Qed.

(** The executors dealt to the validator at [j], of [n]. *)
Fixpoint dealt (n j i : nat) (executors : list string) : list string :=
  match executors with
  | [] => []
  | e :: rest => (if (i mod n =? j)%nat then [e] else []) ++ dealt n j (S i) rest
  end.

Lemma deal_share eligible j v : NoDup (vi_hotkey <$> eligible) -> eligible !! j = Some v ->
  forall executors i a l, a !! vi_hotkey v = Some l ->
  deal eligible i executors a !! vi_hotkey v = Some (l ++ dealt (length eligible) j i executors).
Proof.
  intros Hnd Hj. induction executors as [|e rest IH]; intros i a l Hl; cbn [deal dealt]; [by rewrite app_nil_r|].
  destruct (turn_Some eligible i) as [w Hw]; [by intros ->|]. rewrite Hw.
  destruct (i mod length eligible =? j)%nat eqn:E.
  - apply Nat.eqb_eq in E. rewrite E, Hj in Hw. injection Hw as <-.
    rewrite (IH _ _ (l ++ [e])); [by rewrite <- app_assoc|]. by rewrite lookup_alter_eq, Hl.
  - apply Nat.eqb_neq in E. apply IH. rewrite lookup_alter_ne; [done|]. intros Hk. apply E.
    apply (NoDup_lookup _ _ _ (vi_hotkey v) Hnd); by rewrite list_lookup_fmap, ?Hw, ?Hj; cbn; rewrite ?Hk.
Qed.

Lemma dealt_length n j : (j < n)%nat -> forall executors i,
  (length (dealt n j i executors) + (i + (n - 1 - j)) / n = (i + length executors + (n - 1 - j)) / n)%nat.
Proof.
  intros Hj. induction executors as [|e rest IH]; intros i; cbn [dealt length]; [by rewrite Nat.add_0_r|].
  specialize (IH (S i)). rewrite length_app.
  replace (i + S (length rest))%nat with (S i + length rest)%nat by lia. rewrite <- IH.
  pose proof (Nat.div_mod i n ltac:(lia)) as Hi. pose proof (Nat.mod_upper_bound i n ltac:(lia)) as Hr.
  set (q := (i / n)%nat) in *. set (r := (i mod n)%nat) in *.
  assert (forall c s, (s < n)%nat -> (n * c + s) / n = c)%nat as Hdiv
    by (intros c s Hs; symmetry; by apply (Nat.div_unique _ _ _ s)).
  destruct (r =? j)%nat eqn:E; cbn [length]; b2p.
  - apply Nat.eqb_eq in E. replace (i + (n - 1 - j))%nat with (n * q + (n - 1))%nat by lia.
    replace (S i + (n - 1 - j))%nat with (n * (q + 1) + 0)%nat by lia. rewrite !Hdiv by lia. lia.
  - apply Nat.eqb_neq in E. enough ((i + (n - 1 - j)) / n = (S i + (n - 1 - j)) / n)%nat by lia.
    destruct (decide (r < j)%nat).
    + replace (i + (n - 1 - j))%nat with (n * q + (r + (n - 1 - j)))%nat by lia.
      replace (S i + (n - 1 - j))%nat with (n * q + (r + (n - j)))%nat by lia. by rewrite !Hdiv by lia.
    + replace (i + (n - 1 - j))%nat with (n * (q + 1) + (r - j - 1))%nat by lia.
      replace (S i + (n - 1 - j))%nat with (n * (q + 1) + (r - j))%nat by lia. by rewrite !Hdiv by lia.
Qed.

(** Before the first deal every eligible validator has an empty share. *)
Lemma empty_shares eligible : forall (a : Assigned) h,
  foldl (fun m v => <[vi_hotkey v := []]> m) a eligible !! h
  = if decide (h ∈ vi_hotkey <$> eligible) then Some ([] : list string) else a !! h.
Proof.
  induction eligible as [|v rest IH]; intros a h; [done|]. cbn [foldl fmap list_fmap]. rewrite IH.
  destruct (decide (h ∈ vi_hotkey <$> rest)) as [Hin|Hin], (decide (h = vi_hotkey v)) as [->|Hne];
    repeat case_decide; rewrite ?lookup_insert_eq, ?lookup_insert_ne by done; try done;
    exfalso; set_solver.
Qed.

Lemma given_no_shares (a : Assigned) : map_Forall (fun _ l => l = []) a -> given a = [].
Proof.
  intros Ha. unfold given. assert (Forall (fun l => l = []) (map_to_list a).*2) as Hl.
  { apply Forall_fmap, Forall_forall. intros [h l] Hin. apply elem_of_map_to_list in Hin. by apply (Ha h). }
  induction Hl as [|l ls -> _ IH]; [done|]. exact IH.
Qed.

(** *** Who gets them *)

(** Every entry is that of a validator of the list with property [P]. *)
Definition recipients (P : ValidatorInfo -> Prop) (validators : list ValidatorInfo) (a : Assigned) : Prop :=
  map_Forall (fun h _ => exists v, v ∈ validators /\ vi_hotkey v = h /\ P v) a.

Lemma recipients_insert P validators a v l :
  v ∈ validators -> P v -> recipients P validators a -> recipients P validators (<[vi_hotkey v := l]> a).
Proof. intros Hv HP Ha. apply map_Forall_insert_2; [eauto|done]. Qed.

Lemma hand_out_recipients P validators count turns : forall executors a,
  Forall (fun v => v ∈ validators /\ P v) turns -> recipients P validators a ->
  recipients P validators (hand_out count turns executors a).2.
Proof.
  induction turns as [|v rest IH]; intros executors a Ht Ha; [done|]. cbn [hand_out take_executors].
  apply Forall_cons in Ht as [[Hv HP] Ht]. apply IH; [done|].
  destruct (take _ _); [done|]. by apply recipients_insert.
Qed.

Lemma hand_out_rest_recipients P validators turns : forall executors a,
  Forall (fun v => v ∈ validators /\ (online v = true -> P v)) turns -> recipients P validators a ->
  recipients P validators (hand_out_rest turns executors a).
Proof.
  induction turns as [|v rest IH]; intros executors a Ht Ha; [done|]. cbn [hand_out_rest].
  apply Forall_cons in Ht as [[Hv HP] Ht]. destruct (bool_decide _); [|by apply IH].
  destruct (online v) eqn:E; [|by apply IH]. destruct executors; apply IH; try done.
  apply recipients_insert; auto.
Qed.

Lemma deal_recipients P validators eligible : forall executors i a,
  recipients P validators a -> recipients P validators (deal eligible i executors a).
Proof.
  induction executors as [|e rest IH]; intros i a Ha; [done|]. cbn [deal]. apply IH.
  destruct (eligible !! _) as [v|]; [|done]. intros h l Hl.
  apply lookup_alter_Some in Hl as [(<- & l' & Hl' & _)|[_ Hl]]; [by apply (Ha _ l')|by apply (Ha _ l)].
Qed.

Lemma filter_turns (f : ValidatorInfo -> bool) (P : ValidatorInfo -> Prop) validators :
  (forall v, f v = true -> P v) -> Forall (fun v => v ∈ validators /\ P v) (List.filter f validators).
Proof.
  intros HP. apply Forall_forall. intros v Hv. apply list_elem_of_In, filter_In in Hv as [Hv Hf].
  split; [by apply list_elem_of_In|auto].
Qed.

(** ** Strategies *)

Lemma sort_desc_Permutation {A} (key : A -> f64) l l' : sort_desc key l = Some l' -> l' ≡ₚ l.
Proof. unfold sort_desc. case_match; [done|]. intros [= <-]. apply sort_by_Permutation. Qed.

Lemma hand_out_once count validators executors :
  given (hand_out count validators executors ∅).2 ⊆+ executors.
Proof.
  pose proof (hand_out_given count validators executors ∅) as Hg. rewrite given_empty, app_nil_r in Hg.
  etrans; [|exact Hg]. by apply submseteq_inserts_l.
Qed.

Lemma business_once preferred k validators executors :
  given (business_logic_assignment preferred k validators executors) ⊆+ ae_id <$> executors.
Proof.
  unfold business_logic_assignment. set (turns := List.filter _ validators).
  pose proof (hand_out_given (fun _ => k) turns (ae_id <$> executors) ∅) as Hg.
  destruct (hand_out _ _ _ _) as [left a]. rewrite given_empty, app_nil_r in Hg.
  etrans; [apply hand_out_rest_given|exact Hg].
Qed.

Lemma round_robin_recipients validators executors :
  recipients (fun v => online v = true) validators (round_robin_assignment validators executors).
Proof.
  unfold round_robin_assignment. pose proof (filter_turns online (fun v => online v = true) validators (fun _ H => H)) as Ht.
  destruct (List.filter online validators) as [|v0 rest] eqn:E; [apply map_Forall_empty|]. rewrite <- E in *.
  intros h l Hl. apply map_lookup_filter_Some in Hl as [Hl _]. revert h l Hl.
  apply deal_recipients. intros h l Hl. rewrite empty_shares in Hl.
  destruct (decide _) as [Hh|]; [|done]. apply list_elem_of_fmap in Hh as (v & -> & Hv).
  rewrite Forall_forall in Ht. destruct (Ht v Hv). eauto.
Qed.

(** All executors are dealt, and the one at [j] of [n] gets every [n]-th. *)
Lemma round_robin_deals validators executors j v :
  let eligible := List.filter online validators in
  NoDup (vi_hotkey <$> eligible) -> eligible !! j = Some v ->
  given (round_robin_assignment validators executors) ≡ₚ ae_id <$> executors /\
  default [] (round_robin_assignment validators executors !! vi_hotkey v)
  = dealt (length eligible) j 0 (ae_id <$> executors).
Proof.
  intros eligible Hnd Hj. unfold round_robin_assignment. fold eligible.
  assert (Hne : eligible <> []) by (by intros E; rewrite E in Hj). set (dealing := deal _ _ _ _).
  replace (match eligible with [] => ∅ | _ => filter (fun kv => kv.2 <> []) dealing end)
    with (filter (fun kv => kv.2 <> []) dealing) by (by destruct eligible).
  assert (Hsome : forall w, w ∈ eligible ->
    foldl (fun (m : Assigned) v => <[vi_hotkey v := []]> m) (∅ : Assigned) eligible !! vi_hotkey w = Some ([] : list string)).
  { intros w Hw. rewrite empty_shares. case_decide as Hh; [done|]. destruct Hh. by apply list_elem_of_fmap_2. }
  split.
  - rewrite given_nonempty. unfold dealing. rewrite deal_given by eauto.
    rewrite given_no_shares; [by rewrite app_nil_r|]. intros h l. rewrite empty_shares. by case_decide; intros [= <-].
  - pose proof (deal_share eligible j v Hnd Hj (ae_id <$> executors) 0 _ [] (Hsome v (list_elem_of_lookup_2 _ _ _ Hj))) as Hd.
    fold dealing in Hd. rewrite map_lookup_filter, Hd. cbn. by destruct (dealt _ _ _ _).
Qed.

Lemma business_recipients preferred k validators executors :
  recipients (fun v => online v = true \/ vi_hotkey v ∈ preferred) validators
    (business_logic_assignment preferred k validators executors).
Proof.
  unfold business_logic_assignment. set (f := fun v => existsb _ _). set (P := fun v => online v = true \/ _).
  pose proof (hand_out_recipients P validators (fun _ => k) (List.filter f validators) (ae_id <$> executors) ∅) as Hr.
  destruct (hand_out _ _ _ _) as [left a]. apply hand_out_rest_recipients.
  - apply Forall_forall. intros v Hv. split; [done|]. by left.
  - apply Hr; [|apply map_Forall_empty]. apply filter_turns. intros v Hv. right.
    apply existsb_exists in Hv as (h & Hh & E). apply String.eqb_eq in E as <-. by apply list_elem_of_In.
Qed.

(** A stake that reaches the threshold: the one stored for the validator, or none, which
    counts as zero. *)
Definition stake_reaches (threshold : f64) (d : AssignmentTables) (v : ValidatorInfo) : Prop :=
  exists amount, f64_leb threshold amount = true /\
    (amount = f64_zero \/
     exists r, r ∈ stake_rows d /\ st_validator_hotkey r = vi_hotkey v /\ st_stake_amount r = amount).

Lemma stakes_stored rows h amount : forall m : gmap string f64,
  foldl (fun m r => <[st_validator_hotkey r := st_stake_amount r]> m) m rows !! h = Some amount ->
  m !! h = Some amount \/ exists r, r ∈ rows /\ st_validator_hotkey r = h /\ st_stake_amount r = amount.
Proof.
  induction rows as [|r rows IH]; intros m Hm; [by left|]. cbn [foldl] in Hm.
  apply IH in Hm as [[[E1 E2] | [_ Hm]]%lookup_insert_Some | (r' & Hr' & ?)].
  - right. exists r. split; [by left|done].
  - by left.
  - right. exists r'. split; [by right|done].
Qed.

Lemma stakes_above_rows `{HashOrder} lost n threshold d rows d' r :
  get_validator_stakes_above lost n threshold d = (Ok rows, d') -> r ∈ rows -> r ∈ stake_rows d.
Proof.
  unfold get_validator_stakes_above, select, statement. destruct (lost _); [done|].
  intros [= <- <-] Hr. unfold richest_first in Hr. apply elem_of_sort_by in Hr.
  rewrite shuffle_Permutation in Hr. by apply list_elem_of_In, filter_In in Hr as [Hr%list_elem_of_In _].
Qed.

Lemma highest_stake_outcome `{HashOrder} lost n threshold target validators executors d a :
  (highest_stake_assignment lost n threshold target validators executors d).1 = Some a ->
  a = ∅ \/ exists v, v ∈ validators /\ online v = true /\ stake_reaches threshold d v /\
    a = {[vi_hotkey v := ae_id <$> executors]}.
Proof.
  unfold highest_stake_assignment. destruct (get_validator_stakes_above _ _ _ _) as [[rows|] d'] eqn:Er;
    [|intros [= <-]; by left].
  destruct (ae_id <$> executors) as [|e ids]; [intros [= <-]; by left|]. cbn [fst].
  destruct (sort_desc _ _) as [sorted|] eqn:E; [|done]. cbn. intros [= <-].
  apply sort_desc_Permutation in E. destruct (match target with Some _ => _ | None => _ end) as [v|] eqn:Ev; [|by left].
  right. exists v. assert (Hv : v ∈ sorted).
  { destruct target; [apply find_some in Ev as [Hv _]; by apply list_elem_of_In|].
    destruct sorted; [done|]. injection Ev as <-. left. }
  rewrite E in Hv. apply list_elem_of_In, filter_In in Hv as [Hv Ho]. apply andb_true_iff in Ho as [Ho Hle].
  split_and!; [by apply list_elem_of_In|done| |done]. eexists. split; [exact Hle|].
  unfold stake_in. destruct (_ !! vi_hotkey v) as [amount|] eqn:Es; [right|by left].
  apply stakes_stored in Es as [Es | (r & Hr & ? & ?)]; [by rewrite lookup_empty in Es|].
  exists r. split; [|done]. eapply stakes_above_rows; [exact Er|done].
Qed.

(** C18: Giving executors to validators.  Every strategy gives each available executor at
    most once and only to validators the metagraph lists; the random, stake and round robin
    strategies give to online validators only, the stake strategy to those with enough
    stake, and the highest-stake strategy to an online one whose stored stake reaches the
    threshold (zero if none is stored).  Round robin deals all executors out: with [n] online validators and [m]
    executors the one at place [j] gets [(m + n - 1 - j) / n], so shares differ by at most
    one. *)
Theorem strategies_give_once `{HashOrder} validators executors :
  let ids := ae_id <$> executors in
  (forall preferred k, let a := business_logic_assignment preferred k validators executors in
    given a ⊆+ ids /\ recipients (fun v => online v = true \/ vi_hotkey v ∈ preferred) validators a) /\
  (forall se sv k, (forall l, se l ≡ₚ l) -> (forall l, sv l ≡ₚ l) ->
    let a := random_assignment se sv k validators executors in
    given a ⊆+ ids /\ recipients (fun v => online v = true) validators a) /\
  (forall threshold per_tao, let a := stake_based_assignment threshold per_tao validators executors in
    given a ⊆+ ids /\ recipients (fun v => online v = true /\ threshold <= vi_stake v) validators a) /\
  (forall lost n threshold target d a,
    (highest_stake_assignment lost n threshold target validators executors d).1 = Some a ->
    given a ⊆+ ids /\
    recipients (fun v => online v = true /\ stake_reaches threshold d v) validators a) /\
  (let a := round_robin_assignment validators executors in
   let eligible := List.filter online validators in
   recipients (fun v => online v = true) validators a /\
   forall j v, NoDup (vi_hotkey <$> eligible) -> eligible !! j = Some v ->
     given a ≡ₚ ids /\
     length (default [] (a !! vi_hotkey v))
     = ((length ids + (length eligible - 1 - j)) / length eligible)%nat).
Proof.
  intros ids. split_and!.
  - intros. split; [apply business_once|apply business_recipients].
  - intros se sv k Hse Hsv. unfold random_assignment. split.
    + rewrite hand_out_once. unfold ids. by rewrite (fmap_Permutation ae_id _ _ (Hse executors)).
    + apply hand_out_recipients; [rewrite Hsv; by apply filter_turns|apply map_Forall_empty].
  - intros threshold per_tao. unfold stake_based_assignment. split; [apply hand_out_once|].
    apply hand_out_recipients; [|apply map_Forall_empty]. rewrite sort_by_Permutation. apply filter_turns.
    intros v Hv. by b2p.
  - intros lost n threshold target d a Ha. apply highest_stake_outcome in Ha as [-> | (v & Hv & Ho & Hst & ->)].
    + split; [rewrite given_empty; apply submseteq_nil_l|apply map_Forall_empty].
    + split; [rewrite given_singleton; by fold ids|]. intros h l. rewrite lookup_singleton_Some. intros [<- _]. eauto.
  - intros a eligible. split; [apply round_robin_recipients|]. intros j v Hnd Hj.
    destruct (round_robin_deals validators executors j v Hnd Hj) as [Hg Hs]. split; [exact Hg|].
    unfold a. rewrite Hs. fold ids eligible.
    pose proof (dealt_length (length eligible) j (lookup_lt_Some _ _ _ Hj) ids 0) as Hl. cbn [Nat.add] in Hl.
    rewrite <- Hl, (Nat.div_small (length eligible - 1 - j)); [lia|]. apply lookup_lt_Some in Hj. lia.
Qed.

(** ** Health *)

Notation Answers := (list (option (result string HealthCheckResponse))) (only parsing).

(** The failures since the last answer, and what that answer said; the latest is first. *)
Fixpoint failures_in_a_row (answers : Answers) : nat :=
  match answers with
  | [] | Some (Ok _) :: _ => O
  | _ :: earlier => S (failures_in_a_row earlier)
  end.

Fixpoint last_verdict (answers : Answers) : bool :=
  match answers with
  | [] => true
  | Some (Ok r) :: _ => String.eqb (trim (hc_status r)) "healthy"
  | _ :: earlier => last_verdict earlier
  end.

(** Healthy: the last answer said so, and the failures since are below the limit. *)
Definition healthy_by (limit : Z) (answers : Answers) : bool :=
  last_verdict answers &&
  negb ((0 <? failures_in_a_row answers)%nat && (limit <=? Z.of_nat (failures_in_a_row answers))).

Section Health.
Context (lost : nat -> bool) (id : string).

Definition checks (envs : list CheckEnv) (m : ExecutorManager) : ExecutorManager :=
  foldl (fun m env => (check_health lost env id m).2) m envs.

Definition health_is (limit : Z) (answers : Answers) (m : ExecutorManager) : Prop :=
  max_retry_attempts m = limit /\
  exists e, state m !! id = Some e /\ failed_checks e = Z.of_nat (failures_in_a_row answers) /\
    is_healthy e = healthy_by limit answers.

Lemma connect_health env limit answers m : connecting env = Connected -> health_is limit answers m ->
  exists m', connect_client env id m = (Ok tt, m') /\ health_is limit answers m'.
Proof.
  intros Hc (Hl & e & He & Hf & Hh). unfold connect_client. rewrite He. destruct (has_client e).
  - exists m. split; [done|]. split; [done|]. by exists e.
  - rewrite Hc. eexists. split; [done|]. split; [done|]. eexists. cbn. by rewrite lookup_insert_eq.
Qed.

Lemma success_health now r limit answers m : health_is limit answers m ->
  health_is limit (Some (Ok r) :: answers) (handle_health_success lost now id r m).2.
Proof.
  intros (Hl & e & He & _). unfold handle_health_success, store_health. rewrite He.
  destruct (update_executor_health _ _ _ _ _) as [u d]. split; [done|]. eexists. cbn. rewrite lookup_insert_eq.
  split_and!; [done..|]. unfold healthy_by. cbn. by rewrite andb_true_r.
Qed.

Lemma failure_health now a limit answers m : is_Ok (default (Err "") a) = false ->
  Z.of_nat (S (failures_in_a_row answers)) < 2 ^ 32 -> health_is limit answers m ->
  health_is limit (a :: answers) (handle_health_failure lost now id m).2.
Proof.
  intros Ha Hlt (Hl & e & He & Hf & Hh). unfold handle_health_failure, store_health. rewrite He.
  destruct (update_executor_health _ _ _ _ _) as [u d]. split; [done|]. eexists. cbn [snd with_db with_executor state].
  rewrite lookup_insert_eq. split; [done|]. cbn [failed_checks is_healthy].
  rewrite Hf, wrap_small by lia.
  replace (failures_in_a_row (a :: answers)) with (S (failures_in_a_row answers)) by (by destruct a as [[]|]).
  split; [lia|]. rewrite Hh, Hl. unfold healthy_by.
  replace (last_verdict (a :: answers)) with (last_verdict answers) by (by destruct a as [[]|]).
  replace (failures_in_a_row (a :: answers)) with (S (failures_in_a_row answers)) by (by destruct a as [[]|]).
  rewrite <- andb_assoc. f_equal. cbn [Nat.ltb Nat.leb andb].
  destruct (limit <=? Z.of_nat (failures_in_a_row answers) + 1) eqn:E1, (limit <=? Z.of_nat (S (failures_in_a_row answers))) eqn:E2,
    (limit <=? Z.of_nat (failures_in_a_row answers)) eqn:E3; b2p; try lia; by rewrite ?andb_false_r.
Qed.

(** What the checks of one executor leave, when it can be connected to, whatever
    statements of the database are lost. *)
Theorem health_follows_answers limit envs : forall answers m,
  Forall (fun env => connecting env = Connected) envs ->
  Z.of_nat (failures_in_a_row answers) + Z.of_nat (length envs) < 2 ^ 32 -> health_is limit answers m ->
  health_is limit (reverse (answer <$> envs) ++ answers) (checks envs m).
Proof.
  induction envs as [|env envs IH]; intros answers m Hc Hlt Hm; [done|].
  apply Forall_cons in Hc as [Hc Hcs]. cbn [fmap list_fmap checks foldl length] in *.
  rewrite reverse_cons, <- app_assoc. cbn [app].
  apply IH; [done| |].
  - destruct (answer env) as [[]|]; cbn [failures_in_a_row]; lia.
  - unfold check_health. destruct (connect_health env limit answers m Hc Hm) as (m' & -> & Hm').
    destruct (answer env) as [[r|e]|].
    + by apply success_health.
    + pose proof (failure_health (checked_at env) (Some (Err e)) limit answers m' eq_refl ltac:(lia) Hm') as Hf.
      by destruct (handle_health_failure _ _ _ _) as [[|] m2].
    + pose proof (failure_health (checked_at env) None limit answers m' eq_refl ltac:(lia) Hm') as Hf.
      by destruct (handle_health_failure _ _ _ _) as [[|] m2].
Qed.
End Health.

(** ** Offers to authenticated validators *)

Section Offers.
Context `{Crypto} `{UuidText} `{Jwt} `{HashOrder}.
Implicit Types s : MinerDiscoveryService.

(** The session an authentication opens. *)
Definition opened_session (env : AuthEnv) : string := "session_" +:+ uuid_to_string (session_draw env).

Definition issued_claims (env : AuthEnv) (r : ValidatorAuthRequest) s : ValidatorClaims :=
  new_claims (issued_now env) (token_draw env) (aq_validator_hotkey r) (opened_session env)
    validator_permissions (jwt_service s).

(** What a successful request has shown. *)
Definition proved_identity (r : ValidatorAuthRequest) s : Prop :=
  (forall k, signer s = Some k -> aq_target_miner_hotkey r = account_text k) /\
  (verify_request_signatures (security_config s) = true ->
   exists payload, payload ∈ [canonical_payload r; legacy_payload r] /\
     is_Ok (chain_verify_signature (aq_validator_hotkey r) (aq_signature r) (into_bytes payload)) = true) /\
  (allowed_validators (security_config s) = [] \/
   aq_validator_hotkey r ∈ allowed_validators (security_config s)).

Lemma check_signature_ok now r : check_signature now r = Ok tt ->
  exists payload, payload ∈ [canonical_payload r; legacy_payload r] /\
    is_Ok (chain_verify_signature (aq_validator_hotkey r) (aq_signature r) (into_bytes payload)) = true.
Proof.
  unfold check_signature. destruct (Hotkey_new _) as [h|] eqn:Eh; [|done]. apply Hotkey_new_text in Eh as ->.
  destruct (is_Ok (chain_verify_signature _ _ (into_bytes (canonical_payload r)))) eqn:E1.
  { intros _. exists (canonical_payload r). split; [set_solver|done]. }
  destruct (is_Ok (chain_verify_signature _ _ (into_bytes (legacy_payload r)))) eqn:E2; [|done].
  intros _. exists (legacy_payload r). split; [set_solver|done].
Qed.

Lemma authenticate_proves env r s resp s1 : authenticate_validator env r s = (Ok resp, s1) ->
  proved_identity r s /\ issue_token env r s = (Ok resp, s1).
Proof.
  unfold authenticate_validator. intros Ha.
  destruct (check_target s r) as [[]|] eqn:Et; [|done].
  destruct (if verify_request_signatures _ then _ else _) as [[]|] eqn:Es; [|done].
  destruct (check_allowed s r) as [[]|] eqn:El; [|done]. split; [|done]. split_and!.
  - intros k Hk. unfold check_target in Et. rewrite Hk in Et. repeat case_match; try done.
    all: by apply String.eqb_eq.
  - intros Hv. rewrite Hv in Es. by eapply check_signature_ok.
  - unfold check_allowed in El. destruct (allowed_validators _) as [|v l]; [by left|right].
    destruct (Hotkey_new _) as [h|] eqn:Eh; [|done]. apply Hotkey_new_text in Eh as ->.
    destruct (existsb _ _) eqn:Ex; [|done]. apply existsb_exists in Ex as (w & Hw & E).
    apply String.eqb_eq in E as <-. by apply list_elem_of_In.
Qed.

Lemma issue_token_claims env r s resp s1 : issue_token env r s = (Ok resp, s1) ->
  jwt_encode (secret (jwt_service s)) (issued_claims env r s) = Ok (session_token resp).
Proof.
  unfold issue_token. destruct (update_validator_interaction _ _ _ _) as [? d].
  destruct (Hotkey_new _) as [h|] eqn:Eh; [|done]. apply Hotkey_new_text in Eh as ->.
  unfold generate_token. cbn [jwt_service with_manager]. fold (opened_session env).
  change (new_claims _ _ _ _ _ _) with (issued_claims env r s).
  destruct (jwt_encode _ _) as [token|]; [|done]. intros [= Hs _]. f_equal.
  unfold sign_response in Hs. cbn [signer with_manager] in Hs. repeat case_match; by simplify_eq.
Qed.

(** *** What is offered *)

(** An executor that counts as healthy. *)
Definition healthy_executor (id : string) s : Prop :=
  exists k e, state (executor_manager s) !! k = Some e /\ is_healthy e = true /\ machine_id (machine e) = id.

(** Without discovery every executor is for every validator; otherwise the database, if it
    answers, or the last discovery decides. *)
Definition assigned_executor (env : LeaseEnv) (validator id : string) s : Prop :=
  match validator_discovery s with
  | None => True
  | Some v =>
      if uses_assignment_db v then
        lease_lost env (statements (assignment_tables s)) = false /\
        exists row, row ∈ executor_assignments (assignment_tables s) /\ ea_executor_id row = id /\
          ea_validator_hotkey row = validator
      else exists l, assignments v !! validator = Some l /\ id ∈ l
  end.

Lemma list_available_healthy n s id :
  (exists x, x ∈ list_available n (executor_manager s) /\ ae_id x = id) <-> healthy_executor id s.
Proof.
  unfold list_available, healthy_executor. split.
  - intros (x & Hx & <-). apply list_elem_of_fmap in Hx as (e & -> & He).
    apply list_elem_of_In, filter_In in He as [He Hh]. apply list_elem_of_In in He.
    apply list_elem_of_fmap in He as ([k e'] & -> & Hk). apply elem_of_iter in Hk. eauto 6.
  - intros (k & e & Hk & Hh & <-). exists (available_executor e). split; [|done].
    apply list_elem_of_fmap_2, list_elem_of_In, filter_In. split; [|done]. apply list_elem_of_In.
    apply list_elem_of_fmap. exists (k, e). split; [done|]. by apply elem_of_iter.
Qed.

Lemma assignments_assigned env validator v s id :
  validator_discovery s = Some v ->
  (exists l, (get_validator_assignments (lease_lost env) (lease_order env) validator v (assignment_tables s)).1
             = Some l /\ id ∈ l) <-> assigned_executor env validator id s.
Proof.
  intros Hv. unfold assigned_executor. rewrite Hv. unfold get_validator_assignments.
  destruct (uses_assignment_db v); [|done]. unfold get_assignments_for_validator, select, statement.
  destruct (lease_lost _ _); [cbn; naive_solver|]. set (rows := latest_assigned_first _ _).
  assert (Hrows : forall row, row ∈ rows <->
    row ∈ executor_assignments (assignment_tables s) /\ ea_validator_hotkey row = validator).
  { intros row. unfold rows, latest_assigned_first. rewrite sort_by_Permutation, shuffle_Permutation.
    by rewrite !list_elem_of_In, filter_In, String.eqb_eq. }
  transitivity (exists row, row ∈ rows /\ ea_executor_id row = id).
  - destruct rows as [|row0 rows]; cbn [fst].
    + split; [by intros (? & ? & _)|]. intros (? & Hr & _). by apply not_elem_of_nil in Hr.
    + split; [intros (l & <-%Some_inj & Hid)|intros (row & Hr & <-)].
      * apply list_elem_of_fmap in Hid as (row & -> & Hr). eauto.
      * eexists. split; [done|]. by apply list_elem_of_fmap_2.
  - setoid_rewrite Hrows. naive_solver.
Qed.

(** The answer is the healthy executors assigned to the validator of the token. *)
Lemma offered_assigned env validator s id :
  (exists x, x ∈ (offered_executors env validator s).1 /\ ae_id x = id) <->
  healthy_executor id s /\ assigned_executor env validator id s.
Proof.
  unfold offered_executors. destruct (validator_discovery s) as [v|] eqn:Ev.
  2: { rewrite <- (list_available_healthy (lease_order env)). unfold assigned_executor. rewrite Ev. cbn. naive_solver. }
  rewrite <- (assignments_assigned env validator v s id Ev), <- (list_available_healthy (lease_order env)).
  destruct (get_validator_assignments _ _ _ _ _) as [assigned d]. cbn [fst].
  assert (Hin : forall ids, existsb (String.eqb id) ids = true <-> id ∈ ids).
  { intros ids. rewrite existsb_exists. setoid_rewrite String.eqb_eq. setoid_rewrite <- list_elem_of_In. naive_solver. }
  destruct assigned as [ids|].
  - split.
    + intros (x & Hx & <-). apply list_elem_of_In, filter_In in Hx as [Hx Hi]. apply Hin in Hi.
      apply list_elem_of_In in Hx. split; eauto.
    + intros [(x & Hx & <-) (l & [= <-] & Hl)]. exists x. split; [|done].
      apply list_elem_of_In, filter_In. split; [by apply list_elem_of_In|]. by apply Hin.
  - split; [intros (x & Hx & _); by apply not_elem_of_nil in Hx|naive_solver].
Qed.

Lemma connection_details_id x d : connection_details x = Some d -> cd_executor_id d = ae_id x.
Proof. unfold connection_details. destruct (create_gpu_spec_from_executor x); [|done]. by intros [= <-]. Qed.

Lemma details_ids l ds : mapM connection_details l = Some ds -> cd_executor_id <$> ds = ae_id <$> l.
Proof.
  intros Hm. apply mapM_Some in Hm. induction Hm as [|x d l ds Hd _ IH]; [done|]. cbn.
  by rewrite (connection_details_id x d Hd), IH.
Qed.

(** A token that decodes to claims with the permission, while its session is open. *)
Lemma lease_outcome env token c vs s :
  jwt_decode (secret (jwt_service s)) (audience (jwt_service s)) (issuer (jwt_service s))
    (timestamp (decoded_now env)) token = Ok c ->
  "executor.list" ∈ claim_permissions c ->
  revoked_tokens (jwt_service s) !! jti c = None -> jwt_sessions (jwt_service s) !! claim_session_id c = Some vs ->
  (request_executor_lease env token s).1
  = match mapM connection_details (offered_executors env (sub c) s).1 with
    | Some ds => Ok ds
    | None => Err Panicked
    end.
Proof.
  unfold request_executor_lease, validate_token. intros -> Hp -> ->.
  assert (existsb (String.eqb "executor.list") (claim_permissions c) = true) as ->.
  { apply existsb_exists. exists "executor.list". split; [by apply list_elem_of_In|done]. }
  cbn [negb]. unfold offered_executors. cbn [validator_discovery with_jwt executor_manager assignment_tables].
  destruct (validator_discovery s) as [v|]; [|by destruct (mapM _ _)].
  destruct (get_validator_assignments _ _ _ _ _) as [assigned d]. cbn [fst]. by destruct (mapM _ _).
Qed.

Lemma refused_lease env token s ds : (request_executor_lease env token s).1 = Ok ds ->
  exists c vs, jwt_decode (secret (jwt_service s)) (audience (jwt_service s)) (issuer (jwt_service s))
    (timestamp (decoded_now env)) token = Ok c /\ "executor.list" ∈ claim_permissions c /\
    revoked_tokens (jwt_service s) !! jti c = None /\ jwt_sessions (jwt_service s) !! claim_session_id c = Some vs.
Proof.
  unfold request_executor_lease, validate_token. destruct (jwt_decode _ _ _ _ _) as [c|]; [|done].
  destruct (revoked_tokens _ !! _) eqn:Er; [done|]. destruct (jwt_sessions _ !! _) as [vs|] eqn:Es; [|done].
  destruct (existsb _ _) eqn:Ep; [|done]. intros _. exists c, vs. split_and!; try done.
  apply existsb_exists in Ep as (p & Hp & E). apply String.eqb_eq in E as ->. by apply list_elem_of_In.
Qed.

Lemma details_total l :
  Forall (fun x => is_char_boundary (Nat.min 8 (String.length (ae_id x))) (ae_id x) = true) l ->
  is_Some (mapM connection_details l).
Proof.
  intros Hl. apply mapM_is_Some. eapply Forall_impl; [exact Hl|]. intros x Hx. cbv beta in Hx.
  assert (He : is_Some (first_eight (ae_id x))) by (unfold first_eight; cbv zeta; rewrite Hx; eauto).
  change (is_Some (connection_details x)). unfold connection_details, create_gpu_spec_from_executor. destruct He as [name ->].
  destruct (ae_gpu_count x =? 0); cbn; [eauto|]. destruct (ae_resources x); cbn; eauto.
Qed.
End Offers.

(** C6: From authentication to executors.  A validator the miner authenticates has named
    this miner, has signed the request (when signatures are checked) and is an allowed one;
    whatever happened in between, a lease the miner answers for its token offers exactly
    the executors that count as healthy and are assigned to this validator.  While the
    token is in time, its session open and not revoked, the lease is answered, if the
    identifiers can be cut after eight bytes. *)
Theorem lease_after_authentication `{Crypto} `{UuidText} `{Jwt} `{HashOrder} `{!JwtLaws}
    env r s resp s1 env' s2 :
  authenticate_validator env r s = (Ok resp, s1) ->
  same_settings (jwt_service s2) (jwt_service s) ->
  proved_identity r s /\
  (forall ds, (request_executor_lease env' (session_token resp) s2).1 = Ok ds ->
    forall id, id ∈ cd_executor_id <$> ds <->
      healthy_executor id s2 /\ assigned_executor env' (aq_validator_hotkey r) id s2) /\
  (forall vs,
    timestamp (issued_now env) <= timestamp (decoded_now env')
      <= timestamp (issued_now env + token_expiration (jwt_service s)) ->
    jwt_sessions (jwt_service s2) !! opened_session env = Some vs ->
    revoked_tokens (jwt_service s2) !! uuid_to_string (token_draw env) = None ->
    (forall id, healthy_executor id s2 -> is_char_boundary (Nat.min 8 (String.length id)) id = true) ->
    is_Ok (request_executor_lease env' (session_token resp) s2).1 = true).
Proof.
  intros Ha (Ek & Ei & Eu & _). apply authenticate_proves in Ha as [Hp Ha].
  apply issue_token_claims in Ha as He. split_and!; [done| |].
  - intros ds Hd id. destruct (refused_lease _ _ _ _ Hd) as (c & vs & Hc & Hperm & Hr & Hs).
    rewrite (lease_outcome _ _ _ _ _ Hc Hperm Hr Hs) in Hd. rewrite Ek in Hc.
    pose proof (jwt_unique _ _ _ _ _ _ _ He Hc) as ->. cbn [sub issued_claims new_claims] in Hd.
    destruct (mapM _ _) as [ds'|] eqn:Em; [|done]. injection Hd as ->. apply details_ids in Em as ->.
    rewrite <- offered_assigned, list_elem_of_fmap. naive_solver.
  - intros vs Ht Hs Hr Hb.
    pose proof (jwt_complete _ _ _ (timestamp (decoded_now env')) He Ht) as Hc.
    cbn [aud iss issued_claims new_claims] in Hc. rewrite <- Ek, <- Eu, <- Ei in Hc.
    rewrite (lease_outcome _ _ _ vs _ Hc);
      cbn [claim_permissions issued_claims new_claims jti claim_session_id sub]; [|set_solver|done|done].
    destruct (details_total (offered_executors env' (aq_validator_hotkey r) s2).1) as [ds Hds]; [|by rewrite Hds].
    apply Forall_forall. intros x Hx. apply Hb. by apply (offered_assigned env' (aq_validator_hotkey r)); eauto.
Qed.

(** ** Concrete requests *)

Module MinerScenario.
Export AuthClaims.Scenario JwtClaims.JwtScenario.

Definition machine_of (id : string) (gpus : Z) : RemoteMachine := {|
  machine_id := id; machine_name := id; machine_host := "h"; machine_gpu_count := Some gpus; executor_port := 50051 |}.
Definition no_rows : RegistrationTables := {|
  executor_health := ∅; validator_interactions := []; db_statements := 0 |}.

Definition pool : ExecutorManager := {|
  max_retry_attempts := 3;
  state := foldl (fun m x => <[machine_id x := initial_state x]> m) ∅
             [machine_of "executor-a" 1; machine_of "executor-b" 0; machine_of "executor-c" 2];
  db := no_rows |}.

Definition validator_hotkey : string := "5FHneW46xGXgs5mUiveU4sbTyGBzmstUspZC92UhjJM694ty".

Definition discovery : ValidatorDiscovery := {|
  assignments := {[validator_hotkey := ["executor-a"; "executor-c"; "executor-x"]]}; uses_assignment_db := false |}.

Definition miner_service : MinerDiscoveryService := {|
  security_config := {| allowed_validators := [validator_hotkey]; verify_request_signatures := true;
                        sc_token_expiration := hours 1 |};
  executor_manager := pool; jwt_service := service; validator_discovery := Some discovery;
  assignment_tables := empty_tables; MinerService.signer := Some Scenario.signer |}.

Definition auth_env : AuthEnv := {|
  checked_now := day_one; issued_now := day_one; session_draw := 1%N; token_draw := 2%N; response_draw := 3%N;
  answered_now := day_one; auth_lost _ := false |}.
Definition lease_env : LeaseEnv := {|
  decoded_now := day_one; activity_now := day_one; lease_lost _ := false; lease_order := 0 |}.

(** Signed by the validator over the canonical text. *)
Definition auth_request (signature : string) (time : option Z) : ValidatorAuthRequest := {|
  aq_validator_hotkey := validator_hotkey; aq_signature := signature; aq_nonce := "n"; aq_timestamp := time;
  aq_target_miner_hotkey := account |}.
Definition validator_signs (text : string) : string :=
  Bytes.to_hex (digest 64 (into_bytes validator_hotkey ++ into_bytes text)).
Definition signed_request : ValidatorAuthRequest :=
  let time := Some (timestamp day_one) in
  auth_request (validator_signs (canonical_payload (auth_request "" time))) time.

Definition authenticated : result GrpcStatus MinerAuthResponse * MinerDiscoveryService :=
  authenticate_validator auth_env signed_request miner_service.

Example authentication_runs : is_Ok authenticated.1 = true.
Proof. vm_compute. reflexivity. Qed.

(** A signature over the older text without a time passes again, years later. *)
Definition legacy_request : ValidatorAuthRequest :=
  auth_request (validator_signs (legacy_payload (auth_request "" None))) (Some (timestamp day_one)).

Example legacy_signature_never_expires :
  let later := {| checked_now := day_one + hours 100000; issued_now := day_one + hours 100000; session_draw := 4%N;
                  token_draw := 5%N; response_draw := 6%N; answered_now := day_one; auth_lost _ := false |} in
  let first := authenticate_validator auth_env legacy_request miner_service in
  is_Ok first.1 = true /\ is_Ok (authenticate_validator later legacy_request first.2).1 = true /\
  is_Ok (authenticate_validator later signed_request miner_service).1 = false.
Proof. vm_compute. split_and!; reflexivity. Qed.

(** An executor whose address cannot be parsed stays available however often it is
    checked. *)
Example bad_endpoint_stays_available :
  let env := {| connecting := BadEndpoint "invalid uri"; answer := None; checked_at := day_one |} in
  let checked := Nat.iter 10 (health_round (fun _ => false) 0 (fun _ => env)) pool in
  length (list_available 0 checked) = 3%nat /\ executor_health (db checked) = ∅.
Proof. vm_compute. split; reflexivity. Qed.

(** After three failed calls an executor is gone from the offers, and its row says so
    from the first. *)
Example failing_executor_leaves :
  let env := {| connecting := Connected; answer := None; checked_at := day_one |} in
  let checked n := Nat.iter n (health_round (fun _ => false) 0 (fun _ => env)) pool in
  length (list_available 0 (checked 2%nat)) = 3%nat /\ length (list_available 0 (checked 3%nat)) = 0%nat /\
  hr_is_healthy <$> executor_health (db (checked 1%nat)) !! "executor-a" = Some false.
Proof. vm_compute. split_and!; reflexivity. Qed.

Definition validator_info (hotkey : string) (stake : Z) (axon : option string) : ValidatorInfo := {|
  vi_uid := 0; vi_hotkey := hotkey; vi_stake := stake; vi_axon_endpoint := axon |}.
Definition three_validators : list ValidatorInfo := [
  validator_info "v1" 5000000000 (Some "a"); validator_info "v2" 1000000000 None; validator_info "v3" 2000000000 (Some "b")].
End MinerScenario.
Import MinerScenario.

Lemma lease_witness : exists resp s1, authenticate_validator auth_env signed_request miner_service = (Ok resp, s1) /\
  proved_identity signed_request miner_service /\
  is_Ok (request_executor_lease lease_env (session_token resp) s1).1 = true /\
  forall ds, (request_executor_lease lease_env (session_token resp) s1).1 = Ok ds ->
  forall id, id ∈ cd_executor_id <$> ds <->
    healthy_executor id s1 /\ assigned_executor lease_env validator_hotkey id s1.
Proof.
  assert (Ha : exists resp, authenticated.1 = Ok resp) by (eexists; vm_compute; reflexivity).
  assert (Hs : same_settings (jwt_service authenticated.2) (jwt_service miner_service))
    by (vm_compute; repeat split; reflexivity).
  assert (Hvs : exists vs, jwt_sessions (jwt_service authenticated.2) !! opened_session auth_env = Some vs)
    by (eexists; vm_compute; reflexivity).
  assert (Hr : revoked_tokens (jwt_service authenticated.2) !! uuid_to_string (token_draw auth_env) = None)
    by (vm_compute; reflexivity).
  assert (Hb : map_Forall (fun _ e => is_char_boundary (Nat.min 8 (String.length (machine_id (machine e))))
    (machine_id (machine e)) = true) (state (executor_manager authenticated.2)))
    by (apply map_Forall_to_list; vm_compute; repeat constructor).
  pose proof (surjective_pairing authenticated) as E. destruct Ha as [resp Ha], Hvs as [vs Hvs]. rewrite Ha in E.
  generalize dependent authenticated.2. intros s1 Hs Hvs Hr Hb E. unfold authenticated in E.
  exists resp, s1. split; [exact E|].
  destruct (lease_after_authentication auth_env signed_request miner_service resp s1 lease_env s1 E Hs)
    as (Hp & Hexact & Htotal).
  split; [exact Hp|]. split; [|exact Hexact]. apply (Htotal vs); [|exact Hvs|exact Hr|].
  - split; vm_compute; discriminate.
  - intros id (k & e & Hk & _ & <-). exact (Hb k e Hk).
Defined.

Lemma strategies_witness :
  let executors := list_available 0 pool in
  let a := round_robin_assignment three_validators executors in
  given a ≡ₚ ae_id <$> executors /\ length (default [] (a !! "v1")) = 2%nat /\
  given (random_assignment (fun l => l) (fun l => l) 1 three_validators executors) ⊆+ ae_id <$> executors.
Proof.
  destruct (strategies_give_once three_validators (list_available 0 pool)) as (_ & Hrandom & _ & _ & _ & Hrr).
  destruct (Hrr 0%nat (validator_info "v1" 5000000000 (Some "a"))) as [Hg Hl];
    [apply (bool_decide_eq_true_1 _); vm_compute; reflexivity|reflexivity|].
  split; [exact Hg|]. split; [exact Hl|]. by apply (Hrandom (fun l => l) (fun l => l) 1%nat).
Defined.
