(* ===== verification/SshSessionClaims.v ===== *)
(** * SSH sessions: what closing does, and that closed sessions stay closed

    Requests, clean-ups and expiry tasks interleave between the sections of their
    programs. *)

From stdpp Require Import base gmap strings list.
From Stdlib Require Import Ascii ZArith.
From S2P Require Import Prelude.
From S2P Require Import Text.
From S2P Require Import Signatures.
From S2P Require Import Decimal.
From S2P Require Import MinerAuth.
From S2P Require Import Collections.
From S2P Require Import AccessControl.
From S2P Require Import ExecutorAccess.
From S2P Require Import ProvisionClaims.
From S2P Require Import MinerSessions.
Local Open Scope Z_scope.

(** ** Programs and one session *)

Section Sessions.
Context `{Crypto} `{UuidText} (default_hash : string -> N) `{!ProstMessage ProvisionAccessRequest} `{HashOrder}.
Context (client : ExecutorGrpcClient) (credentials_username : string -> option string) (cfg : SshSessionConfig).
Implicit Types (m : Miner) (p : Prog).

Definition session_name (u : uuid) : string := "ssh-session-" +:+ uuid_to_string u.

(** Session [s] became [s']: only its status may have changed, and not to active. *)
Definition progressed (s s' : SshSession) : Prop :=
  s' = with_status (ss_status s') s /\ (is_active (ss_status s') = true -> is_active (ss_status s) = true).

Lemma progressed_refl s : progressed s s.
Proof. by destruct s. Qed.

Lemma progressed_trans s1 s2 s3 : progressed s1 s2 -> progressed s2 s3 -> progressed s1 s3.
Proof. intros [-> Ha] [-> Hb]. split; [done|]. cbn in *. auto. Qed.

Section One.
Context (sid : string).

(** The session [sid] may have gone, but has not come or come back to life. *)
Definition kept m m' : Prop :=
  forall s', ssh_sessions m' !! sid = Some s' -> exists s, ssh_sessions m !! sid = Some s /\ progressed s s'.

Lemma kept_same m m' : ssh_sessions m' = ssh_sessions m -> kept m m'.
Proof. intros E s' Hs. rewrite E in Hs. exists s'. split; [done|]. apply progressed_refl. Qed.

Lemma kept_trans m1 m2 m3 : kept m1 m2 -> kept m2 m3 -> kept m1 m3.
Proof.
  intros H12 H23 s3 Hs3. destruct (H23 s3 Hs3) as (s2 & Hs2 & P23). destruct (H12 s2 Hs2) as (s1 & Hs1 & P12).
  exists s1. split; [done|]. by eapply progressed_trans.
Qed.

Lemma kept_none m m' : kept m m' -> ssh_sessions m !! sid = None -> ssh_sessions m' !! sid = None.
Proof.
  intros Hk Hn. destruct (ssh_sessions m' !! sid) as [s'|] eqn:E; [|done].
  destruct (Hk s' E) as (s & Hs & _). congruence.
Qed.

Lemma kept_expire id m : kept m (expire id m).
Proof.
  intros s' Hs. cbn in Hs. apply lookup_alter_Some in Hs as [(-> & s & Hs & ->)|[_ Hs]].
  - exists s. split; [done|]. by destruct s.
  - exists s'. split; [done|]. apply progressed_refl.
Qed.

Lemma kept_insert id s m : id <> sid -> kept m (with_ssh_sessions m (<[id := s]> (ssh_sessions m))).
Proof.
  intros Hne s' Hs. cbn in Hs. rewrite lookup_insert_ne in Hs by done. exists s'. split; [done|]. apply progressed_refl.
Qed.

(** No section of the program brings the session in. *)
Inductive steady : Prog -> Prop :=
  | steady_done r : steady (Done r)
  | steady_locked f :
      (forall env m m' o p, f env m = (m', o, p) ->
        kept m m' /\ steady p /\ forall t, t ∈ spawned o -> exists w q, t = Sleeping w q /\ steady q) ->
      steady (Locked f).

(** One section may bring it in. *)
Inductive armed : Prog -> Prop :=
  | armed_steady p : steady p -> armed p
  | armed_locked f :
      (forall env m m' o p, f env m = (m', o, p) ->
        o = None /\ (kept m m' /\ armed p \/ steady p)) ->
      armed (Locked f).

(** The program has not drawn the session's name yet. *)
Inductive undrawn : Prog -> Prop :=
  | undrawn_steady p : steady p -> undrawn p
  | undrawn_locked f :
      (forall env m m' o p, f env m = (m', o, p) ->
        kept m m' /\ o = None /\ armed p /\ (session_name (step_uuid env) <> sid -> undrawn p)) ->
      undrawn (Locked f).

Lemma undrawn_armed p : undrawn p -> armed p.
Proof.
  destruct 1 as [p Hp|f Hf]; [by apply armed_steady|]. apply armed_locked. intros env m m' o p Hs.
  destruct (Hf env m m' o p Hs) as (Hk & -> & Ha & _). auto.
Qed.

(** *** The programs of the orchestrator *)

Lemma call_executor_sessions env endpoint v pk dur md m :
  ssh_sessions (call_executor default_hash client env endpoint v pk dur md m).2 = ssh_sessions m.
Proof. unfold call_executor. repeat case_match; done. Qed.

Lemma add_key_sessions env info v pk dur ps rental m :
  ssh_sessions (add_validator_key_to_executor default_hash client credentials_username env info v pk dur ps rental m).2
  = ssh_sessions m.
Proof.
  unfold add_validator_key_to_executor. destruct (xi_grpc_endpoint info) as [e|]; [|done].
  rewrite <- (call_executor_sessions env e v pk dur (if rental then Some (rental_metadata ps) else None) m).
  destruct (call_executor _ _ _ _ _ _ _ _ _) as [[a|] m']; [|done]. by destruct (negb _).
Qed.

Lemma revoke_keeps_sessions env info s m :
  ssh_sessions (revoke_on_executor default_hash client env info s m).2 = ssh_sessions m.
Proof.
  unfold revoke_on_executor. destruct (xi_grpc_endpoint info) as [e|]; [|done].
  rewrite <- (call_executor_sessions env e (ss_validator_hotkey s) (ss_validator_public_key s) 0 None m).
  destruct (call_executor _ _ _ _ _ _ _ _ _) as [[a|] m']; [|done]. by destruct (negb _).
Qed.

Lemma add_key_kept env info v pk dur ps rental m r m' :
  add_validator_key_to_executor default_hash client credentials_username env info v pk dur ps rental m = (r, m') ->
  kept m m'.
Proof. intros E. apply kept_same. by rewrite <- (add_key_sessions env info v pk dur ps rental m), E. Qed.

Lemma revoke_kept env info s m r m' : revoke_on_executor default_hash client env info s m = (r, m') -> kept m m'.
Proof. intros E. apply kept_same. by rewrite <- (revoke_keeps_sessions env info s m), E. Qed.

Lemma no_spawn (P : Prog -> Prop) t : t ∈ spawned None -> exists w q, t = Sleeping w q /\ P q.
Proof. by intros ?%not_elem_of_nil. Qed.

(** A section that keeps the session and spawns nothing. *)
Lemma steady_section f :
  (forall env m, kept m (f env m).1 /\ steady (f env m).2) ->
  steady (Locked (fun env m => ((f env m).1, None, (f env m).2))).
Proof.
  intros Hf. apply steady_locked. intros env m m' o p [= <- <- <-]. destruct (Hf env m). split_and!; [done..|].
  intros t. apply no_spawn.
Qed.

Lemma steady_read f : (forall env m, steady (f env m)) -> steady (Locked (fun env m => (m, None, f env m))).
Proof. intros Hf. apply (steady_section (fun env m => (m, f env m))). intros env m. split; [by apply kept_same|apply Hf]. Qed.

Lemma steady_write f p : (forall env m, kept m (f env m)) -> steady p -> steady (Locked (fun env m => (f env m, None, p))).
Proof. intros Hf Hp. apply (steady_section (fun env m => (f env m, p))). intros env m. split; [apply Hf|exact Hp]. Qed.

Lemma remove_key_steady s k :
  (forall r, steady (k r)) -> steady (remove_validator_key_from_executor default_hash client s k).
Proof.
  intros Hk. apply steady_read. intros _ m. destruct (get_executor_info _ m); [|done].
  apply steady_locked. intros env m1 m' o p Hf. destruct (revoke_on_executor _ _ _ _ _ _) as [r m2] eqn:E.
  injection Hf as <- <- <-. split_and!; [by eapply revoke_kept|done|intros t; apply no_spawn].
Qed.

Lemma cleanup_steady id k : steady k -> steady (cleanup_expired_session default_hash client id k).
Proof.
  intros Hk. apply steady_read. intros _ m. destruct (ssh_sessions m !! id) as [s|]; [|done].
  destruct (is_active _); [|done]. apply remove_key_steady. intros _.
  apply steady_write; [|done]. intros. apply kept_expire.
Qed.

(** The second half of storing a session touches no session. *)
Lemma store_rest_steady f g reply id :
  (forall env m, ssh_sessions (f env m) = ssh_sessions m) ->
  steady (Locked (fun env m =>
    (f env m, Some (step_now env + g, cleanup_expired_session default_hash client id (Done Finished)), Done reply))).
Proof.
  intros Hf. apply steady_locked. intros env m m' o p [= <- <- <-].
  split_and!; [by apply kept_same|apply steady_done|]. intros t ->%list_elem_of_singleton.
  eexists _, _. split; [done|]. apply cleanup_steady, steady_done.
Qed.

Lemma store_steady req info username id now :
  id <> sid -> steady (store_session default_hash client req info username id now).
Proof.
  intros Hid. apply steady_locked. intros env m m' o p [= <- <- <-].
  split_and!; [by apply kept_insert| |intros t; apply no_spawn].
  by apply store_rest_steady.
Qed.

Lemma store_armed req info username id now : armed (store_session default_hash client req info username id now).
Proof.
  apply armed_locked. intros env m m' o p [= <- <- <-]. split; [done|]. right.
  by apply store_rest_steady.
Qed.

Lemma provision_steady req info id permissions :
  id <> sid -> steady (provision_session default_hash client credentials_username req info id permissions).
Proof.
  intros Hid. apply steady_locked. intros env m m' o p Hf.
  destruct (add_validator_key_to_executor _ _ _ _ _ _ _ _ _ _ _) as [r m1] eqn:E. injection Hf as <- <- <-.
  split_and!; [|destruct r; [by apply store_steady|apply steady_done]|intros t; apply no_spawn].
  by eapply add_key_kept.
Qed.

Lemma provision_armed req info id permissions :
  armed (provision_session default_hash client credentials_username req info id permissions).
Proof.
  apply armed_locked. intros env m m' o p Hf.
  destruct (add_validator_key_to_executor _ _ _ _ _ _ _ _ _ _ _) as [r m1] eqn:E. injection Hf as <- <- <-.
  split; [done|]. left. split; [|destruct r; [apply store_armed|apply armed_steady, steady_done]].
  by eapply add_key_kept.
Qed.

Lemma create_undrawn req : undrawn (create_session default_hash client credentials_username cfg req).
Proof.
  unfold create_session. destruct (validate_session_request cfg req); [|apply undrawn_steady, steady_done].
  apply undrawn_locked. intros env m m' o p Hf. destruct (check_rate_limits _ _ _ _) as [r m1] eqn:E.
  injection Hf as <- <- <-.
  assert (kept m m1) as Hk.
  { apply kept_same. unfold check_rate_limits in E. case_match; by simplify_eq. }
  enough (undrawn (match r with Err e => Done (Created (Err e)) | Ok _ => _ end)) as Hu
    by (split_and!; [exact Hk|done|by apply undrawn_armed|intros _; exact Hu]).
  destruct r; [|apply undrawn_steady, steady_done].
  apply undrawn_locked. intros env1 m2 m' o p [= <- <- <-]. split_and!; [by apply kept_same|done| |].
  - destruct (check_concurrent_limits _ _ _); [|apply armed_steady, steady_done].
    apply armed_locked. intros env2 m3 m' o p [= <- <- <-]. split; [done|]. left. split; [by apply kept_same|].
    destruct (get_executor_info _ _); [|apply armed_steady, steady_done].
    destruct (session_permissions req); [apply provision_armed|apply armed_steady, steady_done].
  - intros Hne. apply undrawn_steady. destruct (check_concurrent_limits _ _ _); [|apply steady_done].
    apply steady_read. intros _ m3. destruct (get_executor_info _ _); [|apply steady_done].
    destruct (session_permissions req); [by apply provision_steady|apply steady_done].
Qed.

Lemma close_steady req : steady (close_session default_hash client req).
Proof.
  apply steady_read. intros _ m. destruct (ssh_sessions m !! _) as [s|]; [|apply steady_done].
  destruct (negb _); [apply steady_done|]. apply remove_key_steady. intros [|]; [|apply steady_done].
  apply steady_write; [|apply steady_done]. intros. apply kept_expire.
Qed.

Lemma run_cleanup_steady : steady (run_cleanup_task default_hash client).
Proof.
  apply steady_read. intros env m. set (expired := List.filter _ _). clearbody expired.
  induction expired as [|s l IH]; cbn [foldr]; [|by apply cleanup_steady].
  apply steady_write; [|apply steady_done]. intros _ m1 s' Hs. cbn in Hs.
  apply map_lookup_filter_Some in Hs as [Hs _]. exists s'. split; [done|]. apply progressed_refl.
Qed.

Lemma program_undrawn r : undrawn (program default_hash client credentials_username cfg r).
Proof.
  destruct r; cbn [program].
  - apply create_undrawn.
  - apply undrawn_steady, close_steady.
  - apply undrawn_steady, steady_read. intros. apply steady_done.
  - apply undrawn_steady, run_cleanup_steady.
Qed.

(** *** Schedules *)

Definition task_prog (t : Task) : Prog := match t with Running p | Sleeping _ p => p end.
Definition undrawn_task (t : Task) : Prop := undrawn (task_prog t).

(** Every program has a property, which may depend on its place. *)
Definition tasks_ok (Q : nat -> Prog -> Prop) (ts : list Task) : Prop :=
  forall j t, ts !! j = Some t -> Q j (task_prog t).

(** No program has drawn the name, or at most the one at [i] has. *)
Definition all_undrawn (_ : nat) p : Prop := undrawn p.
Definition one_armed (i j : nat) p : Prop := armed p /\ (j <> i -> undrawn p).

Definition drawn (a : Action) : list uuid := match a with Step _ env => [step_uuid env] | _ => [] end.
Definition names (actions : list Action) : list string := session_name <$> (actions ≫= drawn).

Lemma spawned_undrawn o :
  (forall t, t ∈ spawned o -> exists w q, t = Sleeping w q /\ steady q) -> Forall undrawn_task (spawned o).
Proof.
  intros Ho. apply Forall_forall. intros t Ht. destruct (Ho t Ht) as (w & q & -> & Hq). by apply undrawn_steady.
Qed.

Lemma undrawn_section f env m m' o p : undrawn (Locked f) -> f env m = (m', o, p) ->
  kept m m' /\ armed p /\ Forall undrawn_task (spawned o) /\ (session_name (step_uuid env) <> sid -> undrawn p).
Proof.
  intros Hu Hf. inversion Hu as [p0 Hs|f0 Hl]; subst.
  - inversion Hs as [|f0 Hl]; subst. destruct (Hl _ _ _ _ _ Hf) as (Hk & Hp & Ho).
    split_and!; [done|by apply armed_steady|by apply spawned_undrawn|intros _; by apply undrawn_steady].
  - destruct (Hl _ _ _ _ _ Hf) as (Hk & -> & Ha & Hn). split_and!; [done|done|constructor|done].
Qed.

Lemma armed_section f env m m' o p : armed (Locked f) -> f env m = (m', o, p) ->
  Forall undrawn_task (spawned o) /\ (kept m m' /\ armed p \/ steady p).
Proof.
  intros Ha Hf. inversion Ha as [p0 Hs|f0 Hl]; subst.
  - inversion Hs as [|f0 Hl]; subst. destruct (Hl _ _ _ _ _ Hf) as (Hk & Hp & Ho).
    split; [by apply spawned_undrawn|auto].
  - destruct (Hl _ _ _ _ _ Hf) as (-> & Hp). split; [constructor|done].
Qed.

Notation act := (act default_hash client credentials_username cfg).

(** Steps that are no section. *)
Definition idle (S : Service) (a : Action) : bool :=
  match a with
  | Step i _ => match tasks S !! i with Some (Running (Locked _)) => false | _ => true end
  | _ => true
  end.

Section Closed.
Context (Q : nat -> Prog -> Prop) (HQ : forall j p, undrawn p -> Q j p).

Lemma tasks_ok_step ts i p extra : tasks_ok Q ts -> Q i p -> Forall undrawn_task extra ->
  tasks_ok Q (<[i := Running p]> ts ++ extra).
Proof.
  intros Hts Hp He j t Hj. apply lookup_app_Some in Hj as [Hj|[_ Hj]].
  - apply list_lookup_insert_Some in Hj as [(<- & <- & _)|[_ Hj]]; [done|]. by apply Hts.
  - apply HQ. rewrite Forall_forall in He. apply He. by eapply list_elem_of_lookup_2.
Qed.

Lemma idle_ok S a : idle S a = true -> tasks_ok Q (tasks S) ->
  tasks_ok Q (tasks (act S a)) /\ ssh_sessions (service_miner (act S a)) = ssh_sessions (service_miner S).
Proof.
  intros Hi Hts. destruct a as [r|i env|info|id]; cbn [MinerSessions.act idle] in *; [|..|done|done].
  - split; [|done]. intros j t Hj. cbn in Hj. apply lookup_app_Some in Hj as [Hj|[_ Hj]]; [by apply Hts|].
    apply list_elem_of_lookup_2, list_elem_of_singleton in Hj as ->. apply HQ, program_undrawn.
  - destruct (tasks S !! i) as [[[r|f]|w q]|] eqn:Et; [done|done| |done].
    destruct (w <=? _); [|done]. split; [|done]. cbn [tasks]. rewrite <- (app_nil_r (<[i := _]> _)).
    apply tasks_ok_step; [done| |constructor]. by apply (Hts i (Sleeping w q)).
Qed.
End Closed.

Lemma undrawn_one_armed i j p : undrawn p -> one_armed i j p.
Proof. intros Hu. split; [by apply undrawn_armed|done]. Qed.

(** A step that is a section. *)
Lemma busy_step S a : idle S a = false -> exists i env f o p,
  a = Step i env /\ tasks S !! i = Some (Running (Locked f)) /\
  f env (service_miner S) = (service_miner (act S a), o, p) /\
  tasks (act S a) = <[i := Running p]> (tasks S) ++ spawned o.
Proof.
  destruct a as [r|i env|info|id]; cbn [idle]; try done. intros Hi.
  destruct (tasks S !! i) as [[[r|f]|w q]|] eqn:Et; try done. cbn [MinerSessions.act]. rewrite Et.
  destruct (f env (service_miner S)) as [[m o] p] eqn:Ef. exists i, env, f, o, p. by rewrite Ef.
Qed.

Lemma act_undrawn S a : tasks_ok all_undrawn (tasks S) -> sid ∉ names [a] ->
  tasks_ok all_undrawn (tasks (act S a)) /\ kept (service_miner S) (service_miner (act S a)).
Proof.
  intros Hts Hn. destruct (idle S a) eqn:Ei.
  - destruct (idle_ok all_undrawn (fun _ _ H => H) S a Ei Hts) as [Hts' Hs]. split; [done|by apply kept_same].
  - destruct (busy_step S a Ei) as (i & env & f & o & p & -> & Ht & Hf & ->).
    destruct (undrawn_section _ _ _ _ _ _ (Hts i _ Ht) Hf) as (Hk & _ & Ho & Hu). split; [|done].
    apply tasks_ok_step; [done..|apply Hu|done]. intros E. apply Hn. cbn. rewrite E. left.
Qed.

(** The draw of the name. *)
Lemma act_draw S a : tasks_ok all_undrawn (tasks S) -> 
  (exists i, tasks_ok (one_armed i) (tasks (act S a))) /\ kept (service_miner S) (service_miner (act S a)).
Proof.
  intros Hts. destruct (idle S a) eqn:Ei.
  - destruct (idle_ok all_undrawn (fun _ _ H => H) S a Ei Hts) as [Hts' Hs]. split; [|by apply kept_same].
    exists 0%nat. intros j t Hj. apply undrawn_one_armed. by apply (Hts' j).
  - destruct (busy_step S a Ei) as (i & env & f & o & p & -> & Ht & Hf & ->).
    destruct (undrawn_section _ _ _ _ _ _ (Hts i _ Ht) Hf) as (Hk & Ha & Ho & _). split; [|done].
    exists i. apply tasks_ok_step; [apply undrawn_one_armed| |by split|done].
    intros j t Hj. apply undrawn_one_armed. by apply (Hts j).
Qed.

(** After the draw: still no session, or its task goes on like the others. *)
Lemma act_armed S a i : tasks_ok (one_armed i) (tasks S) -> sid ∉ names [a] ->
  tasks_ok (one_armed i) (tasks (act S a)) /\ kept (service_miner S) (service_miner (act S a))
  \/ tasks_ok all_undrawn (tasks (act S a)).
Proof.
  intros Hts Hn. destruct (idle S a) eqn:Ei.
  - left. destruct (idle_ok _ (undrawn_one_armed i) S a Ei Hts) as [Hts' Hs]. split; [done|by apply kept_same].
  - destruct (busy_step S a Ei) as (j & env & f & o & p & -> & Ht & Hf & ->).
    destruct (Hts j _ Ht) as [Ha Hu]. cbn [task_prog] in *. destruct (decide (j = i)) as [->|Hne].
    + destruct (armed_section _ _ _ _ _ _ Ha Hf) as [Ho [[Hk Hp]|Hp]].
      * left. split; [|done]. by apply tasks_ok_step; [apply undrawn_one_armed|done|split|done].
      * right. intros k t Hk. apply lookup_app_Some in Hk as [Hk|[_ Hk]].
        -- apply list_lookup_insert_Some in Hk as [(<- & <- & _)|[Hki Hk]]; [by apply undrawn_steady|].
           by apply (Hts k t Hk).
        -- rewrite Forall_forall in Ho. by eapply Ho, list_elem_of_lookup_2.
    + left. destruct (undrawn_section _ _ _ _ _ _ (Hu Hne) Hf) as (Hk & Hp & Ho & Hd). split; [|done].
      apply tasks_ok_step; [apply undrawn_one_armed|done| |done]. split; [done|]. intros _. apply Hd.
      intros E. apply Hn. cbn. rewrite E. left.
Qed.

Lemma names_app l1 l2 : names (l1 ++ l2) = names l1 ++ names l2.
Proof. unfold names. by rewrite bind_app, fmap_app. Qed.

Notation run := (run default_hash client credentials_username cfg).

(** Without the name drawn there is no session; once there is one, nobody is left to
    bring it in. *)
Lemma run_phases m actions : ssh_sessions m !! sid = None -> NoDup (names actions) ->
  let S := run m actions in
  sid ∉ names actions /\ tasks_ok all_undrawn (tasks S) /\ ssh_sessions (service_miner S) !! sid = None \/
  sid ∈ names actions /\ ((exists i, tasks_ok (one_armed i) (tasks S)) /\ ssh_sessions (service_miner S) !! sid = None \/
                          tasks_ok all_undrawn (tasks S)).
Proof.
  intros Hm. induction actions as [|a actions IH] using rev_ind; intros Hnd.
  { left. split_and!; [apply not_elem_of_nil| |done]. by intros j t Hj. }
  rewrite names_app in Hnd |- *. unfold run. rewrite foldl_snoc. fold (run m actions).
  apply NoDup_app in Hnd as (Hnd & Hdis & _). destruct (IH Hnd) as [(Hn & Hts & Hs)|(Hn & Hph)]; clear IH.
  - destruct (decide (sid ∈ names [a])) as [Ha|Ha].
    + right. split; [set_solver|]. left. destruct (act_draw _ a Hts) as [Hts' Hk]. split; [done|].
      by eapply kept_none.
    + left. destruct (act_undrawn _ a Hts Ha) as [Hts' Hk]. split_and!; [set_solver|done|by eapply kept_none].
  - right. split; [set_solver|]. pose proof (Hdis _ Hn) as Ha. destruct Hph as [[[i Hts] Hs]|Hts].
    + destruct (act_armed _ a i Hts Ha) as [[Hts' Hk]|Hts']; [|by right]. left. split; [eauto|by eapply kept_none].
    + right. by apply act_undrawn.
Qed.

Lemma run_undrawn actions : forall S, tasks_ok all_undrawn (tasks S) -> sid ∉ names actions ->
  kept (service_miner S) (service_miner (foldl act S actions)).
Proof.
  induction actions as [|a actions IH]; intros S Hts Hn; [by apply kept_same|]. cbn [foldl].
  change (a :: actions) with ([a] ++ actions) in Hn. rewrite names_app, not_elem_of_app in Hn.
  destruct (act_undrawn S a Hts (proj1 Hn)) as [Hts' Hk]. eapply kept_trans; [exact Hk|]. by apply IH; [|apply Hn].
Qed.
End One.

Lemma names_NoDup `{!UuidTextLaws} actions : NoDup (actions ≫= drawn) -> NoDup (names actions).
Proof.
  apply NoDup_fmap_2. intros u v E. unfold session_name in E. apply (inj (String.append "ssh-session-")) in E.
  apply Some_inj. by rewrite <- !uuid_roundtrip, E.
Qed.
End Sessions.

(** C3: SSH sessions of the miner never revive.  From an orchestrator without sessions,
    under every interleaving of requests, clean-ups and expiry tasks, with whatever the
    executors answer, and with random identifiers that are all different: a session that
    is there at some time and still there later is the same in everything but its status,
    and is active only if it was active before. *)
Theorem ssh_sessions_never_revive `{Crypto} `{UuidText} `{!UuidTextLaws} (default_hash : string -> N)
    `{!ProstMessage ProvisionAccessRequest} `{HashOrder} client credentials_username cfg
    m earlier later sid s s' :
  ssh_sessions m = ∅ -> NoDup ((earlier ++ later) ≫= drawn) ->
  ssh_sessions (service_miner (run default_hash client credentials_username cfg m earlier)) !! sid = Some s ->
  ssh_sessions (service_miner (run default_hash client credentials_username cfg m (earlier ++ later))) !! sid = Some s' ->
  s' = with_status (ss_status s') s /\ (is_active (ss_status s') = true -> is_active (ss_status s) = true).
Proof.
  intros Hm Hnd%names_NoDup Hs Hs'. rewrite names_app in Hnd. apply NoDup_app in Hnd as (Hnd & Hdis & _).
  assert (Hnone : ssh_sessions m !! sid = None) by (by rewrite Hm).
  destruct (run_phases default_hash client credentials_username cfg sid m earlier Hnone Hnd)
    as [(_ & _ & Hn)|(Hin & [[_ Hn]|Hts])]; [by rewrite Hn in Hs..|].
  unfold run in Hs'. rewrite foldl_app in Hs'.
  destruct (run_undrawn _ _ _ _ sid later _ Hts (Hdis _ Hin) s' Hs') as (s0 & Hs0 & Hp).
  rewrite Hs in Hs0. by injection Hs0 as <-.
Qed.

(** ** Closing a session *)

Section Closing.
Context `{Crypto} `{UuidText} (default_hash : string -> N) `{!ProstMessage ProvisionAccessRequest} `{HashOrder}.
Context (client : ExecutorGrpcClient) (credentials_username : string -> option string) (cfg : SshSessionConfig).

Definition year : Z := seconds (365 * 24 * 3600).

(** The validator may use the executor until [t0]. *)
Definition access_until (v : string) (t0 : Z) (x : Executor) : Prop :=
  exists vs, validation_service x = Some vs /\ forall t, has_access t (ValidatorId_new v) vs = true <-> t < t0.

Lemma handler_ok_grants env req x a x' : provision_handler default_hash env req x = (Ok a, x') ->
  access_until (pa_validator_hotkey req) (granted_time env + year) x'.
Proof.
  unfold provision_handler. destruct (verify_miner_request _ _ _ _) as [[|[]] auth]; try done.
  destruct (_ =? 0)%nat; [done|]. destruct (validation_service x) as [vs|] eqn:Ev; cbn [validation_service];
    rewrite ?Ev; [|done]. destruct (_ <? 10)%nat; [done|]. unfold grant_ssh_access.
  destruct (user_created _); [|done]. destruct (group_added _); [|done]. destruct (key_added _); [|done].
  intros [= _ <-]. eexists. split; [done|]. intros t. unfold has_access, ValidatorAccess_is_expired. cbn.
  rewrite lookup_insert_eq. cbn. rewrite negb_true_iff, Z.leb_gt. done.
Qed.

Lemma retry_ok_called {W T} k (call : nat -> W -> result string T * W) fuel : forall attempt backoff n w v sleeps w',
  retry_calls fuel k attempt backoff call n w = Some (Ok v, sleeps, w') -> exists n0 w0, call n0 w0 = (Ok v, w').
Proof.
  induction fuel as [|fuel IH]; intros attempt backoff n w v sleeps w' Hr; [done|]. cbn [retry_calls] in Hr.
  destruct (call n w) as [[a|e] w1] eqn:Ec; [simplify_eq; eauto|].
  destruct (_ <=? _); [done|]. destruct (retry_calls fuel _ _ _ _ _ _) as [[[r sl] w2]|] eqn:Er; [|done].
  cbn in Hr. simplify_eq. by eapply IH.
Qed.

Lemma authenticated_hotkey env req req' : authenticated_request client env req = Ok req' ->
  pa_validator_hotkey req' = pa_validator_hotkey req.
Proof. unfold authenticated_request. repeat case_match; intros; by simplify_eq. Qed.

(** Any successful call grants, whatever its duration. *)
Lemma provision_ok_grants env v pk dur md x r sleeps x' :
  provision_validator_access default_hash client env v pk dur md x = Some (Ok r, sleeps, x') ->
  exists n env0, deliveries env n = Delivered env0 /\ access_until v (granted_time env0 + year) x'.
Proof.
  unfold provision_validator_access. destruct (connected env); [|done].
  destruct (authenticated_request _ _ _) as [req|] eqn:Er; [|done]. apply authenticated_hotkey in Er.
  destruct (retry_grpc_call _ _ _) as [[[[b|] sl] x1]|] eqn:Ec; [|done..]. cbn. destruct (negb _); [done|].
  intros [= _ _ ->]. apply retry_ok_called in Ec as (n & x0 & Hs). exists n. unfold send in Hs.
  destruct (deliveries env n) as [e|e env0|env0]; [done..|]. exists env0. split; [done|].
  destruct (provision_handler _ _ _ _) as [[c|] x2] eqn:Eh; [|done]. simplify_eq.
  apply handler_ok_grants in Eh. by rewrite Er in Eh.
Qed.

(** A revocation that succeeds. *)
Lemma revoke_grants env info s m m' : revoke_on_executor default_hash client env info s m = (Ok tt, m') ->
  exists endpoint x n env0, xi_grpc_endpoint info = Some endpoint /\ nodes m' !! endpoint = Some x /\
    deliveries env n = Delivered env0 /\ access_until (ss_validator_hotkey s) (granted_time env0 + year) x /\
    ssh_sessions m' = ssh_sessions m.
Proof.
  intros Hr. pose proof (revoke_keeps_sessions default_hash client env info s m) as Hs. rewrite Hr in Hs. revert Hr.
  unfold revoke_on_executor. destruct (xi_grpc_endpoint info) as [endpoint|]; [|done]. unfold call_executor.
  destruct (nodes m !! endpoint) as [x|]; [|done].
  destruct (provision_validator_access _ _ _ _ _ _ _ _) as [[[[r|] sl] x']|] eqn:Ep; [|done..].
  destruct (negb _); [done|]. intros [= <-]. apply provision_ok_grants in Ep as (n & env0 & Hd & Ha).
  exists endpoint, x', n, env0. split_and!; try done. cbn. apply lookup_insert_eq.
Qed.

Notation act := (act default_hash client credentials_username cfg).
Notation run := (run default_hash client credentials_username cfg).

(** One program on its own. *)
Fixpoint alone (p : Prog) (envs : list StepEnv) (m : Miner) : Prog * Miner :=
  match envs, p with
  | env :: envs, Locked f => let '(m, _, p) := f env m in alone p envs m
  | _, _ => (p, m)
  end.

Lemma alone_done r envs m : alone (Done r) envs m = (Done r, m).
Proof. by destruct envs. Qed.

Lemma steps_alone envs : forall p m extra, exists extra',
  foldl act {| service_miner := m; tasks := Running p :: extra |} (Step 0 <$> envs)
  = {| service_miner := (alone p envs m).2; tasks := Running (alone p envs m).1 :: extra' |}.
Proof.
  induction envs as [|env envs IH]; intros p m extra; [exists extra; by destruct p|]. cbn [fmap list_fmap foldl].
  destruct p as [r|f].
  - destruct (IH (Done r) m extra) as [extra' E]. rewrite alone_done in E. eauto.
  - cbn [alone]. cbn. destruct (f env m) as [[m1 o] p] eqn:Ef. apply IH.
Qed.

Lemma close_alone req envs m r m' :
  alone (close_session default_hash client req) envs m = (Done (Closed (Ok r)), m') ->
  exists s env info m1, env ∈ envs /\ ssh_sessions m !! cq_session_id req = Some s /\
    ss_validator_hotkey s = cq_validator_hotkey req /\
    get_executor_info (ss_executor_id s) m = Ok info /\
    revoke_on_executor default_hash client (step_call env) info s m = (Ok tt, m1) /\
    m' = expire (cq_session_id req) m1.
Proof.
  destruct envs as [|e1 envs]; [done|]. cbn. destruct (ssh_sessions m !! _) as [s|]; [|by rewrite alone_done].
  destruct (String.eqb _ _) eqn:Eo; cbn [negb]; [|by rewrite alone_done]. apply String.eqb_eq in Eo.
  unfold remove_validator_key_from_executor. destruct envs as [|e2 envs]; [done|]. cbn [alone].
  destruct (get_executor_info _ _) as [info|] eqn:Ei; [|by rewrite alone_done].
  destruct envs as [|e3 envs]; [done|]. cbn [alone].
  destruct (revoke_on_executor _ _ _ _ _ _) as [[[]|] m1] eqn:Er; [|by rewrite alone_done].
  destruct envs as [|e4 envs]; [done|]. cbn [alone]. intros Hd.
  assert (m' = expire (cq_session_id req) m1) as -> by (by destruct envs; injection Hd).
  exists s, e3, info, m1. split_and!; try done. set_solver.
Qed.
End Closing.

(** C23: Closing a session does not end the access.  When a close request runs to a
    success answer, the session belonged to the caller and is now expired; but its
    executor then lets the validator in for another year from that moment: the duration of
    zero that is sent to revoke the access is ignored there and grants it. *)
Theorem closing_grants_access `{Crypto} `{UuidText} (default_hash : string -> N)
    `{!ProstMessage ProvisionAccessRequest} `{HashOrder} client credentials_username cfg req envs m m' ts r :
  run default_hash client credentials_username cfg m (Start (CloseRequest req) :: (Step 0 <$> envs))
    = {| service_miner := m'; tasks := Running (Done (Closed (Ok r))) :: ts |} ->
  exists s info endpoint x env n env0, ssh_sessions m !! cq_session_id req = Some s /\
    ss_validator_hotkey s = cq_validator_hotkey req /\
    ssh_sessions m' = <[cq_session_id req := with_status SessionExpired s]> (ssh_sessions m) /\
    get_executor_info (ss_executor_id s) m = Ok info /\ xi_grpc_endpoint info = Some endpoint /\
    env ∈ envs /\ deliveries (step_call env) n = Delivered env0 /\ nodes m' !! endpoint = Some x /\
    access_until (ss_validator_hotkey s) (granted_time env0 + year) x.
Proof.
  intros Hr.
  destruct (steps_alone default_hash client credentials_username cfg envs (close_session default_hash client req) m [])
    as [extra' E]. pose proof (eq_trans (eq_sym E) Hr) as E'.
  assert (Ea : alone (close_session default_hash client req) envs m = (Done (Closed (Ok r)), m')).
  { destruct (alone (close_session default_hash client req) envs m). injection E'. congruence. }
  apply close_alone in Ea as (s & env & info & m1 & He & Hs & Ho & Hi & Hrev & ->).
  destruct (revoke_grants _ _ _ _ _ _ _ Hrev) as (endpoint & x & n & env0 & Hep & Hx & Hd & Ha & Es).
  exists s, info, endpoint, x, env, n, env0. split_and!; try done. cbn. rewrite Es.
  apply map_eq. intros k. destruct (decide (k = cq_session_id req)) as [->|Hne].
  - by rewrite lookup_alter_eq, lookup_insert_eq, Hs.
  - by rewrite lookup_alter_ne, lookup_insert_ne.
Qed.

(** ** A concrete miner *)

Module SessionScenario.
Export ProvisionClaims.ProvisionScenario.
#[export] Existing Instance storage_order.

Definition call_env (k : N) : ClientEnv := {|
  connected := Ok tt; signed_at := day_one; nonce_draw := k; id_draw := 8%N; own_order := 0;
  deliveries n := Delivered (handler_env n) |}.
Definition step_env (k : N) : StepEnv := {|
  step_now := day_one; step_uuid := k; step_call := call_env k; step_order := 0 |}.

Definition one_executor : Miner := {|
  ssh_sessions := ∅; sessions_by_validator := ∅; MinerSessions.rate_limits := ∅;
  executor_infos := {[1%N := {| xi_id := 1%N; xi_host := "h"; xi_ssh_port := 22; xi_ssh_username := "u";
                               xi_grpc_endpoint := Some "e" |}]};
  nodes := {["e" := node]} |}.

Definition create_request : InitiateSshSessionRequest := {|
  iq_validator_hotkey := "5Validator"; iq_executor_id := uuid_to_string 1%N; iq_purpose := "p";
  iq_validator_public_key := "ssh-ed25519 AAAA"; iq_session_duration_secs := 600; iq_session_metadata := "";
  iq_rental_mode := false; iq_rental_id := "" |}.
Definition session_one : string := session_name 12%N.
Definition close_request : CloseSshSessionRequest := {|
  cq_session_id := session_one; cq_validator_hotkey := "5Validator"; cq_reason := "" |}.

Notation run_here := (run some_hash client (fun _ => None)).

Definition creating : list Action := Start (CreateRequest create_request) :: (Step 0 ∘ step_env <$> [11; 12; 13; 14; 15; 16]%N).
Definition closing : list Action := Start (CloseRequest close_request) :: (Step 2 ∘ step_env <$> [21; 22; 23; 24]%N).

Definition created : Miner := service_miner (run_here SshSessionConfig_default one_executor creating).

Definition closing_steps : list StepEnv := step_env <$> [21; 22; 23; 24]%N.
Notation closed := (run_here SshSessionConfig_default created
    (Start (CloseRequest close_request) :: (Step 0 <$> closing_steps))).

(** The session is open after the creation and expired after it is closed. *)
Example created_then_closed :
  (ss_status <$> ssh_sessions created !! session_one) = Some SessionActive /\
  (ss_status <$> ssh_sessions (service_miner (run_here SshSessionConfig_default one_executor (creating ++ closing)))
     !! session_one) = Some SessionExpired.
Proof. vm_compute. split; reflexivity. Qed.

(** The session limit is checked before the session is stored: of two creations that
    overlap, both pass a limit of one. *)
Definition limit_one : SshSessionConfig := {|
  max_sessions_per_validator := 1; session_rate_limit := 20; cleanup_interval := seconds 60;
  max_session_duration := seconds 3600; enable_audit_log := true |}.

Example overlapping_creations_exceed_limit :
  let first := Start (CreateRequest create_request) :: (Step 0 ∘ step_env <$> [11; 12]%N) in
  let second := Start (CreateRequest create_request) :: (Step 1 ∘ step_env <$> [31; 32; 33; 34; 35; 36]%N) in
  let rest := Step 0 ∘ step_env <$> [13; 14; 15; 16]%N in
  active_count "5Validator" (service_miner (run_here limit_one one_executor (first ++ second ++ rest))) = 2 /\
  active_count "5Validator" (service_miner (run_here limit_one one_executor (first ++ rest ++ second))) = 1.
Proof. vm_compute. split; reflexivity. Qed.
End SessionScenario.
Import SessionScenario.

Lemma service_eta (S : Service) : S = {| service_miner := service_miner S; tasks := tasks S |}.
Proof. by destruct S. Qed.

Lemma never_revive_witness : exists s s',
  ssh_sessions (service_miner (run_here SshSessionConfig_default one_executor creating)) !! session_one = Some s /\
  ssh_sessions (service_miner (run_here SshSessionConfig_default one_executor (creating ++ closing))) !! session_one
    = Some s' /\
  s' = with_status (ss_status s') s /\ (is_active (ss_status s') = true -> is_active (ss_status s) = true).
Proof.
  assert (Hs : exists s, ssh_sessions (service_miner (run_here SshSessionConfig_default one_executor creating))
    !! session_one = Some s) by (eexists; vm_compute; reflexivity).
  assert (Hs' : exists s', ssh_sessions (service_miner (run_here SshSessionConfig_default one_executor (creating ++ closing)))
    !! session_one = Some s') by (eexists; vm_compute; reflexivity).
  destruct Hs as [s Hs], Hs' as [s' Hs']. exists s, s'. split; [exact Hs|]. split; [exact Hs'|].
  refine (ssh_sessions_never_revive some_hash client (fun _ => None) SshSessionConfig_default one_executor
    creating closing session_one s s' eq_refl _ Hs Hs').
  apply (bool_decide_eq_true_1 _). vm_compute. reflexivity.
Defined.

(** The validator still has access when its session is closed. *)
Lemma closing_grants_witness : exists s info endpoint x env n env0,
  ssh_sessions created !! cq_session_id close_request = Some s /\
  ss_validator_hotkey s = cq_validator_hotkey close_request /\
  ssh_sessions (service_miner closed)
    = <[cq_session_id close_request := with_status SessionExpired s]> (ssh_sessions created) /\
  get_executor_info (ss_executor_id s) created = Ok info /\ xi_grpc_endpoint info = Some endpoint /\
  env ∈ closing_steps /\ deliveries (step_call env) n = Delivered env0 /\
  nodes (service_miner closed) !! endpoint = Some x /\
  access_until (ss_validator_hotkey s) (granted_time env0 + year) x.
Proof.
  assert (Ht : exists r, tasks closed = [Running (Done (Closed (Ok r)))]) by (eexists; vm_compute; reflexivity).
  destruct Ht as [r Ht]. pose proof (service_eta closed) as E. rewrite Ht in E.
  exact (closing_grants_access some_hash client (fun _ => None) SshSessionConfig_default close_request
    closing_steps created (service_miner closed) [] r E).
Defined.
